(** * Shastina front end: input filter, token scanner, string readers and
      block reader, embedded from [shastina.c] and [shasm_block.c]. *)

From Stdlib Require Import ZArith Lia Bool List.
From Stdlib.Strings Require Import Byte.
From Stdlib.Strings Require String.
From stdpp Require Import base list.
Import ListNotations.
Local Open Scope Z_scope.

(** ** Common ground: results of C calls, loops, machine constants *)

(** A C call either returns, reaches [abort()], or (in the model only)
    exhausts the bound put on its loops. *)
Inductive outcome (A : Type) : Type :=
| Done (a : A)
| Abort
| OutOfFuel.
Arguments Done {A} a.
Arguments Abort {A}.
Arguments OutOfFuel {A}.

Definition outcome_bind {A B : Type} (m : outcome A) (k : A -> outcome B) : outcome B :=
  match m with
  | Done a => k a
  | Abort => Abort
  | OutOfFuel => OutOfFuel
  end.

#[global] Instance outcome_mret : MRet outcome := fun _ a => Done a.
#[global] Instance outcome_mbind : MBind outcome := fun _ _ k m => outcome_bind m k.

(** What the body of a C loop asks for next. *)
Inductive loop_ctl (S : Type) : Type :=
| Continue (s : S)
| Break (s : S).
Arguments Continue {S} s.
Arguments Break {S} s.

(** [while (cond) { body }] with [break], bounded by [fuel] iterations. *)
Fixpoint while_loop {S : Type} (fuel : nat) (cond : S -> bool)
    (body : S -> outcome (loop_ctl S)) (s : S) : outcome S :=
  if cond s then
    match fuel with
    | O => OutOfFuel
    | S fuel' =>
        match body s with
        | Done (Continue s') => while_loop fuel' cond body s'
        | Done (Break s') => Done s'
        | Abort => Abort
        | OutOfFuel => OutOfFuel
        end
    end
  else Done s.

(** [n] turns of a loop that all go on: from [s] to [s']. *)
Inductive loop_steps {S : Type} (cond : S -> bool) (body : S -> outcome (loop_ctl S))
    : nat -> S -> S -> Prop :=
| steps_done s : loop_steps cond body 0 s s
| steps_turn n s s1 s2 :
    cond s = true -> body s = Done (Continue s1) ->
    loop_steps cond body n s1 s2 -> loop_steps cond body (Datatypes.S n) s s2.

(** [LONG_MAX] of <limits.h> on an LP64 target. *)
Definition LONG_MAX : Z := 9223372036854775807.

(** The value of an [unsigned char]. *)
Definition byte_val (b : byte) : Z := Z.of_N (Byte.to_N b).

(** [memset(p, 0, n)] on a fresh region. *)
Definition zeros (n : Z) : list Z := replicate (Z.to_nat n) 0.

(** [p[i] = v] *)
Definition store (p : list Z) (i : Z) (v : Z) : list Z := <[Z.to_nat i := v]> p.

(** [p[i]], zero outside the allocation model. *)
Definition load (p : list Z) (i : Z) : Z := nth (Z.to_nat i) p 0.

(** The string a [char *] denotes: the bytes before the first zero. *)
Fixpoint c_string (p : list Z) : list Z :=
  match p with
  | [] => []
  | x :: r => if x =? 0 then [] else x :: c_string r
  end.

(** ** shastina.c *)
Module Shastina.

(** *** Constants *)
Definition SNERR_IOERR : Z := -1.
Definition SNERR_EOF : Z := -2.
Definition SNERR_BADSIG : Z := -3.
Definition SNERR_OPENSTR : Z := -4.
Definition SNERR_LONGSTR : Z := -5.
Definition SNERR_NULLCHR : Z := -6.
Definition SNERR_DEEPCURLY : Z := -7.
Definition SNERR_BADCHAR : Z := -8.
Definition SNERR_LONGTOKEN : Z := -9.
Definition SNERR_TRAILER : Z := -10.

Definition ASCII_HT : Z := 0x09.
Definition ASCII_LF : Z := 0x0a.
Definition ASCII_CR : Z := 0x0d.
Definition ASCII_SP : Z := 0x20.
Definition ASCII_DQUOTE : Z := 0x22.
Definition ASCII_POUNDSIGN : Z := 0x23.
Definition ASCII_PERCENT : Z := 0x25.
Definition ASCII_LPAREN : Z := 0x28.
Definition ASCII_RPAREN : Z := 0x29.
Definition ASCII_COMMA : Z := 0x2c.
Definition ASCII_SEMICOLON : Z := 0x3b.
Definition ASCII_LSQR : Z := 0x5b.
Definition ASCII_BACKSLASH : Z := 0x5c.
Definition ASCII_RSQR : Z := 0x5d.
Definition ASCII_GRACCENT : Z := 0x60.
Definition ASCII_LCURL : Z := 0x7b.
Definition ASCII_BAR : Z := 0x7c.
Definition ASCII_RCURL : Z := 0x7d.

Definition ASCII_VISIBLE_MIN : Z := 0x21.
Definition ASCII_VISIBLE_MAX : Z := 0x7e.

Definition SNTOKEN_FINAL : Z := 0.
Definition SNTOKEN_SIMPLE : Z := 1.
Definition SNTOKEN_STRING : Z := 2.
Definition SNTOKEN_EMBED : Z := 3.

Definition SNSTRING_QUOTED : Z := 1.
Definition SNSTRING_CURLY : Z := 2.

Definition SNFILTER_BOM_1 : Z := 0xef.
Definition SNFILTER_BOM_2 : Z := 0xbb.
Definition SNFILTER_BOM_3 : Z := 0xbf.

(** *** <stdio.h>: the stream read by the filter *)

(** What the next [getc] meets: a byte, or a read error. The end of the
    list is the end of the file. *)
Inductive raw_event : Type :=
| RawByte (b : byte)
| RawFail.

Record FILE : Type := mkFILE {
  pending : list raw_event;
  eof_ind : bool   (* the end-of-file indicator tested by feof *)
}.

Definition EOF : Z := -1.

Definition getc (pIn : FILE) : Z * FILE :=
  match pending pIn with
  | [] => (EOF, mkFILE [] true)
  | RawByte b :: r => (byte_val b, mkFILE r (eof_ind pIn))
  | RawFail :: r => (EOF, mkFILE r (eof_ind pIn))
  end.

Definition feof (pIn : FILE) : bool := eof_ind pIn.

(** One byte of push-back is always available; pushing [EOF] (or anything
    that is not an unsigned char) fails and leaves the stream alone. *)
Definition ungetc (c : Z) (pIn : FILE) : Z * FILE :=
  if (0 <=? c) && (c <=? 255) then
    match Byte.of_N (Z.to_N c) with
    | Some b => (c, mkFILE (RawByte b :: pending pIn) false)
    | None => (EOF, pIn)
    end
  else (EOF, pIn).

(** *** SNBUFFER *)
Record SNBUFFER : Type := mkSNBUFFER {
  pBuf : list Z;
  count : Z;
  cap : Z;
  initcap : Z;
  maxcap : Z
}.

Definition snbuffer_init (icap maxcap : Z) : outcome SNBUFFER :=
  if (icap <=? 0) || (maxcap <? icap) || (maxcap >? LONG_MAX / 2) then Abort
  else if maxcap >? 2147483647 then Abort
  else Done (mkSNBUFFER [] 0 0 icap maxcap).

(** A full reset frees the memory and sets [cap] to zero; the field
    [pBuf] is not written and keeps the pointer to the block just
    cleared. *)
Definition snbuffer_reset (pBuffer : SNBUFFER) (full : Z) : SNBUFFER :=
  let p := if cap pBuffer >? 0 then zeros (cap pBuffer) else pBuf pBuffer in
  if negb (full =? 0) && (cap pBuffer >? 0)
  then mkSNBUFFER p 0 0 (initcap pBuffer) (maxcap pBuffer)
  else mkSNBUFFER p 0 (cap pBuffer) (initcap pBuffer) (maxcap pBuffer).

Definition snbuffer_append (pBuffer : SNBUFFER) (c : Z) : outcome (Z * SNBUFFER) :=
  if (c <? 1) || (c >? 255) then Abort
  else if count pBuffer <? maxcap pBuffer - 1 then
    (* initial allocation *)
    let '(p, cp) :=
      if cap pBuffer <? 1
      then (zeros (initcap pBuffer), initcap pBuffer)
      else (pBuf pBuffer, cap pBuffer) in
    (* growth by doubling, clamped at maxcap *)
    let '(p, cp) :=
      if count pBuffer >=? cp - 1 then
        let newcap := cp * 2 in
        let newcap := if newcap >? maxcap pBuffer then maxcap pBuffer else newcap in
        (p ++ zeros (newcap - cp), newcap)
      else (p, cp) in
    Done (1, mkSNBUFFER (store p (count pBuffer) c) (count pBuffer + 1) cp
                (initcap pBuffer) (maxcap pBuffer))
  else Done (0, pBuffer).

Definition snbuffer_count (pBuffer : SNBUFFER) : Z := count pBuffer.

(** The characters held by the buffer, as [snbuffer_get] shows them. *)
Definition snbuffer_data (pBuffer : SNBUFFER) : list Z :=
  take (Z.to_nat (count pBuffer)) (pBuf pBuffer).

(** [snbuffer_get]: the initial allocation is made if it has not been;
    gives the pointer (the bytes it points to) and the buffer. *)
Definition snbuffer_get (pBuffer : SNBUFFER) : list Z * SNBUFFER :=
  let pBuffer :=
    if cap pBuffer <? 1
    then mkSNBUFFER (zeros (initcap pBuffer)) (count pBuffer) (initcap pBuffer)
           (initcap pBuffer) (maxcap pBuffer)
    else pBuffer in
  (pBuf pBuffer, pBuffer).

(** What a plain [char] holding the byte [v] gives as an [int]; whether
    plain [char] is signed is the compiler's choice. *)
Definition char_value (char_signed : bool) (v : Z) : Z :=
  if char_signed && (v >? 127) then v - 256 else v.

Definition snbuffer_last (char_signed : bool) (pBuffer : SNBUFFER) : Z :=
  if count pBuffer >? 0
  then char_value char_signed (load (pBuf pBuffer) (count pBuffer - 1))
  else 0.

Definition snbuffer_less (pBuffer : SNBUFFER) : Z * SNBUFFER :=
  if count pBuffer >? 0 then
    (1, mkSNBUFFER (store (pBuf pBuffer) (count pBuffer - 1) 0) (count pBuffer - 1)
          (cap pBuffer) (initcap pBuffer) (maxcap pBuffer))
  else (0, pBuffer).

(** *** SNFILTER *)
Record SNFILTER : Type := mkSNFILTER {
  line_count : Z;
  last_c : Z;        (* field [c] of the C structure *)
  pushback : Z;
  bom_present : Z
}.

Definition snfilter_reset : SNFILTER := mkSNFILTER 0 0 0 0.

(** The [EOF] branch after each [getc]: which error it is. *)
Definition getc_err (c : Z) (pIn : FILE) (at_eof : Z) : Z :=
  if c =? EOF then (if feof pIn then at_eof else SNERR_IOERR) else 0.

(** First stage of [snfilter_read]: the byte order mark, looked for while
    [line_count] is zero. Gives [err_num], the filter and the stream. *)
Definition snfilter_read_bom (pFilter : SNFILTER) (pIn : FILE) : Z * SNFILTER * FILE :=
  if line_count pFilter =? 0 then
    let '(c, pIn) := getc pIn in
    let err_num := getc_err c pIn SNERR_EOF in
    if (err_num =? 0) && (c =? SNFILTER_BOM_1) then
      let '(c, pIn) := getc pIn in
      let err_num := getc_err c pIn SNERR_BADSIG in
      let err_num :=
        if (err_num =? 0) && negb (c =? SNFILTER_BOM_2) then SNERR_BADSIG else err_num in
      let '(err_num, pIn) :=
        if err_num =? 0 then
          let '(c, pIn) := getc pIn in
          let err_num := getc_err c pIn SNERR_BADSIG in
          let err_num :=
            if (err_num =? 0) && negb (c =? SNFILTER_BOM_3) then SNERR_BADSIG else err_num in
          (err_num, pIn)
        else (err_num, pIn) in
      let pFilter :=
        if err_num =? 0
        then mkSNFILTER (line_count pFilter) (last_c pFilter) (pushback pFilter) 1
        else pFilter in
      (err_num, pFilter, pIn)
    else if err_num =? 0 then
      let '(r, pIn) := ungetc c pIn in
      ((if r =? EOF then SNERR_IOERR else 0), pFilter, pIn)
    else (err_num, pFilter, pIn)
  else (0, pFilter, pIn).

(** Second stage: read a character, pair CR+LF and LF+CR, turn CR into LF,
    and record it in the filter. *)
Definition snfilter_read_char (pFilter : SNFILTER) (pIn : FILE) : Z * SNFILTER * FILE :=
  let '(c, pIn) := getc pIn in
  let err_num := getc_err c pIn SNERR_EOF in
  let '(err_num, pIn) :=
    if (err_num =? 0) && ((c =? ASCII_CR) || (c =? ASCII_LF)) then
      let '(c2, pIn) := getc pIn in
      let '(c2, err_num) :=
        if c2 =? EOF
        then (if feof pIn then (-1, err_num) else (c2, SNERR_IOERR))
        else (c2, err_num) in
      if (err_num =? 0) &&
         (((c =? ASCII_LF) && negb (c2 =? ASCII_CR)) ||
          ((c =? ASCII_CR) && negb (c2 =? ASCII_LF)))
      then
        if negb (c2 =? -1) then
          let '(r, pIn) := ungetc c2 pIn in
          ((if r =? EOF then SNERR_IOERR else err_num), pIn)
        else (err_num, pIn)
      else (err_num, pIn)
    else (err_num, pIn) in
  let c := if (err_num =? 0) && (c =? ASCII_CR) then ASCII_LF else c in
  let pFilter :=
    if err_num =? 0 then
      if line_count pFilter =? 0
      then mkSNFILTER 1 c (pushback pFilter) (bom_present pFilter)
      else
        mkSNFILTER
          (if (c =? ASCII_LF) && (line_count pFilter <? LONG_MAX)
           then line_count pFilter + 1 else line_count pFilter)
          c (pushback pFilter) (bom_present pFilter)
    else pFilter in
  (err_num, pFilter, pIn).

Definition snfilter_read (pFilter : SNFILTER) (pIn : FILE) : Z * SNFILTER * FILE :=
  let '(err_num, pFilter, pIn) := snfilter_read_bom pFilter pIn in
  let '(err_num, pFilter, pIn) :=
    if (err_num =? 0) && (pushback pFilter =? 0) &&
       ((line_count pFilter =? 0) || (last_c pFilter >=? 0))
    then snfilter_read_char pFilter pIn
    else (err_num, pFilter, pIn) in
  (* the pushback flag is cleared, the error (if any) is recorded *)
  let pFilter :=
    mkSNFILTER (line_count pFilter)
      (if err_num =? 0 then last_c pFilter else err_num)
      0 (bom_present pFilter) in
  (last_c pFilter, pFilter, pIn).

Definition snfilter_count (pFilter : SNFILTER) : Z :=
  let lc := line_count pFilter in
  let lc := if lc <? 1 then 1 else lc in
  if (pushback pFilter =? 0) && (line_count pFilter >? 0) &&
     (last_c pFilter =? ASCII_LF) && (lc <? LONG_MAX)
  then lc + 1 else lc.

Definition snfilter_bomflag (pFilter : SNFILTER) : Z := bom_present pFilter.

Definition snfilter_pushback (pFilter : SNFILTER) : Z * SNFILTER :=
  if (line_count pFilter =? 0) || (last_c pFilter >=? 0) then
    if (line_count pFilter >? 0) && (pushback pFilter =? 0)
    then (1, mkSNFILTER (line_count pFilter) (last_c pFilter) 1 (bom_present pFilter))
    else (0, pFilter)
  else (1, pFilter).

(** *** Character classes *)
Definition snchar_islegal (c : Z) : Z :=
  if ((c >=? ASCII_VISIBLE_MIN) && (c <=? ASCII_VISIBLE_MAX)) ||
     (c =? ASCII_SP) || (c =? ASCII_HT) || (c =? ASCII_LF)
  then 1 else 0.

Definition snchar_isatomic (c : Z) : Z :=
  if (c =? ASCII_LPAREN) || (c =? ASCII_RPAREN) ||
     (c =? ASCII_LSQR) || (c =? ASCII_RSQR) ||
     (c =? ASCII_COMMA) || (c =? ASCII_PERCENT) ||
     (c =? ASCII_SEMICOLON) || (c =? ASCII_DQUOTE) ||
     (c =? ASCII_GRACCENT) || (c =? ASCII_LCURL) ||
     (c =? ASCII_RCURL)
  then 1 else 0.

Definition snchar_isinclusive (c : Z) : Z :=
  if (c =? ASCII_DQUOTE) || (c =? ASCII_GRACCENT) || (c =? ASCII_LCURL)
  then 1 else 0.

Definition snchar_isexclusive (c : Z) : Z :=
  if (c =? ASCII_HT) || (c =? ASCII_SP) || (c =? ASCII_LF) ||
     (c =? ASCII_LPAREN) || (c =? ASCII_RPAREN) ||
     (c =? ASCII_LSQR) || (c =? ASCII_RSQR) ||
     (c =? ASCII_COMMA) || (c =? ASCII_PERCENT) ||
     (c =? ASCII_SEMICOLON) || (c =? ASCII_POUNDSIGN) ||
     (c =? ASCII_RCURL)
  then 1 else 0.

(** *** String readers *)

(** The variables live across the iterations of a reader's loop. *)
Record reader : Type := mkReader {
  r_err : Z;          (* err_num *)
  r_esc : Z;          (* esc_flag *)
  r_nest : Z;         (* nest_level (curly strings) *)
  r_buf : SNBUFFER;
  r_in : FILE;
  r_fil : SNFILTER
}.

Definition reader_running (r : reader) : bool := r_err r =? 0.

(** The error a negative filter result stands for inside a string. *)
Definition snstr_read_err (c : Z) : Z :=
  if c <? 0 then (if c =? SNERR_EOF then SNERR_OPENSTR else c) else 0.

(** The tail shared by both loops: escape flag, null check, append. *)
Definition snstr_store (err_num c nest : Z) (pBuffer : SNBUFFER)
    (pIn : FILE) (pFilter : SNFILTER) : outcome (loop_ctl reader) :=
  let esc_flag := if (err_num =? 0) && (c =? ASCII_BACKSLASH) then 1 else 0 in
  let err_num := if (err_num =? 0) && (c =? 0) then SNERR_NULLCHR else err_num in
  if err_num =? 0 then
    '(ok, pBuffer) ← snbuffer_append pBuffer c;
    Done (Continue
      (mkReader (if ok =? 0 then SNERR_LONGSTR else err_num)
         esc_flag nest pBuffer pIn pFilter))
  else Done (Continue (mkReader err_num esc_flag nest pBuffer pIn pFilter)).

(** One iteration of the loop of [snstr_readQuoted]. *)
Definition snstr_readQuoted_body (r : reader) : outcome (loop_ctl reader) :=
  let '(c, pFilter, pIn) := snfilter_read (r_fil r) (r_in r) in
  let err_num := snstr_read_err c in
  if (err_num =? 0) && (r_esc r =? 0) && (c =? ASCII_DQUOTE)
  then Done (Break (mkReader err_num (r_esc r) (r_nest r) (r_buf r) pIn pFilter))
  else snstr_store err_num c (r_nest r) (r_buf r) pIn pFilter.

Definition snstr_readQuoted (fuel : nat) (pBuffer : SNBUFFER) (pIn : FILE)
    (pFilter : SNFILTER) : outcome reader :=
  while_loop fuel reader_running snstr_readQuoted_body
    (mkReader 0 0 1 (snbuffer_reset pBuffer 0) pIn pFilter).

(** One iteration of the loop of [snstr_readCurlied]. *)
Definition snstr_readCurlied_body (r : reader) : outcome (loop_ctl reader) :=
  let '(c, pFilter, pIn) := snfilter_read (r_fil r) (r_in r) in
  let err_num := snstr_read_err c in
  let '(err_num, nest_level) :=
    if (err_num =? 0) && (r_esc r =? 0) then
      if c =? ASCII_LCURL then
        if r_nest r <? LONG_MAX then (err_num, r_nest r + 1)
        else (SNERR_DEEPCURLY, r_nest r)
      else if c =? ASCII_RCURL then (err_num, r_nest r - 1)
      else (err_num, r_nest r)
    else (err_num, r_nest r) in
  if (err_num =? 0) && (nest_level <? 1)
  then Done (Break (mkReader err_num (r_esc r) nest_level (r_buf r) pIn pFilter))
  else snstr_store err_num c nest_level (r_buf r) pIn pFilter.

Definition snstr_readCurlied (fuel : nat) (pBuffer : SNBUFFER) (pIn : FILE)
    (pFilter : SNFILTER) : outcome reader :=
  while_loop fuel reader_running snstr_readCurlied_body
    (mkReader 0 0 1 (snbuffer_reset pBuffer 0) pIn pFilter).

(** *** Token scanner *)

(** [for (c = read(); p c; c = read());] *)
Fixpoint snfilter_read_while (fuel : nat) (p : Z -> bool) (pFilter : SNFILTER)
    (pIn : FILE) : outcome (Z * SNFILTER * FILE) :=
  match fuel with
  | O => OutOfFuel
  | S fuel' =>
      let '(c, pFilter, pIn) := snfilter_read pFilter pIn in
      if p c then snfilter_read_while fuel' p pFilter pIn
      else Done (c, pFilter, pIn)
  end.

Definition is_blank (c : Z) : bool :=
  (c =? ASCII_SP) || (c =? ASCII_HT) || (c =? ASCII_LF).

Definition in_comment (c : Z) : bool :=
  (c >=? 0) && negb (c =? ASCII_LF).

(** One iteration of the loop of [sntk_skip]; the state is [c], the filter
    and the stream. *)
Definition sntk_skip_body (fuel : nat) (s : Z * SNFILTER * FILE)
    : outcome (loop_ctl (Z * SNFILTER * FILE)) :=
  let '(_, pFilter, pIn) := s in
  '(c, pFilter, pIn) ← snfilter_read_while fuel is_blank pFilter pIn;
  if negb (c =? ASCII_POUNDSIGN) then
    let '(ok, pFilter) := snfilter_pushback pFilter in
    if ok =? 0 then Abort else Done (Break (c, pFilter, pIn))
  else
    '(c, pFilter, pIn) ← snfilter_read_while fuel in_comment pFilter pIn;
    Done (Continue (c, pFilter, pIn)).

Definition sntk_skip (fuel : nat) (pIn : FILE) (pFilter : SNFILTER)
    : outcome (SNFILTER * FILE) :=
  '(_, pFilter, pIn) ←
    while_loop fuel (fun s => fst (fst s) >=? 0) (sntk_skip_body fuel) (0, pFilter, pIn);
  Done (pFilter, pIn).

(** The variables live across the loop that reads the rest of a token. *)
Record scanner : Type := mkScanner {
  s_err : Z;
  s_leave : Z;
  s_omit : Z;
  s_buf : SNBUFFER;
  s_in : FILE;
  s_fil : SNFILTER
}.

Definition sntk_readToken_body (s : scanner) : outcome (loop_ctl scanner) :=
  let '(c, pFilter, pIn) := snfilter_read (s_fil s) (s_in s) in
  let err_num := if c <? 0 then c else s_err s in
  let err_num :=
    if (err_num =? 0) && (snchar_islegal c =? 0) then SNERR_BADCHAR else err_num in
  let leave :=
    if (err_num =? 0) && negb (snchar_isinclusive c =? 0) then 1 else s_leave s in
  '(leave, omit, pFilter) ←
    (if (err_num =? 0) && negb (snchar_isexclusive c =? 0) then
       let '(ok, pFilter) := snfilter_pushback pFilter in
       if ok =? 0 then Abort else Done (1, 1, pFilter)
     else Done (leave, s_omit s, pFilter));
  '(err_num, pBuffer) ←
    (if (err_num =? 0) && (omit =? 0) then
       '(ok, pBuffer) ← snbuffer_append (s_buf s) c;
       Done (if ok =? 0 then SNERR_LONGTOKEN else err_num, pBuffer)
     else Done (err_num, s_buf s));
  let s' := mkScanner err_num leave omit pBuffer pIn pFilter in
  if (err_num =? 0) && negb (leave =? 0) then Done (Break s') else Done (Continue s').

(** Returns [err_num] with the buffer, the stream and the filter. *)
Definition sntk_readToken (fuel : nat) (pBuffer : SNBUFFER) (pIn : FILE)
    (pFilter : SNFILTER) : outcome (Z * SNBUFFER * FILE * SNFILTER) :=
  let pBuffer := snbuffer_reset pBuffer 0 in
  '(pFilter, pIn) ← sntk_skip fuel pIn pFilter;
  (* first character *)
  let '(c, pFilter, pIn) := snfilter_read pFilter pIn in
  let err_num := if c <? 0 then c else 0 in
  let err_num :=
    if (err_num =? 0) && (snchar_islegal c =? 0) then SNERR_BADCHAR else err_num in
  '(err_num, pBuffer) ←
    (if err_num =? 0 then
       '(ok, pBuffer) ← snbuffer_append pBuffer c;
       Done (if ok =? 0 then SNERR_LONGTOKEN else err_num, pBuffer)
     else Done (err_num, pBuffer));
  (* a vertical bar followed by a semicolon is the final token *)
  '(err_num, term, pBuffer, pIn, pFilter) ←
    (if (err_num =? 0) && (c =? ASCII_BAR) then
       let '(c2, pFilter, pIn) := snfilter_read pFilter pIn in
       let err_num := if c2 <? 0 then c2 else err_num in
       if (err_num =? 0) && (c2 =? ASCII_SEMICOLON) then
         '(ok, pBuffer) ← snbuffer_append pBuffer c2;
         Done (if ok =? 0 then SNERR_LONGTOKEN else err_num, 1, pBuffer, pIn, pFilter)
       else
         let '(ok, pFilter) := snfilter_pushback pFilter in
         if ok =? 0 then Abort else Done (err_num, 0, pBuffer, pIn, pFilter)
     else Done (err_num, 0, pBuffer, pIn, pFilter));
  (* nothing but blanks and comments may follow the final token *)
  '(err_num, pIn, pFilter) ←
    (if (err_num =? 0) && negb (term =? 0) then
       '(pFilter, pIn) ← sntk_skip fuel pIn pFilter;
       let '(c2, pFilter, pIn) := snfilter_read pFilter pIn in
       let err_num :=
         if negb (c2 =? SNERR_EOF)
         then (if c2 >=? 0 then SNERR_TRAILER else c2)
         else err_num in
       Done (err_num, pIn, pFilter)
     else Done (err_num, pIn, pFilter));
  (* the rest of a token that does not start with an atomic character *)
  if (err_num =? 0) && (term =? 0) && (snchar_isatomic c =? 0) then
    s ← while_loop fuel (fun s => s_err s =? 0) sntk_readToken_body
          (mkScanner err_num 0 0 pBuffer pIn pFilter);
    Done (s_err s, s_buf s, s_in s, s_fil s)
  else Done (err_num, pBuffer, pIn, pFilter).

(** *** Complete tokens *)
Record SNTOKEN : Type := mkSNTOKEN {
  status : Z;
  str_type : Z;
  pKey : SNBUFFER;
  pValue : SNBUFFER
}.

(** [strcmp(p, q) == 0] *)
Definition same_string (p q : list Z) : bool :=
  bool_decide (c_string p = c_string q).

(** The text of the final token, a vertical bar and a semicolon. *)
Definition final_text : list Z := [ASCII_BAR; ASCII_SEMICOLON; 0].

(** Gives the token structure, the stream and the filter. *)
Definition sntoken_read (char_signed : bool) (fuel : nat) (pToken : SNTOKEN)
    (pIn : FILE) (pFil : SNFILTER) : outcome (SNTOKEN * FILE * SNFILTER) :=
  let key := snbuffer_reset (pKey pToken) 0 in
  let val := snbuffer_reset (pValue pToken) 0 in
  '(err_num, key, pIn, pFil) ← sntk_readToken fuel key pIn pFil;
  (* the last character tells the kind of token *)
  let '(st, stype) :=
    if err_num =? 0 then
      let c := snbuffer_last char_signed key in
      if c =? ASCII_DQUOTE then (SNTOKEN_STRING, SNSTRING_QUOTED)
      else if c =? ASCII_LCURL then (SNTOKEN_STRING, SNSTRING_CURLY)
      else if c =? ASCII_GRACCENT then (SNTOKEN_EMBED, 0)
      else (SNTOKEN_SIMPLE, 0)
    else (0, 0) in
  let '(st, key) :=
    if (err_num =? 0) && (st =? SNTOKEN_SIMPLE) then
      let '(p, key) := snbuffer_get key in
      (if same_string p final_text then SNTOKEN_FINAL else st, key)
    else (st, key) in
  (* string and embedded tokens keep the prefix only *)
  key ←
    (if (err_num =? 0) && ((st =? SNTOKEN_STRING) || (st =? SNTOKEN_EMBED)) then
       let '(ok, key) := snbuffer_less key in
       if ok =? 0 then Abort else Done key
     else Done key);
  '(err_num, val, pIn, pFil) ←
    (if (err_num =? 0) && (st =? SNTOKEN_STRING) then
       if stype =? SNSTRING_QUOTED then
         r ← snstr_readQuoted fuel val pIn pFil;
         Done (r_err r, r_buf r, r_in r, r_fil r)
       else if stype =? SNSTRING_CURLY then
         r ← snstr_readCurlied fuel val pIn pFil;
         Done (r_err r, r_buf r, r_in r, r_fil r)
       else Abort
     else Done (err_num, val, pIn, pFil));
  if negb (err_num =? 0)
  then Done (mkSNTOKEN err_num 0 (snbuffer_reset key 0) (snbuffer_reset val 0), pIn, pFil)
  else Done (mkSNTOKEN st stype key val, pIn, pFil).

(** *** Vocabulary of the statements about shastina.c *)

(** The filters a program can hold: [snfilter_reset], then any sequence of
    [snfilter_read] and [snfilter_pushback]. *)
Inductive filter_reachable : SNFILTER -> Prop :=
| reach_reset : filter_reachable snfilter_reset
| reach_read f pIn :
    filter_reachable f -> filter_reachable (snd (fst (snfilter_read f pIn)))
| reach_pushback f :
    filter_reachable f -> filter_reachable (snd (snfilter_pushback f)).

(** What such a filter always satisfies. *)
Record filter_inv (f : SNFILTER) : Prop := {
  inv_line : 0 <= line_count f;
  inv_hi : last_c f <= 255;
  inv_lo : -3 <= last_c f;
  inv_cr : last_c f <> ASCII_CR;
  inv_back : pushback f <> 0 -> 0 < line_count f /\ 0 <= last_c f
}.

(** A filter whose next read takes a character from the stream: no
    pushback, and no end of file or error recorded. *)
Definition filter_active (f : SNFILTER) : Prop :=
  pushback f = 0 /\ (line_count f = 0 \/ 0 <= last_c f).

(** The filter once it has delivered [c], a character other than a line
    feed, from an active state. *)
Definition filter_after (f : SNFILTER) (c : Z) : SNFILTER :=
  mkSNFILTER (if line_count f =? 0 then 1 else line_count f) c 0 (bom_present f).

(** A stream that holds the bytes [bs] and then ends. *)
Definition bytes_file (bs : list byte) (e : bool) : FILE := mkFILE (map RawByte bs) e.


(** A buffer as [snbuffer_init] and [snbuffer_append] keep it. *)
Record buffer_wf (b : SNBUFFER) : Prop := {
  wf_initcap : 0 < initcap b <= maxcap b;
  wf_count : 0 <= count b;
  wf_cap : cap b = 0 \/ (0 < cap b <= maxcap b /\ count b < cap b);
  wf_empty : cap b = 0 -> count b = 0;
  wf_len : 0 < cap b -> Z.of_nat (length (pBuf b)) = cap b
}.

(** The escape flag after an iteration that goes on, [c] being the
    character it read. *)
Definition flag_follows (c : Z) (r' : reader) : Prop :=
  (r_esc r' = 1 /\ c = ASCII_BACKSLASH) \/ (r_esc r' = 0 /\ c <> ASCII_BACKSLASH).

(** A reader in the middle of a literal: its buffer is well formed, holds
    [data] and has room for [room] more characters beside the terminating
    null; its filter takes the next character from the stream, which holds
    [rest]. *)
Definition reading (r : reader) (data : list Z) (rest : list raw_event) (room : Z) : Prop :=
  buffer_wf (r_buf r) /\ snbuffer_data (r_buf r) = data /\
  count (r_buf r) + room < maxcap (r_buf r) /\
  filter_active (r_fil r) /\ 0 <= line_count (r_fil r) /\
  pending (r_in r) = rest.

(** The token under construction starts with [c0]. *)
Definition token_starts (c0 : Z) (b : SNBUFFER) : Prop :=
  buffer_wf b /\ exists tl, snbuffer_data b = c0 :: tl.

(** What is left to read: the events of the stream, and the character
    held back by the filter. *)
Definition input_left (f : SNFILTER) (pIn : FILE) : nat :=
  if pushback f =? 0 then length (pending pIn) else S (length (pending pIn)).

(** The buffers a program can hold: [snbuffer_init], then any sequence of
    the other buffer functions. *)
Inductive buffer_reachable : SNBUFFER -> Prop :=
| buf_init icap mcap b :
    snbuffer_init icap mcap = Done b -> buffer_reachable b
| buf_reset b full :
    buffer_reachable b -> buffer_reachable (snbuffer_reset b full)
| buf_append b c ok b' :
    buffer_reachable b -> snbuffer_append b c = Done (ok, b') -> buffer_reachable b'
| buf_get b :
    buffer_reachable b -> buffer_reachable (snd (snbuffer_get b))
| buf_less b :
    buffer_reachable b -> buffer_reachable (snd (snbuffer_less b)).

(** A buffer whose memory reads as its string: the characters held are
    non-zero bytes, and every byte after them is zero. *)
Record buffer_str (b : SNBUFFER) : Prop := {
  str_wf : buffer_wf b;
  str_chars : Forall (fun c => 1 <= c <= 255) (snbuffer_data b);
  str_zero : forall i, (Z.to_nat (count b) <= i)%nat -> nth i (pBuf b) 0 = 0
}.

(** [n] reads in a row: what they deliver, then the filter and the
    stream. *)
Fixpoint snfilter_reads (n : nat) (f : SNFILTER) (pIn : FILE)
    : list Z * SNFILTER * FILE :=
  match n with
  | O => ([], f, pIn)
  | S n' =>
      let '(c, f, pIn) := snfilter_read f pIn in
      let '(l, f, pIn) := snfilter_reads n' f pIn in
      (c :: l, f, pIn)
  end.

(** The number of line feeds among characters. *)
Definition line_feeds (l : list Z) : Z :=
  Z.of_nat (length (filter (fun c => c = ASCII_LF) l)).

(** The text of a double-quoted literal: plain bytes (any but the double
    quote and the backslash) and escapes, a backslash followed by a byte
    other than a backslash. *)
Inductive quoted_text : list byte -> Prop :=
| quoted_nil : quoted_text []
| quoted_plain c w :
    c <> x22 -> c <> x5c -> quoted_text w -> quoted_text (c :: w)
| quoted_escape c w :
    c <> x5c -> quoted_text w -> quoted_text (x5c :: c :: w).

(** The text of a curly literal: plain bytes (any but the curly brackets
    and the backslash), escapes as above, and nested groups in curly
    brackets. *)
Inductive curly_text : list byte -> Prop :=
| curly_nil : curly_text []
| curly_plain c w :
    c <> x7b -> c <> x7d -> c <> x5c -> curly_text w -> curly_text (c :: w)
| curly_escape c w :
    c <> x5c -> curly_text w -> curly_text (x5c :: c :: w)
| curly_group u w :
    curly_text u -> curly_text w -> curly_text (x7b :: u ++ x7d :: w).

(** Bytes that reach a string reader as they are: no zero byte and no
    carriage return among them. *)
Definition literal_bytes (ds : list byte) : Prop :=
  Forall (fun b => b <> x00 /\ b <> x0d) ds.

(** A blank of the token scanner: space, tab or line feed. *)
Definition blank_byte (b : byte) : Prop := b = x20 \/ b = x09 \/ b = x0a.

(** What the scanner passes over between tokens: blanks, then possibly a
    comment (a pound sign and what follows up to a line feed) and more of
    the same. The comment holds no carriage return. *)
Inductive skipped_text : list byte -> Prop :=
| skipped_blanks bl : Forall blank_byte bl -> skipped_text bl
| skipped_comment bl u w :
    Forall blank_byte bl -> Forall (fun b => b <> x0a /\ b <> x0d) u ->
    skipped_text w -> skipped_text (bl ++ x23 :: u ++ x0a :: w).

(** A filter that takes its next character from a stream that starts with
    [bs]: a filter that has read nothing yet does not meet the first byte
    of a byte order mark. *)
Definition filter_ready (f : SNFILTER) (bs : list byte) : Prop :=
  filter_active f /\ 0 <= line_count f /\
  (line_count f = 0 -> head bs <> Some xef).

(** A filter that has read nothing, on a stream whose first read fails:
    the stream is empty, cannot be read, or starts with a broken byte
    order mark. *)
Definition no_first_char (f : SNFILTER) (pIn : FILE) : Prop :=
  line_count f = 0 /\ fst (fst (snfilter_read f pIn)) < 0.

(** What the loop over the rest of a token keeps. *)
Definition scanner_fine (s : scanner) : Prop :=
  filter_inv (s_fil s) /\ 0 < line_count (s_fil s) /\
  buffer_str (s_buf s) /\ 0 < count (s_buf s) /\ -10 <= s_err s <= 0.

(** What the loops of the string readers keep. *)
Definition reader_fine (r : reader) : Prop :=
  filter_inv (r_fil r) /\ 0 < line_count (r_fil r) /\ -10 <= r_err r <= 0 /\
  buffer_str (r_buf r).

(** The tokens [sntoken_read] gives: an error code with both buffers
    empty, or one of the four kinds, a string having one of the two string
    types and the other kinds none, and a simple or final token having a
    character at least. *)
Definition token_fine (tk : SNTOKEN) : Prop :=
  -10 <= status tk <= 3 /\
  (status tk < 0 ->
   str_type tk = 0 /\ snbuffer_count (pKey tk) = 0 /\ snbuffer_count (pValue tk) = 0) /\
  (status tk = SNTOKEN_STRING ->
   str_type tk = SNSTRING_QUOTED \/ str_type tk = SNSTRING_CURLY) /\
  (0 <= status tk -> status tk <> SNTOKEN_STRING ->
   str_type tk = 0 /\ snbuffer_count (pValue tk) = 0) /\
  (status tk = SNTOKEN_SIMPLE \/ status tk = SNTOKEN_FINAL ->
   0 < snbuffer_count (pKey tk)).

(** A byte that goes on a token: a legal character that is neither
    exclusive nor inclusive. *)
Definition word_byte (b : byte) : Prop :=
  snchar_islegal (byte_val b) <> 0 /\
  snchar_isexclusive (byte_val b) = 0 /\ snchar_isinclusive (byte_val b) = 0.

(** A scanner in the middle of a token: no error and no flag set, its
    buffer well formed, holding [data] with room for [room] more
    characters, its filter taking the next character from the stream,
    which holds [rest]. *)
Definition scanning (s : scanner) (data : list Z) (rest : list raw_event) (room : Z) : Prop :=
  s_err s = 0 /\ s_leave s = 0 /\ s_omit s = 0 /\
  buffer_str (s_buf s) /\ snbuffer_data (s_buf s) = data /\
  count (s_buf s) + room < maxcap (s_buf s) /\
  filter_active (s_fil s) /\ 0 < line_count (s_fil s) /\
  pending (s_in s) = rest.

(** The prefix of a string or embedded token: bytes that go on a token,
    the first of them no vertical bar; there may be none. *)
Definition word_text (pre : list byte) : Prop :=
  Forall word_byte pre /\ head pre <> Some x7c.

End Shastina.

(** ** shasm_block.c *)
Module ShasmBlock.

(** *** Constants *)
Definition SHASM_BLOCK_MINBUFFER : Z := 32.
Definition SHASM_BLOCK_MAXBUFFER : Z := 32767.
Definition SHASM_BLOCK_MINTBUF : Z := 8.
Definition SHASM_BLOCK_MAXCODE : Z := 0x10ffff.
Definition SHASM_BLOCK_MINSURROGATE : Z := 0xd800.
Definition SHASM_BLOCK_MAXSURROGATE : Z := 0xdfff.
Definition SHASM_BLOCK_HISURROGATE : Z := 0xd800.
Definition SHASM_BLOCK_LOSURROGATE : Z := 0xdc00.
Definition SHASM_BLOCK_MINSUPPLEMENTAL : Z := 0x10000.
Definition SHASM_BLOCK_UTF8_2BYTE : Z := 0x80.
Definition SHASM_BLOCK_UTF8_3BYTE : Z := 0x800.
Definition SHASM_BLOCK_UTF8_4BYTE : Z := 0x10000.
Definition SHASM_BLOCK_UTF8_2MASK : Z := 0xC0.
Definition SHASM_BLOCK_UTF8_3MASK : Z := 0xE0.
Definition SHASM_BLOCK_UTF8_4MASK : Z := 0xF0.

(** Modelled from the spec: the status codes of shasm_error.h, a header
    that is not among the sources. The specification calls them stable
    identifiers that callers only compare for equality, so they are an
    enumeration here; only the codes used by shasm_block.c appear. *)
Inductive shasm_code : Type :=
| SHASM_OKAY
| SHASM_ERR_EOF
| SHASM_ERR_IO
| SHASM_ERR_HUGEBLOCK
| SHASM_ERR_TOKENCHAR.

Definition is_okay (code : shasm_code) : bool :=
  match code with SHASM_OKAY => true | _ => false end.

(** Modelled from the spec: the output override selectors of
    shasm_block.h, a header that is not among the sources; the seven modes
    of the specification, numbered in the order it lists them. *)
Definition SHASM_BLOCK_OMODE_NONE : Z := 0.
Definition SHASM_BLOCK_OMODE_UTF8 : Z := 1.
Definition SHASM_BLOCK_OMODE_CESU8 : Z := 2.
Definition SHASM_BLOCK_OMODE_U16LE : Z := 3.
Definition SHASM_BLOCK_OMODE_U16BE : Z := 4.
Definition SHASM_BLOCK_OMODE_U32LE : Z := 5.
Definition SHASM_BLOCK_OMODE_U32BE : Z := 6.

(** Modelled from the spec: the character names of shasm_ascii.h, a header
    that is not among the sources; the values are those of US-ASCII. *)
Definition SHASM_ASCII_HT : Z := 0x09.
Definition SHASM_ASCII_LF : Z := 0x0a.
Definition SHASM_ASCII_SP : Z := 0x20.
Definition SHASM_ASCII_DQUOTE : Z := 0x22.
Definition SHASM_ASCII_PERCENT : Z := 0x25.
Definition SHASM_ASCII_AMPERSAND : Z := 0x26.
Definition SHASM_ASCII_SQUOTE : Z := 0x27.
Definition SHASM_ASCII_LPAREN : Z := 0x28.
Definition SHASM_ASCII_RPAREN : Z := 0x29.
Definition SHASM_ASCII_COMMA : Z := 0x2c.
Definition SHASM_ASCII_SEMICOLON : Z := 0x3b.
Definition SHASM_ASCII_LSQR : Z := 0x5b.
Definition SHASM_ASCII_RSQR : Z := 0x5d.
Definition SHASM_ASCII_LCURL : Z := 0x7b.
Definition SHASM_ASCII_BAR : Z := 0x7c.
Definition SHASM_ASCII_VISPRINT_MIN : Z := 0x21.
Definition SHASM_ASCII_VISPRINT_MAX : Z := 0x7e.

(** The input filter chain of shasm_input.h, which shasm_block.c only
    calls: the block reader is written against this interface. *)
Class ShasmInput (IFL : Type) : Type := {
  SHASM_INPUT_EOF : Z;
  SHASM_INPUT_IOERR : Z;
  shasm_input_get : IFL -> Z * IFL;
  shasm_input_back : IFL -> IFL;
  shasm_input_count : IFL -> Z
}.

(** *** SHASM_BLOCK *)
Record SHASM_BLOCK : Type := mkBLOCK {
  code : shasm_code;
  line : Z;
  buf_cap : Z;
  buf_len : Z;
  null_present : Z;
  pBuf : list Z
}.

(** [realloc(p, n)]: the old contents, cut or extended to [n] bytes. *)
Definition realloc (p : list Z) (n : Z) : list Z := resize (Z.to_nat n) 0 p.

(** [memset(&p[off], 0, n)] *)
Definition memset0 (p : list Z) (off n : Z) : list Z :=
  take (Z.to_nat off) p ++ zeros n ++ drop (Z.to_nat (off + n)) p.

Definition shasm_block_clear (pb : SHASM_BLOCK) : SHASM_BLOCK :=
  mkBLOCK (code pb) (line pb) (buf_cap pb) 0 0 (memset0 (pBuf pb) 0 (buf_cap pb)).

Definition shasm_block_seterr `{ShasmInput IFL} (pb : SHASM_BLOCK) (ps : IFL)
    (err : shasm_code) : outcome SHASM_BLOCK :=
  if is_okay err then Abort
  else if is_okay (code pb) then
    let pb := shasm_block_clear pb in
    Done (mkBLOCK err (shasm_input_count ps) (buf_cap pb) (buf_len pb)
            (null_present pb) (pBuf pb))
  else Done pb.

Definition shasm_block_addByte (pb : SHASM_BLOCK) (c : Z) : outcome (Z * SHASM_BLOCK) :=
  if (c <? 0) || (c >? 255) then Abort
  else
    let status := if is_okay (code pb) then 1 else 0 in
    (* grow when only the slot of the terminating null is left *)
    let '(status, pb) :=
      if negb (status =? 0) && (buf_len pb >=? buf_cap pb - 1) then
        let status := if buf_len pb >=? SHASM_BLOCK_MAXBUFFER then 0 else status in
        if negb (status =? 0) then
          let newcap := buf_cap pb * 2 in
          let newcap :=
            if newcap >? SHASM_BLOCK_MAXBUFFER then SHASM_BLOCK_MAXBUFFER else newcap in
          let p := realloc (pBuf pb) newcap in
          let p := memset0 p (buf_len pb) (newcap - buf_len pb) in
          (status, mkBLOCK (code pb) (line pb) newcap (buf_len pb) (null_present pb) p)
        else (status, pb)
      else (status, pb) in
    let np := if negb (status =? 0) && (c =? 0) then 1 else null_present pb in
    if negb (status =? 0) then
      Done (status, mkBLOCK (code pb) (line pb) (buf_cap pb) (buf_len pb + 1) np
                      (store (pBuf pb) (buf_len pb) c))
    else Done (status, pb).

(** [for (...) if (!shasm_block_addByte(pb, p[x])) { status = 0; break; }] *)
Fixpoint shasm_block_addBytes (pb : SHASM_BLOCK) (l : list Z) : outcome (Z * SHASM_BLOCK) :=
  match l with
  | [] => Done (1, pb)
  | c :: r =>
      '(ok, pb) ← shasm_block_addByte pb c;
      if ok =? 0 then Done (0, pb) else shasm_block_addBytes pb r
  end.

(** *** SHASM_BLOCK_TBUF *)
Record SHASM_BLOCK_TBUF : Type := mkTBUF {
  len : Z;
  pTBuf : list byte   (* field [pBuf]; empty when [len] is zero *)
}.

Definition shasm_block_tbuf_init : SHASM_BLOCK_TBUF := mkTBUF 0 [].
Definition shasm_block_tbuf_reset (pt : SHASM_BLOCK_TBUF) : SHASM_BLOCK_TBUF := mkTBUF 0 [].

(** [for ( ; tl < tlen; tl *= 2);] *)
Fixpoint tbuf_double (fuel : nat) (tl tlen : Z) : outcome Z :=
  if tl <? tlen then
    match fuel with
    | O => OutOfFuel
    | S fuel' => tbuf_double fuel' (tl * 2) tlen
    end
  else Done tl.

Definition shasm_block_tbuf_widen (pt : SHASM_BLOCK_TBUF) (tlen : Z)
    : outcome (Z * SHASM_BLOCK_TBUF) :=
  if tlen <? 0 then Abort
  else
    let status := if tlen >? SHASM_BLOCK_MAXBUFFER then 0 else 1 in
    pt ←
      (if negb (status =? 0) && (tlen >? len pt) then
         let tl := len pt in
         let tl := if tl <? 1 then SHASM_BLOCK_MINTBUF else tl in
         tl ← tbuf_double 64 tl tlen;
         let tl := if tl >? SHASM_BLOCK_MAXBUFFER then SHASM_BLOCK_MAXBUFFER else tl in
         Done (mkTBUF tl (resize (Z.to_nat tl) x00 (pTBuf pt)))
       else Done pt);
    if negb (status =? 0) && (len pt >? 0)
    then Done (status, mkTBUF (len pt) (replicate (Z.to_nat (len pt)) x00))
    else Done (status, pt).

Definition shasm_block_tbuf_ptr (pt : SHASM_BLOCK_TBUF) : list byte := pTBuf pt.
Definition shasm_block_tbuf_len (pt : SHASM_BLOCK_TBUF) : Z := len pt.

(** *** Encoders *)

(** The encoding table: called with the entity, the temporary buffer and
    its length; gives the length it needs and what it left in the buffer. *)
Record SHASM_BLOCK_ENCODER : Type := mkENCODER {
  fpMap : Z -> list byte -> Z -> Z * list byte
}.

Definition shasm_block_pair (code : Z) : outcome (Z * Z) :=
  if (code <? SHASM_BLOCK_MINSUPPLEMENTAL) || (code >? SHASM_BLOCK_MAXCODE) then Abort
  else
    let offs := code - SHASM_BLOCK_MINSUPPLEMENTAL in
    let lo := Z.land offs 0x3ff in
    let hi := Z.land (Z.shiftr offs 10) 0x3ff in
    Done (hi + SHASM_BLOCK_HISURROGATE, lo + SHASM_BLOCK_LOSURROGATE).

(** One turn of the loop of [shasm_block_ereg] that asks the table for the
    code of the entity; the state is [status], [lv] and the buffer. *)
Definition shasm_block_ereg_body (entity : Z) (penc : SHASM_BLOCK_ENCODER)
    (s : Z * Z * SHASM_BLOCK_TBUF) : outcome (loop_ctl (Z * Z * SHASM_BLOCK_TBUF)) :=
  let '(status, _, pt) := s in
  let '(lv, written) :=
    fpMap penc entity (shasm_block_tbuf_ptr pt) (shasm_block_tbuf_len pt) in
  let pt := mkTBUF (len pt) (resize (Z.to_nat (len pt)) x00 written) in
  if shasm_block_tbuf_len pt >=? lv then Done (Break (status, lv, pt))
  else
    '(ok, pt) ← shasm_block_tbuf_widen pt lv;
    Done (Continue (if ok =? 0 then 0 else status, lv, pt)).

(** Iterations allowed to the loop of [shasm_block_ereg]: the buffer grows
    at every turn that does not leave the loop, and it cannot grow beyond
    [SHASM_BLOCK_MAXBUFFER]. *)
Definition ereg_fuel : nat := Z.to_nat (SHASM_BLOCK_MAXBUFFER + 2).

Definition shasm_block_ereg (pb : SHASM_BLOCK) (entity : Z)
    (penc : SHASM_BLOCK_ENCODER) (pt : SHASM_BLOCK_TBUF)
    : outcome (Z * SHASM_BLOCK * SHASM_BLOCK_TBUF) :=
  if entity <? 0 then Abort
  else
    let status := if is_okay (code pb) then 1 else 0 in
    '(status, lv, pt) ←
      while_loop ereg_fuel (fun s => negb (fst (fst s) =? 0))
        (shasm_block_ereg_body entity penc) (status, 0, pt);
    if negb (status =? 0) then
      '(status, pb) ←
        shasm_block_addBytes pb
          (map byte_val (take (Z.to_nat lv) (shasm_block_tbuf_ptr pt)));
      Done (status, pb, pt)
    else Done (status, pb, pt).

(** The loop of [shasm_block_utf8] that extracts [n] continuation bytes
    into [contb], starting at index [i]. *)
Fixpoint utf8_extract (n : nat) (i : Z) (contb : list Z) (entity : Z) : list Z * Z :=
  match n with
  | O => (contb, entity)
  | S n' =>
      utf8_extract n' (i + 1)
        (store contb i (Z.lor (Z.land entity 0x3f) 0x80)) (Z.shiftr entity 6)
  end.

(** [depth] bounds the nesting of the call on the high surrogate. *)
Fixpoint shasm_block_utf8 (depth : nat) (pb : SHASM_BLOCK) (entity cesu8 : Z)
    : outcome (Z * SHASM_BLOCK) :=
  match depth with
  | O => OutOfFuel
  | S depth' =>
    if (entity <? 0) || (entity >? SHASM_BLOCK_MAXCODE) then Abort
    else
      let contb := [0; 0; 0] in
      let status := if is_okay (code pb) then 1 else 0 in
      '(status, pb, entity) ←
        (if negb (status =? 0) && negb (cesu8 =? 0) &&
            (entity >=? SHASM_BLOCK_MINSUPPLEMENTAL) then
           '(s1, s2) ← shasm_block_pair entity;
           '(ok, pb) ← shasm_block_utf8 depth' pb s1 0;
           Done (if ok =? 0 then 0 else status, pb, s2)
         else Done (status, pb, entity));
      let codelen :=
        if negb (status =? 0) then
          if entity <? SHASM_BLOCK_UTF8_2BYTE then 1
          else if entity <? SHASM_BLOCK_UTF8_3BYTE then 2
          else if entity <? SHASM_BLOCK_UTF8_4BYTE then 3
          else 4
        else 0 in
      let '(contb, entity) :=
        if negb (status =? 0)
        then utf8_extract (Z.to_nat (codelen - 1)) 0 contb entity
        else (contb, entity) in
      let contb :=
        if negb (status =? 0) && (codelen =? 3) then
          store (store contb 0 (load contb 1)) 1 (load contb 0)
        else if negb (status =? 0) && (codelen =? 4) then
          store (store contb 0 (load contb 2)) 2 (load contb 0)
        else contb in
      if negb (status =? 0) then
        let i := entity in
        let i :=
          if codelen =? 2 then Z.lor i SHASM_BLOCK_UTF8_2MASK
          else if codelen =? 3 then Z.lor i SHASM_BLOCK_UTF8_3MASK
          else if codelen =? 4 then Z.lor i SHASM_BLOCK_UTF8_4MASK
          else i in
        '(ok, pb) ← shasm_block_addByte pb i;
        if ok =? 0 then Done (0, pb)
        else shasm_block_addBytes pb (take (Z.to_nat (codelen - 1)) contb)
      else Done (status, pb)
  end.

Fixpoint shasm_block_utf16 (depth : nat) (pb : SHASM_BLOCK) (entity big : Z)
    : outcome (Z * SHASM_BLOCK) :=
  match depth with
  | O => OutOfFuel
  | S depth' =>
    if (entity <? 0) || (entity >? SHASM_BLOCK_MAXCODE) then Abort
    else
      let status := if is_okay (code pb) then 1 else 0 in
      '(status, pb, entity) ←
        (if negb (status =? 0) && (entity >=? SHASM_BLOCK_MINSUPPLEMENTAL) then
           '(s1, s2) ← shasm_block_pair entity;
           '(ok, pb) ← shasm_block_utf16 depth' pb s1 big;
           Done (if ok =? 0 then 0 else status, pb, s2)
         else Done (status, pb, entity));
      if negb (status =? 0) then
        let vb0 := Z.land entity 0xff in
        let vb1 := Z.land (Z.shiftr entity 8) 0xff in
        let '(vb0, vb1) := if negb (big =? 0) then (vb1, vb0) else (vb0, vb1) in
        shasm_block_addBytes pb [vb0; vb1]
      else Done (status, pb)
  end.

Definition shasm_block_utf32 (pb : SHASM_BLOCK) (entity big : Z)
    : outcome (Z * SHASM_BLOCK) :=
  if (entity <? 0) || (entity >? SHASM_BLOCK_MAXCODE) then Abort
  else
    let status := if is_okay (code pb) then 1 else 0 in
    if negb (status =? 0) then
      let vb0 := Z.land entity 0xff in
      let vb1 := Z.land (Z.shiftr entity 8) 0xff in
      let vb2 := Z.land (Z.shiftr entity 16) 0xff in
      let vb3 := Z.land (Z.shiftr entity 24) 0xff in
      let vb := if negb (big =? 0) then [vb3; vb2; vb1; vb0] else [vb0; vb1; vb2; vb3] in
      shasm_block_addBytes pb vb
    else Done (status, pb).

(** The call on a surrogate never nests further: two levels are enough. *)
Definition utf_depth : nat := 2.

Definition shasm_block_encode (pb : SHASM_BLOCK) (entity : Z)
    (penc : SHASM_BLOCK_ENCODER) (o_over o_strict : Z) (pt : SHASM_BLOCK_TBUF)
    : outcome (Z * SHASM_BLOCK * SHASM_BLOCK_TBUF) :=
  if entity <? 0 then Abort
  else
    let status := if is_okay (code pb) then 1 else 0 in
    let o_over :=
      if negb (status =? 0) && (entity >? SHASM_BLOCK_MAXCODE)
      then SHASM_BLOCK_OMODE_NONE else o_over in
    let o_over :=
      if negb (status =? 0) && negb (o_strict =? 0) &&
         (entity >=? SHASM_BLOCK_MINSURROGATE) && (entity <=? SHASM_BLOCK_MAXSURROGATE)
      then SHASM_BLOCK_OMODE_NONE else o_over in
    if negb (status =? 0) then
      let unicode (r : outcome (Z * SHASM_BLOCK)) :=
        '(ok, pb) ← r; Done (if ok =? 0 then 0 else status, pb, pt) in
      if o_over =? SHASM_BLOCK_OMODE_NONE then
        '(ok, pb, pt) ← shasm_block_ereg pb entity penc pt;
        Done (if ok =? 0 then 0 else status, pb, pt)
      else if o_over =? SHASM_BLOCK_OMODE_UTF8 then
        unicode (shasm_block_utf8 utf_depth pb entity 0)
      else if o_over =? SHASM_BLOCK_OMODE_CESU8 then
        unicode (shasm_block_utf8 utf_depth pb entity 1)
      else if o_over =? SHASM_BLOCK_OMODE_U16LE then
        unicode (shasm_block_utf16 utf_depth pb entity 0)
      else if o_over =? SHASM_BLOCK_OMODE_U16BE then
        unicode (shasm_block_utf16 utf_depth pb entity 1)
      else if o_over =? SHASM_BLOCK_OMODE_U32LE then
        unicode (shasm_block_utf32 pb entity 0)
      else if o_over =? SHASM_BLOCK_OMODE_U32BE then
        unicode (shasm_block_utf32 pb entity 1)
      else Abort
    else Done (status, pb, pt).

(** *** Public functions *)

Definition shasm_block_alloc : SHASM_BLOCK :=
  mkBLOCK SHASM_OKAY 1 SHASM_BLOCK_MINBUFFER 0 0 (zeros SHASM_BLOCK_MINBUFFER).

(** The status, and the line written through [pLine] (if any). *)
Definition shasm_block_status (pb : SHASM_BLOCK) : shasm_code * option Z :=
  (code pb, if is_okay (code pb) then None else Some (line pb)).

Definition shasm_block_count (pb : SHASM_BLOCK) : Z :=
  if is_okay (code pb) then buf_len pb else 0.

(** The pointer returned ([None] for [NULL]; otherwise the bytes it points
    to) and the block reader, whose buffer the call may write to. *)
Definition shasm_block_ptr (pb : SHASM_BLOCK) (null_term : Z)
    : option (list Z) * SHASM_BLOCK :=
  if negb (is_okay (code pb)) then
    let p := store (pBuf pb) 0 0 in
    (Some p, mkBLOCK (code pb) (line pb) (buf_cap pb) (buf_len pb) (null_present pb) p)
  else if negb (null_term =? 0) then
    (if negb (null_present pb =? 0) then None else Some (pBuf pb), pb)
  else (Some (pBuf pb), pb).

Definition shasm_block_line (pb : SHASM_BLOCK) : Z :=
  if is_okay (code pb) then line pb else LONG_MAX.

Section Token.
Context `{ShasmInput IFL}.

(** [for (c = get(); p c; c = get());] *)
Fixpoint shasm_input_get_while (fuel : nat) (p : Z -> bool) (ps : IFL)
    : outcome (Z * IFL) :=
  match fuel with
  | O => OutOfFuel
  | S fuel' =>
      let '(c, ps) := shasm_input_get ps in
      if p c then shasm_input_get_while fuel' p ps else Done (c, ps)
  end.

(** The variables live across the loops of [shasm_block_token]. *)
Record tokenizer : Type := mkTokenizer {
  t_status : Z;
  t_c : Z;
  t_pb : SHASM_BLOCK;
  t_ps : IFL
}.

(** [if (c == EOF) {...} else if (c == IOERR) {...}] after a read. *)
Definition token_check_input (status c : Z) (pb : SHASM_BLOCK) (ps : IFL)
    : outcome (Z * SHASM_BLOCK) :=
  if c =? SHASM_INPUT_EOF then
    pb ← shasm_block_seterr pb ps SHASM_ERR_EOF; Done (0, pb)
  else if c =? SHASM_INPUT_IOERR then
    pb ← shasm_block_seterr pb ps SHASM_ERR_IO; Done (0, pb)
  else Done (status, pb).

(** The range check on a token character. *)
Definition token_check_range (status c : Z) (pb : SHASM_BLOCK) (ps : IFL)
    : outcome (Z * SHASM_BLOCK) :=
  if negb (status =? 0) &&
     ((c <? SHASM_ASCII_VISPRINT_MIN) || (c >? SHASM_ASCII_VISPRINT_MAX))
  then pb ← shasm_block_seterr pb ps SHASM_ERR_TOKENCHAR; Done (0, pb)
  else Done (status, pb).

(** [if (!shasm_block_addByte(pb, c)) { status = 0; seterr(HUGEBLOCK); }] *)
Definition token_add (status c : Z) (pb : SHASM_BLOCK) (ps : IFL)
    : outcome (Z * SHASM_BLOCK) :=
  '(ok, pb) ← shasm_block_addByte pb c;
  if ok =? 0 then
    pb ← shasm_block_seterr pb ps SHASM_ERR_HUGEBLOCK; Done (0, pb)
  else Done (status, pb).

Definition is_token_blank (c : Z) : bool :=
  (c =? SHASM_ASCII_HT) || (c =? SHASM_ASCII_SP) || (c =? SHASM_ASCII_LF).

Definition in_token_comment (c : Z) : bool :=
  negb (c =? SHASM_ASCII_LF) && negb (c =? SHASM_INPUT_EOF) &&
  negb (c =? SHASM_INPUT_IOERR).

(** One turn of the loop that skips blanks and comments. *)
Definition token_skip_body (fuel : nat) (t : tokenizer) : outcome (loop_ctl tokenizer) :=
  '(c, ps) ← shasm_input_get_while fuel is_token_blank (t_ps t);
  '(status, pb) ← token_check_input (t_status t) c (t_pb t) ps;
  if negb (status =? 0) && negb (c =? SHASM_ASCII_AMPERSAND) then
    let pb := mkBLOCK (code pb) (shasm_input_count ps) (buf_cap pb) (buf_len pb)
                (null_present pb) (pBuf pb) in
    Done (Break (mkTokenizer status c pb (shasm_input_back ps)))
  else if negb (status =? 0) then
    '(c, ps) ← shasm_input_get_while fuel in_token_comment ps;
    '(status, pb) ← token_check_input status c pb ps;
    Done (Continue (mkTokenizer status c pb ps))
  else Done (Continue (mkTokenizer status c pb ps)).

(** The first character of the buffer decides whether more is read. *)
Definition token_is_open (pb : SHASM_BLOCK) : bool :=
  negb (load (pBuf pb) 0 =? SHASM_ASCII_LPAREN) &&
  negb (load (pBuf pb) 0 =? SHASM_ASCII_RPAREN) &&
  negb (load (pBuf pb) 0 =? SHASM_ASCII_LSQR) &&
  negb (load (pBuf pb) 0 =? SHASM_ASCII_RSQR) &&
  negb (load (pBuf pb) 0 =? SHASM_ASCII_COMMA) &&
  negb (load (pBuf pb) 0 =? SHASM_ASCII_PERCENT) &&
  negb (load (pBuf pb) 0 =? SHASM_ASCII_SEMICOLON) &&
  negb (load (pBuf pb) 0 =? SHASM_ASCII_DQUOTE) &&
  negb (load (pBuf pb) 0 =? SHASM_ASCII_SQUOTE) &&
  negb (load (pBuf pb) 0 =? SHASM_ASCII_LCURL) &&
  negb (load (pBuf pb) 1 =? SHASM_ASCII_SEMICOLON).

Definition is_token_stop (c : Z) : bool :=
  (c =? SHASM_ASCII_HT) || (c =? SHASM_ASCII_SP) || (c =? SHASM_ASCII_LF) ||
  (c =? SHASM_ASCII_LPAREN) || (c =? SHASM_ASCII_RPAREN) ||
  (c =? SHASM_ASCII_LSQR) || (c =? SHASM_ASCII_RSQR) ||
  (c =? SHASM_ASCII_COMMA) || (c =? SHASM_ASCII_PERCENT) ||
  (c =? SHASM_ASCII_SEMICOLON) || (c =? SHASM_ASCII_AMPERSAND) ||
  (c =? SHASM_ASCII_DQUOTE) || (c =? SHASM_ASCII_SQUOTE) ||
  (c =? SHASM_ASCII_LCURL).

Definition is_token_inclusive (c : Z) : bool :=
  (c =? SHASM_ASCII_DQUOTE) || (c =? SHASM_ASCII_SQUOTE) || (c =? SHASM_ASCII_LCURL).

(** One turn of the loop that reads the further characters of a token. *)
Definition token_more_body (t : tokenizer) : outcome (loop_ctl tokenizer) :=
  let '(c, ps) := shasm_input_get (t_ps t) in
  '(status, pb) ← token_check_input (t_status t) c (t_pb t) ps;
  if negb (status =? 0) && is_token_stop c
  then Done (Break (mkTokenizer status c pb ps))
  else
    '(status, pb) ← token_check_range status c pb ps;
    '(status, pb) ←
      (if negb (status =? 0) then token_add status c pb ps else Done (status, pb));
    Done (Continue (mkTokenizer status c pb ps)).

Definition tokenizer_running (t : tokenizer) : bool := negb (t_status t =? 0).

Definition shasm_block_token (fuel : nat) (pb : SHASM_BLOCK) (ps : IFL)
    : outcome (Z * SHASM_BLOCK * IFL) :=
  let status := if is_okay (code pb) then 1 else 0 in
  (* blanks and comments *)
  t ← while_loop fuel tokenizer_running (token_skip_body fuel)
        (mkTokenizer status 0 pb ps);
  let '(status, pb, ps) := (t_status t, t_pb t, t_ps t) in
  let pb := if negb (status =? 0) then shasm_block_clear pb else pb in
  (* first character *)
  '(status, pb, ps) ←
    (if negb (status =? 0) then
       let '(c, ps) := shasm_input_get ps in
       '(status, pb) ← token_check_input status c pb ps;
       '(status, pb) ← token_check_range status c pb ps;
       '(status, pb) ←
         (if negb (status =? 0) then token_add status c pb ps else Done (status, pb));
       Done (status, pb, ps)
     else Done (status, pb, ps));
  (* a vertical bar may be followed by a semicolon *)
  '(status, pb, ps) ←
    (if negb (status =? 0) && (load (pBuf pb) 0 =? SHASM_ASCII_BAR) then
       let '(c, ps) := shasm_input_get ps in
       '(status, pb) ← token_check_input status c pb ps;
       if negb (status =? 0) && (c =? SHASM_ASCII_SEMICOLON) then
         '(status, pb) ← token_add status c pb ps;
         Done (status, pb, ps)
       else Done (status, pb, shasm_input_back ps)
     else Done (status, pb, ps));
  (* further characters, up to a stop character *)
  if negb (status =? 0) && token_is_open pb then
    t ← while_loop fuel tokenizer_running token_more_body
          (mkTokenizer status 0 pb ps);
    let '(status, c, pb, ps) := (t_status t, t_c t, t_pb t, t_ps t) in
    if negb (status =? 0) && is_token_inclusive c then
      '(status, pb) ← token_add status c pb ps;
      Done (status, pb, ps)
    else if negb (status =? 0) then Done (status, pb, shasm_input_back ps)
    else Done (status, pb, ps)
  else Done (status, pb, ps).

End Token.

Arguments tokenizer IFL : clear implicits.

(** *** Vocabulary of the statements about shasm_block.c *)

(** A block reader that is not in an error state, as [shasm_block_alloc]
    and [shasm_block_addByte] keep it. *)
Definition block_ok (pb : SHASM_BLOCK) : Prop :=
  code pb = SHASM_OKAY /\
  Z.of_nat (length (pBuf pb)) = buf_cap pb /\
  1 <= buf_cap pb <= SHASM_BLOCK_MAXBUFFER /\
  0 <= buf_len pb <= buf_cap pb.

(** The first characters after which [shasm_block_token] reads no more:
    the ten that [token_is_open] tests for. *)
Definition token_atomic (c : Z) : bool :=
  (c =? SHASM_ASCII_LPAREN) || (c =? SHASM_ASCII_RPAREN) ||
  (c =? SHASM_ASCII_LSQR) || (c =? SHASM_ASCII_RSQR) ||
  (c =? SHASM_ASCII_COMMA) || (c =? SHASM_ASCII_PERCENT) ||
  (c =? SHASM_ASCII_SEMICOLON) || (c =? SHASM_ASCII_DQUOTE) ||
  (c =? SHASM_ASCII_SQUOTE) || (c =? SHASM_ASCII_LCURL).

(** The block under construction holds [data]. *)
Definition block_holds (data : list Z) (pb : SHASM_BLOCK) : Prop :=
  block_ok pb /\ take (Z.to_nat (buf_len pb)) (pBuf pb) = data.

(** One encoding after another: the second is not attempted when the
    first has failed. *)
Definition encode_then (r : outcome (Z * SHASM_BLOCK))
    (k : SHASM_BLOCK -> outcome (Z * SHASM_BLOCK)) : outcome (Z * SHASM_BLOCK) :=
  '(ok, pb) ← r; if ok =? 0 then Done (0, pb) else k pb.

(** While the status is non-zero, the token under construction starts
    with [data0]. *)
Definition token_keeps {IFL : Type} (data0 : list Z) (t : tokenizer IFL) : Prop :=
  t_status t <> 0 -> exists tl, block_holds (data0 ++ tl) (t_pb t).

(** The token held by the block reader, as the caller reads it. *)
Definition shasm_block_data (pb : SHASM_BLOCK) : list Z :=
  take (Z.to_nat (shasm_block_count pb)) (pBuf pb).

(** Modelled from the spec: the input filter chain behind [ShasmInput]
    (shasm_input.c is not among the sources), reduced to what the block
    reader observes of section 4.3: the filtered characters in order, a
    sticky end of input, a single slot of pushback, and a line counter
    that advances after each line feed delivered. *)
Record filtered_input : Type := mkFiltered {
  fi_rest : list Z;      (* filtered characters still to come *)
  fi_last : Z;           (* the character most recently delivered *)
  fi_back : bool;        (* pushback active *)
  fi_line : Z            (* line of the character most recently delivered *)
}.

Definition filtered_get (ps : filtered_input) : Z * filtered_input :=
  if fi_back ps then (fi_last ps, mkFiltered (fi_rest ps) (fi_last ps) false (fi_line ps))
  else
    match fi_rest ps with
    | [] => (-1, mkFiltered [] (-1) false (fi_line ps))
    | c :: r =>
        (c, mkFiltered r c false
              (if fi_last ps =? 0x0a then fi_line ps + 1 else fi_line ps))
    end.

Definition filtered_back (ps : filtered_input) : filtered_input :=
  if fi_last ps <? 0 then ps
  else mkFiltered (fi_rest ps) (fi_last ps) true (fi_line ps).

Definition filtered_count (ps : filtered_input) : Z :=
  if negb (fi_back ps) && (fi_last ps =? 0x0a) then fi_line ps + 1 else fi_line ps.

#[global] Instance filtered_ShasmInput : ShasmInput filtered_input := {|
  SHASM_INPUT_EOF := -1;
  SHASM_INPUT_IOERR := -2;
  shasm_input_get := filtered_get;
  shasm_input_back := filtered_back;
  shasm_input_count := filtered_count
|}.

Definition filtered_start (l : list Z) : filtered_input := mkFiltered l 0 false 1.

(** The bytes of UTF-8 for a code, written with division: up to four
    bytes, a lead byte and continuation bytes of six bits each. *)
Definition utf8_bytes (e : Z) : list Z :=
  if e <? 0x80 then [e]
  else if e <? 0x800 then [0xC0 + e / 64; 0x80 + e mod 64]
  else if e <? 0x10000 then
    [0xE0 + e / 4096; 0x80 + (e / 64) mod 64; 0x80 + e mod 64]
  else
    [0xF0 + e / 262144; 0x80 + (e / 4096) mod 64; 0x80 + (e / 64) mod 64;
     0x80 + e mod 64].

(** What a UTF-8 decoder reads back from the bytes of one code. *)
Definition utf8_value (l : list Z) : Z :=
  match l with
  | [a] => a
  | [a; b] => (a - 0xC0) * 64 + (b - 0x80)
  | [a; b; c] => (a - 0xE0) * 4096 + (b - 0x80) * 64 + (c - 0x80)
  | [a; b; c; d] =>
      (a - 0xF0) * 262144 + (b - 0x80) * 4096 + (c - 0x80) * 64 + (d - 0x80)
  | _ => -1
  end.

(** The 16-bit units of UTF-16 for a code: the code itself, or the two
    surrogates of a supplementary code. *)
Definition utf16_units (e : Z) : list Z :=
  if e <? 0x10000 then [e]
  else [0xD800 + (e - 0x10000) / 1024; 0xDC00 + (e - 0x10000) mod 1024].

(** What a UTF-16 decoder reads back from the units of one code. *)
Definition utf16_value (l : list Z) : Z :=
  match l with
  | [u] => u
  | [hi; lo] => 0x10000 + (hi - 0xD800) * 1024 + (lo - 0xDC00)
  | _ => -1
  end.

(** The bytes of CESU-8 for a code: each unit of UTF-16 in UTF-8. *)
Definition cesu8_bytes (e : Z) : list Z := concat (map utf8_bytes (utf16_units e)).

(** The [n] low bytes of a number, least significant first, and the
    number they stand for. *)
Fixpoint le_bytes (n : nat) (v : Z) : list Z :=
  match n with
  | O => []
  | S n' => v mod 256 :: le_bytes n' (v / 256)
  end.

Fixpoint le_value (l : list Z) : Z :=
  match l with
  | [] => 0
  | b :: r => b + 256 * le_value r
  end.

(** A number in [n] bytes, in the byte order that the flag [big] of the
    encoders selects. *)
Definition word_bytes (big : Z) (n : nat) (v : Z) : list Z :=
  if big =? 0 then le_bytes n v else rev (le_bytes n v).

(** What a decoder reads back from the bytes [word_bytes] gives. *)
Definition word_value (big : Z) (l : list Z) : Z :=
  if big =? 0 then le_value l else le_value (rev l).

(** The encoding table maps the entity to the bytes [bs]: it always
    answers their number, and it has written them when the buffer it
    was given is long enough. *)
Definition table_maps (penc : SHASM_BLOCK_ENCODER) (e : Z) (bs : list byte) : Prop :=
  forall (buf : list byte) (n : Z),
    fst (fpMap penc e buf n) = Z.of_nat (length bs) /\
    (Z.of_nat (length bs) <= n ->
     take (length bs) (snd (fpMap penc e buf n)) = bs).

(** A temporary buffer as [shasm_block_tbuf_init] and
    [shasm_block_tbuf_widen] leave it. *)
Definition tbuf_ok (pt : SHASM_BLOCK_TBUF) : Prop :=
  0 <= len pt <= SHASM_BLOCK_MAXBUFFER /\ Z.of_nat (length (pTBuf pt)) = len pt.

(** The bytes that stand for a code under each Unicode output
    override. *)
Definition unicode_bytes (o_over e : Z) : list Z :=
  if o_over =? SHASM_BLOCK_OMODE_UTF8 then utf8_bytes e
  else if o_over =? SHASM_BLOCK_OMODE_CESU8 then cesu8_bytes e
  else if o_over =? SHASM_BLOCK_OMODE_U16LE then concat (map (word_bytes 0 2) (utf16_units e))
  else if o_over =? SHASM_BLOCK_OMODE_U16BE then concat (map (word_bytes 1 2) (utf16_units e))
  else if o_over =? SHASM_BLOCK_OMODE_U32LE then word_bytes 0 4 e
  else word_bytes 1 4 e.

(** The bytes a block may still take before it reaches the ceiling. *)
Definition block_room (data : list Z) : nat :=
  Z.to_nat (SHASM_BLOCK_MAXBUFFER - Z.of_nat (length data)).

(** A block reader as [shasm_block_seterr] leaves it: an error code is
    recorded and the buffer is empty. *)
Definition block_failed (pb : SHASM_BLOCK) : Prop :=
  code pb <> SHASM_OKAY /\ buf_len pb = 0.

(** The block under construction holds the text [data], free of null
    bytes: the rest of the buffer is zero, and a terminating null
    follows the text unless it fills the buffer to the ceiling. *)
Definition block_text (data : list Z) (pb : SHASM_BLOCK) : Prop :=
  block_holds data pb /\ null_present pb = 0 /\
  pBuf pb = data ++ zeros (buf_cap pb - buf_len pb) /\
  (buf_len pb < buf_cap pb \/ buf_len pb = SHASM_BLOCK_MAXBUFFER).

(** The bytes of a token: visible printing characters of US-ASCII. *)
Definition token_visible (tok : list Z) : Prop :=
  Forall (fun c => SHASM_ASCII_VISPRINT_MIN <= c <= SHASM_ASCII_VISPRINT_MAX) tok.

(** What the token reader has after each of its stages: the status is 1
    and the block holds visible characters, or the status is 0 and the
    block reader has failed. *)
Definition token_state (P : list Z -> Prop) (st : Z) (pb : SHASM_BLOCK) : Prop :=
  (st = 1 /\ exists tok, P tok /\ block_text tok pb /\ token_visible tok) \/
  (st = 0 /\ block_failed pb).

(** The characters a filtered input may still deliver. *)
Definition input_size (ps : filtered_input) : nat :=
  (length (fi_rest ps) + if fi_back ps then 1 else 0)%nat.

(** What [shasm_block_token] passes over before a token, as filtered
    characters: blanks, then possibly a comment (an ampersand and what
    follows up to a line feed) and more of the same. *)
Inductive token_skipped : list Z -> Prop :=
| token_skipped_blanks bl :
    Forall (fun c => is_token_blank c = true) bl -> token_skipped bl
| token_skipped_comment bl u w :
    Forall (fun c => is_token_blank c = true) bl ->
    Forall (fun c => 0 <= c /\ c <> SHASM_ASCII_LF) u ->
    token_skipped w ->
    token_skipped (bl ++ SHASM_ASCII_AMPERSAND :: u ++ SHASM_ASCII_LF :: w).

End ShasmBlock.

(** ** test_block.c *)
Module TestBlock.
Import String.

(** A string literal of C as the array it denotes, with its terminating
    null, and a character constant. *)
Definition c_literal (s : string) : list Z :=
  map byte_val (list_byte_of_string s) ++ [0].

Definition chr (s : string) : Z :=
  match list_byte_of_string s with
  | [b] => byte_val b
  | _ => 0
  end.

(** [strlen] *)
Definition strlen (p : list Z) : Z := Z.of_nat (List.length (c_string p)).

Definition m_pLongKey1 : list Z := c_literal "*helloWorld".
Definition m_pLongKey2 : list Z := c_literal "*helloEveryoneOutThereSomewhere".
Definition m_pCommonKey : list Z := c_literal "*hello".

Record DECMAP_STATE : Type := mkDECMAP {
  key : list Z   (* char key[32] *)
}.

Definition longkey_branch (pKey : list Z) (len c : Z) : outcome Z :=
  if (len <? 0) || (c <? 0) || (c >? 255) then Abort
  else if strlen pKey <? len then Abort
  else if len <? strlen pKey then Done (if load pKey len =? c then 1 else 0)
  else Done 0.

(** [memset(pv, 0, sizeof(DECMAP_STATE)); pv->key[0] = (char) 0;] *)
Definition decmap_reset : DECMAP_STATE := mkDECMAP (store (zeros 32) 0 0).

Definition decmap_branch (pv : DECMAP_STATE) (c : Z) : outcome (Z * DECMAP_STATE) :=
  if (c <? 0) || (c >? 255) then Abort
  else
    let keylen := strlen (key pv) in
    branch ←
      (if keylen >? 0 then
         if load (key pv) 0 =? chr "\" then
           if keylen =? 1 then
             Done (if (c =? chr "\") || (c =? chr "&") || (c =? 0x22) || (c =? chr "'") ||
                      (c =? chr "{") || (c =? chr "}") || (c =? chr "n") || (c =? chr ":") ||
                      (c =? chr "s") || (c =? chr "u") || (c =? 0xa)
                   then 1 else 0)
           else if keylen =? 2 then
             if load (key pv) 1 =? chr ":" then
               Done (if (c =? chr "a") || (c =? chr "A") || (c =? chr "o") ||
                        (c =? chr "O") || (c =? chr "u") || (c =? chr "U")
                     then 1 else 0)
             else if load (key pv) 1 =? chr "s" then
               Done (if c =? chr "s" then 1 else 0)
             else Done 0
           else if keylen =? 3 then Done 0
           else Abort
         else if load (key pv) 0 =? chr "&" then
           if keylen =? 1 then Done (if (c =? chr "a") || (c =? chr "x") then 1 else 0)
           else if keylen =? 2 then
             Done (if (load (key pv) 1 =? chr "a") && (c =? chr "m") then 1 else 0)
           else if keylen =? 3 then Done (if c =? chr "p" then 1 else 0)
           else if keylen =? 4 then Done (if c =? chr ";" then 1 else 0)
           else if keylen =? 5 then Done 0
           else Abort
         else if load (key pv) 0 =? chr "*" then
           if keylen =? 1 then Done (if (c =? chr "*") || (c =? chr "h") then 1 else 0)
           else if keylen =? 2 then
             Done (if (load (key pv) 1 =? chr "h") && (c =? chr "e") then 1 else 0)
           else if (keylen >=? 3) && (keylen <=? 5) then
             longkey_branch m_pCommonKey keylen c
           else if keylen =? 6 then
             Done (if (c =? chr "W") || (c =? chr "E") then 1 else 0)
           else if (keylen >=? 7) && (keylen <=? 11) then
             if load (key pv) 6 =? chr "W" then longkey_branch m_pLongKey1 keylen c
             else if load (key pv) 6 =? chr "E" then longkey_branch m_pLongKey2 keylen c
             else Abort
           else if (keylen >=? 12) && (keylen <=? 30) then
             longkey_branch m_pLongKey2 keylen c
           else if keylen =? 31 then Done 0
           else Abort
         else Done 0
       else
         Done (if ((c >=? 0x20) && (c <=? 0x7e)) || (c =? 0xa) then 1 else 0));
    if negb (branch =? 0)
    then Done (branch, mkDECMAP (store (key pv) keylen c))
    else Done (branch, pv).

(** *** Vocabulary of the statements about test_block.c *)

(** The keys of the decoding map that the header of test_block.c lists,
    as far as [decmap_branch] spells them out: the single characters,
    the escapes that start with a backslash, an ampersand or an
    asterisk. *)
Definition decmap_single : list (list Z) :=
  [0xa] :: map (fun c => [c]) (map Z.of_nat (seq 0x20 0x5f)).

Definition decmap_escapes : list (list Z) :=
  map c_string
    ([chr "\"; 0x22; 0] :: [chr "\"; 0xa; 0] ::
     map c_literal
       ["\\"%string; "\&"%string; "\'"%string; "\{"%string; "\}"%string;
        "\n"%string; "\:a"%string; "\:A"%string; "\:o"%string; "\:O"%string;
        "\:u"%string; "\:U"%string; "\ss"%string; "\u"%string;
        "&amp;"%string; "&x"%string; "**"%string; "*helloWorld"%string;
        "*helloEveryoneOutThereSomewhere"%string]).

Definition decmap_keys : list (list Z) := decmap_single ++ decmap_escapes.

(** A node of the decoding map: a key that starts one of the keys. *)
Definition decmap_node (k : list Z) : bool :=
  existsb (fun full => bool_decide (k `prefix_of` full)) decmap_keys.

(** The state that stands on the node with key [k]. *)
Definition decmap_at (k : list Z) : DECMAP_STATE :=
  mkDECMAP (k ++ zeros (32 - Z.of_nat (List.length k))).

(** The states that calls of [decmap_branch] reach from
    [decmap_reset]. *)
Inductive decmap_reachable : DECMAP_STATE -> Prop :=
| reach_reset : decmap_reachable decmap_reset
| reach_branch pv c r pv' :
    decmap_reachable pv -> decmap_branch pv c = Done (r, pv') -> decmap_reachable pv'.

(** All the nodes: the root, the single characters, and every escape
    cut at every length. *)
Definition decmap_nodes : list (list Z) :=
  [] :: decmap_single ++
  List.concat (map (fun full => map (fun n => take n full) (seq 1 (List.length full)))
                 decmap_escapes).

(** What [decmap_branch] is to do on the node [k] with the byte [c]:
    follow the branch when the longer key is a node, stay otherwise. *)
Definition decmap_step (k : list Z) (c : Z) : Z * DECMAP_STATE :=
  if decmap_node (k ++ [c]) then (1, decmap_at (k ++ [c])) else (0, decmap_at k).

Definition decmap_branch_check (k : list Z) (c : Z) : bool :=
  match decmap_branch (decmap_at k) c with
  | Done (r, pv) =>
      (r =? fst (decmap_step k c)) && bool_decide (key pv = key (snd (decmap_step k c)))
  | _ => false
  end.

(** What holds of a key that is a node: it fits the array with its
    terminating null and is the string the state holds. *)
Definition decmap_node_check (k : list Z) : bool :=
  decmap_node k && (List.length k <=? 31)%nat &&
  forallb (fun c => (1 <=? c) && (c <=? 255)) k &&
  bool_decide (c_string (key (decmap_at k)) = k) &&
  (List.length (key (decmap_at k)) =? 32)%nat.

End TestBlock.

(** ** The specification's character classes *)

(** The atomic characters in the words of the specification, section 4.4:
    the twelve characters ( ) [ ] , % ; double quote, apostrophe, grave
    accent, { and } *)
Definition spec_atomic (c : Z) : bool :=
  (c =? 0x28) || (c =? 0x29) || (c =? 0x5b) || (c =? 0x5d) ||
  (c =? 0x2c) || (c =? 0x25) || (c =? 0x3b) || (c =? 0x22) ||
  (c =? 0x27) || (c =? 0x60) || (c =? 0x7b) || (c =? 0x7d).

(** * Loops *)

Lemma while_loop_unfold {S : Type} (fuel : nat) (cond : S -> bool)
    (body : S -> outcome (loop_ctl S)) (s : S) :
  while_loop (Datatypes.S fuel) cond body s =
    if cond s then
      match body s with
      | Done (Continue s') => while_loop fuel cond body s'
      | Done (Break s') => Done s'
      | Abort => Abort
      | OutOfFuel => OutOfFuel
      end
    else Done s.
Proof. reflexivity. Qed.

Lemma while_loop_stops {S : Type} (fuel : nat) (cond : S -> bool)
    (body : S -> outcome (loop_ctl S)) (s : S) :
  cond s = false -> while_loop fuel cond body s = Done s.
Proof. intros Hc. destruct fuel; cbn; rewrite Hc; reflexivity. Qed.

(** A property kept by every turn holds when the loop returns. *)
Lemma while_loop_invariant {S : Type} (P : S -> Prop) (cond : S -> bool)
    (body : S -> outcome (loop_ctl S)) :
  (forall s s', P s -> cond s = true -> body s = Done (Continue s') -> P s') ->
  (forall s s', P s -> cond s = true -> body s = Done (Break s') -> P s') ->
  forall fuel s s', P s -> while_loop fuel cond body s = Done s' ->
    P s' /\ (cond s' = false \/ exists s0, P s0 /\ cond s0 = true /\ body s0 = Done (Break s')).
Proof.
  intros Hcont Hbrk. induction fuel as [|fuel IH]; intros s s' Hs Hrun.
  - cbn in Hrun. destruct (cond s) eqn:Hc; [discriminate|].
    injection Hrun as <-. auto.
  - rewrite while_loop_unfold in Hrun. destruct (cond s) eqn:Hc.
    + destruct (body s) as [[s1|s1]| |] eqn:Hb; try discriminate.
      * apply (IH s1 s'); [eapply Hcont; eauto | exact Hrun].
      * injection Hrun as <-. split; [eapply Hbrk; eauto|].
        right. exists s. auto.
    + injection Hrun as <-. auto.
Qed.

(** A loop whose turns never abort does not abort. *)
Lemma while_loop_no_abort {S : Type} (P : S -> Prop) (cond : S -> bool)
    (body : S -> outcome (loop_ctl S)) :
  (forall s, P s -> body s <> Abort) ->
  (forall s s', P s -> body s = Done (Continue s') -> P s') ->
  forall fuel s, P s -> while_loop fuel cond body s <> Abort.
Proof.
  intros Hna Hcont. induction fuel as [|fuel IH]; intros s Hs.
  - cbn. destruct (cond s); discriminate.
  - rewrite while_loop_unfold. destruct (cond s); [|discriminate].
    destruct (body s) as [[s1|s1]| |] eqn:Hb; try discriminate.
    + apply IH. eapply Hcont; eauto.
    + exfalso. exact (Hna s Hs Hb).
Qed.

(** A loop whose turns return and use up a measure returns, given fuel
    beyond the measure. *)
Lemma while_loop_returns {S : Type} (P : S -> Prop) (m : S -> nat)
    (cond : S -> bool) (body : S -> outcome (loop_ctl S)) :
  (forall s, P s -> cond s = true ->
     (exists s', body s = Done (Break s')) \/
     (exists s', body s = Done (Continue s') /\ P s' /\
                 (cond s' = true -> (m s' < m s)%nat))) ->
  forall fuel s, P s -> (m s < fuel)%nat ->
    exists s', while_loop fuel cond body s = Done s'.
Proof.
  intros Hstep. induction fuel as [|fuel IH]; intros s Hs Hm; [lia|].
  rewrite while_loop_unfold. destruct (cond s) eqn:Hc; [|eauto].
  destruct (Hstep s Hs Hc) as [[s' ->]|(s' & -> & Hs' & Hdec)]; [eauto|].
  destruct (cond s') eqn:Hc'.
  - apply IH; [assumption|]. specialize (Hdec eq_refl). lia.
  - rewrite while_loop_stops by assumption. eauto.
Qed.

Lemma loop_steps_trans {S : Type} (cond : S -> bool) (body : S -> outcome (loop_ctl S))
    (n m : nat) (s s1 s2 : S) :
  loop_steps cond body n s s1 -> loop_steps cond body m s1 s2 ->
  loop_steps cond body (n + m) s s2.
Proof.
  induction 1 as [|n s sa sb Hc Hb _ IH]; intros H2; [exact H2|].
  cbn [Nat.add]. eapply steps_turn; eauto.
Qed.

Lemma loop_steps_one {S : Type} (cond : S -> bool) (body : S -> outcome (loop_ctl S))
    (s s1 : S) :
  cond s = true -> body s = Done (Continue s1) -> loop_steps cond body 1 s s1.
Proof. intros Hc Hb. eapply steps_turn; eauto using steps_done. Qed.

(** The turns that go on use up as much of the bound. *)
Lemma while_loop_steps {S : Type} (cond : S -> bool) (body : S -> outcome (loop_ctl S))
    (n : nat) (s s' : S) :
  loop_steps cond body n s s' ->
  forall fuel, while_loop (n + fuel) cond body s = while_loop fuel cond body s'.
Proof.
  induction 1 as [|n s sa sb Hc Hb _ IH]; intros fuel; [reflexivity|].
  cbn [Nat.add]. rewrite while_loop_unfold, Hc, Hb. apply IH.
Qed.

(** A loop that goes on for [n] turns and then leaves, by a break or
    because its condition fails. *)
Lemma while_loop_ends {S : Type} (cond : S -> bool) (body : S -> outcome (loop_ctl S))
    (n fuel : nat) (s s1 s2 : S) :
  loop_steps cond body n s s1 -> (n < fuel)%nat -> cond s1 = true ->
  (body s1 = Done (Break s2) \/ (body s1 = Done (Continue s2) /\ cond s2 = false)) ->
  while_loop fuel cond body s = Done s2.
Proof.
  intros Hs Hf Hc Hb.
  replace fuel with (n + Datatypes.S (fuel - n - 1))%nat by lia.
  rewrite (while_loop_steps _ _ _ _ _ Hs), while_loop_unfold, Hc.
  destruct Hb as [->|[-> Hc2]]; [reflexivity|].
  apply while_loop_stops, Hc2.
Qed.

(** A loop whose turns neither abort nor break an invariant: it does not
    abort, and when it returns the invariant holds with the condition
    false, or the last turn has left by a break. *)
Lemma while_loop_safe {S : Type} (P Q : S -> Prop) (cond : S -> bool)
    (body : S -> outcome (loop_ctl S)) :
  (forall s, P s -> cond s = true ->
     match body s with
     | Done (Continue s') => P s'
     | Done (Break s') => Q s'
     | Abort => False
     | OutOfFuel => True
     end) ->
  forall fuel s, P s ->
    match while_loop fuel cond body s with
    | Done s' => (P s' /\ cond s' = false) \/ Q s'
    | Abort => False
    | OutOfFuel => True
    end.
Proof.
  intros Hbody. induction fuel as [|fuel IH]; intros s Hs.
  - cbn [while_loop]. destruct (cond s) eqn:Hc; [exact I|auto].
  - rewrite while_loop_unfold. destruct (cond s) eqn:Hc; [|auto].
    specialize (Hbody s Hs Hc).
    destruct (body s) as [[s'|s']| |]; [apply IH; exact Hbody|right; exact Hbody|exact Hbody|exact I].
Qed.

(** A loop whose turns do not run out of fuel and decrease a measure
    does not run out of fuel either, given more fuel than the measure. *)
Lemma while_loop_bounded {S : Type} (P : S -> Prop) (m : S -> nat) (cond : S -> bool)
    (body : S -> outcome (loop_ctl S)) :
  (forall s, P s -> cond s = true ->
     match body s with
     | Done (Continue s') => P s' /\ (cond s' = true -> (m s' < m s)%nat)
     | Done (Break _) | Abort => True
     | OutOfFuel => False
     end) ->
  forall fuel s, P s -> (m s < fuel)%nat -> while_loop fuel cond body s <> OutOfFuel.
Proof.
  intros Hbody. induction fuel as [|fuel IH]; intros s Hs Hm; [lia|].
  rewrite while_loop_unfold. destruct (cond s) eqn:Hc; [|discriminate].
  specialize (Hbody s Hs Hc).
  destruct (body s) as [[s'|s']| |]; [|discriminate|discriminate|contradiction].
  destruct Hbody as [Hs' Hdec]. destruct (cond s') eqn:Hc'.
  - apply IH; [exact Hs'|]. specialize (Hdec eq_refl). lia.
  - rewrite while_loop_stops by exact Hc'. discriminate.
Qed.

(** * Properties of shastina.c *)
Module ShastinaFacts.
Import Shastina.

(** ** Bytes and the stream *)

Lemma byte_val_range (b : byte) : 0 <= byte_val b <= 255.
Proof.
  unfold byte_val. pose proof (Byte.to_N_bounded b). lia.
Qed.

Lemma byte_val_inj (a b : byte) : byte_val a = byte_val b -> a = b.
Proof.
  unfold byte_val. intros Hab. apply N2Z.inj in Hab.
  pose proof (Byte.of_to_N a) as Ha. rewrite Hab, Byte.of_to_N in Ha. congruence.
Qed.

Lemma ungetc_byte (b : byte) (pIn : FILE) :
  ungetc (byte_val b) pIn = (byte_val b, mkFILE (RawByte b :: pending pIn) false).
Proof.
  unfold ungetc. pose proof (byte_val_range b) as Hb.
  replace (0 <=? byte_val b) with true by (symmetry; apply Z.leb_le; lia).
  replace (byte_val b <=? 255) with true by (symmetry; apply Z.leb_le; lia).
  simpl. unfold byte_val. rewrite N2Z.id, Byte.of_to_N. reflexivity.
Qed.

(** ** Symbolic execution of [snfilter_read] *)

Ltac split_input pIn :=
  let p := fresh "p" in let e := fresh "e" in
  destruct pIn as [p e];
  destruct p as [|[?b|] [|[?b|] [|[?b|] ?r]]]; destruct e.

Ltac bytes_in_range :=
  repeat match goal with
  | b : byte |- _ =>
      lazymatch goal with
      | _ : 0 <= byte_val b <= 255 |- _ => fail
      | _ => pose proof (byte_val_range b)
      end
  end.

Ltac consts :=
  cbv [EOF SNERR_IOERR SNERR_EOF SNERR_BADSIG SNERR_OPENSTR SNERR_LONGSTR
       SNERR_NULLCHR SNERR_DEEPCURLY SNERR_BADCHAR SNERR_LONGTOKEN SNERR_TRAILER
       ASCII_HT ASCII_LF ASCII_CR ASCII_SP ASCII_DQUOTE ASCII_POUNDSIGN
       ASCII_PERCENT ASCII_LPAREN ASCII_RPAREN ASCII_COMMA ASCII_SEMICOLON
       ASCII_LSQR ASCII_BACKSLASH ASCII_RSQR ASCII_GRACCENT ASCII_LCURL
       ASCII_BAR ASCII_RCURL ASCII_VISIBLE_MIN ASCII_VISIBLE_MAX
       SNFILTER_BOM_1 SNFILTER_BOM_2 SNFILTER_BOM_3] in *.

Ltac eval_bytes :=
  repeat match goal with
  | |- context [byte_val ?b] =>
      tryif is_var b then fail
      else (let v := eval vm_compute in (byte_val b) in change (byte_val b) with v)
  end.

Ltac no_if a :=
  lazymatch a with
  | context [if _ then _ else _] => fail
  | _ => idtac
  end.

Ltac step_read :=
  first
    [ rewrite ungetc_byte
    | progress cbn [pending eof_ind fst snd line_count last_c pushback
                    bom_present andb orb negb length]
    | progress eval_bytes
    | rewrite Z.geb_leb
    | rewrite Z.gtb_ltb
    | match goal with
      | |- context [Z.eqb ?a ?b] => no_if a; destruct (Z.eqb_spec a b); try lia
      | |- context [Z.ltb ?a ?b] => no_if a; destruct (Z.ltb_spec a b); try lia
      | |- context [Z.leb ?a ?b] => no_if a; destruct (Z.leb_spec a b); try lia
      end ].

Ltac run_read :=
  unfold snfilter_read_bom, snfilter_read_char, getc_err, feof, getc;
  consts; cbn [pending eof_ind]; repeat step_read.

Lemma snfilter_read_bom_spec f pIn :
  let '(err, f', pIn') := snfilter_read_bom f pIn in
  line_count f' = line_count f /\ last_c f' = last_c f /\ pushback f' = pushback f /\
  (err = 0 \/ err = SNERR_EOF \/ err = SNERR_IOERR \/ err = SNERR_BADSIG) /\
  (length (pending pIn') <= length (pending pIn))%nat /\
  (line_count f <> 0 -> err = 0 /\ f' = f /\ pIn' = pIn).
Proof.
  unfold snfilter_read_bom.
  destruct (Z.eqb_spec (line_count f) 0) as [Hz|Hz]; [|intuition lia].
  split_input pIn; bytes_in_range; run_read.
  all: intuition (try lia; try congruence).
Qed.

Lemma snfilter_read_char_spec f pIn :
  let '(err, f', pIn') := snfilter_read_char f pIn in
  (err = 0 \/ err = SNERR_EOF \/ err = SNERR_IOERR) /\
  pushback f' = pushback f /\
  (err <> 0 -> f' = f) /\
  (length (pending pIn') <= length (pending pIn))%nat /\
  (err = 0 -> 0 <= last_c f' <= 255 /\ last_c f' <> ASCII_CR /\
     (0 <= line_count f -> 0 < line_count f') /\
     (length (pending pIn') < length (pending pIn))%nat).
Proof.
  split_input pIn; bytes_in_range; run_read.
  all: intuition (try lia; try congruence).
Qed.

(** ** The filter invariant *)

Lemma snfilter_read_inv f pIn :
  filter_inv f ->
  filter_inv (snd (fst (snfilter_read f pIn))) /\
  fst (fst (snfilter_read f pIn)) = last_c (snd (fst (snfilter_read f pIn))) /\
  pushback (snd (fst (snfilter_read f pIn))) = 0.
Proof.
  intros [H1 H2 H3 H4 H5]. unfold snfilter_read.
  pose proof (snfilter_read_bom_spec f pIn) as Hb.
  destruct (snfilter_read_bom f pIn) as [[e1 f1] p1].
  destruct Hb as (Hl & Hc & Hp & He & _).
  pose proof (snfilter_read_char_spec f1 p1) as Hr.
  destruct (snfilter_read_char f1 p1) as [[e2 f2] p2].
  destruct Hr as (He2 & Hp2 & Hsame & _ & Hok).
  consts.
  destruct ((e1 =? 0) && (pushback f1 =? 0) &&
            ((line_count f1 =? 0) || (last_c f1 >=? 0))) eqn:Hcond;
    cbn [fst snd last_c line_count pushback bom_present].
  - destruct (Z.eqb_spec e2 0) as [->|Hne].
    + destruct (Hok eq_refl) as (? & ? & ? & ?).
      split; [constructor; cbn; consts; lia | split; reflexivity].
    + rewrite (Hsame Hne).
      split; [constructor; cbn; consts; lia | split; reflexivity].
  - destruct (Z.eqb_spec e1 0) as [->|Hne];
      (split; [constructor; cbn; consts; lia | split; reflexivity]).
Qed.

Lemma snfilter_pushback_inv f :
  filter_inv f -> filter_inv (snd (snfilter_pushback f)).
Proof.
  intros [H1 H2 H3 H4 H5]. unfold snfilter_pushback.
  repeat step_read; constructor; cbn; consts; try lia; try tauto.
Qed.

Lemma filter_reachable_inv f : filter_reachable f -> filter_inv f.
Proof.
  induction 1 as [|f pIn _ IH|f _ IH].
  - constructor; cbn; consts; lia.
  - apply snfilter_read_inv, IH.
  - apply snfilter_pushback_inv, IH.
Qed.

(** A read that delivers a character uses up input. *)
Lemma snfilter_read_consumes f pIn :
  filter_inv f ->
  let '(c, f', pIn') := snfilter_read f pIn in
  0 <= c -> (input_left f' pIn' < input_left f pIn)%nat.
Proof.
  intros [H1 H2 H3 H4 H5]. unfold snfilter_read, input_left.
  pose proof (snfilter_read_bom_spec f pIn) as Hb.
  destruct (snfilter_read_bom f pIn) as [[e1 f1] p1].
  destruct Hb as (Hl & Hc & Hp & He & Hlen & _).
  pose proof (snfilter_read_char_spec f1 p1) as Hr.
  destruct (snfilter_read_char f1 p1) as [[e2 f2] p2].
  destruct Hr as (He2 & Hp2 & Hsame & Hlen2 & Hok).
  consts. rewrite Hp in *.
  destruct (Z.eqb_spec e1 0) as [->|Hne1]; cbn [andb].
  - destruct (Z.eqb_spec (pushback f) 0) as [Hpb|Hpb]; cbn [andb].
    + destruct ((line_count f1 =? 0) || (last_c f1 >=? 0)) eqn:Hcond;
        cbn [fst snd last_c line_count pushback bom_present Z.eqb].
      * destruct (Z.eqb_spec e2 0) as [->|Hne2]; [|lia].
        destruct (Hok eq_refl) as (? & ? & ? & ?). lia.
      * apply orb_false_iff in Hcond as [_ Hcond].
        rewrite Z.geb_leb in Hcond. apply Z.leb_gt in Hcond. lia.
    + cbn [fst snd last_c line_count pushback bom_present Z.eqb]. lia.
  - cbn [fst snd last_c line_count pushback bom_present Z.eqb].
    destruct (Z.eqb_spec e1 0); lia.
Qed.

(** ** Reads from an active filter *)

Lemma filter_after_active f c :
  0 <= line_count f -> 0 <= c ->
  filter_active (filter_after f c) /\ 0 < line_count (filter_after f c).
Proof.
  intros. unfold filter_active, filter_after; cbn.
  destruct (Z.eqb_spec (line_count f) 0); lia.
Qed.

Lemma snfilter_read_plain f e b r :
  filter_active f ->
  byte_val b <> ASCII_CR -> byte_val b <> ASCII_LF ->
  (line_count f = 0 -> byte_val b <> SNFILTER_BOM_1) ->
  exists e',
    snfilter_read f (mkFILE (RawByte b :: r) e) =
      (byte_val b, filter_after f (byte_val b), mkFILE r e').
Proof.
  intros [Hp Hl] Hcr Hlf Hbom. unfold snfilter_read, filter_after.
  pose proof (byte_val_range b).
  run_read.
  all: try (exfalso; apply Hbom; [assumption | reflexivity]).
  all: rewrite ?Hp; repeat step_read.
  all: eauto.
Qed.






(** ** Pushback *)

(** C4, as stated, at a concrete input: after the stream "a" has been read
    to its end the filter holds the result EOF, and [snfilter_pushback]
    still reports success. *)
Lemma snfilter_pushback_terminal_counterexample :
  let '(_, f1, in1) := snfilter_read snfilter_reset (bytes_file [x61] false) in
  let '(c2, f2, _) := snfilter_read f1 in1 in
  c2 = SNERR_EOF /\ fst (snfilter_pushback f2) = 1.
Proof. vm_compute. split; reflexivity. Qed.

(** C4, amended: on a reachable filter, [snfilter_pushback] ignores the
    call and reports success (non-zero) when the most recent read result
    was EOF, an I/O error or BadSignature and a character had been read
    before; it reports failure (zero) when pushback is already active or
    when no character has been read yet. The filter is unchanged in both
    cases. *)
Theorem snfilter_pushback_results (f : SNFILTER) :
  filter_reachable f ->
  (0 < line_count f -> last_c f < 0 -> snfilter_pushback f = (1, f)) /\
  (pushback f <> 0 \/ line_count f = 0 -> snfilter_pushback f = (0, f)).
Proof.
  intros Hf. apply filter_reachable_inv in Hf. destruct Hf as [H1 H2 H3 H4 H5].
  unfold snfilter_pushback. split.
  - intros Hl Hc. repeat step_read. reflexivity.
  - intros [Hp|Hl].
    + destruct (H5 Hp). repeat step_read; reflexivity.
    + repeat step_read; reflexivity.
Qed.

Lemma snfilter_pushback_results_witness :
  filter_reachable snfilter_reset /\
  snfilter_pushback snfilter_reset = (0, snfilter_reset).
Proof.
  split; [exact reach_reset|].
  apply (snfilter_pushback_results snfilter_reset reach_reset).
  right. reflexivity.
Defined.

(** ** The byte order mark *)


(** The same after an early end of file: EF BB, then the end. *)
Lemma snfilter_read_badsig_then_eof :
  let '(c1, f1, in1) := snfilter_read snfilter_reset (bytes_file [xef; xbb] false) in
  let '(c2, _, _) := snfilter_read f1 in1 in
  c1 = SNERR_BADSIG /\ c2 = SNERR_EOF.
Proof. vm_compute. split; reflexivity. Qed.

(** Once a character has been read, a negative result does stay. *)
Lemma snfilter_read_sticky f pIn :
  0 < line_count f -> last_c f < 0 ->
  snfilter_read f pIn =
    (last_c f, mkSNFILTER (line_count f) (last_c f) 0 (bom_present f), pIn).
Proof.
  intros Hl Hc. unfold snfilter_read, snfilter_read_bom.
  repeat step_read; reflexivity.
Qed.

(** ** The string buffer *)

Lemma take_store (p : list Z) (k c : Z) :
  0 <= k < Z.of_nat (length p) ->
  take (Z.to_nat (k + 1)) (store p k c) = take (Z.to_nat k) p ++ [c].
Proof.
  intros Hk. unfold store.
  replace (Z.to_nat (k + 1)) with (S (Z.to_nat k)) by lia.
  rewrite (take_S_r _ _ c) by (apply list_lookup_insert_eq; lia).
  rewrite take_insert_ge by lia. reflexivity.
Qed.

Lemma length_zeros (n : Z) : Z.of_nat (length (zeros n)) = Z.max 0 n.
Proof. unfold zeros. rewrite length_replicate. lia. Qed.

Lemma snbuffer_reset_wf (b : SNBUFFER) :
  buffer_wf b ->
  buffer_wf (snbuffer_reset b 0) /\
  snbuffer_data (snbuffer_reset b 0) = [] /\
  count (snbuffer_reset b 0) = 0 /\
  maxcap (snbuffer_reset b 0) = maxcap b.
Proof.
  intros [H1 H2 H3 H4 H5]. unfold snbuffer_reset, snbuffer_data.
  cbn [Z.eqb negb andb count pBuf cap initcap maxcap Z.to_nat take].
  repeat split; cbn [count pBuf cap initcap maxcap]; try lia.
  rewrite Z.gtb_ltb. destruct (Z.ltb_spec 0 (cap b)); [|assumption].
  rewrite length_zeros. lia.
Qed.

Ltac zcases :=
  repeat first
    [ rewrite Z.geb_leb
    | rewrite Z.gtb_ltb
    | progress cbn [count pBuf cap initcap maxcap andb orb negb fst snd]
    | match goal with
      | |- context [Z.eqb ?a ?b] => no_if a; destruct (Z.eqb_spec a b); try lia
      | |- context [Z.ltb ?a ?b] => no_if a; destruct (Z.ltb_spec a b); try lia
      | |- context [Z.leb ?a ?b] => no_if a; destruct (Z.leb_spec a b); try lia
      end ].

Ltac list_lengths :=
  unfold store;
  rewrite ?length_insert, ?length_app, ?Nat2Z.inj_add, ?length_zeros.

Lemma snbuffer_append_ok (b : SNBUFFER) (c : Z) :
  buffer_wf b -> 1 <= c <= 255 -> count b < maxcap b - 1 ->
  exists b',
    snbuffer_append b c = Done (1, b') /\ buffer_wf b' /\
    snbuffer_data b' = snbuffer_data b ++ [c] /\
    count b' = count b + 1 /\ maxcap b' = maxcap b.
Proof.
  intros [H1 H2 H3 H4 H5] Hc Hroom. unfold snbuffer_append, snbuffer_data.
  zcases.
  all: eexists; split; [reflexivity|]; cbn [count pBuf cap initcap maxcap].
  all: split; [constructor; cbn [count pBuf cap initcap maxcap]; list_lengths; lia|].
  all: split; [|lia].
  all: try rewrite (H4 ltac:(lia)).
  all: rewrite take_store by (list_lengths; lia).
  all: rewrite ?take_app_le by lia; reflexivity.
Qed.

Lemma snbuffer_append_returns (b : SNBUFFER) (c : Z) :
  1 <= c <= 255 -> exists ok b', snbuffer_append b c = Done (ok, b').
Proof.
  intros Hc. unfold snbuffer_append.
  destruct (Z.ltb_spec c 1); [lia|]. rewrite Z.gtb_ltb.
  destruct (Z.ltb_spec 255 c); [lia|]. cbn [orb].
  destruct (count b <? maxcap b - 1); [|eauto].
  destruct (cap b <? 1);
    match goal with
    | |- context [if ?x then _ else _] => destruct x
    end; eauto.
Qed.

(** ** The string readers *)

Lemma snstr_read_err_cases (c : Z) :
  (snstr_read_err c = 0 /\ 0 <= c) \/ (snstr_read_err c <> 0 /\ c < 0).
Proof.
  unfold snstr_read_err. consts. zcases; lia.
Qed.

(** The tail of an iteration returns, and sets the escape flag exactly for
    a backslash. *)
Lemma snstr_store_spec (err c nest : Z) (b : SNBUFFER) (pIn : FILE) (f : SNFILTER) :
  (err = 0 -> 0 <= c <= 255) -> (err <> 0 -> c <> ASCII_BACKSLASH) ->
  exists r',
    snstr_store err c nest b pIn f = Done (Continue r') /\
    r_in r' = pIn /\ r_fil r' = f /\ r_nest r' = nest /\
    (r_err r' = 0 -> err = 0) /\
    (r_esc r' = 1 /\ c = ASCII_BACKSLASH \/ r_esc r' = 0 /\ c <> ASCII_BACKSLASH).
Proof.
  intros Hc Hne. unfold snstr_store. consts.
  destruct (Z.eqb_spec err 0) as [->|He]; cbn [andb].
  - specialize (Hc eq_refl).
    destruct (Z.eqb_spec c 0) as [->|Hz]; cbn [Z.eqb].
    + eexists; split; [reflexivity|]. cbn. intuition lia.
    + destruct (snbuffer_append_returns b c ltac:(lia)) as (ok & b' & ->).
      cbn. eexists; split; [reflexivity|]. cbn.
      destruct (Z.eqb_spec c 92); destruct (Z.eqb_spec ok 0); intuition lia.
  - specialize (Hne He).
    destruct (Z.eqb_spec err 0); [lia|].
    eexists; split; [reflexivity|]. cbn. intuition lia.
Qed.

(** What both loops need to know about the character just read. *)
Lemma snstr_read_facts (f : SNFILTER) (pIn : FILE) :
  filter_inv f ->
  let '(c, f', pIn') := snfilter_read f pIn in
  filter_inv f' /\ -3 <= c <= 255 /\
  (0 <= c -> (input_left f' pIn' < input_left f pIn)%nat).
Proof.
  intros Hf. pose proof (snfilter_read_inv f pIn Hf) as (Hi & Hc & _).
  pose proof (snfilter_read_consumes f pIn Hf) as Hm.
  destruct (snfilter_read f pIn) as [[c f'] pIn']. cbn in *.
  destruct Hi as [? ? ? ? ?]. repeat split; try assumption; lia.
Qed.


Lemma snstr_readQuoted_body_spec (r : reader) :
  filter_inv (r_fil r) ->
  let c := fst (fst (snfilter_read (r_fil r) (r_in r))) in
  (exists r', snstr_readQuoted_body r = Done (Break r') /\
              r_esc r = 0 /\ c = ASCII_DQUOTE) \/
  (exists r', snstr_readQuoted_body r = Done (Continue r') /\
              filter_inv (r_fil r') /\ flag_follows c r' /\
              (r_err r' = 0 ->
               (input_left (r_fil r') (r_in r') < input_left (r_fil r) (r_in r))%nat)).
Proof.
  intros Hf. unfold snstr_readQuoted_body.
  pose proof (snstr_read_facts (r_fil r) (r_in r) Hf) as Hr.
  destruct (snfilter_read (r_fil r) (r_in r)) as [[c f'] pIn']. cbn [fst].
  destruct Hr as (Hf' & Hc & Hm).
  destruct (snstr_read_err_cases c) as [[He Hc0]|[He Hc0]].
  - rewrite He. cbn [Z.eqb andb].
    destruct (Z.eqb_spec (r_esc r) 0) as [Hesc|Hesc]; cbn [andb].
    + destruct (Z.eqb_spec c ASCII_DQUOTE) as [Hq|Hq]; [left; eauto|].
      right.
      destruct (snstr_store_spec 0 c (r_nest r) (r_buf r) pIn' f') as (r' & -> & Hi & Hfl & _ & _ & Hflag);
        [lia | lia |].
      exists r'. rewrite Hi, Hfl. auto.
    + right.
      destruct (snstr_store_spec 0 c (r_nest r) (r_buf r) pIn' f') as (r' & -> & Hi & Hfl & _ & _ & Hflag);
        [lia | lia |].
      exists r'. rewrite Hi, Hfl. auto.
  - destruct (Z.eqb_spec (snstr_read_err c) 0) as [|_]; [contradiction|]. cbn [andb].
    right.
    destruct (snstr_store_spec (snstr_read_err c) c (r_nest r) (r_buf r) pIn' f')
      as (r' & -> & Hi & Hfl & _ & Herr & Hflag); [lia | consts; lia |].
    exists r'. rewrite Hi, Hfl. split; [reflexivity|]. split; [assumption|].
    split; [assumption|]. intros Hz. exfalso. exact (He (Herr Hz)).
Qed.

Lemma snstr_readCurlied_body_spec (r : reader) :
  filter_inv (r_fil r) ->
  let c := fst (fst (snfilter_read (r_fil r) (r_in r))) in
  (exists r', snstr_readCurlied_body r = Done (Break r') /\
              (r_esc r = 0 /\ c = ASCII_RCURL \/ r_nest r < 1)) \/
  (exists r', snstr_readCurlied_body r = Done (Continue r') /\
              filter_inv (r_fil r') /\ flag_follows c r' /\
              (r_err r' = 0 ->
               (input_left (r_fil r') (r_in r') < input_left (r_fil r) (r_in r))%nat)).
Proof.
  intros Hf. unfold snstr_readCurlied_body.
  pose proof (snstr_read_facts (r_fil r) (r_in r) Hf) as Hr.
  destruct (snfilter_read (r_fil r) (r_in r)) as [[c f'] pIn']. cbn [fst].
  destruct Hr as (Hf' & Hc & Hm).
  set (st := if (snstr_read_err c =? 0) && (r_esc r =? 0) then
      if c =? ASCII_LCURL then
        if r_nest r <? LONG_MAX then (snstr_read_err c, r_nest r + 1)
        else (SNERR_DEEPCURLY, r_nest r)
      else if c =? ASCII_RCURL then (snstr_read_err c, r_nest r - 1)
      else (snstr_read_err c, r_nest r)
    else (snstr_read_err c, r_nest r)).
  assert (Hst : (fst st = 0 -> 0 <= c <= 255) /\ (fst st <> 0 -> c <> ASCII_BACKSLASH) /\
                (snd st < 1 -> fst st = 0 -> (r_esc r = 0 /\ c = ASCII_RCURL) \/ r_nest r < 1)).
  { subst st. destruct (snstr_read_err_cases c) as [[He Hc0]|[He Hc0]].
    - rewrite He. consts. unfold LONG_MAX. zcases; cbn [fst snd]; repeat split; try lia.
    - consts. zcases; cbn [fst snd]; repeat split; try lia. }
  destruct st as [err nest]. cbn [fst snd] in Hst. destruct Hst as (H1 & H2 & H3).
  destruct ((err =? 0) && (nest <? 1)) eqn:Hbrk.
  - left. apply andb_true_iff in Hbrk as [Hb1 Hb2].
    apply Z.eqb_eq in Hb1. apply Z.ltb_lt in Hb2. eauto.
  - right.
    destruct (snstr_store_spec err c nest (r_buf r) pIn' f')
      as (r' & -> & Hi & Hfl & _ & Herr & Hflag); [assumption | assumption |].
    exists r'. rewrite Hi, Hfl. split; [reflexivity|]. split; [assumption|].
    split; [assumption|]. intros Hz. apply Hm. specialize (Herr Hz). lia.
Qed.


(** An iteration's tail on a character that fits: it is appended, and the
    escape flag is set for a backslash only. *)
Lemma snstr_store_ok (c nest : Z) (b : SNBUFFER) (pIn : FILE) (f : SNFILTER) :
  1 <= c <= 255 -> buffer_wf b -> count b < maxcap b - 1 ->
  exists b',
    snstr_store 0 c nest b pIn f =
      Done (Continue (mkReader 0 (if c =? ASCII_BACKSLASH then 1 else 0) nest b' pIn f)) /\
    buffer_wf b' /\ snbuffer_data b' = snbuffer_data b ++ [c] /\
    count b' = count b + 1 /\ maxcap b' = maxcap b.
Proof.
  intros Hc Hwf Hroom.
  destruct (snbuffer_append_ok b c Hwf Hc Hroom) as (b' & Happ & Hwf' & Hd & Hn & Hm).
  exists b'. unfold snstr_store. cbn [Z.eqb andb].
  destruct (Z.eqb_spec c 0); [lia|]. rewrite Happ. cbn. auto.
Qed.


Lemma snstr_readQuoted_body_plain (r : reader) (b : byte) data rest room :
  reading r data (RawByte b :: rest) (room + 1) -> 0 <= room ->
  byte_val b <> ASCII_CR -> byte_val b <> ASCII_LF -> byte_val b <> 0 ->
  byte_val b <> SNFILTER_BOM_1 ->
  (r_esc r <> 0 \/ byte_val b <> ASCII_DQUOTE) ->
  exists r',
    snstr_readQuoted_body r = Done (Continue r') /\
    r_err r' = 0 /\ r_nest r' = r_nest r /\
    r_esc r' = (if byte_val b =? ASCII_BACKSLASH then 1 else 0) /\
    reading r' (data ++ [byte_val b]) rest room.
Proof.
  intros (Hwf & Hd & Hroom & Hact & Hl & Hin) Hr0 Hcr Hlf Hz Hbom Hesc.
  unfold snstr_readQuoted_body. destruct (r_in r) as [p e]. cbn in Hin. subst p.
  destruct (snfilter_read_plain (r_fil r) e b rest Hact Hcr Hlf (fun _ => Hbom)) as [e' ->].
  pose proof (byte_val_range b) as Hb.
  destruct (snstr_read_err_cases (byte_val b)) as [[-> _]|[_ ?]]; [|lia].
  cbn [Z.eqb andb].
  replace ((r_esc r =? 0) && (byte_val b =? ASCII_DQUOTE)) with false
    by (symmetry; apply andb_false_iff; destruct Hesc; [left|right]; apply Z.eqb_neq; assumption).
  destruct (snstr_store_ok (byte_val b) (r_nest r) (r_buf r) (mkFILE rest e')
              (filter_after (r_fil r) (byte_val b)))
    as (b' & -> & Hwf' & Hd' & Hn' & Hm'); [lia | assumption | lia |].
  eexists. split; [reflexivity|]. cbn [r_err r_esc r_nest r_buf r_in r_fil].
  destruct (filter_after_active (r_fil r) (byte_val b)) as [Hact' Hl']; [lia | lia |].
  unfold reading. cbn [r_err r_esc r_nest r_buf r_in r_fil pending].
  rewrite Hd', Hd, Hn', Hm'.
  split; [reflexivity|]. split; [reflexivity|]. split; [reflexivity|].
  split; [assumption|]. split; [reflexivity|]. split; [lia|].
  split; [exact Hact'|]. split; [lia|reflexivity].
Qed.

Lemma snstr_readCurlied_body_plain (r : reader) (b : byte) data rest room :
  reading r data (RawByte b :: rest) (room + 1) -> 0 <= room ->
  byte_val b <> ASCII_CR -> byte_val b <> ASCII_LF -> byte_val b <> 0 ->
  byte_val b <> SNFILTER_BOM_1 ->
  (r_esc r <> 0 \/ (byte_val b <> ASCII_LCURL /\ byte_val b <> ASCII_RCURL)) ->
  1 <= r_nest r ->
  exists r',
    snstr_readCurlied_body r = Done (Continue r') /\
    r_err r' = 0 /\ r_nest r' = r_nest r /\
    r_esc r' = (if byte_val b =? ASCII_BACKSLASH then 1 else 0) /\
    reading r' (data ++ [byte_val b]) rest room.
Proof.
  intros (Hwf & Hd & Hroom & Hact & Hl & Hin) Hr0 Hcr Hlf Hz Hbom Hesc Hnest.
  unfold snstr_readCurlied_body. destruct (r_in r) as [p e]. cbn in Hin. subst p.
  destruct (snfilter_read_plain (r_fil r) e b rest Hact Hcr Hlf (fun _ => Hbom)) as [e' ->].
  pose proof (byte_val_range b) as Hb.
  destruct (snstr_read_err_cases (byte_val b)) as [[-> _]|[_ ?]]; [|lia].
  cbn [Z.eqb andb].
  assert ((if r_esc r =? 0
           then if byte_val b =? ASCII_LCURL
                then if r_nest r <? LONG_MAX then (0, r_nest r + 1)
                     else (SNERR_DEEPCURLY, r_nest r)
                else if byte_val b =? ASCII_RCURL then (0, r_nest r - 1)
                     else (0, r_nest r)
           else (0, r_nest r)) = (0, r_nest r)) as ->.
  { destruct (Z.eqb_spec (r_esc r) 0); [|reflexivity].
    destruct Hesc as [?|[? ?]]; [contradiction|].
    destruct (Z.eqb_spec (byte_val b) ASCII_LCURL); [contradiction|].
    destruct (Z.eqb_spec (byte_val b) ASCII_RCURL); [contradiction|]. reflexivity. }
  cbn [Z.eqb andb]. destruct (Z.ltb_spec (r_nest r) 1); [lia|].
  destruct (snstr_store_ok (byte_val b) (r_nest r) (r_buf r) (mkFILE rest e')
              (filter_after (r_fil r) (byte_val b)))
    as (b' & -> & Hwf' & Hd' & Hn' & Hm'); [lia | assumption | lia |].
  eexists. split; [reflexivity|]. cbn [r_err r_esc r_nest r_buf r_in r_fil].
  destruct (filter_after_active (r_fil r) (byte_val b)) as [Hact' Hl']; [lia | lia |].
  unfold reading. cbn [r_err r_esc r_nest r_buf r_in r_fil pending].
  rewrite Hd', Hd, Hn', Hm'.
  split; [reflexivity|]. split; [reflexivity|]. split; [reflexivity|].
  split; [assumption|]. split; [reflexivity|]. split; [lia|].
  split; [exact Hact'|]. split; [lia|reflexivity].
Qed.


(** A concrete byte is not a given character. *)
Ltac byte_neq :=
  match goal with
  | |- byte_val ?b <> ?c => let H := fresh in intros H; vm_compute in H; discriminate H
  end.

(** C2, as stated, at a concrete input: for the string data backslash,
    backslash, double quote, x, double quote, y the quoted reader does not
    end the literal at the first double quote; it ends at the second, with
    the first one among the data. *)
Lemma snstr_readQuoted_pair_counterexample :
  exists r,
    snstr_readQuoted 8 (mkSNBUFFER [] 0 0 32 65535)
      (bytes_file [x5c; x5c; x22; x78; x22; x79] false) snfilter_reset = Done r /\
    r_err r = 0 /\
    snbuffer_data (r_buf r) = [0x5c; 0x5c; 0x22; 0x78] /\
    pending (r_in r) = [RawByte x79].
Proof. eexists. split; [vm_compute; reflexivity|]. vm_compute. auto. Qed.

(** C2, amended: in both string readers the escape flag after an
    iteration that goes on is set exactly when the character just read is
    a backslash, whatever the flag was before. So the second backslash of
    a pair sets the flag again, and a closing delimiter that follows the
    pair is escaped: for the data backslash, backslash, delimiter the
    reader appends all three characters and is still reading after them
    (the curly reader keeps its nesting level). *)
Theorem snstr_escape_flag_pair (r : reader) (data : list Z) (bs : list byte) :
  filter_reachable (r_fil r) ->
  let c := fst (fst (snfilter_read (r_fil r) (r_in r))) in
  (forall r', snstr_readQuoted_body r = Done (Continue r') -> flag_follows c r') /\
  (forall r', snstr_readCurlied_body r = Done (Continue r') -> flag_follows c r') /\
  (reading r data (map RawByte (x5c :: x5c :: x22 :: bs)) 3 ->
   exists r1 r2 r3,
     snstr_readQuoted_body r = Done (Continue r1) /\ r_esc r1 = 1 /\
     snstr_readQuoted_body r1 = Done (Continue r2) /\ r_esc r2 = 1 /\
     snstr_readQuoted_body r2 = Done (Continue r3) /\ r_esc r3 = 0 /\
     r_err r3 = 0 /\
     reading r3 (data ++ [0x5c; 0x5c; 0x22]) (map RawByte bs) 0) /\
  (reading r data (map RawByte (x5c :: x5c :: x7d :: bs)) 3 -> 1 <= r_nest r ->
   exists r1 r2 r3,
     snstr_readCurlied_body r = Done (Continue r1) /\ r_esc r1 = 1 /\
     snstr_readCurlied_body r1 = Done (Continue r2) /\ r_esc r2 = 1 /\
     snstr_readCurlied_body r2 = Done (Continue r3) /\ r_esc r3 = 0 /\
     r_err r3 = 0 /\ r_nest r3 = r_nest r /\
     reading r3 (data ++ [0x5c; 0x5c; 0x7d]) (map RawByte bs) 0).
Proof.
  intros Hreach c. pose proof (filter_reachable_inv _ Hreach) as Hinv.
  split; [|split; [|split]].
  - intros r' Hb.
    destruct (snstr_readQuoted_body_spec r Hinv) as [(r1 & Hb1 & _)|(r1 & Hb1 & _ & Hfl & _)];
      rewrite Hb in Hb1; [discriminate|]. injection Hb1 as <-. exact Hfl.
  - intros r' Hb.
    destruct (snstr_readCurlied_body_spec r Hinv) as [(r1 & Hb1 & _)|(r1 & Hb1 & _ & Hfl & _)];
      rewrite Hb in Hb1; [discriminate|]. injection Hb1 as <-. exact Hfl.
  - intros Hrd. cbn [map] in Hrd.
    destruct (snstr_readQuoted_body_plain r x5c data _ 2 Hrd)
      as (r1 & Hb1 & _ & _ & Hesc1 & Hrd1);
      [lia | byte_neq | byte_neq | byte_neq | byte_neq | right; byte_neq |].
    destruct (snstr_readQuoted_body_plain r1 x5c _ _ 1 Hrd1)
      as (r2 & Hb2 & _ & _ & Hesc2 & Hrd2);
      [lia | byte_neq | byte_neq | byte_neq | byte_neq | right; byte_neq |].
    destruct (snstr_readQuoted_body_plain r2 x22 _ _ 0 Hrd2)
      as (r3 & Hb3 & Herr3 & _ & Hesc3 & Hrd3);
      [lia | byte_neq | byte_neq | byte_neq | byte_neq | left; rewrite Hesc2; discriminate |].
    exists r1, r2, r3. rewrite <- !app_assoc in Hrd3.
    repeat (split; [assumption|]). assumption.
  - intros Hrd Hnest. cbn [map] in Hrd.
    destruct (snstr_readCurlied_body_plain r x5c data _ 2 Hrd)
      as (r1 & Hb1 & _ & Hn1 & Hesc1 & Hrd1);
      [lia | byte_neq | byte_neq | byte_neq | byte_neq
      | right; split; byte_neq | assumption |].
    destruct (snstr_readCurlied_body_plain r1 x5c _ _ 1 Hrd1)
      as (r2 & Hb2 & _ & Hn2 & Hesc2 & Hrd2);
      [lia | byte_neq | byte_neq | byte_neq | byte_neq
      | right; split; byte_neq | lia |].
    destruct (snstr_readCurlied_body_plain r2 x7d _ _ 0 Hrd2)
      as (r3 & Hb3 & Herr3 & Hn3 & Hesc3 & Hrd3);
      [lia | byte_neq | byte_neq | byte_neq | byte_neq
      | left; rewrite Hesc2; discriminate | lia |].
    exists r1, r2, r3. rewrite <- !app_assoc in Hrd3.
    repeat (split; [assumption|]). split; [lia | assumption].
Qed.

Lemma snstr_escape_flag_pair_witness :
  let r := mkReader 0 0 1 (mkSNBUFFER [] 0 0 32 65535)
             (bytes_file [x5c; x5c; x22; x78] false) snfilter_reset in
  filter_reachable (r_fil r) /\
  exists r1 r2 r3,
    snstr_readQuoted_body r = Done (Continue r1) /\ r_esc r1 = 1 /\
    snstr_readQuoted_body r1 = Done (Continue r2) /\ r_esc r2 = 1 /\
    snstr_readQuoted_body r2 = Done (Continue r3) /\ r_esc r3 = 0 /\
    r_err r3 = 0 /\
    reading r3 ([] ++ [0x5c; 0x5c; 0x22]) (map RawByte [x78]) 0.
Proof.
  intros r. split; [exact reach_reset|].
  destruct (snstr_escape_flag_pair r [] [x78] reach_reset) as (_ & _ & Htrace & _).
  apply Htrace.
  unfold reading, r; cbn [r_buf r_in r_fil bytes_file pending map].
  split; [constructor; cbn; lia|]. 
  split; [reflexivity|]. split; [cbn; lia|].
  split; [split; [reflexivity | left; reflexivity]|]. split; [cbn; lia | reflexivity].
Defined.

(** C10: the string readers hand [snbuffer_append] only characters in
    1..255 (a filter result that is neither negative nor zero is at most
    255), so neither reader reaches an [abort()]; and both return once the
    bound on their loop exceeds what is left of the input. *)
Theorem snstr_readers_never_abort (fuel : nat) (pBuffer : SNBUFFER)
    (pIn : FILE) (pFilter : SNFILTER) :
  filter_reachable pFilter ->
  (let c := fst (fst (snfilter_read pFilter pIn)) in
   snstr_read_err c = 0 -> c <> 0 -> 1 <= c <= 255) /\
  snstr_readQuoted fuel pBuffer pIn pFilter <> Abort /\
  snstr_readCurlied fuel pBuffer pIn pFilter <> Abort /\
  ((input_left pFilter pIn < fuel)%nat ->
   (exists r, snstr_readQuoted fuel pBuffer pIn pFilter = Done r) /\
   (exists r, snstr_readCurlied fuel pBuffer pIn pFilter = Done r)).
Proof.
  intros Hreach. pose proof (filter_reachable_inv _ Hreach) as Hinv.
  split; [|split; [|split]].
  - pose proof (snstr_read_facts pFilter pIn Hinv) as Hr.
    destruct (snfilter_read pFilter pIn) as [[c f'] pIn']. cbn [fst].
    destruct Hr as (_ & Hc & _). intros He Hz.
    destruct (snstr_read_err_cases c) as [[_ ?]|[? _]]; [lia | contradiction].
  - unfold snstr_readQuoted.
    apply (while_loop_no_abort (fun r => filter_inv (r_fil r))); [| |exact Hinv].
    + intros r Hr Hab.
      destruct (snstr_readQuoted_body_spec r Hr) as [(r' & Hb & _)|(r' & Hb & _)];
        congruence.
    + intros r r' Hr Hb.
      destruct (snstr_readQuoted_body_spec r Hr) as [(r1 & Hb1 & _)|(r1 & Hb1 & Hi & _)];
        congruence.
  - unfold snstr_readCurlied.
    apply (while_loop_no_abort (fun r => filter_inv (r_fil r))); [| |exact Hinv].
    + intros r Hr Hab.
      destruct (snstr_readCurlied_body_spec r Hr) as [(r' & Hb & _)|(r' & Hb & _)];
        congruence.
    + intros r r' Hr Hb.
      destruct (snstr_readCurlied_body_spec r Hr) as [(r1 & Hb1 & _)|(r1 & Hb1 & Hi & _)];
        congruence.
  - intros Hfuel. split.
    + unfold snstr_readQuoted.
      apply (while_loop_returns (fun r => filter_inv (r_fil r))
               (fun r => input_left (r_fil r) (r_in r))); [|exact Hinv|exact Hfuel].
      intros r Hr _.
      destruct (snstr_readQuoted_body_spec r Hr) as [(r' & Hb & _)|(r' & Hb & Hi & _ & Hm)];
        [left; eauto|].
      right. exists r'. split; [assumption|]. split; [assumption|].
      unfold reader_running. intros Hrun. apply Hm, Z.eqb_eq, Hrun.
    + unfold snstr_readCurlied.
      apply (while_loop_returns (fun r => filter_inv (r_fil r))
               (fun r => input_left (r_fil r) (r_in r))); [|exact Hinv|exact Hfuel].
      intros r Hr _.
      destruct (snstr_readCurlied_body_spec r Hr) as [(r' & Hb & _)|(r' & Hb & Hi & _ & Hm)];
        [left; eauto|].
      right. exists r'. split; [assumption|]. split; [assumption|].
      unfold reader_running. intros Hrun. apply Hm, Z.eqb_eq, Hrun.
Qed.

Lemma snstr_readers_never_abort_witness :
  filter_reachable snfilter_reset /\
  snstr_readQuoted 4 (mkSNBUFFER [] 0 0 32 65535) (bytes_file [x61; x22] false)
    snfilter_reset <> Abort.
Proof.
  split; [exact reach_reset|].
  apply (snstr_readers_never_abort 4 (mkSNBUFFER [] 0 0 32 65535)
           (bytes_file [x61; x22] false) snfilter_reset reach_reset).
Defined.

(** ** The token scanner of shastina.c *)

Lemma snbuffer_append_grows (b : SNBUFFER) (c ok : Z) (b' : SNBUFFER) :
  buffer_wf b -> snbuffer_append b c = Done (ok, b') ->
  buffer_wf b' /\
  ((ok = 0 /\ b' = b) \/ (ok = 1 /\ snbuffer_data b' = snbuffer_data b ++ [c])).
Proof.
  intros Hwf Happ.
  destruct (Z.ltb_spec (count b) (maxcap b - 1)) as [Hroom|Hfull].
  - assert (1 <= c <= 255) as Hc.
    { unfold snbuffer_append in Happ.
      destruct (Z.ltb_spec c 1); [discriminate|]. rewrite Z.gtb_ltb in Happ.
      destruct (Z.ltb_spec 255 c); [discriminate|]. lia. }
    destruct (snbuffer_append_ok b c Hwf Hc Hroom) as (b1 & Happ1 & Hwf1 & Hd1 & _).
    rewrite Happ1 in Happ. injection Happ as <- <-. auto.
  - unfold snbuffer_append in Happ.
    destruct ((c <? 1) || (c >? 255)); [discriminate|].
    destruct (Z.ltb_spec (count b) (maxcap b - 1)); [lia|].
    injection Happ as <- <-. auto.
Qed.

Lemma sntk_readToken_body_starts (c0 : Z) (s : scanner) (ctl : loop_ctl scanner) :
  token_starts c0 (s_buf s) -> sntk_readToken_body s = Done ctl ->
  match ctl with Continue s' | Break s' => token_starts c0 (s_buf s') end.
Proof.
  intros (Hwf & tl & Hd) Hb. unfold sntk_readToken_body in Hb.
  destruct (snfilter_read (s_fil s) (s_in s)) as [[c f'] pIn'].
  set (err := if (_ && _) then _ else _) in Hb. clearbody err.
  match type of Hb with context [mbind _ ?m] => destruct m as [[[lv om] f2]| |] end;
    cbn [mbind outcome_mbind outcome_bind] in Hb; try discriminate.
  destruct ((err =? 0) && (om =? 0)).
  - destruct (snbuffer_append (s_buf s) c) as [[ok b']| |] eqn:Happ;
      cbn [mbind outcome_mbind outcome_bind] in Hb; try discriminate.
    destruct (snbuffer_append_grows _ _ _ _ Hwf Happ) as (Hwf' & [[_ ->]|[_ Hd']]).
    + destruct (_ && _) in Hb; injection Hb as <-; cbn; split; eauto.
    + destruct (_ && _) in Hb; injection Hb as <-; cbn; split; auto;
        rewrite Hd', Hd; eauto.
  - cbn [mbind outcome_mbind outcome_bind] in Hb.
    destruct (_ && _) in Hb; injection Hb as <-; cbn; split; eauto.
Qed.

(** The last stage of [sntk_readToken]: the loop over the rest of the
    token, entered only when the first character is not atomic. *)
Lemma sntk_readToken_rest (fuel : nat) (c0 err term : Z) (b : SNBUFFER)
    (pIn : FILE) (pF : SNFILTER) (b' : SNBUFFER) (pIn' : FILE) (f' : SNFILTER) :
  token_starts c0 b ->
  (if (err =? 0) && (term =? 0) && (snchar_isatomic c0 =? 0) then
     s ← while_loop fuel (fun s => s_err s =? 0) sntk_readToken_body
           (mkScanner err 0 0 b pIn pF);
     Done (s_err s, s_buf s, s_in s, s_fil s)
   else Done (err, b, pIn, pF)) = Done (0, b', pIn', f') ->
  token_starts c0 b' /\
  (snchar_isatomic c0 <> 0 -> b' = b /\ pIn' = pIn /\ f' = pF).
Proof.
  intros Hs Hrun.
  destruct ((err =? 0) && (term =? 0) && (snchar_isatomic c0 =? 0)) eqn:Hcond.
  - apply andb_true_iff in Hcond as [_ Hat]. apply Z.eqb_eq in Hat.
    split; [|intros; contradiction].
    destruct (while_loop _ _ _ _) as [s| |] eqn:Hloop;
      cbn [mbind outcome_mbind outcome_bind] in Hrun; try discriminate.
    injection Hrun as _ <- _ _.
    apply (while_loop_invariant (fun s => token_starts c0 (s_buf s))) in Hloop.
    + apply Hloop.
    + intros s0 s1 Hs0 _ Hb. exact (sntk_readToken_body_starts c0 s0 _ Hs0 Hb).
    + intros s0 s1 Hs0 _ Hb. exact (sntk_readToken_body_starts c0 s0 _ Hs0 Hb).
    + exact Hs.
  - injection Hrun as _ <- <- <-. auto.
Qed.

(** A successful [sntk_readToken]: the token starts with the first
    character read after the blanks and comments, and when that character
    is atomic the token is that character and nothing more was read. *)
Lemma sntk_readToken_first (fuel : nat) (pBuffer : SNBUFFER) (pIn : FILE)
    (pFilter : SNFILTER) (b' : SNBUFFER) (pIn' : FILE) (f' : SNFILTER) :
  buffer_wf pBuffer ->
  sntk_readToken fuel pBuffer pIn pFilter = Done (0, b', pIn', f') ->
  exists f1 in1 c0 f2 in2,
    sntk_skip fuel pIn pFilter = Done (f1, in1) /\
    snfilter_read f1 in1 = (c0, f2, in2) /\
    token_starts c0 b' /\
    (snchar_isatomic c0 <> 0 ->
     snbuffer_data b' = [c0] /\ f' = f2 /\ pIn' = in2).
Proof.
  intros Hwf Hrun. unfold sntk_readToken in Hrun.
  destruct (snbuffer_reset_wf pBuffer Hwf) as (Hwf0 & Hd0 & _).
  destruct (sntk_skip fuel pIn pFilter) as [[f1 in1]| |] eqn:Hskip; try discriminate.
  cbn [mbind outcome_mbind outcome_bind] in Hrun.
  destruct (snfilter_read f1 in1) as [[c0 f2] in2] eqn:Hread.
  exists f1, in1, c0, f2, in2. split; [reflexivity|]. split; [exact Hread|].
  set (err0 := if (_ && _) then _ else _) in Hrun.
  destruct (Z.eqb_spec err0 0) as [He0|He0].
  2: { (* an error at the first character stays to the end *)
    cbn [mbind outcome_mbind outcome_bind] in Hrun.
    destruct (Z.eqb_spec err0 0); [contradiction|].
    cbn [andb negb mbind outcome_mbind outcome_bind] in Hrun.
    destruct (Z.eqb_spec err0 0); [contradiction|].
    cbn [andb negb mbind outcome_mbind outcome_bind] in Hrun.
    destruct (Z.eqb_spec err0 0); [contradiction|].
    cbn [andb negb mbind outcome_mbind outcome_bind] in Hrun. congruence. }
  rewrite He0 in Hrun. clear err0 He0.
  destruct (snbuffer_append (snbuffer_reset pBuffer 0) c0) as [[ok b1]| |] eqn:Happ;
    cbn [mbind outcome_mbind outcome_bind] in Hrun; try discriminate.
  destruct (snbuffer_append_grows _ _ _ _ Hwf0 Happ) as (Hwf1 & [[-> ->]|[-> Hd1]]).
  { cbn [Z.eqb andb negb mbind outcome_mbind outcome_bind] in Hrun. consts.
    cbn [Z.eqb andb negb mbind outcome_mbind outcome_bind] in Hrun. congruence. }
  rewrite Hd0 in Hd1. cbn [app Z.eqb andb] in Hd1, Hrun.
  assert (Hs1 : token_starts c0 b1) by (split; eauto).
  (* the stage of the vertical bar *)
  match type of Hrun with
  | mbind _ ?m = _ => destruct m as [[[[[e1 t1] b2] in3] f3]| |] eqn:Hbar
  end; cbn [mbind outcome_mbind outcome_bind] in Hrun; try discriminate.
  assert (Hs2 : token_starts c0 b2 /\
                (c0 <> ASCII_BAR -> e1 = 0 /\ t1 = 0 /\ b2 = b1 /\ in3 = in2 /\ f3 = f2)).
  { destruct (Z.eqb_spec c0 ASCII_BAR) as [Hc|Hc].
    - split; [|intros; contradiction].
      destruct (snfilter_read f2 in2) as [[c2 f4] in4].
      destruct (_ && _) in Hbar.
      + destruct (snbuffer_append b1 c2) as [[ok2 b3]| |] eqn:Happ2;
          cbn [mbind outcome_mbind outcome_bind] in Hbar; try discriminate.
        injection Hbar as _ _ <- _ _.
        destruct (snbuffer_append_grows _ _ _ _ Hwf1 Happ2) as (Hwf2 & [[_ ->]|[_ Hd2]]);
          [assumption|]. split; [assumption|]. rewrite Hd2, Hd1. cbn. eauto.
      + destruct (snfilter_pushback f4) as [ok3 f5].
        destruct (ok3 =? 0); [discriminate|]. injection Hbar as _ _ <- _ _. assumption.
    - injection Hbar as <- <- <- <- <-. auto 6. }
  destruct Hs2 as [Hs2 Hplain].
  (* the stage of the final token *)
  match type of Hrun with
  | mbind _ ?m = _ => destruct m as [[[e2 in4] f4]| |] eqn:Hterm
  end; cbn [mbind outcome_mbind outcome_bind] in Hrun; try discriminate.
  destruct (sntk_readToken_rest fuel c0 e2 t1 b2 in4 f4 b' pIn' f' Hs2 Hrun) as [Hs' Hat].
  split; [assumption|]. intros Hatomic.
  destruct (Hat Hatomic) as (-> & -> & ->).
  assert (c0 <> ASCII_BAR) as Hnb by (intros ->; apply Hatomic; reflexivity).
  destruct (Hplain Hnb) as (-> & -> & -> & -> & ->).
  cbn [Z.eqb andb negb] in Hterm. injection Hterm as _ <- <-. auto.
Qed.

(** C3 for shastina.c: a token read by [sntk_readToken] whose first
    character is one of the eleven characters of [snchar_isatomic] is that
    single character, and the scanner has read nothing after it. *)
Lemma sntk_readToken_atomic (fuel : nat) (pBuffer : SNBUFFER) (pIn : FILE)
    (pFilter : SNFILTER) (b' : SNBUFFER) (pIn' : FILE) (f' : SNFILTER) (c : Z) :
  buffer_wf pBuffer ->
  sntk_readToken fuel pBuffer pIn pFilter = Done (0, b', pIn', f') ->
  head (snbuffer_data b') = Some c -> snchar_isatomic c <> 0 ->
  snbuffer_data b' = [c] /\
  exists f1 in1,
    sntk_skip fuel pIn pFilter = Done (f1, in1) /\
    snfilter_read f1 in1 = (c, f', pIn').
Proof.
  intros Hwf Hrun Hhead Hat.
  destruct (sntk_readToken_first fuel pBuffer pIn pFilter b' pIn' f' Hwf Hrun)
    as (f1 & in1 & c0 & f2 & in2 & Hskip & Hread & (_ & tl & Hd) & Hatomic).
  rewrite Hd in Hhead. cbn in Hhead. injection Hhead as ->.
  destruct (Hatomic Hat) as (Hd' & -> & ->). eauto.
Qed.

(** ** The string held by a buffer *)

Lemma c_string_take (p : list Z) (n : nat) :
  Forall (fun c => 1 <= c <= 255) (take n p) -> nth n p 0 = 0 ->
  c_string p = take n p.
Proof.
  revert n. induction p as [|x p IH]; intros n Hall Hz.
  - rewrite take_nil. reflexivity.
  - destruct n as [|n]; cbn [c_string take nth] in *.
    + subst x. reflexivity.
    + inversion Hall as [|? ? Hx Hall']; subst.
      destruct (Z.eqb_spec x 0); [lia|]. f_equal. apply IH; assumption.
Qed.

Lemma nth_zeros (i : nat) (n : Z) : nth i (zeros n) 0 = 0.
Proof.
  unfold zeros. destruct (Nat.lt_ge_cases i (Z.to_nat n)).
  - apply nth_lookup_Some with (d := 0). apply lookup_replicate. auto.
  - apply nth_overflow. rewrite length_replicate. lia.
Qed.

Lemma nth_app_zeros (i : nat) (p : list Z) (n : Z) :
  nth i p 0 = 0 -> nth i (p ++ zeros n) 0 = 0.
Proof.
  intros Hz. destruct (Nat.lt_ge_cases i (length p)).
  - rewrite app_nth1 by assumption. exact Hz.
  - rewrite app_nth2 by lia. apply nth_zeros.
Qed.

Lemma nth_store_other (p : list Z) (k v : Z) (i : nat) :
  i <> Z.to_nat k -> nth i (store p k v) 0 = nth i p 0.
Proof.
  intros Hne. unfold store.
  destruct (Nat.lt_ge_cases i (length p)) as [Hlt|Hge].
  - destruct (lookup_lt_is_Some_2 p i Hlt) as [x Hx].
    rewrite (nth_lookup_Some _ _ 0 x) by (rewrite list_lookup_insert_ne by lia; exact Hx).
    symmetry. apply nth_lookup_Some with (d := 0). exact Hx.
  - rewrite !nth_overflow by (rewrite ?length_insert; lia). reflexivity.
Qed.

Lemma load_store_same (p : list Z) (k v : Z) :
  0 <= k < Z.of_nat (length p) -> load (store p k v) k = v.
Proof.
  intros Hk. unfold load, store.
  apply nth_lookup_Some with (d := 0). apply list_lookup_insert_eq. lia.
Qed.

Lemma snbuffer_init_str (icap mcap : Z) (b : SNBUFFER) :
  snbuffer_init icap mcap = Done b ->
  buffer_str b /\ maxcap b <= 2147483647 /\ b = mkSNBUFFER [] 0 0 icap mcap.
Proof.
  unfold snbuffer_init. rewrite !Z.gtb_ltb.
  destruct (Z.leb_spec icap 0); [discriminate|].
  destruct (Z.ltb_spec mcap icap); [discriminate|].
  destruct (Z.ltb_spec (LONG_MAX / 2) mcap); [discriminate|]. cbn [orb].
  destruct (Z.ltb_spec 2147483647 mcap); [discriminate|].
  intros [= <-]. split; [|split; [cbn; lia | reflexivity]].
  constructor.
  - constructor; cbn; lia.
  - cbn. constructor.
  - intros i _. cbn. destruct i; reflexivity.
Qed.

Lemma snbuffer_reset_str (b : SNBUFFER) (full : Z) :
  buffer_str b ->
  buffer_str (snbuffer_reset b full) /\
  snbuffer_data (snbuffer_reset b full) = [] /\
  maxcap (snbuffer_reset b full) = maxcap b /\
  initcap (snbuffer_reset b full) = initcap b.
Proof.
  intros [[H1 H2 H3 H4 H5] _ Hz]. unfold snbuffer_reset, snbuffer_data.
  rewrite !Z.gtb_ltb.
  assert (forall i, nth i (if 0 <? cap b then zeros (cap b) else pBuf b) 0 = 0) as Hnth.
  { intros i. destruct (Z.ltb_spec 0 (cap b)); [apply nth_zeros|].
    apply Hz. rewrite H4 by lia. lia. }
  destruct (negb (full =? 0) && (0 <? cap b)) eqn:Hfull;
    cbn [count pBuf cap initcap maxcap Z.to_nat take].
  - split; [|auto]. constructor.
    + constructor; cbn [count pBuf cap initcap maxcap]; lia.
    + cbn. constructor.
    + intros i _. cbn [pBuf]. apply Hnth.
  - split; [|auto]. constructor.
    + constructor; cbn [count pBuf cap initcap maxcap]; try lia.
      intros Hpos. destruct (Z.ltb_spec 0 (cap b)); [rewrite length_zeros; lia | lia].
    + cbn. constructor.
    + intros i _. cbn [pBuf]. apply Hnth.
Qed.

Lemma snbuffer_append_str (b : SNBUFFER) (c ok : Z) (b' : SNBUFFER) :
  buffer_str b -> snbuffer_append b c = Done (ok, b') ->
  buffer_str b' /\ maxcap b' = maxcap b /\ initcap b' = initcap b.
Proof.
  intros [Hwf Hch Hz] Happ.
  destruct (snbuffer_append_grows b c ok b' Hwf Happ) as (Hwf' & [[-> ->]|[-> Hd]]).
  { split; [constructor; assumption | auto]. }
  assert (1 <= c <= 255) as Hc.
  { unfold snbuffer_append in Happ.
    destruct (Z.ltb_spec c 1); [discriminate|]. rewrite Z.gtb_ltb in Happ.
    destruct (Z.ltb_spec 255 c); [discriminate|]. lia. }
  assert (count b' = count b + 1 /\ maxcap b' = maxcap b /\ initcap b' = initcap b /\
          forall i, (Z.to_nat (count b + 1) <= i)%nat -> nth i (pBuf b') 0 = 0)
    as (Hn & Hm & Hi & Hz').
  { destruct Hwf as [H1 H2 H3 H4 H5]. unfold snbuffer_append in Happ.
    destruct (Z.ltb_spec c 1); [lia|]. rewrite Z.gtb_ltb in Happ.
    destruct (Z.ltb_spec 255 c); [lia|]. cbn [orb] in Happ.
    destruct (Z.ltb_spec (count b) (maxcap b - 1)); [|congruence].
    destruct (Z.ltb_spec (cap b) 1).
    - rewrite Z.geb_leb in Happ.
      destruct (Z.leb_spec (initcap b - 1) (count b));
        injection Happ as <-; cbn [count pBuf cap initcap maxcap];
        (repeat split; try reflexivity); intros i Hi'; rewrite nth_store_other by lia;
        rewrite ?nth_app_zeros; auto using nth_zeros.
    - rewrite Z.geb_leb in Happ.
      destruct (Z.leb_spec (cap b - 1) (count b));
        injection Happ as <-; cbn [count pBuf cap initcap maxcap];
        (repeat split; try reflexivity); intros i Hi'; rewrite nth_store_other by lia;
        rewrite ?nth_app_zeros; auto; apply Hz; lia. }
  split; [|auto]. constructor; [assumption| |].
  - rewrite Hd. apply Forall_app. split; [assumption|]. constructor; [lia|constructor].
  - intros i Hi'. apply Hz'. lia.
Qed.

Lemma snbuffer_get_str (b : SNBUFFER) :
  buffer_str b ->
  buffer_str (snd (snbuffer_get b)) /\
  snbuffer_data (snd (snbuffer_get b)) = snbuffer_data b /\
  count (snd (snbuffer_get b)) = count b /\
  maxcap (snd (snbuffer_get b)) = maxcap b /\
  initcap (snd (snbuffer_get b)) = initcap b /\
  fst (snbuffer_get b) = pBuf (snd (snbuffer_get b)).
Proof.
  intros [[H1 H2 H3 H4 H5] Hch Hz]. unfold snbuffer_get.
  destruct (Z.ltb_spec (cap b) 1) as [Hc|Hc]; cbn [fst snd].
  - assert (cap b = 0) as Hcap by lia. specialize (H4 Hcap).
    unfold snbuffer_data. cbn [count pBuf cap initcap maxcap]. rewrite H4. cbn [Z.to_nat take].
    split; [|auto 6]. constructor.
    + constructor; cbn [count pBuf cap initcap maxcap]; try lia.
      rewrite length_zeros. lia.
    + cbn. constructor.
    + intros i _. cbn [pBuf]. apply nth_zeros.
  - split; [constructor; [constructor|..]; assumption | auto 6].
Qed.

Lemma snbuffer_less_str (b : SNBUFFER) :
  buffer_str b ->
  buffer_str (snd (snbuffer_less b)) /\
  maxcap (snd (snbuffer_less b)) = maxcap b /\
  initcap (snd (snbuffer_less b)) = initcap b /\
  (0 < count b ->
   fst (snbuffer_less b) = 1 /\
   count (snd (snbuffer_less b)) = count b - 1 /\
   snbuffer_data (snd (snbuffer_less b)) = take (Z.to_nat (count b - 1)) (snbuffer_data b)) /\
  (count b <= 0 -> snbuffer_less b = (0, b)).
Proof.
  intros [[H1 H2 H3 H4 H5] Hch Hz]. unfold snbuffer_less. rewrite Z.gtb_ltb.
  destruct (Z.ltb_spec 0 (count b)) as [Hpos|Hzero]; cbn [fst snd].
  - assert (0 < cap b <= maxcap b /\ count b < cap b) as [Hcap Hlt]
      by (destruct H3 as [H3|H3]; [specialize (H4 H3); lia | exact H3]).
    assert (take (Z.to_nat (count b - 1)) (store (pBuf b) (count b - 1) 0) =
            take (Z.to_nat (count b - 1)) (snbuffer_data b)) as Hd.
    { unfold store, snbuffer_data. rewrite take_insert_ge by lia.
      rewrite take_take. f_equal. lia. }
    split; [|split; [reflexivity|split; [reflexivity|split; [auto|lia]]]].
    constructor.
    + constructor; cbn [count pBuf cap initcap maxcap]; try lia.
      unfold store. rewrite length_insert. assumption.
    + unfold snbuffer_data at 1. cbn [count pBuf]. rewrite Hd.
      apply Forall_take. assumption.
    + intros i Hi. cbn [count pBuf] in *.
      destruct (Nat.eq_dec i (Z.to_nat (count b - 1))) as [->|Hne].
      * fold (load (store (pBuf b) (count b - 1) 0) (count b - 1)).
        apply load_store_same. lia.
      * rewrite nth_store_other by assumption. apply Hz. lia.
  - split; [constructor; [constructor|..]; assumption|].
    split; [reflexivity|]. split; [reflexivity|]. split; [lia|reflexivity].
Qed.

(** What every buffer of a program satisfies. *)
Lemma buffer_reachable_str (b : SNBUFFER) :
  buffer_reachable b -> buffer_str b /\ maxcap b <= 2147483647.
Proof.
  induction 1 as [icap mcap b Hi|b full _ [IH Hm]|b c ok b' _ [IH Hm] Happ
                 |b _ [IH Hm]|b _ [IH Hm]].
  - destruct (snbuffer_init_str _ _ _ Hi) as (? & ? & _). auto.
  - destruct (snbuffer_reset_str b full IH) as (? & _ & -> & _). auto.
  - destruct (snbuffer_append_str b c ok b' IH Happ) as (? & -> & _). auto.
  - destruct (snbuffer_get_str b IH) as (? & _ & _ & -> & _). auto.
  - destruct (snbuffer_less_str b IH) as (? & -> & _). auto.
Qed.

Lemma buffer_str_string (b : SNBUFFER) :
  buffer_str b -> 0 < cap b -> c_string (pBuf b) = snbuffer_data b.
Proof.
  intros [Hwf Hch Hz] Hcap. unfold snbuffer_data.
  apply c_string_take; [exact Hch | apply Hz; lia].
Qed.

Lemma buffer_str_count (b : SNBUFFER) :
  buffer_str b ->
  0 <= count b <= maxcap b - 1 /\ Z.of_nat (length (snbuffer_data b)) = count b.
Proof.
  intros [[H1 H2 H3 H4 H5] _ _]. unfold snbuffer_data. rewrite length_take.
  destruct H3 as [H3|H3]; [specialize (H4 H3)|]; lia.
Qed.

Lemma snbuffer_get_string (b : SNBUFFER) :
  buffer_str b -> c_string (fst (snbuffer_get b)) = snbuffer_data b.
Proof.
  intros Hs. destruct (snbuffer_get_str b Hs) as (Hs' & Hd & _ & _ & _ & ->).
  rewrite <- Hd. apply buffer_str_string; [assumption|].
  destruct Hs as [[H1 H2 H3 H4 H5] _ _]. unfold snbuffer_get.
  destruct (Z.ltb_spec (cap b) 1); cbn [snd cap]; lia.
Qed.

(** X1: a buffer made by [snbuffer_init] and used through the buffer
    functions only holds at most [maxcap - 1] characters, all of them
    non-zero bytes; the pointer given by [snbuffer_get] reads as exactly
    those characters (the string is null-terminated), [snbuffer_count] is
    their number, and [snbuffer_get] changes none of them. *)
Theorem snbuffer_string_view (b : SNBUFFER) :
  buffer_reachable b ->
  0 <= snbuffer_count b <= maxcap b - 1 /\
  c_string (fst (snbuffer_get b)) = snbuffer_data b /\
  Z.of_nat (length (snbuffer_data b)) = snbuffer_count b /\
  Forall (fun c => 1 <= c <= 255) (snbuffer_data b) /\
  snbuffer_data (snd (snbuffer_get b)) = snbuffer_data b.
Proof.
  intros Hr. destruct (buffer_reachable_str b Hr) as [Hs _].
  destruct (buffer_str_count b Hs) as [Hc Hl]. unfold snbuffer_count.
  split; [exact Hc|]. split; [apply snbuffer_get_string, Hs|].
  split; [exact Hl|]. split; [apply Hs|].
  apply (snbuffer_get_str b Hs).
Qed.

Lemma snbuffer_string_view_witness :
  let b := mkSNBUFFER [0x7c; 0x3b; 0; 0] 2 4 4 1024 in
  buffer_reachable b /\
  c_string (fst (snbuffer_get b)) = [0x7c; 0x3b] /\ snbuffer_count b = 2.
Proof.
  intros b.
  assert (buffer_reachable b) as Hr.
  { apply (buf_append (mkSNBUFFER [0x7c; 0; 0; 0] 1 4 4 1024) 0x3b 1); [|reflexivity].
    apply (buf_append (mkSNBUFFER [] 0 0 4 1024) 0x7c 1); [|reflexivity].
    apply (buf_init 4 1024). reflexivity. }
  split; [exact Hr|].
  destruct (snbuffer_string_view b Hr) as (_ & Hs & Hl & _).
  split; [exact Hs | symmetry; exact Hl].
Defined.

(** X2: on such a buffer an append of a byte in 1..255 succeeds exactly
    while fewer than [maxcap - 1] characters are held. A successful append
    puts the byte last, [snbuffer_last] then gives it back, and
    [snbuffer_less] undoes the append; a refused append leaves the buffer
    as it was; on an empty buffer [snbuffer_less] fails and
    [snbuffer_last] gives zero. *)
Theorem snbuffer_append_less (char_signed : bool) (b : SNBUFFER) (c : Z) :
  buffer_reachable b -> 1 <= c <= 255 ->
  (count b < maxcap b - 1 ->
   exists b',
     snbuffer_append b c = Done (1, b') /\
     snbuffer_data b' = snbuffer_data b ++ [c] /\
     snbuffer_count b' = snbuffer_count b + 1 /\
     snbuffer_last char_signed b' = char_value char_signed c /\
     exists b'',
       snbuffer_less b' = (1, b'') /\
       snbuffer_data b'' = snbuffer_data b /\
       snbuffer_count b'' = snbuffer_count b /\
       c_string (fst (snbuffer_get b'')) = snbuffer_data b) /\
  (maxcap b - 1 <= count b -> snbuffer_append b c = Done (0, b)) /\
  (count b = 0 ->
   snbuffer_less b = (0, b) /\ snbuffer_last char_signed b = 0).
Proof.
  intros Hr Hc. destruct (buffer_reachable_str b Hr) as [Hs _].
  pose proof Hs as [Hwf _ _]. split; [|split].
  - intros Hroom.
    destruct (snbuffer_append_ok b c Hwf Hc Hroom) as (b' & Happ & Hwf' & Hd & Hn & Hm).
    destruct (snbuffer_append_str b c 1 b' Hs Happ) as (Hs' & _).
    exists b'. split; [exact Happ|]. split; [exact Hd|].
    unfold snbuffer_count. split; [exact Hn|].
    destruct (buffer_str_count b Hs) as [Hcb Hlb].
    split.
    + unfold snbuffer_last. rewrite Z.gtb_ltb.
      destruct (Z.ltb_spec 0 (count b')); [|lia]. f_equal.
      assert (nth (Z.to_nat (count b)) (snbuffer_data b') 0 = c) as Hnth.
      { rewrite Hd. rewrite app_nth2 by lia.
        replace (Z.to_nat (count b) - length (snbuffer_data b))%nat with 0%nat by lia.
        reflexivity. }
      unfold load. rewrite Hn. replace (count b + 1 - 1) with (count b) by lia.
      rewrite <- Hnth. unfold snbuffer_data.
      rewrite <- (take_drop (Z.to_nat (count b')) (pBuf b')) at 1.
      rewrite app_nth1 by (rewrite length_take; destruct Hwf' as [? ? H3 H4 H5];
                            destruct H3 as [H3|H3]; [specialize (H4 H3)|]; lia).
      reflexivity.
    + destruct (snbuffer_less_str b' Hs') as (Hs2 & _ & _ & Hless & _).
      destruct (Hless ltac:(lia)) as (Hok & Hn2 & Hd2).
      exists (snd (snbuffer_less b')).
      split; [rewrite <- Hok; destruct (snbuffer_less b'); reflexivity|].
      assert (snbuffer_data (snd (snbuffer_less b')) = snbuffer_data b) as Hback.
      { rewrite Hd2, Hd, Hn. replace (count b + 1 - 1) with (count b) by lia.
        rewrite take_app_length' by lia. reflexivity. }
      split; [exact Hback|]. split; [lia|].
      rewrite snbuffer_get_string by assumption. exact Hback.
  - intros Hfull. unfold snbuffer_append.
    destruct (Z.ltb_spec c 1); [lia|]. rewrite Z.gtb_ltb.
    destruct (Z.ltb_spec 255 c); [lia|]. cbn [orb].
    destruct (Z.ltb_spec (count b) (maxcap b - 1)); [lia|reflexivity].
  - intros Hz. split.
    + apply (snbuffer_less_str b Hs). lia.
    + unfold snbuffer_last. rewrite Hz. reflexivity.
Qed.

Lemma snbuffer_append_less_witness :
  let b := mkSNBUFFER [] 0 0 4 1024 in
  buffer_reachable b /\ 1 <= 0x61 <= 255 /\
  exists b',
    snbuffer_append b 0x61 = Done (1, b') /\
    snbuffer_last false b' = 0x61 /\
    exists b'', snbuffer_less b' = (1, b'') /\ snbuffer_data b'' = [].
Proof.
  intros b.
  assert (buffer_reachable b) as Hr by (apply (buf_init 4 1024); reflexivity).
  assert (1 <= 0x61 <= 255) as Hc by lia.
  split; [exact Hr|]. split; [exact Hc|].
  destruct (snbuffer_append_less false b 0x61 Hr Hc) as (Hok & _ & _).
  destruct (Hok ltac:(cbn; lia)) as (b' & Happ & _ & _ & Hlast & b'' & Hless & Hd & _).
  exists b'. split; [exact Happ|]. split; [exact Hlast|].
  exists b''. split; [exact Hless | exact Hd].
Defined.

(** X3: a full reset brings a buffer back to what [snbuffer_init] made
    in every field but the pointer, which keeps its stale value and is
    not looked at again: the count and the capacity are zero, and
    [snbuffer_get], [snbuffer_count], [snbuffer_last], [snbuffer_less]
    and [snbuffer_append] give what they give on the buffer
    [snbuffer_init] makes for the same capacities (an append that is
    refused hands each buffer back as it is). A fast reset empties the
    buffer and keeps its memory, all zero again. *)
Theorem snbuffer_reset_states (char_signed : bool) (b : SNBUFFER) (full : Z) :
  buffer_reachable b ->
  (full <> 0 ->
   exists b0,
     snbuffer_init (initcap b) (maxcap b) = Done b0 /\
     let b1 := snbuffer_reset b full in
     count b1 = count b0 /\ cap b1 = cap b0 /\
     initcap b1 = initcap b0 /\ maxcap b1 = maxcap b0 /\
     snbuffer_data b1 = snbuffer_data b0 /\
     snbuffer_count b1 = snbuffer_count b0 /\
     snbuffer_get b1 = snbuffer_get b0 /\
     snbuffer_last char_signed b1 = snbuffer_last char_signed b0 /\
     snbuffer_less b1 = (0, b1) /\ snbuffer_less b0 = (0, b0) /\
     forall c,
       snbuffer_append b1 c = snbuffer_append b0 c \/
       (snbuffer_append b1 c = Done (0, b1) /\ snbuffer_append b0 c = Done (0, b0))) /\
  (let b0 := snbuffer_reset b 0 in
   cap b0 = cap b /\ snbuffer_count b0 = 0 /\ snbuffer_data b0 = [] /\
   (0 < cap b -> pBuf b0 = zeros (cap b)) /\
   c_string (fst (snbuffer_get b0)) = []).
Proof.
  intros Hr. destruct (buffer_reachable_str b Hr) as [Hs Hmax].
  pose proof Hs as [[H1 H2 H3 H4 H5] _ _]. split.
  - intros Hfull. exists (mkSNBUFFER [] 0 0 (initcap b) (maxcap b)). split.
    { unfold snbuffer_init. rewrite !Z.gtb_ltb.
      destruct (Z.leb_spec (initcap b) 0); [lia|].
      destruct (Z.ltb_spec (maxcap b) (initcap b)); [lia|].
      destruct (Z.ltb_spec (LONG_MAX / 2) (maxcap b)) as [Hbig|_].
      { assert (LONG_MAX / 2 = 4611686018427387903) as Hh by reflexivity. lia. }
      cbn [orb]. destruct (Z.ltb_spec 2147483647 (maxcap b)); [lia|]. reflexivity. }
    assert (exists p, snbuffer_reset b full = mkSNBUFFER p 0 0 (initcap b) (maxcap b))
      as [p ->].
    { unfold snbuffer_reset. rewrite !Z.gtb_ltb.
      destruct (Z.eqb_spec full 0); [contradiction|]. cbn [negb andb].
      destruct (Z.ltb_spec 0 (cap b)); [eauto|].
      assert (cap b = 0) as -> by lia. eauto. }
    cbv zeta. unfold snbuffer_data, snbuffer_count, snbuffer_get, snbuffer_last,
      snbuffer_less, snbuffer_append.
    cbn [count cap initcap maxcap pBuf Z.to_nat take Z.gtb Z.ltb Z.compare].
    repeat (split; [reflexivity|]). intros c.
    destruct ((c <? 1) || (c >? 255)); [left; reflexivity|].
    destruct (0 <? maxcap b - 1); [left; reflexivity|right; split; reflexivity].
  - cbn zeta. destruct (snbuffer_reset_str b 0 Hs) as (Hs0 & Hd0 & _).
    split; [unfold snbuffer_reset; cbn [Z.eqb negb andb cap]; reflexivity|].
    split; [reflexivity|]. split; [exact Hd0|]. split.
    + intros Hpos. unfold snbuffer_reset. cbn [Z.eqb negb andb pBuf]. rewrite Z.gtb_ltb.
      destruct (Z.ltb_spec 0 (cap b)); [reflexivity|lia].
    + rewrite snbuffer_get_string by assumption. exact Hd0.
Qed.

Lemma snbuffer_reset_states_witness :
  let b := mkSNBUFFER [0x61; 0; 0; 0] 1 4 4 1024 in
  buffer_reachable b /\
  snbuffer_reset b 1 = mkSNBUFFER [0; 0; 0; 0] 0 0 4 1024 /\
  snbuffer_get (snbuffer_reset b 1) = snbuffer_get (mkSNBUFFER [] 0 0 4 1024) /\
  pBuf (snbuffer_reset b 0) = [0; 0; 0; 0].
Proof.
  intros b.
  assert (buffer_reachable b) as Hr.
  { apply (buf_append (mkSNBUFFER [] 0 0 4 1024) 0x61 1); [|reflexivity].
    apply (buf_init 4 1024). reflexivity. }
  split; [exact Hr|]. split; [reflexivity|].
  destruct (snbuffer_reset_states false b 1 Hr) as (Hfull & _ & _ & _ & Hp & _).
  destruct (Hfull ltac:(discriminate)) as (b0 & Hinit & Hsame).
  injection Hinit as <-. cbv zeta in Hsame.
  destruct Hsame as (_ & _ & _ & _ & _ & _ & Hget & _).
  split; [exact Hget | apply Hp; reflexivity].
Defined.

(** ** The line counter *)

Lemma snfilter_read_bom_flag f pIn :
  let '(err, f', pIn') := snfilter_read_bom f pIn in
  (bom_present f' = bom_present f \/ bom_present f' = 1) /\
  (err <> 0 -> bom_present f' = bom_present f).
Proof.
  unfold snfilter_read_bom.
  destruct (Z.eqb_spec (line_count f) 0) as [Hz|Hz]; [|auto].
  split_input pIn; bytes_in_range; run_read.
  all: cbn [bom_present]; intuition (try lia; try congruence).
Qed.

Lemma snfilter_read_char_line f pIn :
  let '(err, f', pIn') := snfilter_read_char f pIn in
  line_count f <= line_count f' <= Z.max 1 (line_count f + 1) /\
  (line_count f <= LONG_MAX -> line_count f' <= LONG_MAX) /\
  bom_present f' = bom_present f.
Proof.
  unfold LONG_MAX. split_input pIn; bytes_in_range; run_read.
  all: cbn [line_count bom_present]; unfold LONG_MAX in *; lia.
Qed.

Lemma snfilter_read_line f pIn :
  let f' := snd (fst (snfilter_read f pIn)) in
  line_count f <= line_count f' <= Z.max 1 (line_count f + 1) /\
  (line_count f <= LONG_MAX -> line_count f' <= LONG_MAX) /\
  (bom_present f' = bom_present f \/ bom_present f' = 1) /\
  (0 < line_count f -> bom_present f' = bom_present f).
Proof.
  unfold snfilter_read.
  pose proof (snfilter_read_bom_spec f pIn) as Hb.
  pose proof (snfilter_read_bom_flag f pIn) as Hg.
  destruct (snfilter_read_bom f pIn) as [[e1 f1] p1].
  destruct Hb as (Hl & Hc & Hp & He & _ & Hsame). destruct Hg as [Hg _].
  pose proof (snfilter_read_char_line f1 p1) as Hr.
  destruct (snfilter_read_char f1 p1) as [[e2 f2] p2].
  destruct Hr as (Hr1 & Hr2 & Hr3).
  assert (0 < line_count f -> bom_present f1 = bom_present f) as Hkeep.
  { intros Hpos. destruct (Hsame ltac:(lia)) as (_ & -> & _). reflexivity. }
  destruct ((e1 =? 0) && (pushback f1 =? 0) &&
            ((line_count f1 =? 0) || (last_c f1 >=? 0)));
    cbn [fst snd line_count bom_present]; rewrite <- ?Hl.
  - rewrite Hr3. repeat split; try lia; auto.
  - repeat split; try lia; auto.
Qed.

Lemma snfilter_pushback_line f :
  line_count (snd (snfilter_pushback f)) = line_count f /\
  bom_present (snd (snfilter_pushback f)) = bom_present f /\
  last_c (snd (snfilter_pushback f)) = last_c f.
Proof.
  unfold snfilter_pushback.
  destruct (_ || _); [destruct (_ && _)|]; cbn; auto.
Qed.

Lemma filter_reachable_line f :
  filter_reachable f ->
  0 <= line_count f <= LONG_MAX /\ (bom_present f = 0 \/ bom_present f = 1).
Proof.
  induction 1 as [|f pIn _ IH|f _ IH].
  - cbn. unfold LONG_MAX. lia.
  - pose proof (snfilter_read_line f pIn) as (H1 & H2 & H3 & _).
    cbn zeta in *. split; [lia|]. destruct IH as [_ [IH|IH]], H3 as [H3|H3]; lia.
  - destruct (snfilter_pushback_line f) as (-> & -> & _). exact IH.
Qed.

(** X4: on a filter made by [snfilter_reset] and used through the filter
    functions only, the line counter stays within 0 and [LONG_MAX],
    [snfilter_count] gives a line between 1 and [LONG_MAX], a read never
    lowers the counter and raises it by one at most, and a pushback
    leaves it alone. *)
Theorem snfilter_line_bounds (f : SNFILTER) (pIn : FILE) :
  filter_reachable f ->
  0 <= line_count f <= LONG_MAX /\
  1 <= snfilter_count f <= LONG_MAX /\
  (let f' := snd (fst (snfilter_read f pIn)) in
   line_count f <= line_count f' <= Z.max 1 (line_count f + 1)) /\
  line_count (snd (snfilter_pushback f)) = line_count f.
Proof.
  intros Hr. destruct (filter_reachable_line f Hr) as [Hl _].
  split; [exact Hl|]. split; [|split].
  - unfold snfilter_count. unfold LONG_MAX in *.
    destruct (Z.ltb_spec (line_count f) 1);
      destruct (_ && _) eqn:Hc; try lia;
      apply andb_true_iff in Hc as [_ Hc]; apply Z.ltb_lt in Hc; lia.
  - apply (snfilter_read_line f pIn).
  - apply snfilter_pushback_line.
Qed.

Lemma snfilter_line_bounds_witness :
  let f := snd (fst (snfilter_read snfilter_reset (bytes_file [x61; x0a] false))) in
  filter_reachable f /\ 1 <= snfilter_count f <= LONG_MAX.
Proof.
  intros f.
  assert (filter_reachable f) as Hr by (apply reach_read, reach_reset).
  split; [exact Hr|].
  exact (proj1 (proj2 (snfilter_line_bounds f (bytes_file [] false) Hr))).
Defined.

(** ** Pushback and the results that stay *)

(** A read that delivers a character leaves a filter that has read one. *)
Lemma snfilter_read_delivers f pIn :
  filter_inv f ->
  let '(c, f', pIn') := snfilter_read f pIn in
  0 <= c -> 0 < line_count f'.
Proof.
  intros [H1 H2 H3 H4 H5]. unfold snfilter_read.
  pose proof (snfilter_read_bom_spec f pIn) as Hb.
  destruct (snfilter_read_bom f pIn) as [[e1 f1] p1].
  destruct Hb as (Hl & Hc & Hp & He & Hlen & _).
  pose proof (snfilter_read_char_spec f1 p1) as Hr.
  destruct (snfilter_read_char f1 p1) as [[e2 f2] p2].
  destruct Hr as (He2 & Hp2 & Hsame & Hlen2 & Hok).
  consts. rewrite Hp in *.
  destruct (Z.eqb_spec e1 0) as [->|Hne1]; cbn [andb].
  - destruct (Z.eqb_spec (pushback f) 0) as [Hpb|Hpb]; cbn [andb].
    + destruct ((line_count f1 =? 0) || (last_c f1 >=? 0)) eqn:Hcond;
        cbn [fst snd last_c line_count pushback bom_present Z.eqb].
      * destruct (Z.eqb_spec e2 0) as [->|Hne2]; [|lia].
        destruct (Hok eq_refl) as (? & ? & ? & ?). lia.
      * apply orb_false_iff in Hcond as [_ Hcond].
        rewrite Z.geb_leb in Hcond. apply Z.leb_gt in Hcond. lia.
    + cbn [fst snd last_c line_count pushback bom_present Z.eqb].
      destruct (H5 Hpb). lia.
  - cbn [fst snd last_c line_count pushback bom_present Z.eqb].
    destruct (Z.eqb_spec e1 0); lia.
Qed.

Lemma snfilter_read_held (f : SNFILTER) (pIn : FILE) :
  0 < line_count f -> pushback f <> 0 ->
  snfilter_read f pIn =
    (last_c f, mkSNFILTER (line_count f) (last_c f) 0 (bom_present f), pIn).
Proof.
  intros Hl Hp. unfold snfilter_read, snfilter_read_bom.
  repeat step_read; reflexivity.
Qed.

(** X5: after a read that delivered a character, [snfilter_pushback]
    succeeds, and the next read gives that character again: it takes
    nothing from the stream and leaves the filter as the first read left
    it. A second pushback in a row is refused. *)
Theorem snfilter_pushback_rereads (f : SNFILTER) (pIn : FILE) :
  filter_reachable f ->
  let '(c, f1, in1) := snfilter_read f pIn in
  0 <= c ->
  exists f2,
    snfilter_pushback f1 = (1, f2) /\
    snfilter_pushback f2 = (0, f2) /\
    forall pIn2, snfilter_read f2 pIn2 = (c, f1, pIn2).
Proof.
  intros Hr. pose proof (filter_reachable_inv f Hr) as Hinv.
  pose proof (snfilter_read_inv f pIn Hinv) as (Hinv1 & Hc1 & Hp1).
  pose proof (snfilter_read_delivers f pIn Hinv) as Hl1.
  destruct (snfilter_read f pIn) as [[c f1] in1]. cbn [fst snd] in *.
  intros Hc. specialize (Hl1 Hc). destruct f1 as [lc lastc pb bom].
  cbn [last_c pushback line_count] in *. subst lastc pb.
  exists (mkSNFILTER lc c 1 bom). unfold snfilter_pushback.
  cbn [line_count last_c pushback bom_present]. rewrite !Z.geb_leb, !Z.gtb_ltb.
  destruct (Z.eqb_spec lc 0); [lia|].
  destruct (Z.leb_spec 0 c); [|lia].
  destruct (Z.ltb_spec 0 lc); [|lia]. cbn [orb andb Z.eqb].
  split; [reflexivity|]. split; [reflexivity|].
  intros pIn2. rewrite snfilter_read_held by (cbn; lia). reflexivity.
Qed.

Lemma snfilter_pushback_rereads_witness :
  filter_reachable snfilter_reset /\
  exists f2,
    snfilter_pushback (mkSNFILTER 1 0x61 0 0) = (1, f2) /\
    snfilter_read f2 (bytes_file [x62] false) =
      (0x61, mkSNFILTER 1 0x61 0 0, bytes_file [x62] false).
Proof.
  split; [exact reach_reset|].
  pose proof (snfilter_pushback_rereads snfilter_reset (bytes_file [x61; x62] false)
                reach_reset) as H.
  assert (snfilter_read snfilter_reset (bytes_file [x61; x62] false) =
          (0x61, mkSNFILTER 1 0x61 0 0, mkFILE [RawByte x62] false)) as E
    by (vm_compute; reflexivity).
  rewrite E in H.
  destruct (H ltac:(lia)) as (f2 & Hp & _ & Hread).
  exists f2. split; [exact Hp | apply Hread].
Defined.

(** X6: once a character has been read, a negative result (end of file
    or read error) stays: every later read gives it again, takes nothing
    from the stream, and leaves the filter alone. *)
Theorem snfilter_read_latched (f : SNFILTER) (pIn : FILE) :
  filter_reachable f -> 0 < line_count f ->
  let '(c, f1, in1) := snfilter_read f pIn in
  c < 0 ->
  forall pIn2, snfilter_read f1 pIn2 = (c, f1, pIn2).
Proof.
  intros Hr Hl. pose proof (filter_reachable_inv f Hr) as Hinv.
  pose proof (snfilter_read_inv f pIn Hinv) as (Hinv1 & Hc1 & Hp1).
  pose proof (snfilter_read_line f pIn) as (Hmono & _).
  destruct (snfilter_read f pIn) as [[c f1] in1]. cbn [fst snd] in *.
  intros Hc pIn2. destruct f1 as [lc lastc pb bom].
  cbn [last_c pushback line_count] in *. subst lastc pb.
  rewrite snfilter_read_sticky by (cbn; lia). reflexivity.
Qed.

Lemma snfilter_read_latched_witness :
  let f := snd (fst (snfilter_read snfilter_reset (bytes_file [x61] false))) in
  filter_reachable f /\ 0 < line_count f /\
  snfilter_read (mkSNFILTER 1 SNERR_EOF 0 0) (bytes_file [x62] false) =
    (SNERR_EOF, mkSNFILTER 1 SNERR_EOF 0 0, bytes_file [x62] false).
Proof.
  intros f.
  assert (filter_reachable f) as Hr by (apply reach_read, reach_reset).
  assert (0 < line_count f) as Hl by (vm_compute; reflexivity).
  split; [exact Hr|]. split; [exact Hl|].
  pose proof (snfilter_read_latched f (mkFILE [] true) Hr Hl) as H.
  assert (snfilter_read f (mkFILE [] true) =
          (SNERR_EOF, mkSNFILTER 1 SNERR_EOF 0 0, mkFILE [] true)) as E
    by (vm_compute; reflexivity).
  rewrite E in H. apply H. reflexivity.
Defined.

(** ** The byte order mark *)

Lemma head_neq_byte (bs : list byte) (b : byte) (c : byte) :
  head (b :: bs) <> Some c -> byte_val b <> byte_val c.
Proof.
  intros Hn Hv. apply Hn. cbn. f_equal. apply byte_val_inj. exact Hv.
Qed.

(** X7: the byte order mark. When the byte after the mark is not EF, the
    first read of a stream that starts with the bytes EF BB BF gives what
    the first read of the stream without them gives, and takes as much of
    it, but sets the byte order mark flag, which the read of a stream
    without the mark leaves clear. When EF does follow the mark, it is
    delivered as the character 0xEF with the flag set (without the mark it
    would start a mark of its own). A stream that starts with EF and goes
    on otherwise than with BB BF gives [SNERR_BADSIG] at the first read,
    with the flag clear. Once a character has been read the flag does not
    change any more. *)
Theorem snfilter_read_bom_mark (e : bool) (bs : list byte) :
  (head bs <> Some xef ->
   let '(c1, f1, in1) :=
     snfilter_read snfilter_reset (bytes_file (xef :: xbb :: xbf :: bs) e) in
   let '(c2, f2, in2) := snfilter_read snfilter_reset (bytes_file bs e) in
   c1 = c2 /\ pending in1 = pending in2 /\ line_count f1 = line_count f2 /\
   snfilter_bomflag f1 = 1 /\ snfilter_bomflag f2 = 0) /\
  (let '(c, f, pIn) :=
     snfilter_read snfilter_reset (bytes_file (xef :: xbb :: xbf :: xef :: bs) e) in
   c = 0xEF /\ pending pIn = map RawByte bs /\ line_count f = 1 /\
   snfilter_bomflag f = 1) /\
  (take 2 bs <> [xbb; xbf] ->
   let '(c, f, _) := snfilter_read snfilter_reset (bytes_file (xef :: bs) e) in
   c = SNERR_BADSIG /\ snfilter_bomflag f = 0 /\ line_count f = 0) /\
  (forall f pIn, 0 < line_count f ->
   snfilter_bomflag (snd (fst (snfilter_read f pIn))) = snfilter_bomflag f).
Proof.
  split; [|split; [|split]].
  - intros Hh. unfold bytes_file, snfilter_read, snfilter_reset, snfilter_bomflag.
    destruct bs as [|b [|b2 bs]]; cbn [map]; bytes_in_range.
    + destruct e; run_read; auto.
    + pose proof (head_neq_byte _ _ _ Hh) as Hb. vm_compute (byte_val "239") in Hb.
      destruct e; run_read; auto.
    + pose proof (head_neq_byte _ _ _ Hh) as Hb. vm_compute (byte_val "239") in Hb.
      destruct e; run_read; auto.
  - unfold bytes_file, snfilter_read, snfilter_reset, snfilter_bomflag. cbn [map].
    destruct e; run_read; auto.
  - intros Hh. unfold bytes_file, snfilter_read, snfilter_reset, snfilter_bomflag.
    destruct bs as [|b [|b2 bs]]; cbn [map]; bytes_in_range.
    + destruct e; run_read; auto.
    + destruct e; run_read; auto.
    + destruct e; run_read; auto.
      all: exfalso; apply Hh; cbn [take]; f_equal; [|f_equal];
        apply byte_val_inj; assumption.
  - intros f pIn Hl. apply (snfilter_read_line f pIn). exact Hl.
Qed.

Lemma snfilter_read_bom_mark_witness :
  (let '(c1, f1, in1) :=
     snfilter_read snfilter_reset (bytes_file [xef; xbb; xbf; x61; x62] false) in
   let '(c2, f2, in2) := snfilter_read snfilter_reset (bytes_file [x61; x62] false) in
   c1 = c2 /\ pending in1 = pending in2 /\ line_count f1 = line_count f2 /\
   snfilter_bomflag f1 = 1 /\ snfilter_bomflag f2 = 0) /\
  (let '(c, f, _) := snfilter_read snfilter_reset (bytes_file [xef; x61; x62] false) in
   c = SNERR_BADSIG /\ snfilter_bomflag f = 0 /\ line_count f = 0) /\
  snfilter_bomflag (snd (fst (snfilter_read (mkSNFILTER 1 0x61 0 1) (bytes_file [x62] false))))
    = 1.
Proof.
  destruct (snfilter_read_bom_mark false [x61; x62]) as (Hmark & _ & Hbad & Hkeep).
  split; [apply Hmark; discriminate|].
  split; [apply Hbad; discriminate|].
  apply (Hkeep (mkSNFILTER 1 0x61 0 1) (bytes_file [x62] false)). reflexivity.
Defined.

(** ** Streams without carriage returns *)

(** The filter once it has delivered a line feed from an active state. *)
Lemma snfilter_read_lf (f : SNFILTER) (e : bool) (bs : list byte) :
  filter_active f -> head bs <> Some x0d ->
  exists e',
    snfilter_read f (mkFILE (RawByte x0a :: map RawByte bs) e) =
      (ASCII_LF,
       mkSNFILTER (if line_count f =? 0 then 1
                   else if line_count f <? LONG_MAX then line_count f + 1
                        else line_count f)
         ASCII_LF 0 (bom_present f),
       mkFILE (map RawByte bs) e').
Proof.
  intros [Hp Hl] Hn. unfold snfilter_read.
  destruct bs as [|b bs]; cbn [map]; bytes_in_range.
  - run_read; rewrite ?Hp; repeat step_read; eauto.
  - pose proof (head_neq_byte _ _ _ Hn) as Hb. vm_compute (byte_val "013") in Hb.
    run_read; rewrite ?Hp; repeat step_read; eauto.
Qed.

Lemma line_feeds_cons (c : Z) (l : list Z) :
  line_feeds (c :: l) = (if c =? ASCII_LF then 1 else 0) + line_feeds l.
Proof.
  unfold line_feeds. rewrite filter_cons.
  destruct (decide (c = ASCII_LF)) as [->|Hne].
  - cbn [length]. rewrite Z.eqb_refl. lia.
  - destruct (Z.eqb_spec c ASCII_LF); [contradiction|]. lia.
Qed.

Lemma line_feeds_nonneg (l : list Z) : 0 <= line_feeds l.
Proof. unfold line_feeds. lia. Qed.

(** Reading a stream without carriage returns, from a filter that has
    read a character already. *)
Lemma snfilter_reads_plain (bs : list byte) :
  forall (f : SNFILTER) (e : bool),
  filter_active f -> 0 < line_count f <= LONG_MAX ->
  Forall (fun b => b <> x0d) bs ->
  exists f' e',
    snfilter_reads (length bs) f (bytes_file bs e) =
      (map byte_val bs, f', mkFILE [] e') /\
    filter_active f' /\
    line_count f' = Z.min LONG_MAX (line_count f + line_feeds (map byte_val bs)) /\
    bom_present f' = bom_present f /\
    last_c f' = List.last (last_c f :: map byte_val bs) 0.
Proof.
  unfold LONG_MAX.
  induction bs as [|b bs IH]; intros f e Hact Hl Hall.
  - exists f, e. cbn. unfold line_feeds. cbn.
    split; [reflexivity|]. split; [assumption|]. split; [lia|]. auto.
  - inversion Hall as [|? ? Hb Hall']; subst.
    assert (byte_val b <> ASCII_CR) as Hcr.
    { intros Hv. apply Hb, byte_val_inj. rewrite Hv. reflexivity. }
    cbn [length snfilter_reads]. unfold bytes_file. cbn [map].
    destruct (Z.eq_dec (byte_val b) ASCII_LF) as [Hlf|Hlf].
    + assert (b = x0a) as -> by (apply byte_val_inj; rewrite Hlf; reflexivity).
      destruct (snfilter_read_lf f e bs Hact) as [e1 ->].
      { destruct bs as [|b2 bs]; [discriminate|].
        inversion Hall' as [|? ? Hb2 _]; subst. cbn. congruence. }
      destruct (Z.eqb_spec (line_count f) 0); [lia|].
      set (f1 := mkSNFILTER _ _ _ _).
      destruct (IH f1 e1) as (f' & e' & Hrun & Hact' & Hl' & Hbom & Hlast);
        [split; [reflexivity|right; cbn; consts; lia]
        | subst f1; cbn [line_count]; unfold LONG_MAX;
          destruct (Z.ltb_spec (line_count f) 9223372036854775807); lia
        | assumption |].
      unfold bytes_file in Hrun. rewrite Hrun. exists f', e'.
      split; [reflexivity|]. split; [assumption|].
      rewrite line_feeds_cons. change (byte_val "010") with ASCII_LF.
      rewrite Z.eqb_refl. pose proof (line_feeds_nonneg (map byte_val bs)).
      split; [|split; [exact Hbom | exact Hlast]].
      rewrite Hl'. subst f1. cbn [line_count]. unfold LONG_MAX.
      destruct (Z.ltb_spec (line_count f) 9223372036854775807); lia.
    + destruct (snfilter_read_plain f e b (map RawByte bs) Hact Hcr Hlf) as [e1 ->];
        [intros; lia|].
      destruct (IH (filter_after f (byte_val b)) e1) as (f' & e' & Hrun & Hact' & Hl' & Hbom & Hlast);
        [apply filter_after_active; pose proof (byte_val_range b); lia
        | unfold filter_after; cbn [line_count];
          destruct (Z.eqb_spec (line_count f) 0); lia
        | assumption |].
      unfold bytes_file in Hrun. rewrite Hrun. exists f', e'.
      split; [reflexivity|]. split; [assumption|].
      rewrite line_feeds_cons. destruct (Z.eqb_spec (byte_val b) ASCII_LF); [contradiction|].
      split; [|split; [exact Hbom | exact Hlast]].
      rewrite Hl'. unfold filter_after. cbn [line_count].
      destruct (Z.eqb_spec (line_count f) 0); [lia|]. reflexivity.
Qed.

(** The first read of a stream that starts with neither EF nor a
    carriage return. *)
Lemma snfilter_read_first (b : byte) (bs : list byte) (e : bool) :
  b <> xef -> b <> x0d -> head bs <> Some x0d ->
  exists e',
    snfilter_read snfilter_reset (bytes_file (b :: bs) e) =
      (byte_val b, mkSNFILTER 1 (byte_val b) 0 0, mkFILE (map RawByte bs) e').
Proof.
  intros Hef Hcr Hn.
  assert (byte_val b <> ASCII_CR) as Hcr'.
  { intros Hv. apply Hcr, byte_val_inj. rewrite Hv. reflexivity. }
  assert (byte_val b <> SNFILTER_BOM_1) as Hef'.
  { intros Hv. apply Hef, byte_val_inj. rewrite Hv. reflexivity. }
  assert (filter_active snfilter_reset) as Hact by (split; [reflexivity|left; reflexivity]).
  destruct (Z.eq_dec (byte_val b) ASCII_LF) as [Hlf|Hlf].
  - assert (b = x0a) as -> by (apply byte_val_inj; rewrite Hlf; reflexivity).
    destruct (snfilter_read_lf snfilter_reset e bs Hact Hn) as [e1 Hr].
    exists e1. exact Hr.
  - destruct (snfilter_read_plain snfilter_reset e b (map RawByte bs) Hact Hcr' Hlf) as [e1 Hr];
      [intros; assumption|].
    exists e1. exact Hr.
Qed.

(** X8: a stream that holds no carriage return and does not start with
    EF goes through the filter unchanged: as many reads as it has bytes
    deliver those bytes in order and use up the stream, and the next read
    gives [SNERR_EOF]. The line counter is then one plus the number of
    line feeds after the first byte (at most [LONG_MAX]), and
    [snfilter_count] gives one more when the last byte was a line
    feed. *)
Theorem snfilter_reads_unchanged (b : byte) (bs : list byte) (e : bool) :
  Forall (fun x => x <> x0d) (b :: bs) -> b <> xef ->
  exists f in',
    snfilter_reads (length (b :: bs)) snfilter_reset (bytes_file (b :: bs) e) =
      (map byte_val (b :: bs), f, in') /\
    pending in' = [] /\
    fst (fst (snfilter_read f in')) = SNERR_EOF /\
    line_count f = Z.min LONG_MAX (1 + line_feeds (map byte_val bs)) /\
    snfilter_count f =
      Z.min LONG_MAX
        (line_count f + (if List.last (map byte_val (b :: bs)) 0 =? ASCII_LF then 1 else 0)).
Proof.
  intros Hall Hef. inversion Hall as [|? ? Hb Hall']; subst.
  destruct (snfilter_read_first b bs e Hef Hb) as [e1 Hfirst].
  { destruct bs as [|b2 bs]; [discriminate|].
    inversion Hall' as [|? ? Hb2 _]; subst. cbn. congruence. }
  pose proof (byte_val_range b) as Hrange.
  destruct (snfilter_reads_plain bs (mkSNFILTER 1 (byte_val b) 0 0) e1)
    as (f & e' & Hrun & Hact & Hl & Hbom & Hlast);
    [split; [reflexivity|right; cbn; lia] | cbn; unfold LONG_MAX; lia | assumption |].
  exists f, (mkFILE [] e'). cbn [length snfilter_reads]. rewrite Hfirst.
  cbn [map].
  unfold bytes_file in Hrun. rewrite Hrun.
  split; [reflexivity|]. split; [reflexivity|].
  cbn [line_count last_c] in Hl, Hlast.
  assert (0 < line_count f <= LONG_MAX) as Hlc.
  { rewrite Hl. pose proof (line_feeds_nonneg (map byte_val bs)). unfold LONG_MAX. lia. }
  destruct Hact as [Hp Hc]. split; [|split; [exact Hl|]].
  - unfold snfilter_read, snfilter_read_bom.
    destruct (Z.eqb_spec (line_count f) 0); [lia|].
    cbn [Z.eqb andb]. rewrite Hp. cbn [Z.eqb andb].
    rewrite Z.geb_leb. destruct (Z.leb_spec 0 (last_c f)); [|lia].
    rewrite orb_true_r. destruct e'; reflexivity.
  - unfold snfilter_count. rewrite Hp. cbn [Z.eqb andb map].
    rewrite Hlast. rewrite Z.gtb_ltb. unfold LONG_MAX in *.
    destruct (Z.ltb_spec (line_count f) 1); [lia|].
    destruct (Z.ltb_spec 0 (line_count f)); [|lia]. cbn [andb].
    destruct (List.last _ _ =? ASCII_LF); cbn [andb];
      [destruct (Z.ltb_spec (line_count f) 9223372036854775807)|]; lia.
Qed.

Lemma snfilter_reads_unchanged_witness :
  Forall (fun x => x <> x0d) [x61; x0a; x62; x0a] /\ x61 <> xef /\
  exists f in',
    snfilter_reads 4 snfilter_reset (bytes_file [x61; x0a; x62; x0a] false) =
      ([0x61; 0x0a; 0x62; 0x0a], f, in') /\
    line_count f = 3 /\ snfilter_count f = 4.
Proof.
  assert (Forall (fun x => x <> x0d) [x61; x0a; x62; x0a]) as Hall
    by (repeat constructor; discriminate).
  assert (x61 <> xef) as Hef by discriminate.
  split; [exact Hall|]. split; [exact Hef|].
  destruct (snfilter_reads_unchanged x61 [x0a; x62; x0a] false Hall Hef)
    as (f & in' & Hrun & _ & _ & Hl & Hc).
  exists f, in'. split; [exact Hrun|].
  split; [exact Hl|]. rewrite Hc, Hl. reflexivity.
Defined.

(** ** Literals read whole *)

Lemma byte_neq_val (a b : byte) : a <> b -> byte_val a <> byte_val b.
Proof. intros Hn Hv. apply Hn, byte_val_inj, Hv. Qed.

(** A read of a byte other than a carriage return, from a filter that has
    read a character already. *)
Lemma snfilter_read_byte (f : SNFILTER) (e : bool) (b : byte) (bs : list byte) :
  filter_active f -> 0 < line_count f -> b <> x0d -> head bs <> Some x0d ->
  exists f' e',
    snfilter_read f (mkFILE (RawByte b :: map RawByte bs) e) =
      (byte_val b, f', mkFILE (map RawByte bs) e') /\
    filter_active f' /\ 0 < line_count f'.
Proof.
  intros Hact Hl Hcr Hn.
  pose proof (byte_neq_val _ _ Hcr) as Hcr'. change (byte_val x0d) with ASCII_CR in Hcr'.
  pose proof (byte_val_range b) as Hb.
  destruct (Z.eq_dec (byte_val b) ASCII_LF) as [Hlf|Hlf].
  - assert (b = x0a) as -> by (apply byte_val_inj; rewrite Hlf; reflexivity).
    destruct (snfilter_read_lf f e bs Hact Hn) as [e1 Hr].
    eexists _, e1. split; [exact Hr|].
    split; [split; [reflexivity|right; cbn; consts; lia]|].
    cbn [line_count]. destruct (Z.eqb_spec (line_count f) 0); [lia|].
    destruct (Z.ltb_spec (line_count f) LONG_MAX); lia.
  - destruct (snfilter_read_plain f e b (map RawByte bs) Hact Hcr' Hlf) as [e1 Hr];
      [intros; lia|].
    eexists _, e1. split; [exact Hr|].
    destruct (filter_after_active f (byte_val b)) as [Ha Hp]; [lia|lia|]. auto.
Qed.

(** One byte of a literal goes from the stream into the buffer. *)
Lemma reading_next (r : reader) (data : list Z) (b : byte) (bs : list byte)
    (room nest : Z) :
  reading r data (map RawByte (b :: bs)) (room + 1) -> 0 < line_count (r_fil r) ->
  0 <= room -> b <> x00 -> b <> x0d -> head bs <> Some x0d ->
  exists f' pIn' r',
    snfilter_read (r_fil r) (r_in r) = (byte_val b, f', pIn') /\
    1 <= byte_val b <= 255 /\
    snstr_store 0 (byte_val b) nest (r_buf r) pIn' f' = Done (Continue r') /\
    r_err r' = 0 /\ r_nest r' = nest /\
    r_esc r' = (if byte_val b =? ASCII_BACKSLASH then 1 else 0) /\
    reading r' (data ++ [byte_val b]) (map RawByte bs) room /\
    0 < line_count (r_fil r').
Proof.
  intros (Hwf & Hd & Hroom & Hact & Hl0 & Hin) Hl Hr0 Hz Hcr Hn.
  destruct (r_in r) as [p e]. cbn [pending map] in Hin. subst p.
  destruct (snfilter_read_byte (r_fil r) e b bs Hact Hl Hcr Hn) as (f' & e' & Hread & Hact' & Hl').
  pose proof (byte_val_range b) as Hb.
  pose proof (byte_neq_val _ _ Hz) as Hz'. change (byte_val x00) with 0 in Hz'.
  destruct (snstr_store_ok (byte_val b) nest (r_buf r) (mkFILE (map RawByte bs) e') f')
    as (b' & Hst & Hwf' & Hd' & Hn' & Hm'); [lia | assumption | lia |].
  eexists f', _, _. split; [exact Hread|]. split; [lia|]. split; [exact Hst|].
  cbn [r_err r_esc r_nest r_fil]. split; [reflexivity|]. split; [reflexivity|].
  split; [reflexivity|]. split; [|assumption].
  unfold reading. cbn [r_buf r_in r_fil pending].
  rewrite Hd', Hd, Hn', Hm'.
  split; [assumption|]. split; [reflexivity|]. split; [lia|].
  split; [assumption|]. split; [lia|reflexivity].
Qed.

Lemma snstr_read_err_ok (c : Z) : 0 <= c -> snstr_read_err c = 0.
Proof.
  intros Hc. destruct (snstr_read_err_cases c) as [[-> _]|[_ ?]]; [reflexivity|lia].
Qed.

(** A turn of the quoted reader on a byte that does not end the
    literal. *)
Lemma snstr_readQuoted_turn (r : reader) (data : list Z) (b : byte) (bs : list byte)
    (room : Z) :
  reading r data (map RawByte (b :: bs)) (room + 1) -> 0 < line_count (r_fil r) ->
  r_err r = 0 ->
  0 <= room -> b <> x00 -> b <> x0d -> head bs <> Some x0d ->
  (r_esc r <> 0 \/ b <> x22) ->
  exists r',
    loop_steps reader_running snstr_readQuoted_body 1 r r' /\
    r_err r' = 0 /\
    r_esc r' = (if byte_val b =? ASCII_BACKSLASH then 1 else 0) /\
    reading r' (data ++ [byte_val b]) (map RawByte bs) room /\
    0 < line_count (r_fil r').
Proof.
  intros Hrd Hl He Hr0 Hz Hcr Hn Hesc.
  destruct (reading_next r data b bs room (r_nest r) Hrd Hl Hr0 Hz Hcr Hn)
    as (f' & pIn' & r' & Hread & Hb & Hst & He' & _ & Hesc' & Hrd' & Hl').
  exists r'. split; [|auto].
  apply loop_steps_one; [unfold reader_running; rewrite He; reflexivity|].
  unfold snstr_readQuoted_body. rewrite Hread.
  rewrite snstr_read_err_ok by lia. cbn [Z.eqb andb].
  replace ((r_esc r =? 0) && (byte_val b =? ASCII_DQUOTE)) with false; [exact Hst|].
  symmetry. apply andb_false_iff. destruct Hesc as [Hesc|Hesc]; [left|right]; apply Z.eqb_neq.
  - exact Hesc.
  - apply (byte_neq_val _ _ Hesc).
Qed.

(** The quoted reader goes through the text of a literal, keeping it. *)
Lemma snstr_readQuoted_run (ds : list byte) :
  quoted_text ds ->
  forall (r : reader) (data : list Z) (tl : list byte) (room : Z),
  reading r data (map RawByte (ds ++ tl)) (room + Z.of_nat (length ds)) ->
  0 < line_count (r_fil r) -> r_err r = 0 -> r_esc r = 0 -> 0 <= room ->
  literal_bytes ds -> head tl <> Some x0d ->
  exists r',
    loop_steps reader_running snstr_readQuoted_body (length ds) r r' /\
    r_err r' = 0 /\ r_esc r' = 0 /\
    reading r' (data ++ map byte_val ds) (map RawByte tl) room /\
    0 < line_count (r_fil r').
Proof.
  induction 1 as [|c w Hq Hb _ IH|c w Hb _ IH];
    intros r data tl room Hrd Hl He Hesc Hroom Hlit Htl.
  - exists r. cbn [length app map] in *. rewrite app_nil_r, Z.add_0_r in *.
    split; [constructor|auto].
  - inversion Hlit as [|? ? [Hz Hcr] Hlit']; subst.
    cbn [length app] in Hrd.
    destruct (snstr_readQuoted_turn r data c (w ++ tl) (room + Z.of_nat (length w)))
      as (r1 & Hs1 & He1 & Hesc1 & Hrd1 & Hl1); try assumption.
    { replace (room + Z.of_nat (length w) + 1) with (room + Z.of_nat (S (length w))) by lia.
      exact Hrd. }
    { lia. }
    { destruct w as [|c2 w]; [exact Htl|].
      inversion Hlit' as [|? ? [_ Hcr2] _]; subst. cbn. congruence. }
    { right. exact Hq. }
    destruct (Z.eqb_spec (byte_val c) ASCII_BACKSLASH) as [Hbs|_].
    { exfalso. apply Hb, byte_val_inj. rewrite Hbs. reflexivity. }
    destruct (IH r1 (data ++ [byte_val c]) tl room Hrd1 Hl1 He1 Hesc1 Hroom Hlit' Htl)
      as (r' & Hs & He' & Hesc' & Hrd' & Hl').
    exists r'. split; [exact (loop_steps_trans _ _ 1 _ _ _ _ Hs1 Hs)|].
    cbn [map]. rewrite <- app_assoc in Hrd'. auto.
  - inversion Hlit as [|? ? [Hz Hcr] Hlit1]; subst.
    inversion Hlit1 as [|? ? [Hz2 Hcr2] Hlit']; subst.
    cbn [length app] in Hrd.
    destruct (snstr_readQuoted_turn r data x5c (c :: w ++ tl) (room + Z.of_nat (length w) + 1))
      as (r1 & Hs1 & He1 & Hesc1 & Hrd1 & Hl1); try assumption.
    { replace (room + Z.of_nat (length w) + 1 + 1)
        with (room + Z.of_nat (S (S (length w)))) by lia.
      exact Hrd. }
    { lia. }
    { cbn. congruence. }
    { right. discriminate. }
    change (byte_val x5c =? ASCII_BACKSLASH) with true in Hesc1. cbn iota in Hesc1.
    destruct (snstr_readQuoted_turn r1 (data ++ [byte_val x5c]) c (w ++ tl)
                (room + Z.of_nat (length w)))
      as (r2 & Hs2 & He2 & Hesc2 & Hrd2 & Hl2); try assumption.
    { lia. }
    { destruct w as [|c2 w]; [exact Htl|].
      inversion Hlit' as [|? ? [_ Hcr3] _]; subst. cbn. congruence. }
    { left. lia. }
    destruct (Z.eqb_spec (byte_val c) ASCII_BACKSLASH) as [Hbs|_].
    { exfalso. apply Hb, byte_val_inj. rewrite Hbs. reflexivity. }
    destruct (IH r2 ((data ++ [byte_val x5c]) ++ [byte_val c]) tl room Hrd2 Hl2 He2 Hesc2
                Hroom Hlit' Htl)
      as (r' & Hs & He' & Hesc' & Hrd' & Hl').
    exists r'. split.
    + exact (loop_steps_trans _ _ 1 _ _ _ _ Hs1 (loop_steps_trans _ _ 1 _ _ _ _ Hs2 Hs)).
    + cbn [map]. rewrite <- !app_assoc in Hrd'. auto.
Qed.
Lemma reading_count (r : reader) (data : list Z) (rest : list raw_event) (room : Z) :
  reading r data rest room -> count (r_buf r) = Z.of_nat (length data).
Proof.
  intros ([H1 H2 H3 H4 H5] & Hd & _). rewrite <- Hd. unfold snbuffer_data.
  rewrite length_take. destruct H3 as [H3|H3]; [specialize (H4 H3)|]; lia.
Qed.

Lemma reading_start (pBuffer : SNBUFFER) (pIn : FILE) (pFilter : SNFILTER) (room : Z) :
  buffer_wf pBuffer -> filter_active pFilter -> 0 < line_count pFilter ->
  room < maxcap pBuffer ->
  reading (mkReader 0 0 1 (snbuffer_reset pBuffer 0) pIn pFilter) [] (pending pIn) room.
Proof.
  intros Hwf Hact Hl Hroom.
  destruct (snbuffer_reset_wf pBuffer Hwf) as (Hwf0 & Hd0 & Hc0 & Hm0).
  unfold reading. cbn [r_buf r_in r_fil]. rewrite Hc0, Hm0.
  split; [assumption|]. split; [assumption|]. split; [lia|].
  split; [assumption|]. split; [lia|reflexivity].
Qed.

(** The read that meets the end of the stream. *)
Lemma snfilter_read_end (f : SNFILTER) (e : bool) :
  filter_active f -> 0 < line_count f ->
  snfilter_read f (mkFILE [] e) =
    (SNERR_EOF, mkSNFILTER (line_count f) SNERR_EOF 0 (bom_present f), mkFILE [] true).
Proof.
  intros [Hp Hc] Hl. unfold snfilter_read.
  run_read; rewrite ?Hp; repeat step_read; reflexivity.
Qed.

(** A turn on a byte for which the buffer has no room left. *)
Lemma snstr_store_full (c nest : Z) (b : SNBUFFER) (pIn : FILE) (f : SNFILTER) :
  1 <= c <= 255 -> maxcap b - 1 <= count b ->
  snstr_store 0 c nest b pIn f =
    Done (Continue (mkReader SNERR_LONGSTR (if c =? ASCII_BACKSLASH then 1 else 0)
                      nest b pIn f)).
Proof.
  intros Hc Hfull. unfold snstr_store, snbuffer_append. cbn [Z.eqb andb].
  destruct (Z.eqb_spec c 0); [lia|].
  destruct (Z.ltb_spec c 1); [lia|]. rewrite Z.gtb_ltb.
  destruct (Z.ltb_spec 255 c); [lia|]. cbn [orb].
  destruct (Z.ltb_spec (count b) (maxcap b - 1)); [lia|].
  reflexivity.
Qed.

Lemma snbuffer_append_maxcap (b : SNBUFFER) (c ok : Z) (b' : SNBUFFER) :
  snbuffer_append b c = Done (ok, b') -> maxcap b' = maxcap b.
Proof.
  unfold snbuffer_append. destruct (_ || _); [discriminate|].
  destruct (_ <? _); [|intros [= _ <-]; reflexivity].
  destruct (cap b <? 1);
    match goal with
    | |- context [if ?x then _ else _] => destruct x
    end; intros [= _ <-]; reflexivity.
Qed.

Lemma snstr_store_maxcap (err c nest : Z) (b : SNBUFFER) (pIn : FILE) (f : SNFILTER)
    (r' : reader) :
  snstr_store err c nest b pIn f = Done (Continue r') -> maxcap (r_buf r') = maxcap b.
Proof.
  unfold snstr_store. destruct (_ =? 0).
  - destruct (snbuffer_append b c) as [[ok b']| |] eqn:Happ;
      cbn [mbind outcome_mbind outcome_bind]; try discriminate.
    intros [= <-]. cbn [r_buf]. exact (snbuffer_append_maxcap _ _ _ _ Happ).
  - intros [= <-]. reflexivity.
Qed.

Lemma snstr_readQuoted_steps_maxcap (n : nat) (r r' : reader) :
  loop_steps reader_running snstr_readQuoted_body n r r' ->
  maxcap (r_buf r') = maxcap (r_buf r).
Proof.
  induction 1 as [|n s sa sb Hc Hb _ IH]; [reflexivity|].
  rewrite IH. unfold snstr_readQuoted_body in Hb.
  destruct (snfilter_read (r_fil s) (r_in s)) as [[c f'] pIn'].
  destruct (_ && _) in Hb; [discriminate|].
  exact (snstr_store_maxcap _ _ _ _ _ _ _ Hb).
Qed.

(** X9: the double-quoted reader gives back the text of a literal. For
    bytes that hold no zero byte and no carriage return and are made of
    plain bytes and escapes (a backslash and a byte other than a
    backslash), followed by a double quote, the reader returns without
    error, the buffer holds exactly those bytes, and the stream is left
    just after the closing quote. The filter has delivered a character
    already and takes its next one from the stream. *)
Theorem snstr_readQuoted_text (fuel : nat) (pBuffer : SNBUFFER) (pFilter : SNFILTER)
    (e : bool) (ds rest : list byte) :
  buffer_wf pBuffer -> filter_active pFilter -> 0 < line_count pFilter ->
  quoted_text ds -> literal_bytes ds ->
  Z.of_nat (length ds) < maxcap pBuffer -> (length ds < fuel)%nat ->
  exists r,
    snstr_readQuoted fuel pBuffer (bytes_file (ds ++ x22 :: rest) e) pFilter = Done r /\
    r_err r = 0 /\
    snbuffer_data (r_buf r) = map byte_val ds /\
    pending (r_in r) = map RawByte rest.
Proof.
  intros Hwf Hact Hl Hq Hlit Hlen Hfuel. unfold snstr_readQuoted.
  pose proof (reading_start pBuffer (bytes_file (ds ++ x22 :: rest) e) pFilter
                (0 + Z.of_nat (length ds)) Hwf Hact Hl ltac:(lia)) as Hrd.
  cbn [bytes_file pending] in Hrd.
  destruct (snstr_readQuoted_run ds Hq _ [] (x22 :: rest) 0 Hrd)
    as (r1 & Hs & He1 & Hesc1 & Hrd1 & Hl1);
    [assumption | reflexivity | reflexivity | lia | assumption | discriminate |].
  cbn [app] in Hrd1.
  destruct Hrd1 as (Hwf1 & Hd1 & Hroom1 & Hact1 & _ & Hin1).
  destruct (r_in r1) as [p1 e1] eqn:Hrin. cbn [pending] in Hin1. subst p1.
  cbn [map] in Hrin.
  destruct (snfilter_read_plain (r_fil r1) e1 x22 (map RawByte rest) Hact1) as [e2 Hread];
    [byte_neq | byte_neq | intros; lia |].
  eexists. split.
  - apply (while_loop_ends _ _ (length ds) fuel _ r1); [exact Hs | exact Hfuel | |].
    + unfold reader_running. rewrite He1. reflexivity.
    + left. unfold snstr_readQuoted_body. rewrite Hrin, Hread.
      change (snstr_read_err (byte_val x22)) with 0.
      rewrite Hesc1. reflexivity.
  - cbn [r_err r_buf r_in pending]. auto.
Qed.

Lemma snstr_readQuoted_text_witness :
  let b := mkSNBUFFER [] 0 0 32 65535 in
  let f := mkSNFILTER 1 0x22 0 0 in
  buffer_wf b /\ filter_active f /\ 0 < line_count f /\
  quoted_text [x61; x5c; x22; x62] /\ literal_bytes [x61; x5c; x22; x62] /\
  exists r,
    snstr_readQuoted 5 b (bytes_file ([x61; x5c; x22; x62] ++ x22 :: [x63]) false) f = Done r /\
    r_err r = 0 /\
    snbuffer_data (r_buf r) = [0x61; 0x5c; 0x22; 0x62] /\
    pending (r_in r) = [RawByte x63].
Proof.
  intros b f.
  assert (buffer_wf b) as Hwf by (constructor; cbn; lia).
  assert (filter_active f) as Hact by (split; [reflexivity|right; cbn; lia]).
  assert (0 < line_count f) as Hl by (cbn; lia).
  assert (quoted_text [x61; x5c; x22; x62]) as Hq.
  { apply quoted_plain; [discriminate|discriminate|].
    apply quoted_escape; [discriminate|].
    apply quoted_plain; [discriminate|discriminate|]. apply quoted_nil. }
  assert (literal_bytes [x61; x5c; x22; x62]) as Hlit
    by (repeat constructor; discriminate).
  split; [exact Hwf|]. split; [exact Hact|]. split; [exact Hl|].
  split; [exact Hq|]. split; [exact Hlit|].
  exact (snstr_readQuoted_text 5 b f false [x61; x5c; x22; x62] [x63]
           Hwf Hact Hl Hq Hlit ltac:(cbn; lia) ltac:(cbn; lia)).
Defined.

(** X10: how the double-quoted reader fails. After the text of a literal
    that is not closed, the end of the stream gives [SNERR_OPENSTR] and a
    zero byte gives [SNERR_NULLCHR]; and when the text fills the buffer
    (one less than [maxcap] bytes) a further byte that does not close the
    literal gives [SNERR_LONGSTR]. *)
Theorem snstr_readQuoted_errors (fuel : nat) (pBuffer : SNBUFFER) (pFilter : SNFILTER)
    (e : bool) (ds rest : list byte) (b : byte) :
  buffer_wf pBuffer -> filter_active pFilter -> 0 < line_count pFilter ->
  quoted_text ds -> literal_bytes ds ->
  Z.of_nat (length ds) < maxcap pBuffer -> (length ds + 1 < fuel)%nat ->
  (exists r,
     snstr_readQuoted fuel pBuffer (bytes_file ds e) pFilter = Done r /\
     r_err r = SNERR_OPENSTR) /\
  (exists r,
     snstr_readQuoted fuel pBuffer (bytes_file (ds ++ x00 :: rest) e) pFilter = Done r /\
     r_err r = SNERR_NULLCHR) /\
  (Z.of_nat (length ds) = maxcap pBuffer - 1 ->
   b <> x00 -> b <> x0d -> b <> x22 -> head rest <> Some x0d ->
   exists r,
     snstr_readQuoted fuel pBuffer (bytes_file (ds ++ b :: rest) e) pFilter = Done r /\
     r_err r = SNERR_LONGSTR /\ snbuffer_data (r_buf r) = map byte_val ds).
Proof.
  intros Hwf Hact Hl Hq Hlit Hlen Hfuel.
  assert (forall tl, head tl <> Some x0d ->
            exists r1 e1,
              loop_steps reader_running snstr_readQuoted_body (length ds)
                (mkReader 0 0 1 (snbuffer_reset pBuffer 0) (bytes_file (ds ++ tl) e) pFilter) r1 /\
              r_err r1 = 0 /\ r_esc r1 = 0 /\ r_in r1 = mkFILE (map RawByte tl) e1 /\
              buffer_wf (r_buf r1) /\ snbuffer_data (r_buf r1) = map byte_val ds /\
              count (r_buf r1) = Z.of_nat (length ds) /\
              maxcap (r_buf r1) = maxcap pBuffer /\
              filter_active (r_fil r1) /\ 0 < line_count (r_fil r1)) as Hrun.
  { intros tl Htl.
    pose proof (reading_start pBuffer (bytes_file (ds ++ tl) e) pFilter
                  (0 + Z.of_nat (length ds)) Hwf Hact Hl ltac:(lia)) as Hrd.
    cbn [bytes_file pending] in Hrd.
    destruct (snstr_readQuoted_run ds Hq _ [] tl 0 Hrd)
      as (r1 & Hs & He1 & Hesc1 & Hrd1 & Hl1);
      [assumption | reflexivity | reflexivity | lia | assumption | assumption |].
    pose proof (reading_count _ _ _ _ Hrd1) as Hc1. cbn [app] in Hrd1, Hc1.
    rewrite length_map in Hc1.
    pose proof (snstr_readQuoted_steps_maxcap _ _ _ Hs) as Hm1. cbn [r_buf] in Hm1.
    replace (maxcap (snbuffer_reset pBuffer 0)) with (maxcap pBuffer) in Hm1
      by (symmetry; apply (snbuffer_reset_wf pBuffer Hwf)).
    destruct Hrd1 as (Hwf1 & Hd1 & Hroom1 & Hact1 & _ & Hin1).
    destruct (r_in r1) as [p1 e1] eqn:Hrin. cbn [pending] in Hin1. subst p1.
    exists r1, e1. repeat (split; [assumption || reflexivity|]). assumption. }
  split; [|split].
  - destruct (Hrun [] ltac:(discriminate))
      as (r1 & e1 & Hs & He1 & Hesc1 & Hin1 & Hwf1 & Hd1 & Hc1 & Hm1 & Hact1 & Hl1).
    rewrite app_nil_r in Hs. eexists. split.
    + apply (while_loop_ends _ _ (length ds) fuel _ r1); [exact Hs | lia | |].
      * unfold reader_running. rewrite He1. reflexivity.
      * right. unfold snstr_readQuoted_body. rewrite Hin1. cbn [map].
        rewrite (snfilter_read_end _ _ Hact1 Hl1).
        split; reflexivity.
    + reflexivity.
  - destruct (Hrun (x00 :: rest) ltac:(discriminate))
      as (r1 & e1 & Hs & He1 & Hesc1 & Hin1 & Hwf1 & Hd1 & Hc1 & Hm1 & Hact1 & Hl1).
    cbn [map] in Hin1.
    destruct (snfilter_read_plain (r_fil r1) e1 x00 (map RawByte rest) Hact1) as [e2 Hread];
      [byte_neq | byte_neq | intros; lia |].
    eexists. split.
    + apply (while_loop_ends _ _ (length ds) fuel _ r1); [exact Hs | lia | |].
      * unfold reader_running. rewrite He1. reflexivity.
      * right. unfold snstr_readQuoted_body. rewrite Hin1, Hread, Hesc1.
        split; reflexivity.
    + reflexivity.
  - intros Hfull Hz Hcr Hnq Hrest.
    destruct (Hrun (b :: rest))
      as (r1 & e1 & Hs & He1 & Hesc1 & Hin1 & Hwf1 & Hd1 & Hc1 & Hm1 & Hact1 & Hl1).
    { cbn. congruence. }
    cbn [map] in Hin1.
    destruct (snfilter_read_byte (r_fil r1) e1 b rest Hact1 Hl1 Hcr Hrest)
      as (f2 & e2 & Hread & _).
    pose proof (byte_val_range b) as Hb.
    pose proof (byte_neq_val _ _ Hz) as Hz'. change (byte_val x00) with 0 in Hz'.
    pose proof (byte_neq_val _ _ Hnq) as Hq'. change (byte_val x22) with ASCII_DQUOTE in Hq'.
    eexists. split.
    + apply (while_loop_ends _ _ (length ds) fuel _ r1); [exact Hs | lia | |].
      * unfold reader_running. rewrite He1. reflexivity.
      * right. unfold snstr_readQuoted_body. rewrite Hin1, Hread.
        rewrite snstr_read_err_ok by lia. rewrite Hesc1. cbn [Z.eqb andb].
        destruct (Z.eqb_spec (byte_val b) ASCII_DQUOTE); [contradiction|].
        rewrite snstr_store_full by lia. split; reflexivity.
    + cbn [r_err r_buf]. auto.
Qed.

Lemma snstr_readQuoted_errors_witness :
  let b := mkSNBUFFER [] 0 0 2 3 in
  let f := mkSNFILTER 1 0x22 0 0 in
  buffer_wf b /\ filter_active f /\ 0 < line_count f /\
  quoted_text [x61; x62] /\ literal_bytes [x61; x62] /\
  (exists r, snstr_readQuoted 4 b (bytes_file [x61; x62] false) f = Done r /\
             r_err r = SNERR_OPENSTR) /\
  (exists r, snstr_readQuoted 4 b (bytes_file ([x61; x62] ++ x63 :: []) false) f = Done r /\
             r_err r = SNERR_LONGSTR /\ snbuffer_data (r_buf r) = [0x61; 0x62]).
Proof.
  intros b f.
  assert (buffer_wf b) as Hwf by (constructor; cbn; lia).
  assert (filter_active f) as Hact by (split; [reflexivity|right; cbn; lia]).
  assert (0 < line_count f) as Hl by (cbn; lia).
  assert (quoted_text [x61; x62]) as Hq
    by (repeat (apply quoted_plain; [discriminate|discriminate|]); apply quoted_nil).
  assert (literal_bytes [x61; x62]) as Hlit by (repeat constructor; discriminate).
  split; [exact Hwf|]. split; [exact Hact|]. split; [exact Hl|].
  split; [exact Hq|]. split; [exact Hlit|].
  destruct (snstr_readQuoted_errors 4 b f false [x61; x62] [] x63
              Hwf Hact Hl Hq Hlit ltac:(cbn; lia) ltac:(cbn; lia)) as (Ha & _ & Hc).
  split; [exact Ha|].
  apply Hc; [reflexivity|discriminate|discriminate|discriminate|discriminate].
Defined.

(** A turn of the curly reader on a byte that does not end the literal:
    the nesting level moves for a curly bracket met with the escape flag
    clear. *)
Lemma snstr_readCurlied_turn (r : reader) (data : list Z) (b : byte) (bs : list byte)
    (room : Z) :
  reading r data (map RawByte (b :: bs)) (room + 1) -> 0 < line_count (r_fil r) ->
  r_err r = 0 ->
  0 <= room -> b <> x00 -> b <> x0d -> head bs <> Some x0d ->
  1 <= r_nest r < LONG_MAX ->
  (r_esc r <> 0 \/ b <> x7d \/ 2 <= r_nest r) ->
  exists r',
    loop_steps reader_running snstr_readCurlied_body 1 r r' /\
    r_err r' = 0 /\
    r_esc r' = (if byte_val b =? ASCII_BACKSLASH then 1 else 0) /\
    r_nest r' =
      (if r_esc r =? 0
       then if byte_val b =? ASCII_LCURL then r_nest r + 1
            else if byte_val b =? ASCII_RCURL then r_nest r - 1 else r_nest r
       else r_nest r) /\
    reading r' (data ++ [byte_val b]) (map RawByte bs) room /\
    0 < line_count (r_fil r').
Proof.
  intros Hrd Hl He Hr0 Hz Hcr Hn Hnest Hesc.
  set (nest' := if r_esc r =? 0
                then if byte_val b =? ASCII_LCURL then r_nest r + 1
                     else if byte_val b =? ASCII_RCURL then r_nest r - 1 else r_nest r
                else r_nest r).
  destruct (reading_next r data b bs room nest' Hrd Hl Hr0 Hz Hcr Hn)
    as (f' & pIn' & r' & Hread & Hb & Hst & He' & Hn' & Hesc' & Hrd' & Hl').
  exists r'. split; [|auto 6].
  apply loop_steps_one; [unfold reader_running; rewrite He; reflexivity|].
  unfold snstr_readCurlied_body. rewrite Hread.
  rewrite snstr_read_err_ok by lia. cbn [Z.eqb andb].
  assert ((if r_esc r =? 0
           then if byte_val b =? ASCII_LCURL
                then if r_nest r <? LONG_MAX then (0, r_nest r + 1)
                     else (SNERR_DEEPCURLY, r_nest r)
                else if byte_val b =? ASCII_RCURL then (0, r_nest r - 1)
                     else (0, r_nest r)
           else (0, r_nest r)) = (0, nest')) as ->.
  { subst nest'. destruct (r_esc r =? 0); [|reflexivity].
    destruct (byte_val b =? ASCII_LCURL).
    - destruct (Z.ltb_spec (r_nest r) LONG_MAX); [reflexivity|lia].
    - destruct (byte_val b =? ASCII_RCURL); reflexivity. }
  cbn [Z.eqb andb].
  assert (1 <= nest') as Hge.
  { subst nest'. destruct (Z.eqb_spec (r_esc r) 0) as [Hz0|_]; [|lia].
    destruct (Z.eqb_spec (byte_val b) ASCII_LCURL); [lia|].
    destruct (Z.eqb_spec (byte_val b) ASCII_RCURL) as [Hrc|_]; [|lia].
    destruct Hesc as [?|[Hnb|?]]; [contradiction| |lia].
    exfalso. apply Hnb, byte_val_inj. rewrite Hrc. reflexivity. }
  destruct (Z.ltb_spec nest' 1); [lia|]. exact Hst.
Qed.

(** The curly reader goes through the text of a literal, keeping it, and
    comes back to the nesting level it started from. *)
Lemma snstr_readCurlied_run (ds : list byte) :
  curly_text ds ->
  forall (r : reader) (data : list Z) (tl : list byte) (room : Z),
  reading r data (map RawByte (ds ++ tl)) (room + Z.of_nat (length ds)) ->
  0 < line_count (r_fil r) -> r_err r = 0 -> r_esc r = 0 -> 0 <= room ->
  1 <= r_nest r -> r_nest r + Z.of_nat (length ds) < LONG_MAX ->
  literal_bytes ds -> head tl <> Some x0d ->
  exists r',
    loop_steps reader_running snstr_readCurlied_body (length ds) r r' /\
    r_err r' = 0 /\ r_esc r' = 0 /\ r_nest r' = r_nest r /\
    reading r' (data ++ map byte_val ds) (map RawByte tl) room /\
    0 < line_count (r_fil r').
Proof.
  induction 1 as [|c w Hlc Hrc Hb _ IH|c w Hb _ IH|u w _ IHu _ IHw];
    intros r data tl room Hrd Hl He Hesc Hroom Hn1 Hn2 Hlit Htl.
  - exists r. cbn [length app map] in *. rewrite app_nil_r, Z.add_0_r in *.
    split; [constructor|auto 6].
  - inversion Hlit as [|? ? [Hz Hcr] Hlit']; subst.
    cbn [length app] in Hrd, Hn2.
    destruct (snstr_readCurlied_turn r data c (w ++ tl) (room + Z.of_nat (length w)))
      as (r1 & Hs1 & He1 & Hesc1 & Hnest1 & Hrd1 & Hl1); try assumption.
    { replace (room + Z.of_nat (length w) + 1) with (room + Z.of_nat (S (length w))) by lia.
      exact Hrd. }
    { lia. }
    { destruct w as [|c2 w]; [exact Htl|].
      inversion Hlit' as [|? ? [_ Hcr2] _]; subst. cbn. congruence. }
    { lia. }
    { right. left. exact Hrc. }
    rewrite Hesc in Hnest1. cbn [Z.eqb] in Hnest1.
    pose proof (byte_neq_val _ _ Hlc) as Hlc'. change (byte_val x7b) with ASCII_LCURL in Hlc'.
    pose proof (byte_neq_val _ _ Hrc) as Hrc'. change (byte_val x7d) with ASCII_RCURL in Hrc'.
    pose proof (byte_neq_val _ _ Hb) as Hb'. change (byte_val x5c) with ASCII_BACKSLASH in Hb'.
    destruct (Z.eqb_spec (byte_val c) ASCII_LCURL); [contradiction|].
    destruct (Z.eqb_spec (byte_val c) ASCII_RCURL); [contradiction|].
    destruct (Z.eqb_spec (byte_val c) ASCII_BACKSLASH); [contradiction|].
    destruct (IH r1 (data ++ [byte_val c]) tl room Hrd1 Hl1 He1 Hesc1 Hroom)
      as (r' & Hs & He' & Hesc' & Hnest' & Hrd' & Hl'); [lia | lia | assumption | assumption |].
    exists r'. split; [exact (loop_steps_trans _ _ 1 _ _ _ _ Hs1 Hs)|].
    cbn [map]. rewrite <- app_assoc in Hrd'.
    split; [assumption|]. split; [assumption|]. split; [lia|]. auto.
  - inversion Hlit as [|? ? [Hz Hcr] Hlit1]; subst.
    inversion Hlit1 as [|? ? [Hz2 Hcr2] Hlit']; subst.
    cbn [length app] in Hrd, Hn2.
    destruct (snstr_readCurlied_turn r data x5c (c :: w ++ tl) (room + Z.of_nat (length w) + 1))
      as (r1 & Hs1 & He1 & Hesc1 & Hnest1 & Hrd1 & Hl1); try assumption.
    { replace (room + Z.of_nat (length w) + 1 + 1)
        with (room + Z.of_nat (S (S (length w)))) by lia.
      exact Hrd. }
    { lia. }
    { cbn. congruence. }
    { lia. }
    { right. left. discriminate. }
    rewrite Hesc in Hnest1. cbn [Z.eqb] in Hnest1.
    change (byte_val x5c =? ASCII_BACKSLASH) with true in Hesc1.
    change (byte_val x5c =? ASCII_LCURL) with false in Hnest1.
    change (byte_val x5c =? ASCII_RCURL) with false in Hnest1.
    cbn iota in Hesc1, Hnest1.
    destruct (snstr_readCurlied_turn r1 (data ++ [byte_val x5c]) c (w ++ tl)
                (room + Z.of_nat (length w)))
      as (r2 & Hs2 & He2 & Hesc2 & Hnest2 & Hrd2 & Hl2); try assumption.
    { lia. }
    { destruct w as [|c2 w]; [exact Htl|].
      inversion Hlit' as [|? ? [_ Hcr3] _]; subst. cbn. congruence. }
    { lia. }
    { left. lia. }
    rewrite Hesc1 in Hnest2. cbn [Z.eqb] in Hnest2.
    pose proof (byte_neq_val _ _ Hb) as Hb'. change (byte_val x5c) with ASCII_BACKSLASH in Hb'.
    destruct (Z.eqb_spec (byte_val c) ASCII_BACKSLASH); [contradiction|].
    destruct (IH r2 ((data ++ [byte_val x5c]) ++ [byte_val c]) tl room Hrd2 Hl2 He2 Hesc2
                Hroom)
      as (r' & Hs & He' & Hesc' & Hnest' & Hrd' & Hl'); [lia | lia | assumption | assumption |].
    exists r'. split.
    + exact (loop_steps_trans _ _ 1 _ _ _ _ Hs1 (loop_steps_trans _ _ 1 _ _ _ _ Hs2 Hs)).
    + cbn [map]. rewrite <- !app_assoc in Hrd'.
      split; [assumption|]. split; [assumption|]. split; [lia|]. auto.
  - apply Forall_cons in Hlit as [[Hz Hcr] Hlit1].
    apply Forall_app in Hlit1 as [Hlitu Hlit2].
    apply Forall_cons in Hlit2 as [[Hz2 Hcr2] Hlitw].
    cbn [length app] in Hrd, Hn2. rewrite length_app in Hrd, Hn2. cbn [length] in Hrd, Hn2.
    rewrite <- app_assoc in Hrd. cbn [app] in Hrd.
    (* the opening bracket *)
    destruct (snstr_readCurlied_turn r data x7b (u ++ x7d :: w ++ tl)
                (room + Z.of_nat (length u) + 1 + Z.of_nat (length w)))
      as (r1 & Hs1 & He1 & Hesc1 & Hnest1 & Hrd1 & Hl1); try assumption.
    { replace (room + Z.of_nat (length u) + 1 + Z.of_nat (length w) + 1)
        with (room + Z.of_nat (S (length u + S (length w)))) by lia.
      exact Hrd. }
    { lia. }
    { destruct u as [|c2 u]; [discriminate|].
      apply Forall_cons in Hlitu as [[_ Hcr3] _]. cbn. congruence. }
    { lia. }
    { right. left. discriminate. }
    rewrite Hesc in Hnest1. cbn [Z.eqb] in Hnest1.
    change (byte_val x7b =? ASCII_BACKSLASH) with false in Hesc1.
    change (byte_val x7b =? ASCII_LCURL) with true in Hnest1.
    cbn iota in Hesc1, Hnest1.
    (* the group *)
    destruct (IHu r1 (data ++ [byte_val x7b]) (x7d :: w ++ tl)
                (room + 1 + Z.of_nat (length w)))
      as (r2 & Hs2 & He2 & Hesc2 & Hnest2 & Hrd2 & Hl2); try assumption.
    { replace (room + 1 + Z.of_nat (length w) + Z.of_nat (length u))
        with (room + Z.of_nat (length u) + 1 + Z.of_nat (length w)) by lia.
      exact Hrd1. }
    { lia. }
    { lia. }
    { lia. }
    { discriminate. }
    (* the closing bracket *)
    destruct (snstr_readCurlied_turn r2 ((data ++ [byte_val x7b]) ++ map byte_val u) x7d
                (w ++ tl) (room + Z.of_nat (length w)))
      as (r3 & Hs3 & He3 & Hesc3 & Hnest3 & Hrd3 & Hl3); try assumption.
    { replace (room + Z.of_nat (length w) + 1) with (room + 1 + Z.of_nat (length w)) by lia.
      exact Hrd2. }
    { lia. }
    { destruct w as [|c2 w]; [exact Htl|].
      apply Forall_cons in Hlitw as [[_ Hcr3] _]. cbn. congruence. }
    { lia. }
    { right. right. lia. }
    rewrite Hesc2 in Hnest3. cbn [Z.eqb] in Hnest3.
    change (byte_val x7d =? ASCII_BACKSLASH) with false in Hesc3.
    change (byte_val x7d =? ASCII_LCURL) with false in Hnest3.
    change (byte_val x7d =? ASCII_RCURL) with true in Hnest3.
    cbn iota in Hesc3, Hnest3.
    (* what follows the group *)
    destruct (IHw r3 (((data ++ [byte_val x7b]) ++ map byte_val u) ++ [byte_val x7d]) tl room)
      as (r' & Hs & He' & Hesc' & Hnest' & Hrd' & Hl'); try assumption.
    { lia. }
    { lia. }
    exists r'. split.
    + cbn [length]. rewrite length_app. cbn [length].
      replace (S (length u + S (length w)))
        with (1 + (length u + (1 + length w)))%nat by lia.
      exact (loop_steps_trans _ _ 1 _ _ _ _ Hs1
               (loop_steps_trans _ _ _ _ _ _ _ Hs2
                  (loop_steps_trans _ _ 1 _ _ _ _ Hs3 Hs))).
    + split; [assumption|]. split; [assumption|]. split; [lia|].
      split; [|assumption].
      cbn [map]. rewrite map_app. cbn [map].
      rewrite <- !app_assoc in Hrd'. cbn [app] in Hrd'. exact Hrd'.
Qed.
Lemma snstr_readCurlied_steps_maxcap (n : nat) (r r' : reader) :
  loop_steps reader_running snstr_readCurlied_body n r r' ->
  maxcap (r_buf r') = maxcap (r_buf r).
Proof.
  induction 1 as [|n s sa sb Hc Hb _ IH]; [reflexivity|].
  rewrite IH. unfold snstr_readCurlied_body in Hb.
  destruct (snfilter_read (r_fil s) (r_in s)) as [[c f'] pIn'].
  match type of Hb with
  | context [let '(_, _) := ?X in _] => destruct X as [err nest]
  end.
  destruct (_ && _) in Hb; [discriminate|].
  exact (snstr_store_maxcap _ _ _ _ _ _ _ Hb).
Qed.

(** The curly reader at the end of the text of a literal. *)
Lemma snstr_readCurlied_at (pBuffer : SNBUFFER) (pFilter : SNFILTER) (e : bool)
    (ds tl : list byte) :
  buffer_reachable pBuffer -> filter_active pFilter -> 0 < line_count pFilter ->
  curly_text ds -> literal_bytes ds ->
  Z.of_nat (length ds) < maxcap pBuffer -> head tl <> Some x0d ->
  exists r1 e1,
    loop_steps reader_running snstr_readCurlied_body (length ds)
      (mkReader 0 0 1 (snbuffer_reset pBuffer 0) (bytes_file (ds ++ tl) e) pFilter) r1 /\
    r_err r1 = 0 /\ r_esc r1 = 0 /\ r_nest r1 = 1 /\
    r_in r1 = mkFILE (map RawByte tl) e1 /\
    buffer_wf (r_buf r1) /\ snbuffer_data (r_buf r1) = map byte_val ds /\
    count (r_buf r1) = Z.of_nat (length ds) /\
    maxcap (r_buf r1) = maxcap pBuffer /\
    filter_active (r_fil r1) /\ 0 < line_count (r_fil r1).
Proof.
  intros Hreach Hact Hl Hq Hlit Hlen Htl.
  destruct (buffer_reachable_str pBuffer Hreach) as [[Hwf _ _] Hmax].
  pose proof (reading_start pBuffer (bytes_file (ds ++ tl) e) pFilter
                (0 + Z.of_nat (length ds)) Hwf Hact Hl ltac:(lia)) as Hrd.
  cbn [bytes_file pending] in Hrd.
  destruct (snstr_readCurlied_run ds Hq _ [] tl 0 Hrd)
    as (r1 & Hs & He1 & Hesc1 & Hn1 & Hrd1 & Hl1);
    [assumption | reflexivity | reflexivity | lia | cbn; lia
    | cbn [r_nest]; unfold LONG_MAX; lia | assumption | assumption |].
  pose proof (reading_count _ _ _ _ Hrd1) as Hc1. cbn [app] in Hrd1, Hc1.
  rewrite length_map in Hc1.
  pose proof (snstr_readCurlied_steps_maxcap _ _ _ Hs) as Hm1. cbn [r_buf] in Hm1.
  replace (maxcap (snbuffer_reset pBuffer 0)) with (maxcap pBuffer) in Hm1
    by (symmetry; apply (snbuffer_reset_wf pBuffer Hwf)).
  destruct Hrd1 as (Hwf1 & Hd1 & Hroom1 & Hact1 & _ & Hin1).
  destruct (r_in r1) as [p1 e1] eqn:Hrin. cbn [pending] in Hin1. subst p1.
  exists r1, e1. cbn [r_nest] in Hn1.
  repeat (split; [assumption || reflexivity|]). assumption.
Qed.

(** X11: the curly reader gives back the text of a literal, nested
    brackets included. For bytes that hold no zero byte and no carriage
    return and are made of plain bytes, escapes (a backslash and a byte
    other than a backslash) and groups in curly brackets that are
    themselves such texts, followed by a closing curly bracket, the
    reader returns without error, the buffer holds exactly those bytes,
    and the stream is left just after the bracket that matches the
    opening one. The filter has delivered a character already and takes
    its next one from the stream. *)
Theorem snstr_readCurlied_text (fuel : nat) (pBuffer : SNBUFFER) (pFilter : SNFILTER)
    (e : bool) (ds rest : list byte) :
  buffer_reachable pBuffer -> filter_active pFilter -> 0 < line_count pFilter ->
  curly_text ds -> literal_bytes ds ->
  Z.of_nat (length ds) < maxcap pBuffer -> (length ds < fuel)%nat ->
  exists r,
    snstr_readCurlied fuel pBuffer (bytes_file (ds ++ x7d :: rest) e) pFilter = Done r /\
    r_err r = 0 /\
    snbuffer_data (r_buf r) = map byte_val ds /\
    pending (r_in r) = map RawByte rest.
Proof.
  intros Hreach Hact Hl Hq Hlit Hlen Hfuel. unfold snstr_readCurlied.
  destruct (snstr_readCurlied_at pBuffer pFilter e ds (x7d :: rest) Hreach Hact Hl Hq Hlit Hlen)
    as (r1 & e1 & Hs & He1 & Hesc1 & Hn1 & Hin1 & Hwf1 & Hd1 & Hc1 & Hm1 & Hact1 & Hl1);
    [discriminate|].
  cbn [map] in Hin1.
  destruct (snfilter_read_plain (r_fil r1) e1 x7d (map RawByte rest) Hact1) as [e2 Hread];
    [byte_neq | byte_neq | intros; lia |].
  eexists. split.
  - apply (while_loop_ends _ _ (length ds) fuel _ r1); [exact Hs | exact Hfuel | |].
    + unfold reader_running. rewrite He1. reflexivity.
    + left. unfold snstr_readCurlied_body. rewrite Hin1, Hread, Hesc1, Hn1.
      reflexivity.
  - cbn [r_err r_buf r_in pending]. auto.
Qed.

Lemma snstr_readCurlied_text_witness :
  let b := mkSNBUFFER [] 0 0 32 65535 in
  let f := mkSNFILTER 1 0x7b 0 0 in
  buffer_reachable b /\ filter_active f /\ 0 < line_count f /\
  curly_text [x61; x7b; x62; x7d; x63] /\ literal_bytes [x61; x7b; x62; x7d; x63] /\
  exists r,
    snstr_readCurlied 6 b (bytes_file ([x61; x7b; x62; x7d; x63] ++ x7d :: [x64]) false) f =
      Done r /\
    r_err r = 0 /\
    snbuffer_data (r_buf r) = [0x61; 0x7b; 0x62; 0x7d; 0x63] /\
    pending (r_in r) = [RawByte x64].
Proof.
  intros b f.
  assert (buffer_reachable b) as Hr by (apply (buf_init 32 65535); reflexivity).
  assert (filter_active f) as Hact by (split; [reflexivity|right; cbn; lia]).
  assert (0 < line_count f) as Hl by (cbn; lia).
  assert (curly_text [x61; x7b; x62; x7d; x63]) as Hq.
  { apply curly_plain; [discriminate|discriminate|discriminate|].
    apply (curly_group [x62] [x63]);
      (apply curly_plain; [discriminate|discriminate|discriminate|apply curly_nil]). }
  assert (literal_bytes [x61; x7b; x62; x7d; x63]) as Hlit
    by (repeat constructor; discriminate).
  split; [exact Hr|]. split; [exact Hact|]. split; [exact Hl|].
  split; [exact Hq|]. split; [exact Hlit|].
  exact (snstr_readCurlied_text 6 b f false [x61; x7b; x62; x7d; x63] [x64]
           Hr Hact Hl Hq Hlit ltac:(cbn; lia) ltac:(cbn; lia)).
Defined.

(** X12: how the curly reader fails. After the text of a literal that is
    not closed, the end of the stream gives [SNERR_OPENSTR] and a zero
    byte gives [SNERR_NULLCHR]; and when the text fills the buffer (one
    less than [maxcap] bytes) a further byte that does not close the
    literal gives [SNERR_LONGSTR], the buffer keeping the text. *)
Theorem snstr_readCurlied_errors (fuel : nat) (pBuffer : SNBUFFER) (pFilter : SNFILTER)
    (e : bool) (ds rest : list byte) (b : byte) :
  buffer_reachable pBuffer -> filter_active pFilter -> 0 < line_count pFilter ->
  curly_text ds -> literal_bytes ds ->
  Z.of_nat (length ds) < maxcap pBuffer -> (length ds + 1 < fuel)%nat ->
  (exists r,
     snstr_readCurlied fuel pBuffer (bytes_file ds e) pFilter = Done r /\
     r_err r = SNERR_OPENSTR) /\
  (exists r,
     snstr_readCurlied fuel pBuffer (bytes_file (ds ++ x00 :: rest) e) pFilter = Done r /\
     r_err r = SNERR_NULLCHR) /\
  (Z.of_nat (length ds) = maxcap pBuffer - 1 ->
   b <> x00 -> b <> x0d -> b <> x7d -> head rest <> Some x0d ->
   exists r,
     snstr_readCurlied fuel pBuffer (bytes_file (ds ++ b :: rest) e) pFilter = Done r /\
     r_err r = SNERR_LONGSTR /\ snbuffer_data (r_buf r) = map byte_val ds).
Proof.
  intros Hreach Hact Hl Hq Hlit Hlen Hfuel.
  pose proof (snstr_readCurlied_at pBuffer pFilter e ds) as Hrun.
  split; [|split].
  - destruct (Hrun [] Hreach Hact Hl Hq Hlit Hlen ltac:(discriminate))
      as (r1 & e1 & Hs & He1 & Hesc1 & Hn1 & Hin1 & Hwf1 & Hd1 & Hc1 & Hm1 & Hact1 & Hl1).
    rewrite app_nil_r in Hs. eexists. split.
    + apply (while_loop_ends _ _ (length ds) fuel _ r1); [exact Hs | lia | |].
      * unfold reader_running. rewrite He1. reflexivity.
      * right. unfold snstr_readCurlied_body. rewrite Hin1. cbn [map].
        rewrite (snfilter_read_end _ _ Hact1 Hl1), Hesc1, Hn1.
        split; reflexivity.
    + reflexivity.
  - destruct (Hrun (x00 :: rest) Hreach Hact Hl Hq Hlit Hlen ltac:(discriminate))
      as (r1 & e1 & Hs & He1 & Hesc1 & Hn1 & Hin1 & Hwf1 & Hd1 & Hc1 & Hm1 & Hact1 & Hl1).
    cbn [map] in Hin1.
    destruct (snfilter_read_plain (r_fil r1) e1 x00 (map RawByte rest) Hact1) as [e2 Hread];
      [byte_neq | byte_neq | intros; lia |].
    eexists. split.
    + apply (while_loop_ends _ _ (length ds) fuel _ r1); [exact Hs | lia | |].
      * unfold reader_running. rewrite He1. reflexivity.
      * right. unfold snstr_readCurlied_body. rewrite Hin1, Hread, Hesc1, Hn1.
        split; reflexivity.
    + reflexivity.
  - intros Hfull Hz Hcr Hnq Hrest.
    destruct (Hrun (b :: rest) Hreach Hact Hl Hq Hlit Hlen)
      as (r1 & e1 & Hs & He1 & Hesc1 & Hn1 & Hin1 & Hwf1 & Hd1 & Hc1 & Hm1 & Hact1 & Hl1).
    { cbn. congruence. }
    cbn [map] in Hin1.
    destruct (snfilter_read_byte (r_fil r1) e1 b rest Hact1 Hl1 Hcr Hrest)
      as (f2 & e2 & Hread & _).
    pose proof (byte_val_range b) as Hb.
    pose proof (byte_neq_val _ _ Hz) as Hz'. change (byte_val x00) with 0 in Hz'.
    pose proof (byte_neq_val _ _ Hnq) as Hq'. change (byte_val x7d) with ASCII_RCURL in Hq'.
    assert (exists nest,
              snstr_readCurlied_body r1 =
                Done (Continue (mkReader SNERR_LONGSTR
                                  (if byte_val b =? ASCII_BACKSLASH then 1 else 0) nest
                                  (r_buf r1) (mkFILE (map RawByte rest) e2) f2))) as [nest Hbody].
    { unfold snstr_readCurlied_body. rewrite Hin1, Hread.
      rewrite snstr_read_err_ok by lia. rewrite Hesc1, Hn1. cbn [Z.eqb andb].
      destruct (Z.eqb_spec (byte_val b) ASCII_RCURL); [contradiction|].
      destruct (Z.eqb_spec (byte_val b) ASCII_LCURL).
      - exists (1 + 1). change (1 <? LONG_MAX) with true. cbn iota. cbn [Z.eqb andb].
        change (1 + 1 <? 1) with false. cbn iota.
        rewrite snstr_store_full by lia. reflexivity.
      - exists 1. cbn [Z.eqb andb]. change (1 <? 1) with false. cbn iota.
        rewrite snstr_store_full by lia. reflexivity. }
    eexists. split.
    + apply (while_loop_ends _ _ (length ds) fuel _ r1); [exact Hs | lia | |].
      * unfold reader_running. rewrite He1. reflexivity.
      * right. split; [exact Hbody | reflexivity].
    + cbn [r_err r_buf]. auto.
Qed.

Lemma snstr_readCurlied_errors_witness :
  let b := mkSNBUFFER [] 0 0 2 3 in
  let f := mkSNFILTER 1 0x7b 0 0 in
  buffer_reachable b /\ filter_active f /\ 0 < line_count f /\
  curly_text [x61; x62] /\ literal_bytes [x61; x62] /\
  (exists r, snstr_readCurlied 4 b (bytes_file [x61; x62] false) f = Done r /\
             r_err r = SNERR_OPENSTR) /\
  (exists r, snstr_readCurlied 4 b (bytes_file ([x61; x62] ++ x63 :: []) false) f = Done r /\
             r_err r = SNERR_LONGSTR /\ snbuffer_data (r_buf r) = [0x61; 0x62]).
Proof.
  intros b f.
  assert (buffer_reachable b) as Hr by (apply (buf_init 2 3); reflexivity).
  assert (filter_active f) as Hact by (split; [reflexivity|right; cbn; lia]).
  assert (0 < line_count f) as Hl by (cbn; lia).
  assert (curly_text [x61; x62]) as Hq
    by (repeat (apply curly_plain; [discriminate|discriminate|discriminate|]); apply curly_nil).
  assert (literal_bytes [x61; x62]) as Hlit by (repeat constructor; discriminate).
  split; [exact Hr|]. split; [exact Hact|]. split; [exact Hl|].
  split; [exact Hq|]. split; [exact Hlit|].
  destruct (snstr_readCurlied_errors 4 b f false [x61; x62] [] x63
              Hr Hact Hl Hq Hlit ltac:(cbn; lia) ltac:(cbn; lia)) as (Ha & _ & Hc).
  split; [exact Ha|].
  apply Hc; [reflexivity|discriminate|discriminate|discriminate|discriminate].
Defined.

(** ** Blanks and comments *)

(** A read of a byte other than a carriage return. *)
Lemma snfilter_read_ready (f : SNFILTER) (e : bool) (b : byte) (bs : list byte) :
  filter_ready f (b :: bs) -> b <> x0d -> head bs <> Some x0d ->
  exists f' e',
    snfilter_read f (mkFILE (RawByte b :: map RawByte bs) e) =
      (byte_val b, f', mkFILE (map RawByte bs) e') /\
    filter_active f' /\ 0 < line_count f' /\ last_c f' = byte_val b /\
    bom_present f' = bom_present f.
Proof.
  intros (Hact & Hl0 & Hbom) Hcr Hn. pose proof Hact as [Hp Hl].
  pose proof (byte_neq_val _ _ Hcr) as Hcr'. change (byte_val x0d) with ASCII_CR in Hcr'.
  pose proof (byte_val_range b) as Hb.
  destruct (Z.eq_dec (byte_val b) ASCII_LF) as [Hlf|Hlf].
  - assert (b = x0a) as -> by (apply byte_val_inj; rewrite Hlf; reflexivity).
    destruct (snfilter_read_lf f e bs Hact Hn) as [e1 Hr].
    eexists _, e1. split; [exact Hr|].
    split; [split; [reflexivity|right; cbn; consts; lia]|].
    cbn [line_count last_c bom_present]. split; [|split; reflexivity].
    destruct (Z.eqb_spec (line_count f) 0); [lia|].
    destruct (Z.ltb_spec (line_count f) LONG_MAX); lia.
  - destruct (snfilter_read_plain f e b (map RawByte bs) Hact Hcr' Hlf) as [e1 Hr].
    { intros Hz Hv. apply (Hbom Hz). cbn [head]. f_equal. apply byte_val_inj.
      rewrite Hv. reflexivity. }
    eexists _, e1. split; [exact Hr|].
    destruct (filter_after_active f (byte_val b)) as [Ha Hq]; [lia|lia|].
    split; [assumption|]. split; [assumption|]. split; reflexivity.
Qed.

(** A filter that has delivered a character is ready for whatever the
    stream holds. *)
Lemma filter_ready_read (f : SNFILTER) (bs : list byte) :
  filter_active f -> 0 < line_count f -> filter_ready f bs.
Proof. intros Ha Hl. split; [assumption|]. split; lia. Qed.

(** The pushback of a character just read, and the read that gives it
    again. *)
Lemma snfilter_pushback_read (f : SNFILTER) :
  filter_active f -> 0 < line_count f -> 0 <= last_c f ->
  exists f2,
    snfilter_pushback f = (1, f2) /\
    forall pIn, snfilter_read f2 pIn = (last_c f, f, pIn).
Proof.
  intros [Hp _] Hl Hc. destruct f as [lc c pb bom].
  cbn [line_count last_c pushback] in *. subst pb.
  exists (mkSNFILTER lc c 1 bom). unfold snfilter_pushback.
  cbn [line_count last_c pushback bom_present]. rewrite !Z.geb_leb, !Z.gtb_ltb.
  destruct (Z.eqb_spec lc 0); [lia|].
  destruct (Z.leb_spec 0 c); [|lia].
  destruct (Z.ltb_spec 0 lc); [|lia]. cbn [orb andb Z.eqb].
  split; [reflexivity|].
  intros pIn. rewrite snfilter_read_held by (cbn; lia). reflexivity.
Qed.

Lemma blank_byte_is_blank (b : byte) : blank_byte b -> is_blank (byte_val b) = true.
Proof. intros [-> | [-> | ->]]; reflexivity. Qed.

Lemma is_blank_byte (b : byte) : is_blank (byte_val b) = true -> blank_byte b.
Proof.
  unfold is_blank, blank_byte. intros H.
  apply orb_true_iff in H as [H|H]; [apply orb_true_iff in H as [H|H]|];
    apply Z.eqb_eq in H.
  - left. apply byte_val_inj. rewrite H. reflexivity.
  - right; left. apply byte_val_inj. rewrite H. reflexivity.
  - right; right. apply byte_val_inj. rewrite H. reflexivity.
Qed.

Lemma blank_byte_not_cr (b : byte) : blank_byte b -> b <> x0d.
Proof. intros [-> | [-> | ->]]; discriminate. Qed.

(** The loop over blanks stops at the first byte that is none. *)
Lemma snfilter_read_blanks (bl : list byte) :
  Forall blank_byte bl ->
  forall (k : nat) (f : SNFILTER) (e : bool) (b : byte) (rest : list byte),
  filter_ready f (bl ++ [b]) -> ~ blank_byte b -> b <> x0d ->
  (length bl < k)%nat ->
  exists f' e',
    snfilter_read_while k is_blank f (bytes_file (bl ++ b :: rest) e) =
      Done (byte_val b, f', mkFILE (map RawByte rest) e') /\
    filter_active f' /\ 0 < line_count f' /\ last_c f' = byte_val b /\
    bom_present f' = bom_present f.
Proof.
  induction 1 as [|c bl Hc Hbl IH]; intros k f e b rest Hrdy Hnb Hcr Hk.
  - destruct k as [|k]; [cbn in Hk; lia|]. cbn [app] in *.
    assert (byte_val b <> ASCII_LF) as Hlf.
    { intros Hv. apply Hnb. right; right. apply byte_val_inj. rewrite Hv. reflexivity. }
    pose proof (byte_neq_val _ _ Hcr) as Hcr'. change (byte_val x0d) with ASCII_CR in Hcr'.
    destruct Hrdy as (Hact & Hl0 & Hbom).
    destruct (snfilter_read_plain f e b (map RawByte rest) Hact Hcr' Hlf) as [e1 Hr].
    { intros Hz Hv. apply (Hbom Hz). cbn [head]. f_equal. apply byte_val_inj.
      rewrite Hv. reflexivity. }
    unfold bytes_file. cbn [map snfilter_read_while]. rewrite Hr.
    destruct (is_blank (byte_val b)) eqn:Hb; [elim Hnb; apply is_blank_byte, Hb|].
    pose proof (byte_val_range b).
    destruct (filter_after_active f (byte_val b)) as [Ha Hq]; [lia|lia|].
    exists (filter_after f (byte_val b)), e1.
    split; [reflexivity|]. split; [assumption|]. split; [assumption|].
    split; reflexivity.
  - destruct k as [|k]; [cbn in Hk; lia|]. cbn [app length] in *.
    assert (head (bl ++ b :: rest) <> Some x0d) as Hn.
    { destruct bl as [|c2 bl]; cbn [app head]; [congruence|].
      inversion Hbl; subst. intros [= ->]. eapply blank_byte_not_cr; eauto. }
    destruct (snfilter_read_ready f e c (bl ++ b :: rest)) as (f1 & e1 & Hr & Ha1 & Hl1 & _ & Hb1).
    { exact Hrdy. }
    { apply blank_byte_not_cr, Hc. }
    { exact Hn. }
    unfold bytes_file. cbn [map snfilter_read_while]. rewrite Hr.
    rewrite (blank_byte_is_blank c Hc).
    destruct (IH k f1 e1 b rest) as (f2 & e2 & Hrun & Ha2 & Hl2 & Hc2 & Hb2);
      [apply filter_ready_read; assumption | assumption | assumption | lia |].
    exists f2, e2. unfold bytes_file in Hrun. rewrite Hrun.
    split; [reflexivity|]. split; [assumption|]. split; [assumption|].
    split; [assumption|congruence].
Qed.
(** The loop over blanks at the end of the stream. *)
Lemma snfilter_read_blanks_end (bl : list byte) :
  Forall blank_byte bl ->
  forall (k : nat) (f : SNFILTER) (e : bool),
  filter_active f -> 0 < line_count f -> (length bl < k)%nat ->
  exists f',
    snfilter_read_while k is_blank f (bytes_file bl e) =
      Done (SNERR_EOF, f', mkFILE [] true) /\
    pushback f' = 0 /\ 0 < line_count f' /\ last_c f' = SNERR_EOF.
Proof.
  induction 1 as [|c bl Hc Hbl IH]; intros k f e Hact Hl Hk.
  - destruct k as [|k]; [cbn in Hk; lia|].
    unfold bytes_file. cbn [map snfilter_read_while].
    rewrite (snfilter_read_end f e Hact Hl). cbn [is_blank].
    eexists. split; [reflexivity|]. cbn. auto.
  - destruct k as [|k]; [cbn in Hk; lia|]. cbn [length] in Hk.
    assert (head bl <> Some x0d) as Hn.
    { destruct bl as [|c2 bl]; cbn [head]; [congruence|].
      inversion Hbl; subst. intros [= ->]. eapply blank_byte_not_cr; eauto. }
    destruct (snfilter_read_ready f e c bl) as (f1 & e1 & Hr & Ha1 & Hl1 & _);
      [apply filter_ready_read; assumption | apply blank_byte_not_cr, Hc | exact Hn |].
    unfold bytes_file. cbn [map snfilter_read_while]. rewrite Hr.
    rewrite (blank_byte_is_blank c Hc).
    destruct (IH k f1 e1 Ha1 Hl1 ltac:(lia)) as (f2 & Hrun & Hf2).
    exists f2. unfold bytes_file in Hrun. rewrite Hrun. auto.
Qed.

Lemma in_comment_byte (b : byte) : b <> x0a -> in_comment (byte_val b) = true.
Proof.
  intros Hb. unfold in_comment. pose proof (byte_val_range b).
  pose proof (byte_neq_val _ _ Hb) as Hv. change (byte_val x0a) with ASCII_LF in Hv.
  destruct (Z.geb_spec (byte_val b) 0); [|lia].
  destruct (Z.eqb_spec (byte_val b) ASCII_LF); [contradiction|reflexivity].
Qed.

(** The loop over a comment stops at its line feed. *)
Lemma snfilter_read_comment (u : list byte) :
  Forall (fun b => b <> x0a /\ b <> x0d) u ->
  forall (k : nat) (f : SNFILTER) (e : bool) (rest : list byte),
  filter_active f -> 0 < line_count f -> head rest <> Some x0d ->
  (length u < k)%nat ->
  exists f' e',
    snfilter_read_while k in_comment f (bytes_file (u ++ x0a :: rest) e) =
      Done (ASCII_LF, f', mkFILE (map RawByte rest) e') /\
    filter_active f' /\ 0 < line_count f' /\ bom_present f' = bom_present f.
Proof.
  induction 1 as [|c u [Hc1 Hc2] Hu IH]; intros k f e rest Hact Hl Hn Hk.
  - destruct k as [|k]; [cbn in Hk; lia|]. cbn [app].
    destruct (snfilter_read_ready f e x0a rest) as (f1 & e1 & Hr & Ha1 & Hl1 & _ & Hb1);
      [apply filter_ready_read; assumption | discriminate | exact Hn |].
    unfold bytes_file. cbn [map snfilter_read_while]. rewrite Hr.
    change (in_comment (byte_val x0a)) with false. cbn iota. eauto 10.
  - destruct k as [|k]; [cbn in Hk; lia|]. cbn [app length] in *.
    assert (head (u ++ x0a :: rest) <> Some x0d) as Hn1.
    { destruct u as [|c2 u]; cbn [app head]; [discriminate|].
      inversion Hu as [|? ? [_ Hx] _]; subst. congruence. }
    destruct (snfilter_read_ready f e c (u ++ x0a :: rest))
      as (f1 & e1 & Hr & Ha1 & Hl1 & _ & Hb1);
      [apply filter_ready_read; assumption | assumption | exact Hn1 |].
    unfold bytes_file. cbn [map snfilter_read_while]. rewrite Hr.
    rewrite (in_comment_byte c Hc1).
    destruct (IH k f1 e1 rest Ha1 Hl1 Hn ltac:(lia)) as (f2 & e2 & Hrun & Ha2 & Hl2 & Hb2).
    exists f2, e2. unfold bytes_file in Hrun. rewrite Hrun.
    split; [reflexivity|]. split; [assumption|]. split; [assumption|congruence].
Qed.

(** The loop of [sntk_skip] on blanks and comments that a byte follows
    which is neither: it ends with that byte pushed back. *)
Lemma sntk_skip_loop (ws : list byte) :
  skipped_text ws ->
  forall (n k : nat) (c0 : Z) (f : SNFILTER) (e : bool) (b : byte) (rest : list byte),
  filter_ready f (ws ++ [b]) -> ~ blank_byte b -> b <> x23 -> b <> x0d ->
  (length ws < n)%nat -> (length ws < k)%nat -> 0 <= c0 ->
  exists f1 f2 e',
    while_loop n (fun s => fst (fst s) >=? 0) (sntk_skip_body k)
      (c0, f, bytes_file (ws ++ b :: rest) e) =
      Done (byte_val b, f2, mkFILE (map RawByte rest) e') /\
    (forall pIn, snfilter_read f2 pIn = (byte_val b, f1, pIn)) /\
    filter_active f1 /\ 0 < line_count f1 /\ bom_present f1 = bom_present f.
Proof.
  induction 1 as [bl Hbl|bl u w Hbl Hu Hw IH];
    intros n k c0 f e b rest Hrdy Hnb Hp Hcr Hn Hk Hc0.
  - destruct n as [|n]; [cbn in Hn; lia|]. rewrite while_loop_unfold.
    cbn [fst]. destruct (Z.geb_spec c0 0); [|lia].
    unfold sntk_skip_body.
    destruct (snfilter_read_blanks bl Hbl k f e b rest Hrdy Hnb Hcr Hk)
      as (f1 & e1 & Hrun & Ha1 & Hl1 & Hc1 & Hb1).
    rewrite Hrun. cbn [mbind outcome_mbind outcome_bind].
    pose proof (byte_neq_val _ _ Hp) as Hv. change (byte_val x23) with ASCII_POUNDSIGN in Hv.
    destruct (Z.eqb_spec (byte_val b) ASCII_POUNDSIGN); [contradiction|]. cbn [negb].
    pose proof (byte_val_range b).
    destruct (snfilter_pushback_read f1 Ha1 Hl1 ltac:(lia)) as (f2 & Hpb & Hre).
    rewrite Hpb. cbn [Z.eqb]. exists f1, f2, e1.
    split; [reflexivity|]. split; [|auto].
    intros pIn. rewrite Hre, Hc1. reflexivity.
  - destruct n as [|n]; [cbn in Hn; lia|]. rewrite while_loop_unfold.
    cbn [fst]. destruct (Z.geb_spec c0 0); [|lia].
    unfold sntk_skip_body. rewrite !length_app in Hn, Hk. cbn [length] in Hn, Hk.
    rewrite length_app in Hn, Hk. cbn [length] in Hn, Hk.
    repeat (rewrite <- app_assoc; cbn [app]).
    repeat (rewrite <- app_assoc in Hrdy; cbn [app] in Hrdy).
    destruct (snfilter_read_blanks bl Hbl k f e x23 (u ++ x0a :: w ++ b :: rest))
      as (f1 & e1 & Hrun & Ha1 & Hl1 & Hc1 & Hb1).
    { destruct Hrdy as (Ha & Hl & Hh). split; [assumption|]. split; [assumption|].
      intros Hz. specialize (Hh Hz). destruct bl; cbn [app head] in *; assumption. }
    { intros [?|[?|?]]; discriminate. }
    { discriminate. }
    { lia. }
    rewrite Hrun. cbn [mbind outcome_mbind outcome_bind].
    change (byte_val x23 =? ASCII_POUNDSIGN) with true. cbn [negb].
    assert (head (w ++ b :: rest) <> Some x0d) as Hnw.
    { destruct Hw as [[|c2 bl2] Hbl2|[|c2 bl2] u2 w2 Hbl2 _ _]; cbn [app head];
        try congruence.
      - inversion Hbl2; subst. intros [= ->]. eapply blank_byte_not_cr; eauto.
      - inversion Hbl2; subst. intros [= ->]. eapply blank_byte_not_cr; eauto. }
    replace (u ++ x0a :: w ++ b :: rest) with (u ++ x0a :: (w ++ b :: rest)) by reflexivity.
    destruct (snfilter_read_comment u Hu k f1 e1 (w ++ b :: rest) Ha1 Hl1 Hnw ltac:(lia))
      as (f2 & e2 & Hrun2 & Ha2 & Hl2 & Hb2).
    unfold bytes_file in Hrun2 |- *. rewrite Hrun2.
    cbn [mbind outcome_mbind outcome_bind].
    destruct (IH n k ASCII_LF f2 e2 b rest) as (f3 & f4 & e3 & Hloop & Hre & Ha3 & Hl3 & Hb3);
      [apply filter_ready_read; assumption | assumption | assumption | assumption
      | lia | lia | consts; lia |].
    exists f3, f4, e3. split; [exact Hloop|]. split; [assumption|].
    split; [assumption|]. split; [assumption|congruence].
Qed.

(** The loop over a comment that the end of the stream cuts short. *)
Lemma snfilter_read_comment_end (u : list byte) :
  Forall (fun b => b <> x0a /\ b <> x0d) u ->
  forall (k : nat) (f : SNFILTER) (e : bool),
  filter_active f -> 0 < line_count f -> (length u < k)%nat ->
  exists f',
    snfilter_read_while k in_comment f (bytes_file u e) =
      Done (SNERR_EOF, f', mkFILE [] true) /\
    pushback f' = 0 /\ 0 < line_count f' /\ last_c f' = SNERR_EOF.
Proof.
  induction 1 as [|c u [Hc1 Hc2] Hu IH]; intros k f e Hact Hl Hk.
  - destruct k as [|k]; [cbn in Hk; lia|].
    unfold bytes_file. cbn [map snfilter_read_while].
    rewrite (snfilter_read_end f e Hact Hl). cbn [in_comment].
    eexists. split; [reflexivity|]. cbn. auto.
  - destruct k as [|k]; [cbn in Hk; lia|]. cbn [length] in Hk.
    assert (head u <> Some x0d) as Hn.
    { destruct u as [|c2 u]; cbn [head]; [discriminate|].
      inversion Hu as [|? ? [_ Hx] _]; subst. congruence. }
    destruct (snfilter_read_ready f e c u) as (f1 & e1 & Hr & Ha1 & Hl1 & _);
      [apply filter_ready_read; assumption | assumption | exact Hn |].
    unfold bytes_file. cbn [map snfilter_read_while]. rewrite Hr.
    rewrite (in_comment_byte c Hc1).
    destruct (IH k f1 e1 Ha1 Hl1 ltac:(lia)) as (f2 & Hrun & Hf2).
    exists f2. unfold bytes_file in Hrun. rewrite Hrun. auto.
Qed.

Lemma skipped_text_head (w : list byte) (tl : list byte) :
  skipped_text w -> head tl <> Some x0d -> head (w ++ tl) <> Some x0d.
Proof.
  intros Hw Htl.
  destruct Hw as [[|c2 bl2] Hbl2|[|c2 bl2] u2 w2 Hbl2 _ _]; cbn [app head];
    try congruence.
  - inversion Hbl2; subst. intros [= ->]. eapply blank_byte_not_cr; eauto.
  - inversion Hbl2; subst. intros [= ->]. eapply blank_byte_not_cr; eauto.
Qed.

(** The same at the end of the stream, possibly within a comment: the
    loop ends with the end of file recorded in the filter. *)
Lemma sntk_skip_loop_end (ws : list byte) :
  skipped_text ws ->
  forall (n k : nat) (c0 : Z) (f : SNFILTER) (e : bool) (u : list byte) (tl : list byte),
  filter_active f -> 0 < line_count f ->
  (tl = [] \/ tl = x23 :: u) -> Forall (fun b => b <> x0a /\ b <> x0d) u ->
  (length (ws ++ tl) < n)%nat -> (length (ws ++ tl) < k)%nat -> 0 <= c0 ->
  exists c f',
    while_loop n (fun s => fst (fst s) >=? 0) (sntk_skip_body k)
      (c0, f, bytes_file (ws ++ tl) e) = Done (c, f', mkFILE [] true) /\
    pushback f' = 0 /\ 0 < line_count f' /\ last_c f' = SNERR_EOF.
Proof.
  induction 1 as [bl Hbl|bl v w Hbl Hv Hw IH];
    intros n k c0 f e u tl Hact Hl Htl Hu Hn Hk Hc0.
  - destruct n as [|n]; [cbn in Hn; lia|]. rewrite while_loop_unfold.
    cbn [fst]. destruct (Z.geb_spec c0 0); [|lia].
    rewrite length_app in Hn, Hk.
    destruct Htl as [->| ->].
    + rewrite app_nil_r. cbn [length] in Hn, Hk.
      destruct (snfilter_read_blanks_end bl Hbl k f e Hact Hl ltac:(lia))
        as (f1 & Hrun & Hp1 & Hl1 & Hc1).
      cbv beta delta [sntk_skip_body] iota. rewrite Hrun.
      cbn [mbind outcome_mbind outcome_bind].
      change (negb (SNERR_EOF =? ASCII_POUNDSIGN)) with true. cbn iota.
      unfold snfilter_pushback. rewrite Hc1.
      destruct (Z.eqb_spec (line_count f1) 0); [lia|].
      change (SNERR_EOF >=? 0) with false. cbn [orb Z.eqb]. eauto 10.
    + cbn [length] in Hn, Hk.
      destruct (snfilter_read_blanks bl Hbl k f e x23 u)
        as (f1 & e1 & Hrun & Ha1 & Hl1 & Hc1 & Hb1);
        [apply filter_ready_read; assumption | intros [?|[?|?]]; discriminate
        | discriminate | lia |].
      cbv beta delta [sntk_skip_body] iota. rewrite Hrun.
      cbn [mbind outcome_mbind outcome_bind].
      change (byte_val x23 =? ASCII_POUNDSIGN) with true. cbn [negb].
      destruct (snfilter_read_comment_end u Hu k f1 e1 Ha1 Hl1 ltac:(lia))
        as (f2 & Hrun2 & Hf2).
      unfold bytes_file in Hrun2. rewrite Hrun2.
      cbn [mbind outcome_mbind outcome_bind].
      exists SNERR_EOF, f2. split; [|exact Hf2].
      destruct n; reflexivity.
  - destruct n as [|n]; [cbn in Hn; lia|]. rewrite while_loop_unfold.
    cbn [fst]. destruct (Z.geb_spec c0 0); [|lia].
    repeat (rewrite <- app_assoc; cbn [app]).
    repeat (rewrite <- app_assoc in Hn; cbn [app] in Hn).
    repeat (rewrite <- app_assoc in Hk; cbn [app] in Hk).
    rewrite !length_app in Hn, Hk. cbn [length] in Hn, Hk.
    rewrite length_app in Hn, Hk. cbn [length] in Hn, Hk.
    destruct (snfilter_read_blanks bl Hbl k f e x23 (v ++ x0a :: w ++ tl))
      as (f1 & e1 & Hrun & Ha1 & Hl1 & Hc1 & Hb1);
      [apply filter_ready_read; assumption | intros [?|[?|?]]; discriminate
      | discriminate | lia |].
    cbv beta delta [sntk_skip_body] iota. rewrite Hrun.
    cbn [mbind outcome_mbind outcome_bind].
    change (byte_val x23 =? ASCII_POUNDSIGN) with true. cbn [negb].
    assert (head (w ++ tl) <> Some x0d) as Hnw.
    { apply skipped_text_head; [assumption|]. destruct Htl as [->| ->]; discriminate. }
    destruct (snfilter_read_comment v Hv k f1 e1 (w ++ tl) Ha1 Hl1 Hnw ltac:(lia))
      as (f2 & e2 & Hrun2 & Ha2 & Hl2 & Hb2).
    unfold bytes_file in Hrun2. rewrite Hrun2.
    cbn [mbind outcome_mbind outcome_bind].
    apply (IH n k ASCII_LF f2 e2 u tl Ha2 Hl2 Htl Hu); [lia | lia | consts; lia].
Qed.
(** X13: [sntk_skip] passes over blanks and comments, and nothing else.
    On a filter that takes its next character from the stream (one that
    has read nothing yet does not meet the byte EF first): when a byte
    that is no blank, no pound sign and no carriage return follows them,
    the function returns with the stream just after that byte and the
    byte pushed back, so that the next read gives it and takes nothing
    from the stream. On such a filter that has delivered a character
    already: when the stream ends after them, or within a comment, the
    function returns with the end of file recorded, and every later read
    gives [SNERR_EOF]. *)
Theorem sntk_skip_text (fuel : nat) (f : SNFILTER) (e : bool)
    (ws u rest : list byte) (b : byte) :
  skipped_text ws -> Forall (fun b => b <> x0a /\ b <> x0d) u ->
  (length ws + length u + 1 < fuel)%nat ->
  (filter_ready f (ws ++ [b]) -> ~ blank_byte b -> b <> x23 -> b <> x0d ->
   exists f' f1 e',
     sntk_skip fuel (bytes_file (ws ++ b :: rest) e) f =
       Done (f', mkFILE (map RawByte rest) e') /\
     (forall pIn, snfilter_read f' pIn = (byte_val b, f1, pIn)) /\
     filter_active f1 /\ 0 < line_count f1) /\
  (filter_active f -> 0 < line_count f ->
   forall tl, tl = [] \/ tl = x23 :: u ->
   exists f',
     sntk_skip fuel (bytes_file (ws ++ tl) e) f = Done (f', mkFILE [] true) /\
     forall pIn, snfilter_read f' pIn = (SNERR_EOF, f', pIn)).
Proof.
  intros Hws Hu Hfuel. split.
  - intros Hrdy Hnb Hp Hcr.
    destruct (sntk_skip_loop ws Hws fuel fuel 0 f e b rest Hrdy Hnb Hp Hcr)
      as (f1 & f2 & e' & Hloop & Hre & Ha1 & Hl1 & _); [lia | lia | lia |].
    exists f2, f1, e'. unfold sntk_skip. rewrite Hloop. auto.
  - intros Hact Hl tl Htl.
    assert (length (ws ++ tl) < fuel)%nat as Hlen.
    { rewrite length_app. destruct Htl as [->| ->]; cbn [length]; lia. }
    destruct (sntk_skip_loop_end ws Hws fuel fuel 0 f e u tl Hact Hl Htl Hu Hlen Hlen)
      as (c & f' & Hloop & Hp' & Hl' & Hc'); [lia|].
    exists f'. unfold sntk_skip. rewrite Hloop. split; [reflexivity|].
    intros pIn. rewrite snfilter_read_sticky by (rewrite ?Hc'; consts; lia).
    rewrite Hc'. destruct f' as [lc c' pb bom]. cbn in *. subst. reflexivity.
Qed.

Lemma sntk_skip_text_witness :
  let ws := [x20; x23; x61; x0a; x09] in
  let f := mkSNFILTER 1 0x61 0 0 in
  skipped_text ws /\ filter_ready snfilter_reset (ws ++ [x62]) /\
  (exists f' f1 e',
     sntk_skip 8 (bytes_file (ws ++ x62 :: [x63]) false) snfilter_reset =
       Done (f', mkFILE [RawByte x63] e') /\
     (forall pIn, snfilter_read f' pIn = (0x62, f1, pIn))) /\
  (exists f',
     sntk_skip 8 (bytes_file (ws ++ [x23; x62]) false) f = Done (f', mkFILE [] true) /\
     forall pIn, snfilter_read f' pIn = (SNERR_EOF, f', pIn)).
Proof.
  intros ws f.
  assert (skipped_text ws) as Hws.
  { apply (skipped_comment [x20] [x61] [x09]).
    - repeat constructor.
    - repeat constructor; discriminate.
    - apply skipped_blanks.
      constructor; [right; left; reflexivity | constructor]. }
  assert (filter_ready snfilter_reset (ws ++ [x62])) as Hrdy.
  { split; [split; [reflexivity|left; reflexivity]|]. split; [cbn; lia|].
    intros _. discriminate. }
  split; [exact Hws|]. split; [exact Hrdy|]. split.
  - destruct (sntk_skip_text 8 snfilter_reset false ws [] [x63] x62 Hws
                ltac:(constructor) ltac:(cbn; lia)) as [Hgo _].
    destruct Hgo as (f' & f1 & e' & Hskip & Hre & _);
      [exact Hrdy | intros [?|[?|?]]; discriminate | discriminate | discriminate |].
    exists f', f1, e'. split; [exact Hskip | exact Hre].
  - assert (Forall (fun b => b <> x0a /\ b <> x0d) [x62]) as Hu
      by (repeat constructor; discriminate).
    destruct (sntk_skip_text 8 f false ws [x62] [] x62 Hws Hu ltac:(cbn; lia)) as [_ Hend].
    apply Hend; [split; [reflexivity|right; cbn; lia] | cbn; lia | right; reflexivity].
Defined.

(** ** Where the scanner aborts, and that it returns *)

(** A read that fails leaves the line counter alone. *)
Lemma snfilter_read_fails (f : SNFILTER) (pIn : FILE) :
  let '(c, f', _) := snfilter_read f pIn in
  c < 0 -> line_count f' = line_count f.
Proof.
  unfold snfilter_read.
  pose proof (snfilter_read_bom_spec f pIn) as Hb.
  destruct (snfilter_read_bom f pIn) as [[e1 f1] p1].
  destruct Hb as (Hl & Hc & Hp & He & _).
  pose proof (snfilter_read_char_spec f1 p1) as Hr.
  destruct (snfilter_read_char f1 p1) as [[e2 f2] p2].
  destruct Hr as (He2 & Hp2 & Hsame & _ & Hok).
  destruct ((e1 =? 0) && (pushback f1 =? 0) &&
            ((line_count f1 =? 0) || (last_c f1 >=? 0)));
    cbn [fst snd last_c line_count]; [|intros; assumption].
  destruct (Z.eqb_spec e2 0) as [->|Hne].
  - destruct (Hok eq_refl) as (? & _). lia.
  - intros _. rewrite (Hsame Hne). assumption.
Qed.

(** No read gives input back. *)
Lemma snfilter_read_left (f : SNFILTER) (pIn : FILE) :
  let '(c, f', pIn') := snfilter_read f pIn in
  (input_left f' pIn' <= input_left f pIn)%nat.
Proof.
  unfold snfilter_read, input_left.
  pose proof (snfilter_read_bom_spec f pIn) as Hb.
  destruct (snfilter_read_bom f pIn) as [[e1 f1] p1].
  destruct Hb as (Hl & Hc & Hp & He & Hlen & _).
  pose proof (snfilter_read_char_spec f1 p1) as Hr.
  destruct (snfilter_read_char f1 p1) as [[e2 f2] p2].
  destruct Hr as (He2 & Hp2 & Hsame & Hlen2 & Hok).
  destruct ((e1 =? 0) && (pushback f1 =? 0) &&
            ((line_count f1 =? 0) || (last_c f1 >=? 0)));
    cbn [fst snd pushback Z.eqb]; destruct (pushback f =? 0); lia.
Qed.

(** The pushback after a read, on a filter that has read a character. *)
Lemma snfilter_pushback_fine (f : SNFILTER) :
  0 < line_count f -> pushback f = 0 -> fst (snfilter_pushback f) = 1.
Proof.
  intros Hl Hp. unfold snfilter_pushback. rewrite Hp, Z.gtb_ltb.
  destruct (Z.ltb_spec 0 (line_count f)); [|lia].
  destruct (_ || _); reflexivity.
Qed.

Lemma snfilter_pushback_none (f : SNFILTER) :
  line_count f = 0 -> snfilter_pushback f = (0, f).
Proof.
  intros Hl. unfold snfilter_pushback. rewrite Hl. reflexivity.
Qed.

(** A read and a pushback together give no input back. *)
Lemma snfilter_read_pushback_left (f : SNFILTER) (pIn : FILE) :
  filter_inv f ->
  let '(c, f', pIn') := snfilter_read f pIn in
  (input_left (snd (snfilter_pushback f')) pIn' <= input_left f pIn)%nat.
Proof.
  intros Hinv.
  pose proof (snfilter_read_inv f pIn Hinv) as (Hi1 & Hc1 & Hp1).
  pose proof (snfilter_read_consumes f pIn Hinv) as Hm.
  pose proof (snfilter_read_left f pIn) as Hle.
  destruct (snfilter_read f pIn) as [[c f1] in1]. cbn [fst snd] in *.
  unfold snfilter_pushback. rewrite Hp1, <- Hc1, Z.geb_leb, Z.gtb_ltb.
  destruct (Z.leb_spec 0 c) as [Hc|Hc].
  - specialize (Hm Hc). rewrite orb_true_r. cbn [Z.eqb andb].
    destruct (0 <? line_count f1); cbn [snd andb]; [|lia].
    unfold input_left in *. cbn [pushback Z.eqb]. rewrite Hp1 in Hm. cbn [Z.eqb] in Hm. lia.
  - rewrite orb_false_r. cbn [Z.eqb andb].
    destruct (Z.eqb_spec (line_count f1) 0);
      [destruct (Z.ltb_spec 0 (line_count f1)); [lia|]|]; cbn [snd andb orb]; lia.
Qed.

(** The loops of [sntk_skip] over the characters of a class that holds no
    negative value. *)
Lemma snfilter_read_while_spec (p : Z -> bool) :
  (forall c, c < 0 -> p c = false) ->
  forall (k : nat) (f : SNFILTER) (pIn : FILE),
  filter_inv f ->
  match snfilter_read_while k p f pIn with
  | Done (c, f', pIn') =>
      filter_inv f' /\ pushback f' = 0 /\ last_c f' = c /\
      (~ no_first_char f pIn -> 0 < line_count f') /\
      (no_first_char f pIn -> line_count f' = 0 /\ c < 0) /\
      (input_left f' pIn' <= input_left f pIn)%nat /\
      (0 <= c -> (input_left f' pIn' < input_left f pIn)%nat) /\
      (input_left (snd (snfilter_pushback f')) pIn' <= input_left f pIn)%nat
  | Abort => False
  | OutOfFuel => (k <= input_left f pIn)%nat
  end.
Proof.
  intros Hp. induction k as [|k IH]; intros f pIn Hinv; [cbn; lia|].
  cbn [snfilter_read_while].
  pose proof (snfilter_read_inv f pIn Hinv) as (Hi1 & Hc1 & Hp1).
  pose proof (snfilter_read_delivers f pIn Hinv) as Hd1.
  pose proof (snfilter_read_fails f pIn) as Hf1.
  pose proof (snfilter_read_line f pIn) as (Hl1 & _).
  pose proof (snfilter_read_consumes f pIn Hinv) as Hm1.
  pose proof (snfilter_read_left f pIn) as Hle1.
  pose proof (snfilter_read_pushback_left f pIn Hinv) as Hpb1.
  unfold no_first_char.
  destruct (snfilter_read f pIn) as [[c f1] in1]. cbn [fst snd] in *.
  destruct (p c) eqn:Hpc.
  - assert (0 <= c) as Hc.
    { destruct (Z.lt_ge_cases c 0) as [Hneg|]; [|assumption].
      rewrite (Hp c Hneg) in Hpc. discriminate. }
    specialize (Hd1 Hc). specialize (Hm1 Hc). specialize (IH f1 in1 Hi1).
    destruct (snfilter_read_while k p f1 in1) as [[[c' f'] in']| |]; [|assumption|lia].
    destruct IH as (Hi' & Hp' & Hc' & Hl' & _ & Hle' & Hlt' & Hpb').
    split; [assumption|]. split; [assumption|]. split; [assumption|].
    split; [intros _; apply Hl'; unfold no_first_char; lia|].
    split; [intros [_ ?]; lia|]. split; [lia|]. split; lia.
  - split; [assumption|]. split; [assumption|]. split; [auto|].
    destruct Hinv as [H0 _ _ _ _]. split; [|split; [|auto]].
    + intros Hn. destruct (Z.lt_ge_cases c 0) as [Hneg|Hpos]; [|auto].
      destruct (Z.eq_dec (line_count f) 0) as [Hz|Hz]; [elim Hn; auto|lia].
    + intros [Hz Hneg]. specialize (Hf1 Hneg). split; [lia|assumption].
Qed.

Lemma is_blank_neg (c : Z) : c < 0 -> is_blank c = false.
Proof. intros Hc. unfold is_blank. consts. repeat step_read; reflexivity. Qed.

Lemma in_comment_neg (c : Z) : c < 0 -> in_comment c = false.
Proof. intros Hc. unfold in_comment. consts. repeat step_read; reflexivity. Qed.

Lemma no_first_char_dec (f : SNFILTER) (pIn : FILE) :
  no_first_char f pIn \/ ~ no_first_char f pIn.
Proof.
  unfold no_first_char.
  destruct (Z.eq_dec (line_count f) 0);
    destruct (Z.lt_ge_cases (fst (fst (snfilter_read f pIn))) 0); intuition lia.
Qed.

(** One turn of the loop of [sntk_skip]. *)
Lemma sntk_skip_body_spec (k : nat) (c0 : Z) (f : SNFILTER) (pIn : FILE) :
  filter_inv f ->
  match sntk_skip_body k (c0, f, pIn) with
  | Done (Continue (_, f', pIn')) =>
      filter_inv f' /\ 0 < line_count f' /\ ~ no_first_char f pIn /\
      (input_left f' pIn' < input_left f pIn)%nat
  | Done (Break (_, f', pIn')) =>
      filter_inv f' /\ 0 < line_count f' /\ ~ no_first_char f pIn /\
      (input_left f' pIn' <= input_left f pIn)%nat
  | Abort => no_first_char f pIn
  | OutOfFuel => (k <= input_left f pIn)%nat
  end.
Proof.
  intros Hinv. unfold sntk_skip_body.
  pose proof (snfilter_read_while_spec is_blank is_blank_neg k f pIn Hinv) as H1.
  destruct (snfilter_read_while k is_blank f pIn) as [[[c f1] in1]| |];
    [|contradiction|exact H1].
  destruct H1 as (Hi1 & Hp1 & Hc1 & Hl1 & Hn1 & Hle1 & Hlt1 & Hpb1).
  cbn [mbind outcome_mbind outcome_bind].
  destruct (Z.eqb_spec c ASCII_POUNDSIGN) as [Hc|Hc]; cbn [negb].
  - assert (~ no_first_char f pIn) as Hn.
    { intros Hn. destruct (Hn1 Hn) as [_ Hneg]. revert Hneg. rewrite Hc. consts. lia. }
    specialize (Hl1 Hn). specialize (Hlt1 ltac:(rewrite Hc; consts; lia)).
    pose proof (snfilter_read_while_spec in_comment in_comment_neg k f1 in1 Hi1) as H2.
    destruct (snfilter_read_while k in_comment f1 in1) as [[[c2 f2] in2]| |];
      [|contradiction|cbn; lia].
    destruct H2 as (Hi2 & _ & _ & Hl2 & _ & Hle2 & _).
    cbn [mbind outcome_mbind outcome_bind].
    split; [assumption|]. split; [|split; [assumption|lia]].
    apply Hl2. unfold no_first_char. lia.
  - pose proof (snfilter_pushback_inv f1 Hi1) as Hi2.
    pose proof (snfilter_pushback_line f1) as (Hl2 & _).
    destruct (no_first_char_dec f pIn) as [Hy|Hn].
    + destruct (Hn1 Hy) as [Hz _]. rewrite (snfilter_pushback_none f1 Hz).
      cbn [Z.eqb]. exact Hy.
    + specialize (Hl1 Hn). pose proof (snfilter_pushback_fine f1 Hl1 Hp1) as Hok.
      destruct (snfilter_pushback f1) as [ok f2]. cbn [fst snd] in *. subst ok.
      cbn [Z.eqb]. split; [assumption|]. split; [lia|]. split; assumption.
Qed.

(** [sntk_skip] aborts in one case only, and returns when its bound
    exceeds what is left of the input. *)
Lemma sntk_skip_spec (fuel : nat) (pIn : FILE) (f : SNFILTER) :
  filter_inv f ->
  match sntk_skip fuel pIn f with
  | Done (f', pIn') =>
      filter_inv f' /\ 0 < line_count f' /\
      (input_left f' pIn' <= input_left f pIn)%nat
  | Abort => no_first_char f pIn
  | OutOfFuel => (fuel <= input_left f pIn)%nat
  end.
Proof.
  intros Hinv. unfold sntk_skip. destruct fuel as [|n]; [cbn; lia|].
  rewrite while_loop_unfold. cbn [fst Z.geb Z.compare].
  pose proof (sntk_skip_body_spec (S n) 0 f pIn Hinv) as Hb.
  destruct (sntk_skip_body (S n) (0, f, pIn)) as [[[[c1 f1] in1]|[[c1 f1] in1]]| |];
    cbn [mbind outcome_mbind outcome_bind]; [| tauto | assumption | assumption].
  destruct Hb as (Hi1 & Hl1 & _ & Hm1).
  set (m := fun s : Z * SNFILTER * FILE => input_left (snd (fst s)) (snd s)).
  set (P := fun s : Z * SNFILTER * FILE =>
              filter_inv (snd (fst s)) /\ 0 < line_count (snd (fst s)) /\
              (m s <= input_left f1 in1)%nat).
  assert (Hstep : forall s, P s ->
            match sntk_skip_body (S n) s with
            | Done (Continue s') => P s' /\ (m s' < m s)%nat
            | Done (Break s') => P s'
            | Abort => False
            | OutOfFuel => (S n <= m s)%nat
            end).
  { intros [[c2 f2] in2] (Hi2 & Hl2 & Hm2). unfold m in *. cbn [fst snd] in *.
    pose proof (sntk_skip_body_spec (S n) c2 f2 in2 Hi2) as Hb2.
    destruct (sntk_skip_body (S n) (c2, f2, in2)) as [[[[c3 f3] in3]|[[c3 f3] in3]]| |];
      unfold P, m; cbn [fst snd]; [| | |assumption].
    - destruct Hb2 as (? & ? & _ & ?). split; [|lia]. repeat (split; [assumption|]). lia.
    - destruct Hb2 as (? & ? & _ & ?). repeat (split; [assumption|]). lia.
    - destruct Hb2 as [Hz _]. lia. }
  assert (P (c1, f1, in1)) as HP1 by (unfold P, m; cbn [fst snd]; auto).
  destruct (while_loop n _ _ (c1, f1, in1)) as [[[c' f'] in']| |] eqn:Hloop;
    cbn [mbind outcome_mbind outcome_bind].
  - apply (while_loop_invariant P) in Hloop; [| | |exact HP1].
    + destruct Hloop as [(? & ? & Hm') _]. unfold m in Hm'. cbn [fst snd] in *.
      repeat (split; [assumption|]). lia.
    + intros s s' Hs _ Hbody. specialize (Hstep s Hs). rewrite Hbody in Hstep. apply Hstep.
    + intros s s' Hs _ Hbody. specialize (Hstep s Hs). rewrite Hbody in Hstep. exact Hstep.
  - exfalso. revert Hloop. apply (while_loop_no_abort P); [| |exact HP1].
    + intros s Hs Hbody. specialize (Hstep s Hs). rewrite Hbody in Hstep. exact Hstep.
    + intros s s' Hs Hbody. specialize (Hstep s Hs). rewrite Hbody in Hstep. apply Hstep.
  - destruct (Nat.le_gt_cases n (input_left f1 in1)) as [Hle|Hgt]; [lia|]. exfalso.
    destruct (while_loop_returns P m (fun s => fst (fst s) >=? 0) (sntk_skip_body (S n)))
      with (fuel := n) (s := (c1, f1, in1)) as [s' Hdone];
      [ | exact HP1 | unfold m; cbn [fst snd]; lia | congruence].
    intros s Hs _. pose proof (Hstep s Hs) as Hb.
    destruct (sntk_skip_body (S n) s) as [[s'|s']| |]; [| |contradiction|].
    + right. exists s'. split; [reflexivity|]. split; [apply Hb|]. intros _. apply Hb.
    + left. eauto.
    + exfalso. destruct Hs as (_ & _ & Hs). lia.
Qed.

(** The case in which it aborts. *)
Lemma sntk_skip_starved (fuel : nat) (pIn : FILE) (f : SNFILTER) :
  no_first_char f pIn -> fuel <> O -> sntk_skip fuel pIn f = Abort.
Proof.
  intros [Hz Hneg] Hfuel. destruct fuel as [|n]; [contradiction|].
  unfold sntk_skip. rewrite while_loop_unfold. cbn [fst Z.geb Z.compare].
  unfold sntk_skip_body. cbn [snfilter_read_while].
  pose proof (snfilter_read_fails f pIn) as Hf.
  destruct (snfilter_read f pIn) as [[c f1] in1]. cbn [fst] in Hneg.
  specialize (Hf Hneg). rewrite (is_blank_neg c Hneg).
  cbn [mbind outcome_mbind outcome_bind].
  destruct (Z.eqb_spec c ASCII_POUNDSIGN) as [Hc|Hc]; [revert Hneg; rewrite Hc; consts; lia|].
  cbn [negb]. rewrite snfilter_pushback_none by lia. reflexivity.
Qed.
Lemma snchar_islegal_range (c : Z) : snchar_islegal c <> 0 -> 1 <= c <= 255.
Proof.
  unfold snchar_islegal. consts. rewrite Z.geb_leb.
  destruct (Z.leb_spec 33 c); destruct (Z.leb_spec c 126);
    destruct (Z.eqb_spec c 32); destruct (Z.eqb_spec c 9); destruct (Z.eqb_spec c 10);
    cbn [andb orb]; intros Hq; try lia; contradiction.
Qed.

Lemma snbuffer_append_count (b : SNBUFFER) (c ok : Z) (b' : SNBUFFER) :
  buffer_str b -> snbuffer_append b c = Done (ok, b') ->
  buffer_str b' /\ count b <= count b' /\ (ok = 0 \/ ok = 1 /\ 0 < count b').
Proof.
  intros Hstr Happ. destruct (snbuffer_append_str _ _ _ _ Hstr Happ) as (Hstr' & _).
  split; [exact Hstr'|]. clear Hstr'.
  pose proof (str_wf _ Hstr) as Hwf. pose proof Hwf as [H1 H2 H3 H4 H5].
  unfold snbuffer_append in Happ.
  destruct ((c <? 1) || (c >? 255)) eqn:Hc; [discriminate|].
  apply orb_false_iff in Hc as [Hc1 Hc2]. rewrite Z.gtb_ltb in Hc2.
  apply Z.ltb_ge in Hc1, Hc2.
  destruct (Z.ltb_spec (count b) (maxcap b - 1)) as [Hroom|Hfull].
  - destruct (snbuffer_append_ok b c Hwf ltac:(lia) Hroom) as (b1 & Happ1 & Hwf1 & _ & Hc1' & _).
    unfold snbuffer_append in Happ1.
    destruct ((c <? 1) || (c >? 255)); [discriminate|].
    destruct (Z.ltb_spec (count b) (maxcap b - 1)); [|lia].
    rewrite Happ1 in Happ. injection Happ as <- <-. split; lia.
  - injection Happ as <- <-. split; [lia|auto].
Qed.

Lemma snbuffer_reset_fine (b : SNBUFFER) :
  buffer_str b ->
  buffer_str (snbuffer_reset b 0) /\
  snbuffer_data (snbuffer_reset b 0) = [] /\
  count (snbuffer_reset b 0) = 0 /\
  maxcap (snbuffer_reset b 0) = maxcap b.
Proof.
  intros Hstr. destruct (snbuffer_reset_str b 0 Hstr) as (H1 & H2 & H3 & _).
  split; [assumption|]. split; [assumption|]. split; [reflexivity|assumption].
Qed.

(** One turn of the loop over the rest of a token. *)
Lemma sntk_readToken_body_spec (s : scanner) :
  scanner_fine s ->
  exists s', scanner_fine s' /\
    (input_left (s_fil s') (s_in s') <= input_left (s_fil s) (s_in s))%nat /\
    ((sntk_readToken_body s = Done (Continue s') /\
      (s_err s' = 0 ->
       (input_left (s_fil s') (s_in s') < input_left (s_fil s) (s_in s))%nat)) \/
     sntk_readToken_body s = Done (Break s')).
Proof.
  intros (Hi & Hl & Hwf & Hcnt & He). unfold sntk_readToken_body.
  pose proof (snfilter_read_inv (s_fil s) (s_in s) Hi) as (Hi1 & Hc1 & Hp1).
  pose proof (snfilter_read_line (s_fil s) (s_in s)) as (Hl1 & _).
  pose proof (snfilter_read_consumes (s_fil s) (s_in s) Hi) as Hm1.
  pose proof (snfilter_read_left (s_fil s) (s_in s)) as Hle1.
  pose proof (snfilter_read_pushback_left (s_fil s) (s_in s) Hi) as Hpb1.
  destruct (snfilter_read (s_fil s) (s_in s)) as [[c f1] in1]. cbn [fst snd] in *.
  pose proof Hi1 as [_ Hhi Hlo _ _]. rewrite <- Hc1 in Hhi, Hlo.
  set (err1 := if c <? 0 then c else s_err s).
  set (err2 := if (err1 =? 0) && (snchar_islegal c =? 0) then SNERR_BADCHAR else err1).
  assert (-10 <= err2 <= 0 /\ (err2 = 0 -> 1 <= c <= 255)) as [He2 Hleg].
  { subst err2 err1. destruct (Z.ltb_spec c 0).
    - destruct (Z.eqb_spec c 0); [lia|]. cbn [andb]. lia.
    - destruct (Z.eqb_spec (s_err s) 0) as [Hz|Hz]; cbn [andb].
      + destruct (Z.eqb_spec (snchar_islegal c) 0) as [Hq|Hq].
        * consts. lia.
        * split; [lia|]. intros _. apply snchar_islegal_range, Hq.
      + lia. }
  clearbody err2. clear err1.
  set (leave := if (err2 =? 0) && negb (snchar_isinclusive c =? 0) then 1 else s_leave s).
  clearbody leave.
  destruct ((err2 =? 0) && negb (snchar_isexclusive c =? 0)) eqn:Hex.
  - (* an exclusive character is pushed back and ends the token *)
    apply andb_true_iff in Hex as [Hz _]. apply Z.eqb_eq in Hz.
    pose proof (snfilter_pushback_fine f1 ltac:(lia) Hp1) as Hok.
    pose proof (snfilter_pushback_inv f1 Hi1) as Hi2.
    pose proof (snfilter_pushback_line f1) as (Hl2 & _).
    destruct (snfilter_pushback f1) as [ok f2]. cbn [fst snd] in *. subst ok.
    cbn [Z.eqb mbind outcome_mbind outcome_bind]. rewrite Hz. cbn [Z.eqb andb negb].
    cbn [mbind outcome_mbind outcome_bind].
    exists (mkScanner 0 1 1 (s_buf s) in1 f2). split; [|split; [|right; reflexivity]].
    + unfold scanner_fine. cbn [s_fil s_buf s_err].
      split; [assumption|]. split; [lia|]. split; [assumption|]. split; lia.
    + cbn [s_fil s_in]. assumption.
  - cbn [mbind outcome_mbind outcome_bind].
    assert (exists err3 b3,
              (if (err2 =? 0) && (s_omit s =? 0)
               then '(ok, pBuffer) ← snbuffer_append (s_buf s) c;
                    Done (if ok =? 0 then SNERR_LONGTOKEN else err2, pBuffer)
               else Done (err2, s_buf s)) = Done (err3, b3) /\
              buffer_str b3 /\ 0 < count b3 /\ -10 <= err3 <= 0 /\ (err3 = 0 -> err2 = 0))
      as (err3 & b3 & -> & Hwf3 & Hc3 & He3 & Hz3).
    { destruct (Z.eqb_spec err2 0) as [Hz|Hz]; cbn [andb].
      - destruct (s_omit s =? 0).
        + destruct (snbuffer_append_returns (s_buf s) c (Hleg Hz)) as (ok & b3 & Happ).
          rewrite Happ. cbn [mbind outcome_mbind outcome_bind].
          destruct (snbuffer_append_count _ _ _ _ Hwf Happ) as (Hwf3 & Hle & Hok).
          eexists _, b3. split; [reflexivity|]. split; [assumption|]. split; [lia|].
          destruct (ok =? 0); consts; split; lia.
        + exists err2, (s_buf s). auto 6.
      - exists err2, (s_buf s). auto 6. }
    cbn [mbind outcome_mbind outcome_bind].
    exists (mkScanner err3 leave (s_omit s) b3 in1 f1).
    split; [|split].
    + unfold scanner_fine. cbn [s_fil s_buf s_err].
      split; [assumption|]. split; [lia|]. auto.
    + cbn [s_fil s_in]. assumption.
    + destruct ((err3 =? 0) && negb (leave =? 0)); [right; reflexivity|left].
      split; [reflexivity|].
      cbn [s_fil s_in s_err]. intros Hz. apply Hm1.
      specialize (Hz3 Hz). destruct (Hleg Hz3). lia.
Qed.

(** The loop over the rest of a token. *)
Lemma sntk_readToken_loop_spec (fuel : nat) (s : scanner) :
  scanner_fine s ->
  match while_loop fuel (fun s => s_err s =? 0) sntk_readToken_body s with
  | Done s' =>
      scanner_fine s' /\
      (input_left (s_fil s') (s_in s') <= input_left (s_fil s) (s_in s))%nat
  | Abort => False
  | OutOfFuel => (fuel <= input_left (s_fil s) (s_in s))%nat
  end.
Proof.
  intros Hs.
  set (m := fun s : scanner => input_left (s_fil s) (s_in s)).
  set (P := fun s' : scanner => scanner_fine s' /\ (m s' <= m s)%nat).
  assert (HP : P s) by (unfold P; auto).
  assert (Hstep : forall s0, P s0 ->
            exists s1, P s1 /\
              ((sntk_readToken_body s0 = Done (Continue s1) /\
                (s_err s1 = 0 -> (m s1 < m s0)%nat)) \/
               sntk_readToken_body s0 = Done (Break s1))).
  { intros s0 [H0 Hm0].
    destruct (sntk_readToken_body_spec s0 H0) as (s1 & H1 & Hle & Hb).
    exists s1. split; [split; [assumption|unfold m in *; lia]|exact Hb]. }
  destruct (while_loop fuel _ _ s) as [s'| |] eqn:Hloop.
  - apply (while_loop_invariant P) in Hloop; [apply Hloop| | |exact HP].
    + intros s0 s1 H0 _ Hb.
      destruct (Hstep s0 H0) as (s2 & H2 & [[Hb2 _]|Hb2]); congruence.
    + intros s0 s1 H0 _ Hb.
      destruct (Hstep s0 H0) as (s2 & H2 & [[Hb2 _]|Hb2]); congruence.
  - revert Hloop. apply (while_loop_no_abort P); [| |exact HP].
    + intros s0 H0 Hb.
      destruct (Hstep s0 H0) as (s2 & H2 & [[Hb2 _]|Hb2]); congruence.
    + intros s0 s1 H0 Hb.
      destruct (Hstep s0 H0) as (s2 & H2 & [[Hb2 _]|Hb2]); congruence.
  - destruct (Nat.le_gt_cases fuel (m s)) as [Hle|Hgt]; [exact Hle|]. exfalso.
    destruct (while_loop_returns P m (fun s => s_err s =? 0) sntk_readToken_body)
      with (fuel := fuel) (s := s) as [s' Hdone]; [ | exact HP | exact Hgt | congruence].
    intros s0 H0 _. destruct (Hstep s0 H0) as (s1 & H1 & [[Hb Hlt]|Hb]).
    + right. exists s1. split; [assumption|]. split; [assumption|].
      intros Hc. apply Hlt, Z.eqb_eq, Hc.
    + left. eauto.
Qed.

(** [sntk_readToken] aborts only where its first [sntk_skip] does, and
    returns when its bound exceeds what is left of the input; what it
    returns is an error code or a token of one character at least. *)
Lemma sntk_readToken_spec (fuel : nat) (pBuffer : SNBUFFER) (pIn : FILE)
    (pFilter : SNFILTER) :
  buffer_str pBuffer -> filter_inv pFilter ->
  match sntk_readToken fuel pBuffer pIn pFilter with
  | Done (err, b', pIn', f') =>
      filter_inv f' /\ 0 < line_count f' /\ buffer_str b' /\
      -10 <= err <= 0 /\ (err = 0 -> 0 < count b') /\
      (input_left f' pIn' <= input_left pFilter pIn)%nat
  | Abort => no_first_char pFilter pIn
  | OutOfFuel => (fuel <= input_left pFilter pIn)%nat
  end.
Proof.
  intros Hwf Hinv. unfold sntk_readToken.
  destruct (snbuffer_reset_fine pBuffer Hwf) as (Hwf0 & _ & Hc0 & _).
  pose proof (sntk_skip_spec fuel pIn pFilter Hinv) as Hskip.
  destruct (sntk_skip fuel pIn pFilter) as [[f1 in1]| |];
    cbn [mbind outcome_mbind outcome_bind]; [|assumption|assumption].
  destruct Hskip as (Hi1 & Hl1 & Hm1).
  pose proof (snfilter_read_inv f1 in1 Hi1) as (Hi2 & Hc2 & Hp2).
  pose proof (snfilter_read_line f1 in1) as (Hl2 & _).
  pose proof (snfilter_read_left f1 in1) as Hm2.
  destruct (snfilter_read f1 in1) as [[c0 f2] in2]. cbn [fst snd] in *.
  pose proof Hi2 as [_ Hhi Hlo _ _]. rewrite <- Hc2 in Hhi, Hlo.
  set (err0 := if (_ && _) then SNERR_BADCHAR else _).
  assert (-10 <= err0 <= 0 /\ (err0 = 0 -> 1 <= c0 <= 255)) as [He0 Hleg].
  { subst err0. destruct (Z.ltb_spec c0 0).
    - destruct (Z.eqb_spec c0 0); [lia|]. cbn [andb]. lia.
    - cbn [Z.eqb andb]. destruct (Z.eqb_spec (snchar_islegal c0) 0) as [Hq|Hq].
      + consts. lia.
      + split; [lia|]. intros _. apply snchar_islegal_range, Hq. }
  clearbody err0.
  (* the first character *)
  set (m1 := if err0 =? 0 then _ else _).
  assert (exists err1 b1, m1 = Done (err1, b1) /\ buffer_str b1 /\
            -10 <= err1 <= 0 /\ (err1 = 0 -> 0 < count b1))
    as (err1 & b1 & Hm1' & Hwf1 & He1 & Hc1).
  { subst m1. destruct (Z.eqb_spec err0 0) as [Hz|Hz].
    - destruct (snbuffer_append_returns (snbuffer_reset pBuffer 0) c0 (Hleg Hz))
        as (ok & b1 & Happ).
      rewrite Happ. cbn [mbind outcome_mbind outcome_bind].
      destruct (snbuffer_append_count _ _ _ _ Hwf0 Happ) as (Hwf1 & _ & Hok).
      eexists _, b1. split; [reflexivity|]. split; [assumption|].
      destruct Hok as [->|[-> Hpos]]; cbn [Z.eqb]; consts; split; lia.
    - exists err0, (snbuffer_reset pBuffer 0). split; [reflexivity|].
      split; [assumption|]. split; [lia|]. intros; contradiction. }
  rewrite Hm1'. clear Hm1' m1. cbn [mbind outcome_mbind outcome_bind].
  (* the vertical bar *)
  set (m2 := if (err1 =? 0) && (c0 =? ASCII_BAR) then _ else _).
  assert (exists e2 t b2 in3 f3, m2 = Done (e2, t, b2, in3, f3) /\
            filter_inv f3 /\ 0 < line_count f3 /\ buffer_str b2 /\
            -10 <= e2 <= 0 /\ (e2 = 0 -> 0 < count b2) /\
            (input_left f3 in3 <= input_left f2 in2)%nat)
    as (e2 & t & b2 & in3 & f3 & Hm2' & Hi3 & Hl3 & Hwf2 & He2 & Hc2' & Hm3).
  { subst m2. destruct (Z.eqb_spec err1 0) as [Hz|Hz]; cbn [andb].
    2: { exists err1, 0, b1, in2, f2. split; [reflexivity|].
         repeat (split; [assumption || lia|]). lia. }
    destruct (c0 =? ASCII_BAR).
    2: { exists err1, 0, b1, in2, f2. split; [reflexivity|].
         repeat (split; [assumption || lia|]). lia. }
    pose proof (snfilter_read_inv f2 in2 Hi2) as (Hi4 & Hc4 & Hp4).
    pose proof (snfilter_read_line f2 in2) as (Hl4 & _).
    pose proof (snfilter_read_left f2 in2) as Hm4.
    pose proof (snfilter_read_pushback_left f2 in2 Hi2) as Hpb4.
    destruct (snfilter_read f2 in2) as [[c2 f4] in4]. cbn [fst snd] in *.
    pose proof Hi4 as [_ Hhi4 Hlo4 _ _]. rewrite <- Hc4 in Hhi4, Hlo4.
    set (err2 := if c2 <? 0 then c2 else err1).
    assert (-10 <= err2 <= 0) as He2
      by (subst err2; destruct (c2 <? 0) eqn:E; [apply Z.ltb_lt in E|]; lia).
    clearbody err2.
    destruct ((err2 =? 0) && (c2 =? ASCII_SEMICOLON)) eqn:Hsemi.
    - apply andb_true_iff in Hsemi as [_ Hsemi]. apply Z.eqb_eq in Hsemi.
      destruct (snbuffer_append_returns b1 c2) as (ok & b2 & Happ);
        [rewrite Hsemi; consts; lia|].
      rewrite Happ. cbn [mbind outcome_mbind outcome_bind].
      destruct (snbuffer_append_count _ _ _ _ Hwf1 Happ) as (Hwf2 & Hle & Hok).
      eexists _, 1, b2, in4, f4. split; [reflexivity|].
      split; [assumption|]. split; [lia|]. split; [assumption|].
      specialize (Hc1 Hz). split; [|split; [lia|assumption]].
      destruct (ok =? 0); consts; lia.
    - pose proof (snfilter_pushback_fine f4 ltac:(lia) Hp4) as Hok.
      pose proof (snfilter_pushback_inv f4 Hi4) as Hi5.
      pose proof (snfilter_pushback_line f4) as (Hl5 & _).
      destruct (snfilter_pushback f4) as [ok f5]. cbn [fst snd] in *. subst ok.
      cbn [Z.eqb]. exists err2, 0, b1, in4, f5. split; [reflexivity|].
      split; [assumption|]. split; [lia|]. split; [assumption|]. split; [lia|].
      split; [intros _; apply Hc1, Hz|assumption]. }
  rewrite Hm2'. clear Hm2' m2. cbn [mbind outcome_mbind outcome_bind].
  (* what follows the final token *)
  destruct ((e2 =? 0) && negb (t =? 0)) eqn:Hfin.
  - apply andb_true_iff in Hfin as [Hz Ht]. apply Z.eqb_eq in Hz.
    apply negb_true_iff in Ht.
    pose proof (sntk_skip_spec fuel in3 f3 Hi3) as Hskip.
    destruct (sntk_skip fuel in3 f3) as [[f5 in5]| |];
      cbn [mbind outcome_mbind outcome_bind]; [| |lia].
    2: { destruct Hskip as [Hzero _]. lia. }
    destruct Hskip as (Hi5 & Hl5 & Hm5).
    pose proof (snfilter_read_inv f5 in5 Hi5) as (Hi6 & Hc6 & Hp6).
    pose proof (snfilter_read_line f5 in5) as (Hl6 & _).
    pose proof (snfilter_read_left f5 in5) as Hm6.
    destruct (snfilter_read f5 in5) as [[c3 f6] in6]. cbn [fst snd] in *.
    pose proof Hi6 as [_ Hhi6 Hlo6 _ _]. rewrite <- Hc6 in Hhi6, Hlo6.
    cbn [mbind outcome_mbind outcome_bind]. rewrite Ht.
    rewrite andb_false_r. cbn [andb].
    split; [assumption|]. split; [lia|]. split; [assumption|]. split; [|split; [|lia]].
    + destruct (c3 =? SNERR_EOF); cbn [negb]; [lia|].
      rewrite Z.geb_leb. destruct (Z.leb_spec 0 c3); consts; lia.
    + intros _. apply Hc2', Hz.
  - cbn [mbind outcome_mbind outcome_bind].
    destruct ((e2 =? 0) && (t =? 0) && (snchar_isatomic c0 =? 0)) eqn:Hrest.
    + apply andb_true_iff in Hrest as [Hrest _].
      apply andb_true_iff in Hrest as [Hz _]. apply Z.eqb_eq in Hz.
      pose proof (sntk_readToken_loop_spec fuel (mkScanner e2 0 0 b2 in3 f3)) as Hloop.
      assert (scanner_fine (mkScanner e2 0 0 b2 in3 f3)) as Hfine
        by (unfold scanner_fine; cbn [s_fil s_buf s_err]; auto 6).
      specialize (Hloop Hfine). cbn [s_fil s_in] in Hloop.
      destruct (while_loop fuel _ _ _) as [s'| |];
        cbn [mbind outcome_mbind outcome_bind]; [|contradiction|lia].
      destruct Hloop as ((H1 & H2 & H3 & H4 & H5) & H6).
      repeat (split; [solve [auto]|]). lia.
    + repeat (split; [solve [auto]|]). lia.
Qed.
(** The tail of a turn of a string reader. *)
Lemma snstr_store_fine (err c nest : Z) (b : SNBUFFER) (pIn : FILE) (f : SNFILTER) :
  (err = 0 -> 0 <= c <= 255) -> -10 <= err <= 0 -> buffer_str b ->
  exists r',
    snstr_store err c nest b pIn f = Done (Continue r') /\
    r_in r' = pIn /\ r_fil r' = f /\ -10 <= r_err r' <= 0 /\
    (r_err r' = 0 -> err = 0) /\ buffer_str (r_buf r').
Proof.
  intros Hc He Hwf. unfold snstr_store. consts.
  destruct (Z.eqb_spec err 0) as [->|Hne]; cbn [andb].
  - specialize (Hc eq_refl).
    destruct (Z.eqb_spec c 0) as [->|Hz]; cbn [Z.eqb].
    + eexists; split; [reflexivity|]. cbn. intuition lia.
    + destruct (snbuffer_append_returns b c ltac:(lia)) as (ok & b' & Happ).
      rewrite Happ. destruct (snbuffer_append_count _ _ _ _ Hwf Happ) as (Hwf' & _).
      cbn. eexists; split; [reflexivity|]. cbn.
      destruct (Z.eqb_spec ok 0); intuition lia.
  - destruct (Z.eqb_spec err 0); [lia|].
    eexists; split; [reflexivity|]. cbn. intuition lia.
Qed.

Lemma snstr_read_err_range (c : Z) :
  -3 <= c -> -10 <= snstr_read_err c <= 0 /\ (snstr_read_err c = 0 -> 0 <= c).
Proof.
  intros Hc. unfold snstr_read_err. consts.
  destruct (Z.ltb_spec c 0); [destruct (Z.eqb_spec c (-2))|]; lia.
Qed.

(** One turn of the loop of [snstr_readQuoted]. *)
Lemma snstr_readQuoted_body_fine (r : reader) :
  reader_fine r ->
  exists r', reader_fine r' /\
    (input_left (r_fil r') (r_in r') <= input_left (r_fil r) (r_in r))%nat /\
    ((snstr_readQuoted_body r = Done (Continue r') /\
      (r_err r' = 0 ->
       (input_left (r_fil r') (r_in r') < input_left (r_fil r) (r_in r))%nat)) \/
     snstr_readQuoted_body r = Done (Break r')).
Proof.
  intros (Hi & Hl & He & Hwf). unfold snstr_readQuoted_body.
  pose proof (snstr_read_facts (r_fil r) (r_in r) Hi) as Hr.
  pose proof (snfilter_read_line (r_fil r) (r_in r)) as (Hl1 & _).
  pose proof (snfilter_read_left (r_fil r) (r_in r)) as Hle1.
  destruct (snfilter_read (r_fil r) (r_in r)) as [[c f'] pIn']. cbn [fst snd] in *.
  destruct Hr as (Hi' & Hc & Hm).
  destruct (snstr_read_err_range c ltac:(lia)) as [Hrange Hzero].
  destruct ((snstr_read_err c =? 0) && (r_esc r =? 0) && (c =? ASCII_DQUOTE)).
  - eexists. split; [|split; [|right; reflexivity]];
      unfold reader_fine; cbn [r_fil r_in r_err r_buf]; [|assumption].
    split; [assumption|]. split; [lia|]. split; [lia|assumption].
  - destruct (snstr_store_fine (snstr_read_err c) c (r_nest r) (r_buf r) pIn' f')
      as (r' & Hst & Hin & Hfil & Herr & Hz & Hwf');
      [intros Hq; specialize (Hzero Hq); lia|lia|assumption|].
    exists r'. unfold reader_fine. rewrite Hin, Hfil.
    split; [split; [assumption|split; [lia|split; assumption]]|].
    split; [assumption|]. left. split; [assumption|].
    intros Hq. apply Hm, Hzero, Hz, Hq.
Qed.

(** One turn of the loop of [snstr_readCurlied]. *)
Lemma snstr_readCurlied_body_fine (r : reader) :
  reader_fine r ->
  exists r', reader_fine r' /\
    (input_left (r_fil r') (r_in r') <= input_left (r_fil r) (r_in r))%nat /\
    ((snstr_readCurlied_body r = Done (Continue r') /\
      (r_err r' = 0 ->
       (input_left (r_fil r') (r_in r') < input_left (r_fil r) (r_in r))%nat)) \/
     snstr_readCurlied_body r = Done (Break r')).
Proof.
  intros (Hi & Hl & He & Hwf). unfold snstr_readCurlied_body.
  pose proof (snstr_read_facts (r_fil r) (r_in r) Hi) as Hr.
  pose proof (snfilter_read_line (r_fil r) (r_in r)) as (Hl1 & _).
  pose proof (snfilter_read_left (r_fil r) (r_in r)) as Hle1.
  destruct (snfilter_read (r_fil r) (r_in r)) as [[c f'] pIn']. cbn [fst snd] in *.
  destruct Hr as (Hi' & Hc & Hm).
  destruct (snstr_read_err_range c ltac:(lia)) as [Hrange Hzero].
  set (st := if (snstr_read_err c =? 0) && (r_esc r =? 0) then _ else _).
  assert (Hst : -10 <= fst st <= 0 /\ (fst st = 0 -> 0 <= c)).
  { subst st. destruct ((snstr_read_err c =? 0) && (r_esc r =? 0)); [|auto].
    destruct (c =? ASCII_LCURL); [destruct (r_nest r <? LONG_MAX)|destruct (c =? ASCII_RCURL)];
      cbn [fst]; auto.
    destruct (Z.ltb_spec c 0); consts; split; lia. }
  destruct st as [err nest]. cbn [fst] in Hst. destruct Hst as [Hst1 Hst2].
  destruct ((err =? 0) && (nest <? 1)).
  - eexists. split; [|split; [|right; reflexivity]];
      unfold reader_fine; cbn [r_fil r_in r_err r_buf]; [|assumption].
    split; [assumption|]. split; [lia|]. split; [lia|assumption].
  - destruct (snstr_store_fine err c nest (r_buf r) pIn' f')
      as (r' & Hst & Hin & Hfil & Herr & Hz & Hwf');
      [intros Hq; specialize (Hst2 Hq); lia|lia|assumption|].
    exists r'. unfold reader_fine. rewrite Hin, Hfil.
    split; [split; [assumption|split; [lia|split; assumption]]|].
    split; [assumption|]. left. split; [assumption|].
    intros Hq. apply Hm, Hst2, Hz, Hq.
Qed.

(** The loop of a string reader. *)
Lemma reader_loop_spec (body : reader -> outcome (loop_ctl reader)) :
  (forall r, reader_fine r ->
     exists r', reader_fine r' /\
       (input_left (r_fil r') (r_in r') <= input_left (r_fil r) (r_in r))%nat /\
       ((body r = Done (Continue r') /\
         (r_err r' = 0 ->
          (input_left (r_fil r') (r_in r') < input_left (r_fil r) (r_in r))%nat)) \/
        body r = Done (Break r'))) ->
  forall (fuel : nat) (r : reader),
  reader_fine r ->
  match while_loop fuel reader_running body r with
  | Done r' =>
      reader_fine r' /\
      (input_left (r_fil r') (r_in r') <= input_left (r_fil r) (r_in r))%nat
  | Abort => False
  | OutOfFuel => (fuel <= input_left (r_fil r) (r_in r))%nat
  end.
Proof.
  intros Hbody fuel r Hr.
  set (m := fun r : reader => input_left (r_fil r) (r_in r)).
  set (P := fun r' : reader => reader_fine r' /\ (m r' <= m r)%nat).
  assert (HP : P r) by (unfold P; auto).
  assert (Hstep : forall r0, P r0 ->
            exists r1, P r1 /\
              ((body r0 = Done (Continue r1) /\ (r_err r1 = 0 -> (m r1 < m r0)%nat)) \/
               body r0 = Done (Break r1))).
  { intros r0 [H0 Hm0]. destruct (Hbody r0 H0) as (r1 & H1 & Hle & Hb).
    exists r1. split; [split; [assumption|unfold m in *; lia]|exact Hb]. }
  destruct (while_loop fuel _ _ r) as [r'| |] eqn:Hloop.
  - apply (while_loop_invariant P) in Hloop; [apply Hloop| | |exact HP].
    + intros r0 r1 H0 _ Hb.
      destruct (Hstep r0 H0) as (r2 & H2 & [[Hb2 _]|Hb2]); congruence.
    + intros r0 r1 H0 _ Hb.
      destruct (Hstep r0 H0) as (r2 & H2 & [[Hb2 _]|Hb2]); congruence.
  - revert Hloop. apply (while_loop_no_abort P); [| |exact HP].
    + intros r0 H0 Hb.
      destruct (Hstep r0 H0) as (r2 & H2 & [[Hb2 _]|Hb2]); congruence.
    + intros r0 r1 H0 Hb.
      destruct (Hstep r0 H0) as (r2 & H2 & [[Hb2 _]|Hb2]); congruence.
  - destruct (Nat.le_gt_cases fuel (m r)) as [Hle|Hgt]; [exact Hle|]. exfalso.
    destruct (while_loop_returns P m reader_running body)
      with (fuel := fuel) (s := r) as [r' Hdone]; [ | exact HP | exact Hgt | congruence].
    intros r0 H0 _. destruct (Hstep r0 H0) as (r1 & H1 & [[Hb Hlt]|Hb]).
    + right. exists r1. split; [assumption|]. split; [assumption|].
      intros Hc. apply Hlt, Z.eqb_eq, Hc.
    + left. eauto.
Qed.

Ltac token_fine_solve :=
  unfold token_fine, snbuffer_count, snbuffer_reset;
  cbn [status str_type pKey pValue Z.eqb negb andb count];
  unfold SNTOKEN_FINAL, SNTOKEN_SIMPLE, SNTOKEN_STRING, SNTOKEN_EMBED,
    SNSTRING_QUOTED, SNSTRING_CURLY in *;
  intuition lia.

Ltac token_kind :=
  cbn [SNTOKEN_FINAL SNTOKEN_SIMPLE SNTOKEN_STRING SNTOKEN_EMBED
       SNSTRING_QUOTED SNSTRING_CURLY Z.eqb Pos.eqb orb negb
       mbind outcome_mbind outcome_bind].

Lemma snbuffer_less_fine (b : SNBUFFER) : buffer_str b -> buffer_str (snd (snbuffer_less b)).
Proof. intros Hstr. apply (snbuffer_less_str b Hstr). Qed.

Lemma snbuffer_get_fine (b : SNBUFFER) :
  buffer_str b ->
  buffer_str (snd (snbuffer_get b)) /\ count (snd (snbuffer_get b)) = count b.
Proof.
  intros Hstr. destruct (snbuffer_get_str b Hstr) as (H1 & _ & H2 & _). auto.
Qed.

(** [sntoken_read] aborts only where its [sntk_skip] does, and returns
    when its bound exceeds what is left of the input. *)
Lemma sntoken_read_spec (char_signed : bool) (fuel : nat) (pToken : SNTOKEN)
    (pIn : FILE) (pFil : SNFILTER) :
  buffer_str (pKey pToken) -> buffer_str (pValue pToken) -> filter_inv pFil ->
  match sntoken_read char_signed fuel pToken pIn pFil with
  | Done (tk, pIn', f') =>
      token_fine tk /\ buffer_str (pKey tk) /\ buffer_str (pValue tk) /\
      filter_inv f' /\ 0 < line_count f' /\
      (input_left f' pIn' <= input_left pFil pIn)%nat
  | Abort => no_first_char pFil pIn
  | OutOfFuel => (fuel <= input_left pFil pIn)%nat
  end.
Proof.
  intros Hk Hv Hinv. unfold sntoken_read.
  destruct (snbuffer_reset_fine _ Hk) as (Hk0 & _).
  destruct (snbuffer_reset_fine _ Hv) as (Hv0 & _).
  destruct (snbuffer_reset_fine _ Hv0) as (Hv00 & _).
  pose proof (sntk_readToken_spec fuel (snbuffer_reset (pKey pToken) 0) pIn pFil Hk0 Hinv)
    as Htok.
  destruct (sntk_readToken fuel _ pIn pFil) as [[[[err key] in1] f1]| |];
    cbn [mbind outcome_mbind outcome_bind]; [|assumption|assumption].
  destruct Htok as (Hi1 & Hl1 & Hwf1 & He1 & Hc1 & Hm1).
  destruct (snbuffer_reset_fine _ Hwf1) as (Hwf10 & _).
  destruct (Z.eqb_spec err 0) as [Hz|Hz]; cbn [andb negb].
  2: { cbn [mbind outcome_mbind outcome_bind Z.eqb andb].
       destruct (Z.eqb_spec err 0); [contradiction|]. cbn [negb].
       split; [token_fine_solve|]. cbn [pKey pValue]. auto 6. }
  specialize (Hc1 Hz). subst err.
  assert (Hless : exists key', snbuffer_less key = (1, key') /\ buffer_str key').
  { pose proof (snbuffer_less_fine key Hwf1) as Hw. revert Hw.
    unfold snbuffer_less. rewrite Z.gtb_ltb.
    destruct (Z.ltb_spec 0 (count key)); [cbn [snd]; eauto|lia]. }
  destruct Hless as (key' & Hless & Hwk').
  destruct (snbuffer_reset_fine _ Hwk') as (Hwk0' & _).
  destruct (snbuffer_get_fine key Hwf1) as [Hgwf Hget].
  assert (Hrd : forall r stype, reader_fine r ->
            stype = SNSTRING_QUOTED \/ stype = SNSTRING_CURLY ->
            (input_left (r_fil r) (r_in r) <= input_left f1 in1)%nat ->
            match
              (if negb (r_err r =? 0)
               then Done (mkSNTOKEN (r_err r) 0 (snbuffer_reset key' 0)
                            (snbuffer_reset (r_buf r) 0), r_in r, r_fil r)
               else Done (mkSNTOKEN SNTOKEN_STRING stype key' (r_buf r),
                          r_in r, r_fil r))
            with
            | Done (tk, pIn', f') =>
                token_fine tk /\ buffer_str (pKey tk) /\ buffer_str (pValue tk) /\
                filter_inv f' /\ 0 < line_count f' /\
                (input_left f' pIn' <= input_left pFil pIn)%nat
            | _ => False
            end).
  { intros r stype (Hri & Hrl & Hre & Hrw) Hty Hrm.
    destruct (snbuffer_reset_fine _ Hrw) as (Hrw0 & _).
    destruct (Z.eqb_spec (r_err r) 0) as [Hq|Hq]; cbn [negb pKey pValue];
      (split; [token_fine_solve|]);
      (split; [assumption|split; [assumption|split; [assumption|split; [assumption|lia]]]]). }
  assert (Hstart : forall b, buffer_str b -> reader_fine (mkReader 0 0 1 b in1 f1)).
  { intros b Hb. unfold reader_fine. cbn [r_fil r_err r_buf].
    split; [assumption|]. split; [lia|]. split; [lia|assumption]. }
  destruct (Z.eqb_spec (snbuffer_last char_signed key) ASCII_DQUOTE) as [Hq|Hq].
  { token_kind. rewrite Hless. token_kind.
    unfold snstr_readQuoted.
    pose proof (reader_loop_spec _ snstr_readQuoted_body_fine fuel _
                  (Hstart _ Hv00)) as Hloop.
    destruct (while_loop fuel reader_running snstr_readQuoted_body _) as [r| |];
      cbn [mbind outcome_mbind outcome_bind]; [|contradiction|cbn [r_fil r_in] in Hloop; lia].
    destruct Hloop as [Hfine Hm]. cbn [r_fil r_in] in Hm.
    pose proof (Hrd r SNSTRING_QUOTED Hfine ltac:(auto) Hm) as Hres.
    destruct (negb (r_err r =? 0)); exact Hres. }
  destruct (Z.eqb_spec (snbuffer_last char_signed key) ASCII_LCURL) as [Hc|Hc].
  { token_kind. rewrite Hless. token_kind.
    unfold snstr_readCurlied.
    pose proof (reader_loop_spec _ snstr_readCurlied_body_fine fuel _
                  (Hstart _ Hv00)) as Hloop.
    destruct (while_loop fuel reader_running snstr_readCurlied_body _) as [r| |];
      cbn [mbind outcome_mbind outcome_bind]; [|contradiction|cbn [r_fil r_in] in Hloop; lia].
    destruct Hloop as [Hfine Hm]. cbn [r_fil r_in] in Hm.
    pose proof (Hrd r SNSTRING_CURLY Hfine ltac:(auto) Hm) as Hres.
    destruct (negb (r_err r =? 0)); exact Hres. }
  destruct (Z.eqb_spec (snbuffer_last char_signed key) ASCII_GRACCENT) as [Hg|Hg].
  { token_kind. rewrite Hless. token_kind.
    split; [token_fine_solve|]. cbn [pKey pValue]. auto 6. }
  token_kind.
  destruct (snbuffer_get key) as [p key0]. cbn [snd] in Hget, Hgwf.
  destruct (same_string p final_text); token_kind;
    (split; [token_fine_solve|]); cbn [pKey pValue]; auto 6.
Qed.
(** ** A broken byte order mark *)




(** X14: the one abort of the token reader. [sntk_skip], [sntk_readToken]
    and [sntoken_read] reach an [abort()] in one case only: the filter has
    read nothing yet and the first read fails (the stream is empty, cannot
    be read, or starts with a broken byte order mark), so that the
    pushback in [sntk_skip] is refused. In that case they do abort. *)
Theorem sntoken_read_aborts (char_signed : bool) (fuel : nat) (pToken : SNTOKEN)
    (pIn : FILE) (pFil : SNFILTER) :
  buffer_str (pKey pToken) -> buffer_str (pValue pToken) -> filter_inv pFil ->
  (sntk_skip fuel pIn pFil = Abort <-> fuel <> O /\ no_first_char pFil pIn) /\
  (sntk_readToken fuel (pKey pToken) pIn pFil = Abort <->
   fuel <> O /\ no_first_char pFil pIn) /\
  (sntoken_read char_signed fuel pToken pIn pFil = Abort <->
   fuel <> O /\ no_first_char pFil pIn).
Proof.
  intros Hk Hv Hinv.
  assert (Hskip : fuel <> O /\ no_first_char pFil pIn -> sntk_skip fuel pIn pFil = Abort)
    by (intros [Hf Hn]; apply sntk_skip_starved; assumption).
  split; [|split]; split; intros H.
  - split; [intros ->; discriminate|].
    pose proof (sntk_skip_spec fuel pIn pFil Hinv) as Hs. rewrite H in Hs. exact Hs.
  - exact (Hskip H).
  - split; [intros ->; discriminate|].
    pose proof (sntk_readToken_spec fuel (pKey pToken) pIn pFil Hk Hinv) as Hs.
    rewrite H in Hs. exact Hs.
  - unfold sntk_readToken. rewrite (Hskip H). reflexivity.
  - split; [intros ->; discriminate|].
    pose proof (sntoken_read_spec char_signed fuel pToken pIn pFil Hk Hv Hinv) as Hs.
    rewrite H in Hs. exact Hs.
  - unfold sntoken_read, sntk_readToken. rewrite (Hskip H). reflexivity.
Qed.

Lemma sntoken_read_aborts_witness :
  let tk := mkSNTOKEN 0 0 (mkSNBUFFER [] 0 0 4 1024) (mkSNBUFFER [] 0 0 32 65535) in
  filter_inv snfilter_reset /\
  sntoken_read false 1 tk (bytes_file [] false) snfilter_reset = Abort.
Proof.
  intros tk.
  assert (filter_inv snfilter_reset) as Hinv by (apply filter_reachable_inv, reach_reset).
  assert (buffer_str (pKey tk)) as Hk by (apply (snbuffer_init_str 4 1024); reflexivity).
  assert (buffer_str (pValue tk)) as Hv by (apply (snbuffer_init_str 32 65535); reflexivity).
  split; [exact Hinv|].
  apply (sntoken_read_aborts false 1 tk (bytes_file [] false) snfilter_reset Hk Hv Hinv).
  split; [discriminate|]. split; [reflexivity|]. vm_compute. reflexivity.
Defined.

(** X15: [sntoken_read] returns, and what it gives. Unless it starts in
    the one case in which it aborts, and given a loop bound beyond what
    is left of the input, the function returns a token whose status is an
    error code from -10 to -1, with both buffers empty and no string
    type, or one of the four kinds of token: a string with one of the two
    string types, or a final, simple or embedded token with no string
    type and an empty value, the first two with one character at least.
    The buffers and the filter are left fit for the next call, the filter
    has read a character, and no input is given back. *)
Theorem sntoken_read_returns (char_signed : bool) (fuel : nat) (pToken : SNTOKEN)
    (pIn : FILE) (pFil : SNFILTER) :
  buffer_str (pKey pToken) -> buffer_str (pValue pToken) -> filter_inv pFil ->
  (input_left pFil pIn < fuel)%nat -> ~ no_first_char pFil pIn ->
  exists tk pIn' f',
    sntoken_read char_signed fuel pToken pIn pFil = Done (tk, pIn', f') /\
    token_fine tk /\ buffer_str (pKey tk) /\ buffer_str (pValue tk) /\
    filter_inv f' /\ 0 < line_count f' /\
    (input_left f' pIn' <= input_left pFil pIn)%nat.
Proof.
  intros Hk Hv Hinv Hfuel Hn.
  pose proof (sntoken_read_spec char_signed fuel pToken pIn pFil Hk Hv Hinv) as Hs.
  destruct (sntoken_read char_signed fuel pToken pIn pFil) as [[[tk in'] f']| |].
  - exists tk, in', f'. split; [reflexivity|exact Hs].
  - contradiction.
  - lia.
Qed.

Lemma sntoken_read_returns_witness :
  let tk := mkSNTOKEN 0 0 (mkSNBUFFER [] 0 0 4 1024) (mkSNBUFFER [] 0 0 32 65535) in
  let pIn := bytes_file [x61; x22; x62; x22] false in
  filter_inv snfilter_reset /\ ~ no_first_char snfilter_reset pIn /\
  exists tk' pIn' f',
    sntoken_read false 5 tk pIn snfilter_reset = Done (tk', pIn', f') /\
    token_fine tk'.
Proof.
  intros tk pIn.
  assert (filter_inv snfilter_reset) as Hinv by (apply filter_reachable_inv, reach_reset).
  assert (buffer_str (pKey tk)) as Hk by (apply (snbuffer_init_str 4 1024); reflexivity).
  assert (buffer_str (pValue tk)) as Hv by (apply (snbuffer_init_str 32 65535); reflexivity).
  assert (~ no_first_char snfilter_reset pIn) as Hn
    by (intros [_ Hneg]; vm_compute in Hneg; discriminate).
  split; [exact Hinv|]. split; [exact Hn|].
  destruct (sntoken_read_returns false 5 tk pIn snfilter_reset Hk Hv Hinv
              ltac:(cbn; lia) Hn) as (tk' & pIn' & f' & Hrun & Hfine & _).
  exists tk', pIn', f'. split; [exact Hrun | exact Hfine].
Defined.

(** ** Tokens read whole *)

Lemma snbuffer_append_fits (b : SNBUFFER) (c : Z) :
  buffer_str b -> 1 <= c <= 255 -> count b < maxcap b - 1 ->
  exists b',
    snbuffer_append b c = Done (1, b') /\ buffer_str b' /\
    snbuffer_data b' = snbuffer_data b ++ [c] /\
    count b' = count b + 1 /\ maxcap b' = maxcap b.
Proof.
  intros Hstr Hc Hroom.
  destruct (snbuffer_append_ok b c (str_wf _ Hstr) Hc Hroom) as (b' & Happ & _ & Hd & Hn & Hm).
  destruct (snbuffer_append_str _ _ _ _ Hstr Happ) as (Hstr' & _).
  exists b'. auto.
Qed.

Lemma word_byte_visible (b : byte) :
  word_byte b ->
  ASCII_VISIBLE_MIN <= byte_val b <= ASCII_VISIBLE_MAX /\
  byte_val b <> ASCII_POUNDSIGN /\ snchar_isatomic (byte_val b) = 0.
Proof.
  intros (Hl & He & Hi). revert Hl He Hi.
  unfold snchar_islegal, snchar_isexclusive, snchar_isinclusive, snchar_isatomic.
  consts. rewrite Z.geb_leb.
  destruct (Z.leb_spec 33 (byte_val b)); destruct (Z.leb_spec (byte_val b) 126);
    cbn [andb orb]; repeat step_read; intros; try lia; try discriminate;
    try contradiction; repeat split; try lia; reflexivity.
Qed.
(** A turn on a byte that goes on the token. *)
Lemma sntk_readToken_turn (s : scanner) (data : list Z) (b : byte) (bs : list byte)
    (room : Z) :
  scanning s data (map RawByte (b :: bs)) (room + 1) -> 0 <= room -> word_byte b ->
  exists s',
    sntk_readToken_body s = Done (Continue s') /\
    scanning s' (data ++ [byte_val b]) (map RawByte bs) room /\
    maxcap (s_buf s') = maxcap (s_buf s).
Proof.
  intros (He & Hlv & Hom & Hwf & Hd & Hroom & Hact & Hl & Hin) Hr Hw.
  destruct (word_byte_visible b Hw) as (Hvis & Hp & Hat).
  destruct Hw as (Hleg & Hex & Hinc).
  destruct (s_in s) as [p e] eqn:Hsin. cbn [pending map] in Hin. subst p.
  destruct (snfilter_read_plain (s_fil s) e b (map RawByte bs) Hact) as [e1 Hread];
    [revert Hvis; consts; lia | revert Hvis; consts; lia | intros; lia |].
  destruct (snbuffer_append_fits (s_buf s) (byte_val b) Hwf) as (b' & Happ & Hwf' & Hd' & Hc' & Hm');
    [revert Hvis; consts; lia | lia |].
  unfold sntk_readToken_body. rewrite Hsin, Hread, He, Hlv, Hom.
  destruct (Z.ltb_spec (byte_val b) 0); [revert Hvis; consts; lia|].
  destruct (Z.eqb_spec (snchar_islegal (byte_val b)) 0); [contradiction|].
  rewrite Hex, Hinc. cbn [Z.eqb andb negb mbind outcome_mbind outcome_bind].
  rewrite Happ. cbn [Z.eqb andb negb mbind outcome_mbind outcome_bind].
  eexists. split; [reflexivity|]. split; [|exact Hm'].
  unfold scanning. cbn [s_err s_leave s_omit s_buf s_in s_fil pending].
  rewrite Hd', Hd, Hc', Hm'.
  destruct (filter_after_active (s_fil s) (byte_val b)) as [Ha1 Hl1]; [lia | lia |].
  repeat (split; [reflexivity || assumption || lia|]). reflexivity.
Qed.

(** The turns over the bytes of a token. *)
Lemma sntk_readToken_run (w : list byte) :
  Forall word_byte w ->
  forall (s : scanner) (data : list Z) (tl : list byte) (room : Z),
  scanning s data (map RawByte (w ++ tl)) (room + Z.of_nat (length w)) -> 0 <= room ->
  exists s',
    loop_steps (fun s => s_err s =? 0) sntk_readToken_body (length w) s s' /\
    scanning s' (data ++ map byte_val w) (map RawByte tl) room /\
    maxcap (s_buf s') = maxcap (s_buf s).
Proof.
  induction 1 as [|b w Hb Hw IH]; intros s data tl room Hs Hr.
  - exists s. split; [apply steps_done|]. split; [|reflexivity]. cbn [length map app] in *.
    rewrite app_nil_r. replace (room + Z.of_nat 0) with room in Hs by lia. exact Hs.
  - cbn [length app] in *.
    destruct (sntk_readToken_turn s data b (w ++ tl) (room + Z.of_nat (length w)))
      as (s1 & Hbody & Hs1 & Hm1); [|lia|assumption|].
    { replace (room + Z.of_nat (length w) + 1) with (room + Z.of_nat (S (length w))) by lia.
      exact Hs. }
    destruct (IH s1 (data ++ [byte_val b]) tl room Hs1 Hr) as (s2 & Hsteps & Hs2 & Hm2).
    exists s2. split; [|split; [|congruence]].
    + eapply steps_turn; [|exact Hbody|exact Hsteps].
      destruct Hs as (He & _). rewrite He. reflexivity.
    + cbn [map]. rewrite <- app_assoc in Hs2. exact Hs2.
Qed.

Ltac class_cases c :=
  consts;
  repeat match goal with
         | |- context [Z.eqb c ?k] => destruct (Z.eqb_spec c k) as [->|?]
         end;
  cbn [orb]; intros H; try (elim H; reflexivity);
  repeat split; vm_compute; congruence.

Lemma snchar_isexclusive_legal (c : Z) :
  snchar_isexclusive c <> 0 ->
  snchar_islegal c <> 0 /\ snchar_isinclusive c = 0 /\ 0 <= c <= 255 /\ c <> ASCII_CR.
Proof. unfold snchar_isexclusive at 1. class_cases c. Qed.

Lemma snchar_isinclusive_legal (c : Z) :
  snchar_isinclusive c <> 0 ->
  snchar_islegal c <> 0 /\ snchar_isexclusive c = 0 /\ 1 <= c <= 255 /\
  c <> ASCII_CR /\ c <> ASCII_LF /\ c <> SNFILTER_BOM_1.
Proof. unfold snchar_isinclusive at 1. class_cases c. Qed.

(** The turn on an exclusive byte: it ends the token and is pushed back. *)
Lemma sntk_readToken_turn_exclusive (s : scanner) (data : list Z) (t : byte)
    (rest : list byte) (room : Z) :
  scanning s data (map RawByte (t :: rest)) room ->
  snchar_isexclusive (byte_val t) <> 0 -> head rest <> Some x0d ->
  exists s' f1,
    sntk_readToken_body s = Done (Break s') /\
    s_err s' = 0 /\ s_buf s' = s_buf s /\ pending (s_in s') = map RawByte rest /\
    (forall pIn, snfilter_read (s_fil s') pIn = (byte_val t, f1, pIn)) /\
    filter_active f1 /\ 0 < line_count f1.
Proof.
  intros (He & Hlv & Hom & Hwf & Hd & Hroom & Hact & Hl & Hin) Hex Hn.
  destruct (snchar_isexclusive_legal _ Hex) as (Hleg & Hinc & Hrange & Hcr).
  destruct (s_in s) as [p e] eqn:Hsin. cbn [pending map] in Hin. subst p.
  destruct (snfilter_read_ready (s_fil s) e t rest) as (f1 & e1 & Hread & Ha1 & Hl1 & Hc1 & _);
    [apply filter_ready_read; assumption
    | intros ->; apply Hcr; reflexivity | assumption |].
  destruct (snfilter_pushback_read f1 Ha1 Hl1 ltac:(lia)) as (f2 & Hpb & Hre).
  unfold sntk_readToken_body. rewrite Hsin, Hread, He.
  destruct (Z.ltb_spec (byte_val t) 0); [lia|].
  destruct (Z.eqb_spec (snchar_islegal (byte_val t)) 0); [contradiction|].
  destruct (Z.eqb_spec (snchar_isexclusive (byte_val t)) 0); [contradiction|].
  cbn [Z.eqb andb negb mbind outcome_mbind outcome_bind]. rewrite Hpb.
  cbn [Z.eqb andb negb mbind outcome_mbind outcome_bind].
  eexists _, f1. split; [reflexivity|]. cbn [s_err s_buf s_in s_fil pending].
  split; [reflexivity|]. split; [reflexivity|]. split; [reflexivity|].
  split; [|auto]. intros pIn. rewrite Hre, Hc1. reflexivity.
Qed.

(** The turn on an inclusive byte: it ends the token and belongs to it. *)
Lemma sntk_readToken_turn_inclusive (s : scanner) (data : list Z) (t : byte)
    (rest : list byte) (room : Z) :
  scanning s data (map RawByte (t :: rest)) (room + 1) -> 0 <= room ->
  snchar_isinclusive (byte_val t) <> 0 ->
  exists s',
    sntk_readToken_body s = Done (Break s') /\
    s_err s' = 0 /\ buffer_str (s_buf s') /\
    snbuffer_data (s_buf s') = data ++ [byte_val t] /\
    maxcap (s_buf s') = maxcap (s_buf s) /\
    pending (s_in s') = map RawByte rest /\
    filter_active (s_fil s') /\ 0 < line_count (s_fil s').
Proof.
  intros (He & Hlv & Hom & Hwf & Hd & Hroom & Hact & Hl & Hin) Hr Hinc.
  destruct (snchar_isinclusive_legal _ Hinc) as (Hleg & Hex & Hrange & Hcr & Hlf & Hbom).
  destruct (s_in s) as [p e] eqn:Hsin. cbn [pending map] in Hin. subst p.
  destruct (snfilter_read_plain (s_fil s) e t (map RawByte rest) Hact Hcr Hlf) as [e1 Hread];
    [intros; assumption|].
  destruct (snbuffer_append_fits (s_buf s) (byte_val t) Hwf) as (b' & Happ & Hwf' & Hd' & Hc' & Hm');
    [lia | lia |].
  unfold sntk_readToken_body. rewrite Hsin, Hread, He, Hom.
  destruct (Z.ltb_spec (byte_val t) 0); [lia|].
  destruct (Z.eqb_spec (snchar_islegal (byte_val t)) 0); [contradiction|].
  destruct (Z.eqb_spec (snchar_isinclusive (byte_val t)) 0); [contradiction|].
  rewrite Hex. cbn [Z.eqb andb negb mbind outcome_mbind outcome_bind].
  rewrite Happ. cbn [Z.eqb andb negb mbind outcome_mbind outcome_bind].
  eexists. split; [reflexivity|]. cbn [s_err s_buf s_in s_fil pending].
  destruct (filter_after_active (s_fil s) (byte_val t)) as [Ha1 Hl1]; [lia | lia |].
  rewrite Hd', Hd. auto 10.
Qed.
(** The turns that end in an error. *)
Lemma sntk_readToken_turn_end (s : scanner) (data : list Z) (room : Z) :
  scanning s data [] room ->
  exists s',
    sntk_readToken_body s = Done (Continue s') /\
    s_err s' = SNERR_EOF /\ s_buf s' = s_buf s.
Proof.
  intros (He & Hlv & Hom & Hwf & Hd & Hroom & Hact & Hl & Hin).
  destruct (s_in s) as [p e] eqn:Hsin. cbn [pending] in Hin. subst p.
  unfold sntk_readToken_body. rewrite Hsin, (snfilter_read_end _ _ Hact Hl).
  change (SNERR_EOF <? 0) with true. cbn iota.
  change (SNERR_EOF =? 0) with false. cbn [andb mbind outcome_mbind outcome_bind].
  eexists. split; [reflexivity|]. cbn [s_err s_buf]. auto.
Qed.

Lemma sntk_readToken_turn_illegal (s : scanner) (data : list Z) (t : byte)
    (rest : list byte) (room : Z) :
  scanning s data (map RawByte (t :: rest)) room ->
  snchar_islegal (byte_val t) = 0 -> t <> x0d ->
  exists s',
    sntk_readToken_body s = Done (Continue s') /\
    s_err s' = SNERR_BADCHAR /\ s_buf s' = s_buf s.
Proof.
  intros (He & Hlv & Hom & Hwf & Hd & Hroom & Hact & Hl & Hin) Hleg Hcr.
  destruct (s_in s) as [p e] eqn:Hsin. cbn [pending map] in Hin. subst p.
  pose proof (byte_val_range t) as Hrange.
  pose proof (byte_neq_val _ _ Hcr) as Hcr'. change (byte_val x0d) with ASCII_CR in Hcr'.
  assert (byte_val t <> ASCII_LF) as Hlf by (intros Hv; rewrite Hv in Hleg; discriminate).
  destruct (snfilter_read_plain (s_fil s) e t (map RawByte rest) Hact Hcr' Hlf) as [e1 Hread];
    [intros; lia|].
  unfold sntk_readToken_body. rewrite Hsin, Hread, He, Hleg.
  destruct (Z.ltb_spec (byte_val t) 0); [lia|].
  cbn [Z.eqb andb]. change (SNERR_BADCHAR =? 0) with false.
  cbn [andb mbind outcome_mbind outcome_bind].
  eexists. split; [reflexivity|]. cbn [s_err s_buf]. auto.
Qed.

Lemma sntk_readToken_turn_full (s : scanner) (data : list Z) (t : byte)
    (rest : list byte) (room : Z) :
  scanning s data (map RawByte (t :: rest)) room ->
  count (s_buf s) = maxcap (s_buf s) - 1 ->
  word_byte t \/ snchar_isinclusive (byte_val t) <> 0 ->
  exists s',
    sntk_readToken_body s = Done (Continue s') /\
    s_err s' = SNERR_LONGTOKEN /\ s_buf s' = s_buf s.
Proof.
  intros (He & Hlv & Hom & Hwf & Hd & Hroom & Hact & Hl & Hin) Hfull Ht.
  destruct (s_in s) as [p e] eqn:Hsin. cbn [pending map] in Hin. subst p.
  assert (snchar_islegal (byte_val t) <> 0 /\ snchar_isexclusive (byte_val t) = 0 /\
          1 <= byte_val t <= 255 /\ byte_val t <> ASCII_CR /\ byte_val t <> ASCII_LF)
    as (Hleg & Hex & Hrange & Hcr & Hlf).
  { destruct Ht as [Hw|Hi].
    - destruct (word_byte_visible t Hw) as (Hvis & _). destruct Hw as (? & ? & ?).
      revert Hvis. consts. intros. repeat split; try assumption; lia.
    - destruct (snchar_isinclusive_legal _ Hi) as (? & ? & ? & ? & ? & _). auto. }
  destruct (snfilter_read_plain (s_fil s) e t (map RawByte rest) Hact Hcr Hlf) as [e1 Hread];
    [intros; lia|].
  unfold sntk_readToken_body. rewrite Hsin, Hread, He, Hom, Hex.
  destruct (Z.ltb_spec (byte_val t) 0); [lia|].
  destruct (Z.eqb_spec (snchar_islegal (byte_val t)) 0); [contradiction|].
  cbn [Z.eqb andb negb mbind outcome_mbind outcome_bind].
  unfold snbuffer_append.
  destruct (Z.ltb_spec (byte_val t) 1); [lia|]. rewrite Z.gtb_ltb.
  destruct (Z.ltb_spec 255 (byte_val t)); [lia|]. cbn [orb].
  destruct (Z.ltb_spec (count (s_buf s)) (maxcap (s_buf s) - 1)); [lia|].
  cbn [Z.eqb mbind outcome_mbind outcome_bind].
  change (SNERR_LONGTOKEN =? 0) with false. cbn [andb].
  eexists. split; [reflexivity|]. cbn [s_err s_buf]. auto.
Qed.

(** The first character of a token that is no vertical bar: what
    [sntk_readToken] does up to its last loop. *)
Lemma sntk_readToken_opens (fuel : nat) (pBuffer : SNBUFFER) (f : SNFILTER) (e : bool)
    (ws tl : list byte) (c0 : byte) :
  skipped_text ws -> filter_ready f (ws ++ [c0]) -> buffer_str pBuffer ->
  1 < maxcap pBuffer -> (length ws < fuel)%nat ->
  snchar_islegal (byte_val c0) <> 0 -> ~ blank_byte c0 -> c0 <> x23 -> c0 <> x7c ->
  exists b1 e1 f1,
    buffer_str b1 /\ snbuffer_data b1 = [byte_val c0] /\ count b1 = 1 /\
    maxcap b1 = maxcap pBuffer /\ filter_active f1 /\ 0 < line_count f1 /\
    sntk_readToken fuel pBuffer (bytes_file (ws ++ c0 :: tl) e) f =
      if snchar_isatomic (byte_val c0) =? 0 then
        s ← while_loop fuel (fun s => s_err s =? 0) sntk_readToken_body
              (mkScanner 0 0 0 b1 (mkFILE (map RawByte tl) e1) f1);
        Done (s_err s, s_buf s, s_in s, s_fil s)
      else Done (0, b1, mkFILE (map RawByte tl) e1, f1).
Proof.
  intros Hws Hrdy Hwf Hmax Hfuel Hleg Hnb Hp Hbar.
  assert (c0 <> x0d) as Hcr by (intros ->; apply Hleg; reflexivity).
  destruct (sntk_skip_loop ws Hws fuel fuel 0 f e c0 tl Hrdy Hnb Hp Hcr)
    as (f1 & f2 & e1 & Hloop & Hre & Ha1 & Hl1 & _); [lia | lia | lia |].
  destruct (snbuffer_reset_fine pBuffer Hwf) as (Hwf0 & Hd0 & Hc0 & Hm0).
  pose proof (snchar_islegal_range _ Hleg) as Hrange.
  destruct (snbuffer_append_fits (snbuffer_reset pBuffer 0) (byte_val c0) Hwf0 Hrange)
    as (b1 & Happ & Hwf1 & Hd1 & Hc1 & Hm1); [lia|].
  exists b1, e1, f1. rewrite Hd1, Hd0, Hc1, Hc0, Hm1, Hm0.
  repeat (split; [reflexivity || assumption|]).
  unfold sntk_readToken, sntk_skip. rewrite Hloop.
  cbn [mbind outcome_mbind outcome_bind]. rewrite Hre.
  destruct (Z.ltb_spec (byte_val c0) 0); [lia|]. cbn [Z.eqb andb].
  destruct (Z.eqb_spec (snchar_islegal (byte_val c0)) 0); [contradiction|].
  cbn [Z.eqb andb]. rewrite Happ.
  cbn [Z.eqb andb negb mbind outcome_mbind outcome_bind].
  pose proof (byte_neq_val _ _ Hbar) as Hv. change (byte_val x7c) with ASCII_BAR in Hv.
  destruct (Z.eqb_spec (byte_val c0) ASCII_BAR); [contradiction|].
  cbn [Z.eqb andb negb mbind outcome_mbind outcome_bind]. reflexivity.
Qed.
Lemma word_byte_first (c0 : byte) :
  word_byte c0 ->
  snchar_islegal (byte_val c0) <> 0 /\ ~ blank_byte c0 /\ c0 <> x23 /\
  snchar_isatomic (byte_val c0) = 0.
Proof.
  intros Hw. destruct (word_byte_visible c0 Hw) as (Hvis & Hp & Hat).
  destruct Hw as (Hleg & Hex & _). split; [assumption|]. split; [|split; [|assumption]].
  - intros [-> | [-> | ->]]; discriminate.
  - intros ->. apply Hp. reflexivity.
Qed.

(** A token of bytes that go on it: [sntk_readToken] up to the byte that
    follows them. *)
Lemma sntk_readToken_word_at (fuel : nat) (pBuffer : SNBUFFER) (f : SNFILTER) (e : bool)
    (ws w tl : list byte) (c0 : byte) (room : Z) :
  skipped_text ws -> filter_ready f (ws ++ [c0]) -> buffer_str pBuffer ->
  word_byte c0 -> c0 <> x7c -> Forall word_byte w ->
  (length ws < fuel)%nat -> 0 <= room ->
  Z.of_nat (length (c0 :: w)) + room < maxcap pBuffer ->
  exists s0 s1,
    sntk_readToken fuel pBuffer (bytes_file (ws ++ c0 :: w ++ tl) e) f =
      (s ← while_loop fuel (fun s => s_err s =? 0) sntk_readToken_body s0;
       Done (s_err s, s_buf s, s_in s, s_fil s)) /\
    loop_steps (fun s => s_err s =? 0) sntk_readToken_body (length w) s0 s1 /\
    scanning s1 (map byte_val (c0 :: w)) (map RawByte tl) room /\
    maxcap (s_buf s1) = maxcap pBuffer.
Proof.
  intros Hws Hrdy Hwf Hc0 Hbar Hw Hfuel Hroom Hlen. cbn [length] in Hlen.
  destruct (word_byte_first c0 Hc0) as (Hleg & Hnb & Hp & Hat).
  destruct (sntk_readToken_opens fuel pBuffer f e ws (w ++ tl) c0 Hws Hrdy Hwf)
    as (b1 & e1 & f1 & Hwf1 & Hd1 & Hc1 & Hm1 & Ha1 & Hl1 & Hrun);
    [lia | assumption | assumption | assumption | assumption | assumption |].
  rewrite Hat in Hrun. cbn [Z.eqb] in Hrun.
  set (s0 := mkScanner 0 0 0 b1 (mkFILE (map RawByte (w ++ tl)) e1) f1) in *.
  assert (scanning s0 [byte_val c0] (map RawByte (w ++ tl)) (room + Z.of_nat (length w)))
    as Hs0.
  { unfold scanning, s0. cbn [s_err s_leave s_omit s_buf s_in s_fil pending].
    repeat (split; [reflexivity || assumption || lia|]). reflexivity. }
  destruct (sntk_readToken_run w Hw s0 [byte_val c0] tl room Hs0 Hroom)
    as (s1 & Hsteps & Hs1 & Hm).
  exists s0, s1. split; [exact Hrun|]. split; [exact Hsteps|]. split; [exact Hs1|].
  rewrite Hm. exact Hm1.
Qed.

(** X16: a token that ends at an exclusive or an inclusive character. After
    blanks and comments, for bytes that are legal and neither exclusive
    nor inclusive, the first of them no vertical bar, [sntk_readToken]
    returns without error when an exclusive byte follows: the buffer
    holds exactly those bytes, and the exclusive byte is pushed back, so
    that the next read gives it. When an inclusive byte follows, the
    buffer holds those bytes and the inclusive byte, and the stream is
    left just after it. *)
Theorem sntk_readToken_word (fuel : nat) (pBuffer : SNBUFFER) (f : SNFILTER) (e : bool)
    (ws w rest : list byte) (c0 t : byte) :
  skipped_text ws -> filter_ready f (ws ++ [c0]) -> buffer_str pBuffer ->
  word_byte c0 -> c0 <> x7c -> Forall word_byte w ->
  (length ws + length w + 1 < fuel)%nat ->
  (Z.of_nat (length (c0 :: w)) < maxcap pBuffer ->
   snchar_isexclusive (byte_val t) <> 0 -> head rest <> Some x0d ->
   exists b' e' f' f1,
     sntk_readToken fuel pBuffer (bytes_file (ws ++ c0 :: w ++ t :: rest) e) f =
       Done (0, b', mkFILE (map RawByte rest) e', f') /\
     snbuffer_data b' = map byte_val (c0 :: w) /\
     forall pIn, snfilter_read f' pIn = (byte_val t, f1, pIn)) /\
  (Z.of_nat (length (c0 :: w)) + 1 < maxcap pBuffer ->
   snchar_isinclusive (byte_val t) <> 0 ->
   exists b' e' f',
     sntk_readToken fuel pBuffer (bytes_file (ws ++ c0 :: w ++ t :: rest) e) f =
       Done (0, b', mkFILE (map RawByte rest) e', f') /\
     snbuffer_data b' = map byte_val (c0 :: w ++ [t]) /\
     filter_active f').
Proof.
  intros Hws Hrdy Hwf Hc0 Hbar Hw Hfuel. split.
  - intros Hlen Hex Hn.
    destruct (sntk_readToken_word_at fuel pBuffer f e ws w (t :: rest) c0 0
                Hws Hrdy Hwf Hc0 Hbar Hw)
      as (s0 & s1 & Hrun & Hsteps & Hs1 & Hm); [lia | lia | lia |].
    destruct (sntk_readToken_turn_exclusive s1 _ t rest 0 Hs1 Hex Hn)
      as (s2 & f1 & Hbody & He2 & Hb2 & Hin2 & Hre & _).
    rewrite Hrun.
    rewrite (while_loop_ends _ _ (length w) fuel s0 s1 s2 Hsteps); [|lia| |left; exact Hbody].
    2: { destruct Hs1 as (He1 & _). rewrite He1. reflexivity. }
    cbn [mbind outcome_mbind outcome_bind].
    destruct (s_in s2) as [p2 e2]. cbn [pending] in Hin2. subst p2.
    exists (s_buf s2), e2, (s_fil s2), f1. rewrite He2. split; [reflexivity|].
    split; [|exact Hre]. rewrite Hb2. apply Hs1.
  - intros Hlen Hinc.
    destruct (sntk_readToken_word_at fuel pBuffer f e ws w (t :: rest) c0 1
                Hws Hrdy Hwf Hc0 Hbar Hw)
      as (s0 & s1 & Hrun & Hsteps & Hs1 & Hm); [lia | lia | lia |].
    destruct (sntk_readToken_turn_inclusive s1 _ t rest 0 Hs1 ltac:(lia) Hinc)
      as (s2 & Hbody & He2 & Hwf2 & Hd2 & Hm2 & Hin2 & Ha2 & Hl2).
    rewrite Hrun.
    rewrite (while_loop_ends _ _ (length w) fuel s0 s1 s2 Hsteps); [|lia| |left; exact Hbody].
    2: { destruct Hs1 as (He1 & _). rewrite He1. reflexivity. }
    cbn [mbind outcome_mbind outcome_bind].
    destruct (s_in s2) as [p2 e2]. cbn [pending] in Hin2. subst p2.
    exists (s_buf s2), e2, (s_fil s2). rewrite He2. split; [reflexivity|].
    split; [|exact Ha2]. rewrite Hd2. cbn [map]. rewrite map_app. reflexivity.
Qed.

Lemma sntk_readToken_word_witness :
  let b := mkSNBUFFER [] 0 0 4 1024 in
  skipped_text [x20] /\ filter_ready snfilter_reset ([x20] ++ [x61]) /\ buffer_str b /\
  word_byte x61 /\ Forall word_byte [x62] /\
  (exists b' e' f' f1,
     sntk_readToken 4 b (bytes_file ([x20] ++ x61 :: [x62] ++ x3b :: []) false)
       snfilter_reset = Done (0, b', mkFILE [] e', f') /\
     snbuffer_data b' = [0x61; 0x62] /\
     forall pIn, snfilter_read f' pIn = (0x3b, f1, pIn)) /\
  (exists b' e' f',
     sntk_readToken 4 b (bytes_file ([x20] ++ x61 :: [x62] ++ x22 :: []) false)
       snfilter_reset = Done (0, b', mkFILE [] e', f') /\
     snbuffer_data b' = [0x61; 0x62; 0x22]).
Proof.
  intros b.
  assert (skipped_text [x20]) as Hws by (apply skipped_blanks; repeat constructor).
  assert (filter_ready snfilter_reset ([x20] ++ [x61])) as Hrdy.
  { split; [split; [reflexivity|left; reflexivity]|]. split; [cbn; lia|].
    intros _. discriminate. }
  assert (buffer_str b) as Hwf by (apply (snbuffer_init_str 4 1024); reflexivity).
  assert (word_byte x61) as Hc0 by (repeat split; vm_compute; congruence).
  assert (Forall word_byte [x62]) as Hw
    by (repeat constructor; vm_compute; congruence).
  split; [exact Hws|]. split; [exact Hrdy|]. split; [exact Hwf|].
  split; [exact Hc0|]. split; [exact Hw|].
  split.
  - destruct (sntk_readToken_word 4 b snfilter_reset false [x20] [x62] [] x61 x3b
                Hws Hrdy Hwf Hc0 ltac:(discriminate) Hw ltac:(cbn; lia)) as [Hex _].
    destruct Hex as (b' & e' & f' & f1 & Hrun & Hd & Hre);
      [cbn; lia | vm_compute; congruence | discriminate |].
    exists b', e', f', f1. auto.
  - destruct (sntk_readToken_word 4 b snfilter_reset false [x20] [x62] [] x61 x22
                Hws Hrdy Hwf Hc0 ltac:(discriminate) Hw ltac:(cbn; lia)) as [_ Hinc].
    destruct Hinc as (b' & e' & f' & Hrun & Hd & _);
      [cbn; lia | vm_compute; congruence |].
    exists b', e', f'. auto.
Defined.

(** X17: how a token fails. After such bytes, the end of the stream
    gives [SNERR_EOF]: a token is not ended by the end of the input. A
    byte that is not legal gives [SNERR_BADCHAR]. And when the bytes fill
    the buffer (one less than [maxcap]), one more that belongs to the
    token gives [SNERR_LONGTOKEN]. *)
Theorem sntk_readToken_errors (fuel : nat) (pBuffer : SNBUFFER) (f : SNFILTER) (e : bool)
    (ws w rest : list byte) (c0 t : byte) :
  skipped_text ws -> filter_ready f (ws ++ [c0]) -> buffer_str pBuffer ->
  word_byte c0 -> c0 <> x7c -> Forall word_byte w ->
  (length ws + length w + 1 < fuel)%nat ->
  Z.of_nat (length (c0 :: w)) < maxcap pBuffer ->
  (exists b' pIn' f',
     sntk_readToken fuel pBuffer (bytes_file (ws ++ c0 :: w) e) f =
       Done (SNERR_EOF, b', pIn', f')) /\
  (snchar_islegal (byte_val t) = 0 -> t <> x0d ->
   exists b' pIn' f',
     sntk_readToken fuel pBuffer (bytes_file (ws ++ c0 :: w ++ t :: rest) e) f =
       Done (SNERR_BADCHAR, b', pIn', f')) /\
  (Z.of_nat (length (c0 :: w)) = maxcap pBuffer - 1 ->
   word_byte t \/ snchar_isinclusive (byte_val t) <> 0 ->
   exists b' pIn' f',
     sntk_readToken fuel pBuffer (bytes_file (ws ++ c0 :: w ++ t :: rest) e) f =
       Done (SNERR_LONGTOKEN, b', pIn', f')).
Proof.
  intros Hws Hrdy Hwf Hc0 Hbar Hw Hfuel Hlen.
  pose proof (sntk_readToken_word_at fuel pBuffer f e ws w) as Hat.
  assert (Hend : forall tl s0 s1 s2 err,
            sntk_readToken fuel pBuffer (bytes_file (ws ++ c0 :: w ++ tl) e) f =
              (s ← while_loop fuel (fun s => s_err s =? 0) sntk_readToken_body s0;
               Done (s_err s, s_buf s, s_in s, s_fil s)) ->
            loop_steps (fun s => s_err s =? 0) sntk_readToken_body (length w) s0 s1 ->
            s_err s1 = 0 ->
            sntk_readToken_body s1 = Done (Continue s2) -> s_err s2 = err -> err <> 0 ->
            exists b' pIn' f',
              sntk_readToken fuel pBuffer (bytes_file (ws ++ c0 :: w ++ tl) e) f =
                Done (err, b', pIn', f')).
  { intros tl s0 s1 s2 err Hrun Hsteps He1 Hbody He2 Hne. rewrite Hrun.
    rewrite (while_loop_ends _ _ (length w) fuel s0 s1 s2 Hsteps); [|lia| |right].
    - cbn [mbind outcome_mbind outcome_bind]. rewrite He2. eauto.
    - rewrite He1. reflexivity.
    - split; [exact Hbody|]. rewrite He2. apply Z.eqb_neq, Hne. }
  split; [|split].
  - destruct (Hat [] c0 0 Hws Hrdy Hwf Hc0 Hbar Hw)
      as (s0 & s1 & Hrun & Hsteps & Hs1 & Hm); [lia | lia | lia |].
    rewrite app_nil_r in Hrun.
    destruct (sntk_readToken_turn_end s1 _ 0 Hs1) as (s2 & Hbody & He2 & _).
    specialize (Hend [] s0 s1 s2 SNERR_EOF). rewrite app_nil_r in Hend.
    apply Hend; try assumption; [apply Hs1|discriminate].
  - intros Hleg Hcr.
    destruct (Hat (t :: rest) c0 0 Hws Hrdy Hwf Hc0 Hbar Hw)
      as (s0 & s1 & Hrun & Hsteps & Hs1 & Hm); [lia | lia | lia |].
    destruct (sntk_readToken_turn_illegal s1 _ t rest 0 Hs1 Hleg Hcr) as (s2 & Hbody & He2 & _).
    apply (Hend (t :: rest) s0 s1 s2 SNERR_BADCHAR); try assumption;
      [apply Hs1|discriminate].
  - intros Hfull Ht.
    destruct (Hat (t :: rest) c0 0 Hws Hrdy Hwf Hc0 Hbar Hw)
      as (s0 & s1 & Hrun & Hsteps & Hs1 & Hm); [lia | lia | lia |].
    destruct (sntk_readToken_turn_full s1 _ t rest 0 Hs1) as (s2 & Hbody & He2 & _);
      [|assumption|].
    { destruct Hs1 as (_ & _ & _ & Hwf1 & Hd1 & _).
      assert (Z.of_nat (length (snbuffer_data (s_buf s1))) = count (s_buf s1)) as Hc.
      { destruct (str_wf _ Hwf1) as [H1 H2 H3 H4 H5]. unfold snbuffer_data.
        rewrite length_take.
        destruct H3 as [H3|H3]; [specialize (H4 H3)|]; lia. }
      rewrite Hd1, length_map in Hc. lia. }
    apply (Hend (t :: rest) s0 s1 s2 SNERR_LONGTOKEN); try assumption;
      [apply Hs1|discriminate].
Qed.

Lemma sntk_readToken_errors_witness :
  let b := mkSNBUFFER [] 0 0 2 3 in
  skipped_text [] /\ filter_ready snfilter_reset ([] ++ [x61]) /\ buffer_str b /\
  word_byte x61 /\ Forall word_byte [x62] /\
  (exists b' pIn' f',
     sntk_readToken 3 b (bytes_file ([] ++ x61 :: [x62]) false) snfilter_reset =
       Done (SNERR_EOF, b', pIn', f')) /\
  (exists b' pIn' f',
     sntk_readToken 3 b (bytes_file ([] ++ x61 :: [x62] ++ x63 :: []) false)
       snfilter_reset = Done (SNERR_LONGTOKEN, b', pIn', f')).
Proof.
  intros b.
  assert (skipped_text []) as Hws by (apply skipped_blanks; constructor).
  assert (filter_ready snfilter_reset ([] ++ [x61])) as Hrdy.
  { split; [split; [reflexivity|left; reflexivity]|]. split; [cbn; lia|].
    intros _. discriminate. }
  assert (buffer_str b) as Hwf by (apply (snbuffer_init_str 2 3); reflexivity).
  assert (word_byte x61) as Hc0 by (repeat split; vm_compute; congruence).
  assert (word_byte x63) as Hc3 by (repeat split; vm_compute; congruence).
  assert (Forall word_byte [x62]) as Hw
    by (repeat constructor; vm_compute; congruence).
  split; [exact Hws|]. split; [exact Hrdy|]. split; [exact Hwf|].
  split; [exact Hc0|]. split; [exact Hw|].
  destruct (sntk_readToken_errors 3 b snfilter_reset false [] [x62] [] x61 x63
              Hws Hrdy Hwf Hc0 ltac:(discriminate) Hw ltac:(cbn; lia) ltac:(cbn; lia))
    as (Heof & _ & Hfull).
  split; [exact Heof|]. apply Hfull; [reflexivity|left; exact Hc3].
Defined.

(** ** The final token *)

(** [sntk_readToken] on a vertical bar and a semicolon, up to the check
    of what follows them. *)
Lemma sntk_readToken_final_at (fuel : nat) (pBuffer : SNBUFFER) (f : SNFILTER) (e : bool)
    (ws tl : list byte) :
  skipped_text ws -> filter_ready f (ws ++ [x7c]) -> buffer_str pBuffer ->
  2 < maxcap pBuffer -> (length ws < fuel)%nat -> head tl <> Some x0d ->
  exists b2 e3 f3,
    buffer_str b2 /\ snbuffer_data b2 = [ASCII_BAR; ASCII_SEMICOLON] /\
    filter_active f3 /\ 0 < line_count f3 /\
    sntk_readToken fuel pBuffer (bytes_file (ws ++ x7c :: x3b :: tl) e) f =
      match sntk_skip fuel (mkFILE (map RawByte tl) e3) f3 with
      | Done (pFilter, pIn) =>
          let '(c2, pFilter, pIn) := snfilter_read pFilter pIn in
          Done (if negb (c2 =? SNERR_EOF)
                then (if c2 >=? 0 then SNERR_TRAILER else c2)
                else 0, b2, pIn, pFilter)
      | Abort => Abort
      | OutOfFuel => OutOfFuel
      end.
Proof.
  intros Hws Hrdy Hstr Hmax Hfuel Htl.
  destruct (sntk_skip_loop ws Hws fuel fuel 0 f e x7c (x3b :: tl) Hrdy)
    as (f1 & f2 & e1 & Hloop & Hre & Ha1 & Hl1 & _);
    [intros [?|[?|?]]; discriminate | discriminate | discriminate | lia | lia | lia |].
  destruct (snbuffer_reset_fine pBuffer Hstr) as (Hstr0 & Hd0 & Hc0 & Hm0).
  destruct (snbuffer_append_fits (snbuffer_reset pBuffer 0) ASCII_BAR Hstr0)
    as (b1 & Happ1 & Hstr1 & Hd1 & Hc1 & Hm1); [consts; lia | lia |].
  destruct (snbuffer_append_fits b1 ASCII_SEMICOLON Hstr1)
    as (b2 & Happ2 & Hstr2 & Hd2 & Hc2 & Hm2); [consts; lia | lia |].
  destruct (snfilter_read_ready f1 e1 x3b tl) as (f3 & e3 & Hread & Ha3 & Hl3 & _);
    [apply filter_ready_read; assumption | discriminate | assumption |].
  exists b2, e3, f3. rewrite Hd2, Hd1, Hd0.
  split; [assumption|]. split; [reflexivity|]. split; [assumption|]. split; [assumption|].
  assert (Hskip : sntk_skip fuel (bytes_file (ws ++ x7c :: x3b :: tl) e) f =
                  Done (f2, mkFILE (map RawByte (x3b :: tl)) e1))
    by (unfold sntk_skip; rewrite Hloop; reflexivity).
  unfold sntk_readToken. rewrite Hskip.
  cbn [mbind outcome_mbind outcome_bind]. rewrite Hre.
  change (byte_val x7c) with ASCII_BAR. change (byte_val x3b) with ASCII_SEMICOLON in Hread.
  change (ASCII_BAR <? 0) with false. cbn iota. cbn [Z.eqb andb].
  change (snchar_islegal ASCII_BAR =? 0) with false. cbn iota. cbn [Z.eqb].
  rewrite Happ1. cbn [Z.eqb andb negb mbind outcome_mbind outcome_bind].
  change (ASCII_BAR =? ASCII_BAR) with true. cbn iota. cbn [map]. rewrite Hread.
  change (ASCII_SEMICOLON <? 0) with false. cbn iota. cbn [Z.eqb andb].
  change (ASCII_SEMICOLON =? ASCII_SEMICOLON) with true. cbn iota.
  rewrite Happ2. cbn [Z.eqb andb negb mbind outcome_mbind outcome_bind].
  destruct (sntk_skip fuel _ f3) as [[f4 in4]| |];
    cbn [mbind outcome_mbind outcome_bind]; [|reflexivity|reflexivity].
  destruct (snfilter_read f4 in4) as [[c2 f5] in5].
  cbn [mbind outcome_mbind outcome_bind]. rewrite andb_false_r. reflexivity.
Qed.
(** [sntk_skip] up to a byte that is neither blank nor comment, and up to
    the end of the stream. *)
Lemma sntk_skip_at (fuel : nat) (f : SNFILTER) (e : bool) (ws rest : list byte) (b : byte) :
  skipped_text ws -> filter_ready f (ws ++ [b]) ->
  ~ blank_byte b -> b <> x23 -> b <> x0d -> (length ws < fuel)%nat ->
  exists f' f1 e',
    sntk_skip fuel (bytes_file (ws ++ b :: rest) e) f =
      Done (f', mkFILE (map RawByte rest) e') /\
    (forall pIn, snfilter_read f' pIn = (byte_val b, f1, pIn)) /\
    filter_active f1 /\ 0 < line_count f1.
Proof.
  intros Hws Hrdy Hnb Hp Hcr Hfuel.
  destruct (sntk_skip_loop ws Hws fuel fuel 0 f e b rest Hrdy Hnb Hp Hcr)
    as (f1 & f2 & e' & Hloop & Hre & Ha1 & Hl1 & _); [lia | lia | lia |].
  exists f2, f1, e'. unfold sntk_skip. rewrite Hloop. auto.
Qed.

Lemma sntk_skip_at_end (fuel : nat) (f : SNFILTER) (e : bool) (ws u tl : list byte) :
  skipped_text ws -> Forall (fun b => b <> x0a /\ b <> x0d) u ->
  filter_active f -> 0 < line_count f -> tl = [] \/ tl = x23 :: u ->
  (length ws + length u + 1 < fuel)%nat ->
  exists f',
    sntk_skip fuel (bytes_file (ws ++ tl) e) f = Done (f', mkFILE [] true) /\
    (forall pIn, snfilter_read f' pIn = (SNERR_EOF, f', pIn)) /\ 0 < line_count f'.
Proof.
  intros Hws Hu Hact Hl Htl Hfuel.
  assert (length (ws ++ tl) < fuel)%nat as Hlen.
  { rewrite length_app. destruct Htl as [->| ->]; cbn [length]; lia. }
  destruct (sntk_skip_loop_end ws Hws fuel fuel 0 f e u tl Hact Hl Htl Hu Hlen Hlen)
    as (c & f' & Hloop & Hp' & Hl' & Hc'); [lia|].
  exists f'. unfold sntk_skip. rewrite Hloop. split; [reflexivity|]. split; [|assumption].
  intros pIn. rewrite snfilter_read_sticky by (rewrite ?Hc'; consts; lia).
  rewrite Hc'. destruct f' as [lc c' pb bom]. cbn in *. subst. reflexivity.
Qed.

(** X18: the final token. After blanks and comments, a vertical bar and a
    semicolon are read as one token when only blanks and comments follow
    up to the end of the stream (the last comment need not be closed by a
    line feed); anything else after them gives [SNERR_TRAILER]. *)
Theorem sntk_readToken_final (fuel : nat) (pBuffer : SNBUFFER) (f : SNFILTER) (e : bool)
    (ws0 ws u rest : list byte) (b : byte) :
  skipped_text ws0 -> filter_ready f (ws0 ++ [x7c]) -> buffer_str pBuffer ->
  2 < maxcap pBuffer -> skipped_text ws ->
  Forall (fun b => b <> x0a /\ b <> x0d) u ->
  (length ws0 + length ws + length u + 1 < fuel)%nat ->
  (forall tl, tl = [] \/ tl = x23 :: u ->
   exists b' pIn' f',
     sntk_readToken fuel pBuffer (bytes_file (ws0 ++ x7c :: x3b :: ws ++ tl) e) f =
       Done (0, b', pIn', f') /\
     snbuffer_data b' = [ASCII_BAR; ASCII_SEMICOLON] /\ pending pIn' = []) /\
  (~ blank_byte b -> b <> x23 -> b <> x0d ->
   exists b' pIn' f',
     sntk_readToken fuel pBuffer (bytes_file (ws0 ++ x7c :: x3b :: ws ++ b :: rest) e) f =
       Done (SNERR_TRAILER, b', pIn', f')).
Proof.
  intros Hws0 Hrdy Hstr Hmax Hws Hu Hfuel. split.
  - intros tl Htl.
    destruct (sntk_readToken_final_at fuel pBuffer f e ws0 (ws ++ tl) Hws0 Hrdy Hstr Hmax)
      as (b2 & e3 & f3 & Hstr2 & Hd2 & Ha3 & Hl3 & Hrun); [lia | |].
    { apply skipped_text_head; [assumption|]. destruct Htl as [->| ->]; discriminate. }
    destruct (sntk_skip_at_end fuel f3 e3 ws u tl Hws Hu Ha3 Hl3 Htl)
      as (f4 & Hskip & Hre & _); [lia|].
    unfold bytes_file in Hskip. rewrite Hrun, Hskip, Hre.
    exists b2, (mkFILE [] true), f4. auto.
  - intros Hnb Hp Hcr.
    destruct (sntk_readToken_final_at fuel pBuffer f e ws0 (ws ++ b :: rest)
                Hws0 Hrdy Hstr Hmax)
      as (b2 & e3 & f3 & Hstr2 & Hd2 & Ha3 & Hl3 & Hrun); [lia | |].
    { apply skipped_text_head; [assumption|]. cbn. congruence. }
    destruct (sntk_skip_at fuel f3 e3 ws rest b Hws) as (f4 & f5 & e4 & Hskip & Hre & _);
      [apply filter_ready_read; assumption | assumption | assumption | assumption | lia |].
    unfold bytes_file in Hskip. rewrite Hrun, Hskip, Hre.
    pose proof (byte_val_range b) as Hb.
    destruct (Z.eqb_spec (byte_val b) SNERR_EOF) as [Hq|_]; [revert Hq; consts; lia|].
    cbn [negb]. rewrite Z.geb_leb. destruct (Z.leb_spec 0 (byte_val b)); [|lia].
    eauto.
Qed.

Lemma sntk_readToken_final_witness :
  let pb := mkSNBUFFER [] 0 0 4 1024 in
  skipped_text [] /\ filter_ready snfilter_reset ([] ++ [x7c]) /\ buffer_str pb /\
  skipped_text [x0a] /\
  (exists b' pIn' f',
     sntk_readToken 5 pb (bytes_file ([] ++ x7c :: x3b :: [x0a] ++ []) false)
       snfilter_reset = Done (0, b', pIn', f') /\
     snbuffer_data b' = [ASCII_BAR; ASCII_SEMICOLON]) /\
  (exists b' pIn' f',
     sntk_readToken 5 pb (bytes_file ([] ++ x7c :: x3b :: [x0a] ++ x61 :: []) false)
       snfilter_reset = Done (SNERR_TRAILER, b', pIn', f')).
Proof.
  intros pb.
  assert (skipped_text []) as Hws0 by (apply skipped_blanks; constructor).
  assert (filter_ready snfilter_reset ([] ++ [x7c])) as Hrdy.
  { split; [split; [reflexivity|left; reflexivity]|]. split; [cbn; lia|].
    intros _. discriminate. }
  assert (buffer_str pb) as Hstr by (apply (snbuffer_init_str 4 1024); reflexivity).
  assert (skipped_text [x0a]) as Hws.
  { apply skipped_blanks. constructor; [right; right; reflexivity|constructor]. }
  split; [exact Hws0|]. split; [exact Hrdy|]. split; [exact Hstr|]. split; [exact Hws|].
  destruct (sntk_readToken_final 5 pb snfilter_reset false [] [x0a] [] [] x61
              Hws0 Hrdy Hstr ltac:(cbn; lia) Hws ltac:(constructor) ltac:(cbn; lia))
    as [Hend Htrail].
  split.
  - destruct (Hend [] ltac:(left; reflexivity)) as (b' & pIn' & f' & Hrun & Hd & _).
    exists b', pIn', f'. auto.
  - apply Htrail; [intros [?|[?|?]]; discriminate | discriminate | discriminate].
Defined.
(** ** Complete tokens *)

Lemma snbuffer_last_data (char_signed : bool) (b : SNBUFFER) (d : list Z) (c : Z) :
  buffer_str b -> snbuffer_data b = d ++ [c] ->
  snbuffer_last char_signed b = char_value char_signed c.
Proof.
  intros Hstr Hd. destruct (buffer_str_count b Hstr) as [Hc Hl].
  rewrite Hd, length_app in Hl. cbn [length] in Hl.
  unfold snbuffer_last. rewrite Z.gtb_ltb.
  destruct (Z.ltb_spec 0 (count b)); [|lia]. f_equal.
  unfold load. unfold snbuffer_data in Hd.
  assert (nth (Z.to_nat (count b - 1)) (take (Z.to_nat (count b)) (pBuf b)) 0 = c) as Hn.
  { rewrite Hd. replace (Z.to_nat (count b - 1)) with (length d) by lia.
    rewrite app_nth2 by lia. rewrite Nat.sub_diag. reflexivity. }
  rewrite nth_firstn in Hn.
  destruct (Nat.ltb_spec (Z.to_nat (count b - 1)) (Z.to_nat (count b))); [exact Hn|lia].
Qed.

Lemma snbuffer_less_data (b : SNBUFFER) (d : list Z) (c : Z) :
  buffer_str b -> snbuffer_data b = d ++ [c] ->
  exists b',
    snbuffer_less b = (1, b') /\ buffer_str b' /\ snbuffer_data b' = d /\
    maxcap b' = maxcap b.
Proof.
  intros Hstr Hd. destruct (buffer_str_count b Hstr) as [Hc Hl].
  rewrite Hd, length_app in Hl. cbn [length] in Hl.
  destruct (snbuffer_less_str b Hstr) as (Hstr' & Hm & _ & Hok & _).
  destruct (Hok ltac:(lia)) as (H1 & H2 & H3).
  destruct (snbuffer_less b) as [ok b']. cbn [fst snd] in *. subst ok.
  exists b'. split; [reflexivity|]. split; [assumption|]. split; [|assumption].
  rewrite H3, Hd. replace (Z.to_nat (count b - 1)) with (length d) by lia.
  rewrite take_app_length. reflexivity.
Qed.

Lemma snchar_isinclusive_bytes (t : byte) :
  snchar_isinclusive (byte_val t) <> 0 -> t = x22 \/ t = x60 \/ t = x7b.
Proof.
  unfold snchar_isinclusive. consts. intros H.
  destruct (Z.eqb_spec (byte_val t) 34) as [Hq|?];
    [left; apply byte_val_inj; rewrite Hq; reflexivity|].
  destruct (Z.eqb_spec (byte_val t) 96) as [Hq|?];
    [right; left; apply byte_val_inj; rewrite Hq; reflexivity|].
  destruct (Z.eqb_spec (byte_val t) 123) as [Hq|?];
    [right; right; apply byte_val_inj; rewrite Hq; reflexivity|].
  elim H. reflexivity.
Qed.

(** A token that ends at an inclusive byte, with or without bytes before
    it. *)
Lemma sntk_readToken_incl_at (fuel : nat) (pBuffer : SNBUFFER) (f : SNFILTER) (e : bool)
    (ws pre rest : list byte) (t : byte) :
  skipped_text ws -> word_text pre -> filter_ready f (ws ++ pre ++ [t]) ->
  buffer_str pBuffer -> Z.of_nat (length pre) + 1 < maxcap pBuffer ->
  (length ws + length pre < fuel)%nat -> snchar_isinclusive (byte_val t) <> 0 ->
  exists b' e' f',
    sntk_readToken fuel pBuffer (bytes_file (ws ++ pre ++ t :: rest) e) f =
      Done (0, b', mkFILE (map RawByte rest) e', f') /\
    buffer_str b' /\ snbuffer_data b' = map byte_val pre ++ [byte_val t] /\
    maxcap b' = maxcap pBuffer /\ filter_active f' /\ 0 < line_count f'.
Proof.
  intros Hws [Hpre Hhead] Hrdy Hstr Hlen Hfuel Hinc.
  destruct pre as [|c0 w].
  - cbn [app map length] in *.
    destruct (snchar_isinclusive_legal _ Hinc) as (Hleg & _).
    assert (~ blank_byte t /\ t <> x23 /\ t <> x7c /\ snchar_isatomic (byte_val t) <> 0)
      as (Hnb & Hp & Hbar & Hat).
    { destruct (snchar_isinclusive_bytes t Hinc) as [->|[->| ->]];
        (split; [intros [?|[?|?]]; discriminate|]); repeat split; discriminate. }
    destruct (sntk_readToken_opens fuel pBuffer f e ws rest t Hws Hrdy Hstr)
      as (b1 & e1 & f1 & Hstr1 & Hd1 & Hc1 & Hm1 & Ha1 & Hl1 & Hrun);
      [lia | lia | assumption | assumption | assumption | assumption |].
    destruct (Z.eqb_spec (snchar_isatomic (byte_val t)) 0); [contradiction|].
    exists b1, e1, f1. auto 10.
  - inversion Hpre as [|? ? Hc0 Hw]; subst.
    assert (c0 <> x7c) as Hbar by (intros ->; apply Hhead; reflexivity).
    destruct (sntk_readToken_word_at fuel pBuffer f e ws w (t :: rest) c0 1 Hws)
      as (s0 & s1 & Hrun & Hsteps & Hs1 & Hm);
      [ | assumption | assumption | assumption | assumption | lia | lia
      | cbn [length] in *; lia | ].
    { destruct Hrdy as (Ha & Hl & Hh). split; [assumption|]. split; [assumption|].
      intros Hz. specialize (Hh Hz). destruct ws; cbn [app head] in *; assumption. }
    destruct (sntk_readToken_turn_inclusive s1 _ t rest 0 Hs1 ltac:(lia) Hinc)
      as (s2 & Hbody & He2 & Hstr2 & Hd2 & Hm2 & Hin2 & Ha2 & Hl2).
    cbn [app]. rewrite Hrun.
    rewrite (while_loop_ends _ _ (length w) fuel s0 s1 s2 Hsteps);
      [|cbn [length] in Hfuel; lia| |left; exact Hbody].
    2: { destruct Hs1 as (He1 & _). rewrite He1. reflexivity. }
    cbn [mbind outcome_mbind outcome_bind].
    destruct (s_in s2) as [p2 e2]. cbn [pending] in Hin2. subst p2.
    exists (s_buf s2), e2, (s_fil s2). rewrite He2. split; [reflexivity|].
    split; [assumption|]. split; [exact Hd2|]. split; [congruence|]. auto.
Qed.
Lemma char_value_ascii (char_signed : bool) (v : Z) :
  v <= 127 -> char_value char_signed v = v.
Proof.
  intros Hv. unfold char_value. rewrite Z.gtb_ltb.
  destruct (Z.ltb_spec 127 v); [lia|]. rewrite andb_false_r. reflexivity.
Qed.

(** The readers on the text of a literal and its closing byte. *)
Lemma snstr_readQuoted_reads (fuel : nat) (pBuffer : SNBUFFER) (pFilter : SNFILTER)
    (e : bool) (ds rest : list byte) :
  buffer_wf pBuffer -> filter_active pFilter -> 0 < line_count pFilter ->
  quoted_text ds -> literal_bytes ds ->
  Z.of_nat (length ds) < maxcap pBuffer -> (length ds < fuel)%nat ->
  exists r e',
    snstr_readQuoted fuel pBuffer (mkFILE (map RawByte (ds ++ x22 :: rest)) e) pFilter =
      Done r /\
    r_err r = 0 /\ snbuffer_data (r_buf r) = map byte_val ds /\
    r_in r = mkFILE (map RawByte rest) e' /\
    filter_active (r_fil r) /\ 0 < line_count (r_fil r).
Proof.
  intros Hwf Hact Hl Hq Hlit Hlen Hfuel. unfold snstr_readQuoted.
  pose proof (reading_start pBuffer (bytes_file (ds ++ x22 :: rest) e) pFilter
                (0 + Z.of_nat (length ds)) Hwf Hact Hl ltac:(lia)) as Hrd.
  cbn [bytes_file pending] in Hrd.
  destruct (snstr_readQuoted_run ds Hq _ [] (x22 :: rest) 0 Hrd)
    as (r1 & Hs & He1 & Hesc1 & Hrd1 & Hl1);
    [assumption | reflexivity | reflexivity | lia | assumption | discriminate |].
  cbn [app] in Hrd1.
  destruct Hrd1 as (Hwf1 & Hd1 & Hroom1 & Hact1 & _ & Hin1).
  destruct (r_in r1) as [p1 e1] eqn:Hrin. cbn [pending] in Hin1. subst p1.
  cbn [map] in Hrin.
  destruct (snfilter_read_plain (r_fil r1) e1 x22 (map RawByte rest) Hact1) as [e2 Hread];
    [byte_neq | byte_neq | intros; lia |].
  destruct (filter_after_active (r_fil r1) (byte_val x22)) as [Ha2 Hl2]; [lia | cbn; lia |].
  eexists _, e2. split.
  - apply (while_loop_ends _ _ (length ds) fuel _ r1); [exact Hs | exact Hfuel | |].
    + unfold reader_running. rewrite He1. reflexivity.
    + left. unfold snstr_readQuoted_body. rewrite Hrin, Hread.
      change (snstr_read_err (byte_val x22)) with 0.
      rewrite Hesc1. reflexivity.
  - cbn [r_err r_buf r_in r_fil pending]. auto 6.
Qed.

Lemma snstr_readCurlied_reads (fuel : nat) (pBuffer : SNBUFFER) (pFilter : SNFILTER)
    (e : bool) (ds rest : list byte) :
  buffer_reachable pBuffer -> filter_active pFilter -> 0 < line_count pFilter ->
  curly_text ds -> literal_bytes ds ->
  Z.of_nat (length ds) < maxcap pBuffer -> (length ds < fuel)%nat ->
  exists r e',
    snstr_readCurlied fuel pBuffer (mkFILE (map RawByte (ds ++ x7d :: rest)) e) pFilter =
      Done r /\
    r_err r = 0 /\ snbuffer_data (r_buf r) = map byte_val ds /\
    r_in r = mkFILE (map RawByte rest) e' /\
    filter_active (r_fil r) /\ 0 < line_count (r_fil r).
Proof.
  intros Hreach Hact Hl Hq Hlit Hlen Hfuel. unfold snstr_readCurlied.
  destruct (snstr_readCurlied_at pBuffer pFilter e ds (x7d :: rest) Hreach Hact Hl Hq Hlit Hlen)
    as (r1 & e1 & Hs & He1 & Hesc1 & Hn1 & Hin1 & Hwf1 & Hd1 & Hc1 & Hm1 & Hact1 & Hl1);
    [discriminate|].
  cbn [map] in Hin1.
  destruct (snfilter_read_plain (r_fil r1) e1 x7d (map RawByte rest) Hact1) as [e2 Hread];
    [byte_neq | byte_neq | intros; lia |].
  destruct (filter_after_active (r_fil r1) (byte_val x7d)) as [Ha2 Hl2]; [lia | cbn; lia |].
  eexists _, e2. split.
  - apply (while_loop_ends _ _ (length ds) fuel _ r1); [exact Hs | exact Hfuel | |].
    + unfold reader_running. rewrite He1. reflexivity.
    + left. unfold snstr_readCurlied_body. rewrite Hin1, Hread, Hesc1, Hn1.
      reflexivity.
  - cbn [r_err r_buf r_in r_fil pending]. auto 6.
Qed.

(** X19: string and embedded tokens. After blanks and comments and a
    prefix of bytes that go on a token (there may be none), a double
    quote, the text of a quoted literal and its closing quote are read by
    [sntoken_read] as one string token of the quoted type: the key
    buffer holds the prefix and the value buffer the text, and the stream
    is left after the closing quote. The same holds for a curly literal,
    and a grave accent after the prefix gives an embedded token with the
    prefix for key, the stream left just after the accent. The text of a
    literal is made of plain bytes, escapes (a backslash and a byte other
    than a backslash) and, in a curly literal, nested groups, without
    zero bytes or carriage returns; both buffers have room for what they
    receive. *)
Theorem sntoken_read_string (char_signed : bool) (fuel : nat) (pToken : SNTOKEN)
    (f : SNFILTER) (e : bool) (ws pre ds rest : list byte) (q : byte) :
  buffer_reachable (pKey pToken) -> buffer_reachable (pValue pToken) ->
  skipped_text ws -> word_text pre -> filter_ready f (ws ++ pre ++ [q]) ->
  Z.of_nat (length pre) + 1 < maxcap (pKey pToken) ->
  literal_bytes ds -> Z.of_nat (length ds) < maxcap (pValue pToken) ->
  (length ws + length pre + length ds + 1 < fuel)%nat ->
  (q = x22 -> quoted_text ds ->
   exists tk e' f',
     sntoken_read char_signed fuel pToken
       (bytes_file (ws ++ pre ++ x22 :: ds ++ x22 :: rest) e) f =
       Done (tk, mkFILE (map RawByte rest) e', f') /\
     status tk = SNTOKEN_STRING /\ str_type tk = SNSTRING_QUOTED /\
     snbuffer_data (pKey tk) = map byte_val pre /\
     snbuffer_data (pValue tk) = map byte_val ds) /\
  (q = x7b -> curly_text ds ->
   exists tk e' f',
     sntoken_read char_signed fuel pToken
       (bytes_file (ws ++ pre ++ x7b :: ds ++ x7d :: rest) e) f =
       Done (tk, mkFILE (map RawByte rest) e', f') /\
     status tk = SNTOKEN_STRING /\ str_type tk = SNSTRING_CURLY /\
     snbuffer_data (pKey tk) = map byte_val pre /\
     snbuffer_data (pValue tk) = map byte_val ds) /\
  (q = x60 ->
   exists tk e' f',
     sntoken_read char_signed fuel pToken (bytes_file (ws ++ pre ++ x60 :: rest) e) f =
       Done (tk, mkFILE (map RawByte rest) e', f') /\
     status tk = SNTOKEN_EMBED /\ str_type tk = 0 /\
     snbuffer_data (pKey tk) = map byte_val pre /\
     snbuffer_data (pValue tk) = []).
Proof.
  intros Hrk Hrv Hws Hpre Hrdy Hklen Hlit Hvlen Hfuel.
  destruct (buffer_reachable_str _ Hrk) as [Hk _].
  destruct (buffer_reachable_str _ Hrv) as [Hv _].
  destruct (snbuffer_reset_fine _ Hk) as (Hk0 & _ & _ & Hkm).
  destruct (snbuffer_reset_fine _ Hv) as (Hv0 & Hvd0 & _ & Hvm).
  assert (Htok : forall tl, snchar_isinclusive (byte_val q) <> 0 ->
            exists key key' e1 f1,
              sntk_readToken fuel (snbuffer_reset (pKey pToken) 0)
                (bytes_file (ws ++ pre ++ q :: tl) e) f =
                Done (0, key, mkFILE (map RawByte tl) e1, f1) /\
              snbuffer_last char_signed key = byte_val q /\
              snbuffer_less key = (1, key') /\ snbuffer_data key' = map byte_val pre /\
              filter_active f1 /\ 0 < line_count f1).
  { intros tl Hinc.
    destruct (sntk_readToken_incl_at fuel (snbuffer_reset (pKey pToken) 0) f e ws pre tl q
                Hws Hpre Hrdy Hk0 ltac:(lia) ltac:(lia) Hinc)
      as (key & e1 & f1 & Hrun & Hks & Hkd & _ & Ha1 & Hl1).
    destruct (snbuffer_less_data key _ _ Hks Hkd) as (key' & Hless & _ & Hkd' & _).
    exists key, key', e1, f1. split; [exact Hrun|].
    split; [|auto].
    rewrite (snbuffer_last_data char_signed key _ _ Hks Hkd).
    apply char_value_ascii.
    destruct (snchar_isinclusive_bytes q Hinc) as [->|[->| ->]]; vm_compute; congruence. }
  split; [|split].
  - intros -> Hq.
    destruct (Htok (ds ++ x22 :: rest) ltac:(discriminate))
      as (key & key' & e1 & f1 & Hrun & Hlast & Hless & Hkd' & Ha1 & Hl1).
    destruct (snstr_readQuoted_reads fuel (snbuffer_reset (pValue pToken) 0) f1 e1 ds rest
                (str_wf _ Hv0) Ha1 Hl1 Hq Hlit ltac:(lia) ltac:(lia))
      as (r & e2 & Hread & He & Hd & Hin & _).
    unfold sntoken_read. rewrite Hrun. cbn [mbind outcome_mbind outcome_bind Z.eqb andb].
    rewrite Hlast. change (byte_val x22 =? ASCII_DQUOTE) with true.
    token_kind. rewrite Hless. token_kind. rewrite Hread. token_kind.
    rewrite He. token_kind. rewrite Hin.
    eexists _, e2, _. split; [reflexivity|]. cbn [status str_type pKey pValue]. auto.
  - intros -> Hq.
    destruct (Htok (ds ++ x7d :: rest) ltac:(discriminate))
      as (key & key' & e1 & f1 & Hrun & Hlast & Hless & Hkd' & Ha1 & Hl1).
    destruct (snstr_readCurlied_reads fuel (snbuffer_reset (pValue pToken) 0) f1 e1 ds rest
                (buf_reset _ 0 Hrv) Ha1 Hl1 Hq Hlit ltac:(lia) ltac:(lia))
      as (r & e2 & Hread & He & Hd & Hin & _).
    unfold sntoken_read. rewrite Hrun. cbn [mbind outcome_mbind outcome_bind Z.eqb andb].
    rewrite Hlast. change (byte_val x7b =? ASCII_DQUOTE) with false.
    change (byte_val x7b =? ASCII_LCURL) with true.
    token_kind. rewrite Hless. token_kind. rewrite Hread. token_kind.
    rewrite He. token_kind. rewrite Hin.
    eexists _, e2, _. split; [reflexivity|]. cbn [status str_type pKey pValue]. auto.
  - intros ->.
    destruct (Htok rest ltac:(discriminate))
      as (key & key' & e1 & f1 & Hrun & Hlast & Hless & Hkd' & Ha1 & Hl1).
    unfold sntoken_read. rewrite Hrun. cbn [mbind outcome_mbind outcome_bind Z.eqb andb].
    rewrite Hlast. change (byte_val x60 =? ASCII_DQUOTE) with false.
    change (byte_val x60 =? ASCII_LCURL) with false.
    change (byte_val x60 =? ASCII_GRACCENT) with true.
    token_kind. rewrite Hless. token_kind.
    eexists _, e1, _. split; [reflexivity|]. cbn [status str_type pKey pValue]. auto.
Qed.
Lemma sntoken_read_string_witness :
  let tk := mkSNTOKEN 0 0 (mkSNBUFFER [] 0 0 4 1024) (mkSNBUFFER [] 0 0 32 65535) in
  buffer_reachable (pKey tk) /\ buffer_reachable (pValue tk) /\
  skipped_text [x20] /\ word_text [x6b] /\
  filter_ready snfilter_reset ([x20] ++ [x6b] ++ [x7b]) /\
  literal_bytes [x61; x7b; x62; x7d] /\ curly_text [x61; x7b; x62; x7d] /\
  exists tk' e' f',
    sntoken_read false 8 tk
      (bytes_file ([x20] ++ [x6b] ++ x7b :: [x61; x7b; x62; x7d] ++ x7d :: [x0a]) false)
      snfilter_reset = Done (tk', mkFILE [RawByte x0a] e', f') /\
    status tk' = SNTOKEN_STRING /\ str_type tk' = SNSTRING_CURLY /\
    snbuffer_data (pKey tk') = [0x6b] /\
    snbuffer_data (pValue tk') = [0x61; 0x7b; 0x62; 0x7d].
Proof.
  intros tk.
  assert (buffer_reachable (pKey tk)) as Hk by (apply (buf_init 4 1024); reflexivity).
  assert (buffer_reachable (pValue tk)) as Hv by (apply (buf_init 32 65535); reflexivity).
  assert (skipped_text [x20]) as Hws by (apply skipped_blanks; repeat constructor).
  assert (word_text [x6b]) as Hpre.
  { split; [|discriminate]. repeat constructor; vm_compute; congruence. }
  assert (filter_ready snfilter_reset ([x20] ++ [x6b] ++ [x7b])) as Hrdy.
  { split; [split; [reflexivity|left; reflexivity]|]. split; [cbn; lia|].
    intros _. discriminate. }
  assert (literal_bytes [x61; x7b; x62; x7d]) as Hlit
    by (repeat constructor; discriminate).
  assert (curly_text [x61; x7b; x62; x7d]) as Hq.
  { apply curly_plain; [discriminate|discriminate|discriminate|].
    apply (curly_group [x62] []);
      [apply curly_plain; [discriminate|discriminate|discriminate|apply curly_nil]
      |apply curly_nil]. }
  split; [exact Hk|]. split; [exact Hv|]. split; [exact Hws|]. split; [exact Hpre|].
  split; [exact Hrdy|]. split; [exact Hlit|]. split; [exact Hq|].
  destruct (sntoken_read_string false 8 tk snfilter_reset false [x20] [x6b]
              [x61; x7b; x62; x7d] [x0a] x7b Hk Hv Hws Hpre Hrdy
              ltac:(cbn; lia) Hlit ltac:(cbn; lia) ltac:(cbn; lia)) as (_ & Hcurly & _).
  exact (Hcurly eq_refl Hq).
Defined.

Lemma word_bytes_last (l : list byte) :
  Forall word_byte l -> l <> [] ->
  exists d c, map byte_val l = d ++ [byte_val c] /\ word_byte c.
Proof.
  intros Hl Hne. destruct (exists_last Hne) as (d & c & ->).
  apply Forall_app in Hl as [_ Hc]. inversion Hc; subst.
  exists (map byte_val d), c. rewrite map_app. auto.
Qed.

Lemma snchar_isinclusive_none (c : Z) :
  snchar_isinclusive c = 0 ->
  (c =? ASCII_DQUOTE) = false /\ (c =? ASCII_LCURL) = false /\
  (c =? ASCII_GRACCENT) = false.
Proof.
  unfold snchar_isinclusive.
  destruct (c =? ASCII_DQUOTE); destruct (c =? ASCII_GRACCENT);
    destruct (c =? ASCII_LCURL); cbn [orb]; intros; try discriminate; auto.
Qed.

(** What [sntoken_read] makes of a token that ends in a character that is
    not inclusive. *)
Lemma sntoken_read_plain (char_signed : bool) (fuel : nat) (pToken : SNTOKEN)
    (pIn : FILE) (f : SNFILTER) (key : SNBUFFER) (pIn' : FILE) (f' : SNFILTER)
    (d : list Z) (c : Z) :
  sntk_readToken fuel (snbuffer_reset (pKey pToken) 0) pIn f = Done (0, key, pIn', f') ->
  buffer_str key -> snbuffer_data key = d ++ [c] -> c <= 127 ->
  snchar_isinclusive c = 0 ->
  exists key',
    snbuffer_data key' = d ++ [c] /\
    sntoken_read char_signed fuel pToken pIn f =
      Done (mkSNTOKEN
              (if bool_decide (d ++ [c] = [ASCII_BAR; ASCII_SEMICOLON])
               then SNTOKEN_FINAL else SNTOKEN_SIMPLE)
              0 key' (snbuffer_reset (pValue pToken) 0), pIn', f').
Proof.
  intros Hrun Hstr Hd Hc Hinc.
  destruct (snchar_isinclusive_none c Hinc) as (H1 & H2 & H3).
  destruct (snbuffer_get_str key Hstr) as (_ & Hgd & _ & _ & _ & _).
  pose proof (snbuffer_get_string key Hstr) as Hgs.
  exists (snd (snbuffer_get key)). split; [congruence|].
  unfold sntoken_read. rewrite Hrun. cbn [mbind outcome_mbind outcome_bind Z.eqb andb].
  rewrite (snbuffer_last_data char_signed key d c Hstr Hd), (char_value_ascii _ _ Hc).
  rewrite H1, H2, H3. token_kind.
  destruct (snbuffer_get key) as [p key0]. cbn [fst snd] in *.
  unfold same_string. rewrite Hgs, Hd.
  change (c_string final_text) with [ASCII_BAR; ASCII_SEMICOLON].
  destruct (bool_decide (d ++ [c] = [ASCII_BAR; ASCII_SEMICOLON])); token_kind; reflexivity.
Qed.

(** X20: simple and final tokens. After blanks and comments, bytes that
    go on a token, the first no vertical bar, with an exclusive byte
    after them are read by [sntoken_read] as a simple token: the key
    buffer holds them, the value buffer is empty, and the exclusive byte
    is the next to be read. A vertical bar and a semicolon with only
    blanks and comments up to the end of the stream are the final token;
    with anything else after them the status is [SNERR_TRAILER] and both
    buffers are empty. *)
Theorem sntoken_read_simple (char_signed : bool) (fuel : nat) (pToken : SNTOKEN)
    (f : SNFILTER) (e : bool) (ws w ws1 u rest : list byte) (c0 t : byte) :
  buffer_reachable (pKey pToken) -> buffer_reachable (pValue pToken) ->
  skipped_text ws -> filter_ready f (ws ++ [c0]) ->
  Z.of_nat (length (c0 :: w)) + 1 < maxcap (pKey pToken) ->
  skipped_text ws1 -> Forall (fun b => b <> x0a /\ b <> x0d) u ->
  (length ws + length w + length ws1 + length u + 2 < fuel)%nat ->
  (word_byte c0 -> c0 <> x7c -> Forall word_byte w ->
   snchar_isexclusive (byte_val t) <> 0 -> head rest <> Some x0d ->
   exists tk e' f' f1,
     sntoken_read char_signed fuel pToken (bytes_file (ws ++ c0 :: w ++ t :: rest) e) f =
       Done (tk, mkFILE (map RawByte rest) e', f') /\
     status tk = SNTOKEN_SIMPLE /\ str_type tk = 0 /\
     snbuffer_data (pKey tk) = map byte_val (c0 :: w) /\
     snbuffer_data (pValue tk) = [] /\
     forall pIn, snfilter_read f' pIn = (byte_val t, f1, pIn)) /\
  (c0 = x7c -> forall tl, tl = [] \/ tl = x23 :: u ->
   exists tk pIn' f',
     sntoken_read char_signed fuel pToken
       (bytes_file (ws ++ x7c :: x3b :: ws1 ++ tl) e) f = Done (tk, pIn', f') /\
     status tk = SNTOKEN_FINAL /\ str_type tk = 0 /\
     snbuffer_data (pKey tk) = [ASCII_BAR; ASCII_SEMICOLON] /\
     snbuffer_data (pValue tk) = []) /\
  (c0 = x7c -> ~ blank_byte t -> t <> x23 -> t <> x0d ->
   exists tk pIn' f',
     sntoken_read char_signed fuel pToken
       (bytes_file (ws ++ x7c :: x3b :: ws1 ++ t :: rest) e) f = Done (tk, pIn', f') /\
     status tk = SNERR_TRAILER /\ str_type tk = 0 /\
     snbuffer_data (pKey tk) = [] /\ snbuffer_data (pValue tk) = []).
Proof.
  intros Hrk Hrv Hws Hrdy Hklen Hws1 Hu Hfuel.
  destruct (buffer_reachable_str _ Hrk) as [Hk _].
  destruct (buffer_reachable_str _ Hrv) as [Hv _].
  destruct (snbuffer_reset_fine _ Hk) as (Hk0 & _ & _ & Hkm).
  destruct (snbuffer_reset_fine _ Hv) as (Hv0 & Hvd0 & _ & Hvm).
  cbn [length] in Hklen.
  split; [|split].
  - intros Hc0 Hbar Hw Hex Hn.
    destruct (sntk_readToken_word_at fuel (snbuffer_reset (pKey pToken) 0) f e ws w
                (t :: rest) c0 0 Hws Hrdy Hk0 Hc0 Hbar Hw)
      as (s0 & s1 & Hrun & Hsteps & Hs1 & Hm); [lia | lia | cbn [length]; lia |].
    destruct (sntk_readToken_turn_exclusive s1 _ t rest 0 Hs1 Hex Hn)
      as (s2 & f1 & Hbody & He2 & Hb2 & Hin2 & Hre & _).
    rewrite (while_loop_ends _ _ (length w) fuel s0 s1 s2 Hsteps) in Hrun;
      [|lia| |left; exact Hbody].
    2: { destruct Hs1 as (He1 & _). rewrite He1. reflexivity. }
    cbn [mbind outcome_mbind outcome_bind] in Hrun. rewrite He2, Hb2 in Hrun.
    destruct (s_in s2) as [p2 e2]. cbn [pending] in Hin2. subst p2.
    destruct Hs1 as (_ & _ & _ & Hstr1 & Hd1 & _).
    destruct (word_bytes_last (c0 :: w)) as (d & c & Hdc & Hwc);
      [constructor; assumption | discriminate |].
    destruct (word_byte_visible c Hwc) as (Hvis & _). destruct Hwc as (_ & _ & Hinc).
    rewrite Hdc in Hd1.
    destruct (sntoken_read_plain char_signed fuel pToken _ f (s_buf s1) _ _ d (byte_val c)
                Hrun Hstr1 Hd1) as (key' & Hkd & Hread);
      [revert Hvis; consts; lia | assumption |].
    rewrite Hread. rewrite bool_decide_eq_false_2.
    + eexists _, e2, (s_fil s2), f1. split; [reflexivity|].
      cbn [status str_type pKey pValue]. rewrite Hkd, <- Hdc. auto.
    + rewrite <- Hdc. cbn [map]. intros [= Hq _].
      apply Hbar, byte_val_inj. rewrite Hq. reflexivity.
  - intros -> tl Htl.
    destruct (sntk_readToken_final_at fuel (snbuffer_reset (pKey pToken) 0) f e ws
                (ws1 ++ tl) Hws Hrdy Hk0)
      as (b2 & e3 & f3 & Hstr2 & Hd2 & Ha3 & Hl3 & Hrun); [lia | lia | |].
    { apply skipped_text_head; [assumption|]. destruct Htl as [->| ->]; discriminate. }
    destruct (sntk_skip_at_end fuel f3 e3 ws1 u tl Hws1 Hu Ha3 Hl3 Htl)
      as (f4 & Hskip & Hre & _); [lia|].
    unfold bytes_file in Hskip. rewrite Hskip, Hre in Hrun.
    change (negb (SNERR_EOF =? SNERR_EOF)) with false in Hrun. cbn iota in Hrun.
    destruct (sntoken_read_plain char_signed fuel pToken _ f b2 _ _ [ASCII_BAR]
                ASCII_SEMICOLON Hrun Hstr2 Hd2) as (key' & Hkd & Hread);
      [consts; lia | reflexivity |].
    rewrite Hread. eexists _, _, _. split; [reflexivity|].
    cbn [status str_type pKey pValue]. auto.
  - intros -> Hnb Hp Hcr.
    destruct (sntk_readToken_final_at fuel (snbuffer_reset (pKey pToken) 0) f e ws
                (ws1 ++ t :: rest) Hws Hrdy Hk0)
      as (b2 & e3 & f3 & Hstr2 & Hd2 & Ha3 & Hl3 & Hrun); [lia | lia | |].
    { apply skipped_text_head; [assumption|]. cbn. congruence. }
    destruct (sntk_skip_at fuel f3 e3 ws1 rest t Hws1) as (f4 & f5 & e4 & Hskip & Hre & _);
      [apply filter_ready_read; assumption | assumption | assumption | assumption | lia |].
    unfold bytes_file in Hskip. rewrite Hskip, Hre in Hrun.
    pose proof (byte_val_range t) as Hb.
    destruct (Z.eqb_spec (byte_val t) SNERR_EOF) as [Hq|_]; [revert Hq; consts; lia|].
    cbn [negb] in Hrun. rewrite Z.geb_leb in Hrun.
    destruct (Z.leb_spec 0 (byte_val t)); [|lia].
    unfold sntoken_read. rewrite Hrun.
    cbn [mbind outcome_mbind outcome_bind]. change (SNERR_TRAILER =? 0) with false.
    cbn [andb negb mbind outcome_mbind outcome_bind].
    eexists _, _, _. split; [reflexivity|]. cbn [status str_type pKey pValue].
    destruct (snbuffer_reset_fine _ Hstr2) as (_ & -> & _).
    destruct (snbuffer_reset_fine _ Hv0) as (_ & -> & _). auto.
Qed.

Lemma sntoken_read_simple_witness :
  let tk := mkSNTOKEN 0 0 (mkSNBUFFER [] 0 0 4 1024) (mkSNBUFFER [] 0 0 32 65535) in
  buffer_reachable (pKey tk) /\ buffer_reachable (pValue tk) /\
  skipped_text [] /\ filter_ready snfilter_reset ([] ++ [x61]) /\
  word_byte x61 /\ Forall word_byte [x62] /\
  exists tk' e' f' f1,
    sntoken_read false 5 tk (bytes_file ([] ++ x61 :: [x62] ++ x20 :: []) false)
      snfilter_reset = Done (tk', mkFILE [] e', f') /\
    status tk' = SNTOKEN_SIMPLE /\ snbuffer_data (pKey tk') = [0x61; 0x62] /\
    forall pIn, snfilter_read f' pIn = (0x20, f1, pIn).
Proof.
  intros tk.
  assert (buffer_reachable (pKey tk)) as Hk by (apply (buf_init 4 1024); reflexivity).
  assert (buffer_reachable (pValue tk)) as Hv by (apply (buf_init 32 65535); reflexivity).
  assert (skipped_text []) as Hws by (apply skipped_blanks; constructor).
  assert (filter_ready snfilter_reset ([] ++ [x61])) as Hrdy.
  { split; [split; [reflexivity|left; reflexivity]|]. split; [cbn; lia|].
    intros _. discriminate. }
  assert (word_byte x61) as Hc0 by (repeat split; vm_compute; congruence).
  assert (Forall word_byte [x62]) as Hw
    by (repeat constructor; vm_compute; congruence).
  split; [exact Hk|]. split; [exact Hv|]. split; [exact Hws|]. split; [exact Hrdy|].
  split; [exact Hc0|]. split; [exact Hw|].
  destruct (sntoken_read_simple false 5 tk snfilter_reset false [] [x62] [] [] [] x61 x20
              Hk Hv Hws Hrdy ltac:(cbn; lia) Hws ltac:(constructor) ltac:(cbn; lia))
    as (Hsimple & _ & _).
  destruct (Hsimple Hc0 ltac:(discriminate) Hw ltac:(vm_compute; congruence)
              ltac:(discriminate)) as (tk' & e' & f' & f1 & Hrun & Hst & _ & Hd & _ & Hre).
  exists tk', e', f', f1. auto.
Defined.

(** ** A token that is one atomic character *)

Lemma snchar_isatomic_first (c : Z) :
  snchar_isatomic c <> 0 ->
  snchar_islegal c <> 0 /\ 0 <= c /\ c <> ASCII_BAR /\ c <> ASCII_POUNDSIGN /\
  c <> ASCII_SP /\ c <> ASCII_HT /\ c <> ASCII_LF.
Proof.
  unfold snchar_isatomic. consts.
  match goal with |- context [if ?b then _ else _] => destruct b eqn:Hb end;
    [intros _|contradiction].
  rewrite !orb_true_iff, !Z.eqb_eq in Hb.
  assert (snchar_islegal c = 1) as ->.
  { unfold snchar_islegal. consts. rewrite Z.geb_leb.
    destruct (Z.leb_spec 33 c); [|lia]. destruct (Z.leb_spec c 126); [|lia]. reflexivity. }
  lia.
Qed.

(** An atomic first character ends the token. Once the blanks and
    comments are passed and the read that follows delivers one of the
    characters of [snchar_isatomic], [sntk_readToken] returns the token
    that is this character, with the stream and the filter as that read
    left them. *)
Lemma sntk_readToken_atomic_done (fuel : nat) (pBuffer : SNBUFFER) (pIn : FILE)
    (pFilter f1 : SNFILTER) (in1 : FILE) (c : Z) (f' : SNFILTER) (pIn' : FILE) :
  buffer_str pBuffer -> 1 < maxcap pBuffer ->
  sntk_skip fuel pIn pFilter = Done (f1, in1) ->
  snfilter_read f1 in1 = (c, f', pIn') ->
  snchar_isatomic c <> 0 ->
  exists b',
    sntk_readToken fuel pBuffer pIn pFilter = Done (0, b', pIn', f') /\
    snbuffer_data b' = [c].
Proof.
  intros Hstr Hmax Hskip Hread Hat.
  destruct (snchar_isatomic_first c Hat) as (Hleg & Hpos & Hbar & _).
  destruct (snbuffer_reset_fine pBuffer Hstr) as (Hstr0 & Hd0 & Hc0 & Hm0).
  pose proof (snchar_islegal_range _ Hleg) as Hrange.
  destruct (snbuffer_append_fits (snbuffer_reset pBuffer 0) c Hstr0 Hrange)
    as (b1 & Happ & _ & Hd1 & _); [lia|].
  exists b1. split; [|rewrite Hd1, Hd0; reflexivity].
  unfold sntk_readToken. rewrite Hskip.
  cbn [mbind outcome_mbind outcome_bind]. rewrite Hread.
  destruct (Z.ltb_spec c 0); [lia|]. cbn [Z.eqb andb].
  destruct (Z.eqb_spec (snchar_islegal c) 0); [contradiction|].
  cbn [Z.eqb andb]. rewrite Happ.
  cbn [Z.eqb andb negb mbind outcome_mbind outcome_bind].
  destruct (Z.eqb_spec c ASCII_BAR); [contradiction|].
  cbn [Z.eqb andb negb mbind outcome_mbind outcome_bind].
  destruct (Z.eqb_spec (snchar_isatomic c) 0); [contradiction|]. reflexivity.
Qed.

(** The same from the input: blanks and comments, an atomic character,
    and whatever follows. *)
Lemma sntk_readToken_atomic_text (fuel : nat) (pBuffer : SNBUFFER) (f : SNFILTER)
    (e : bool) (ws tl : list byte) (c0 : byte) :
  skipped_text ws -> filter_ready f (ws ++ [c0]) -> buffer_str pBuffer ->
  1 < maxcap pBuffer -> (length ws < fuel)%nat ->
  snchar_isatomic (byte_val c0) <> 0 ->
  exists b' e' f',
    sntk_readToken fuel pBuffer (bytes_file (ws ++ c0 :: tl) e) f =
      Done (0, b', mkFILE (map RawByte tl) e', f') /\
    snbuffer_data b' = [byte_val c0].
Proof.
  intros Hws Hrdy Hstr Hmax Hfuel Hat.
  destruct (snchar_isatomic_first _ Hat) as (Hleg & _ & Hbar & Hp & Hsp & Hht & Hlf).
  destruct (sntk_readToken_opens fuel pBuffer f e ws tl c0 Hws Hrdy Hstr Hmax Hfuel Hleg)
    as (b1 & e1 & f1 & _ & Hd & _ & _ & _ & _ & Hrun).
  - intros [-> | [-> | ->]]; [apply Hsp|apply Hht|apply Hlf]; reflexivity.
  - intros ->. apply Hp. reflexivity.
  - intros ->. apply Hbar. reflexivity.
  - exists b1, e1, f1. split; [|exact Hd]. rewrite Hrun.
    destruct (Z.eqb_spec (snchar_isatomic (byte_val c0)) 0); [contradiction|]. reflexivity.
Qed.

End ShastinaFacts.

(** * Properties of shasm_block.c *)
Module ShasmBlockFacts.
Import ShasmBlock.

Ltac block_consts :=
  cbv [SHASM_BLOCK_MINBUFFER SHASM_BLOCK_MAXBUFFER SHASM_BLOCK_MINTBUF
       SHASM_BLOCK_MAXCODE SHASM_BLOCK_MINSURROGATE SHASM_BLOCK_MAXSURROGATE
       SHASM_BLOCK_HISURROGATE SHASM_BLOCK_LOSURROGATE SHASM_BLOCK_MINSUPPLEMENTAL
       SHASM_BLOCK_UTF8_2BYTE SHASM_BLOCK_UTF8_3BYTE SHASM_BLOCK_UTF8_4BYTE
       SHASM_BLOCK_UTF8_2MASK SHASM_BLOCK_UTF8_3MASK SHASM_BLOCK_UTF8_4MASK
       SHASM_BLOCK_OMODE_NONE SHASM_BLOCK_OMODE_UTF8 SHASM_BLOCK_OMODE_CESU8
       SHASM_BLOCK_OMODE_U16LE SHASM_BLOCK_OMODE_U16BE SHASM_BLOCK_OMODE_U32LE
       SHASM_BLOCK_OMODE_U32BE
       SHASM_ASCII_HT SHASM_ASCII_LF SHASM_ASCII_SP SHASM_ASCII_DQUOTE
       SHASM_ASCII_PERCENT SHASM_ASCII_AMPERSAND SHASM_ASCII_SQUOTE
       SHASM_ASCII_LPAREN SHASM_ASCII_RPAREN SHASM_ASCII_COMMA
       SHASM_ASCII_SEMICOLON SHASM_ASCII_LSQR SHASM_ASCII_RSQR SHASM_ASCII_LCURL
       SHASM_ASCII_BAR SHASM_ASCII_VISPRINT_MIN SHASM_ASCII_VISPRINT_MAX] in *.

Ltac block_cases :=
  repeat first
    [ rewrite Z.geb_leb
    | rewrite Z.gtb_ltb
    | progress cbn [code line buf_cap buf_len null_present pBuf andb orb negb
                    fst snd is_okay]
    | match goal with
      | |- context [Z.eqb ?a ?b] =>
          ShastinaFacts.no_if a; destruct (Z.eqb_spec a b); try lia
      | |- context [Z.ltb ?a ?b] =>
          ShastinaFacts.no_if a; destruct (Z.ltb_spec a b); try lia
      | |- context [Z.leb ?a ?b] =>
          ShastinaFacts.no_if a; destruct (Z.leb_spec a b); try lia
      end ].

(** ** The block buffer *)

Lemma length_memset0 (p : list Z) (off n : Z) :
  0 <= off -> 0 <= n -> off + n <= Z.of_nat (length p) ->
  length (memset0 p off n) = length p.
Proof.
  intros. unfold memset0, zeros.
  rewrite !length_app, length_take, length_replicate, length_drop. lia.
Qed.

Lemma take_memset0 (p : list Z) (off n : Z) :
  0 <= off <= Z.of_nat (length p) ->
  take (Z.to_nat off) (memset0 p off n) = take (Z.to_nat off) p.
Proof.
  intros. unfold memset0.
  rewrite take_app_le by (rewrite length_take; lia).
  rewrite take_take. f_equal. lia.
Qed.

Lemma length_realloc (p : list Z) (n : Z) : length (realloc p n) = Z.to_nat n.
Proof. apply length_resize. Qed.

Lemma take_realloc (p : list Z) (k n : Z) :
  0 <= k <= n -> k <= Z.of_nat (length p) ->
  take (Z.to_nat k) (realloc p n) = take (Z.to_nat k) p.
Proof.
  intros. unfold realloc.
  rewrite take_resize_le by lia. apply resize_le. lia.
Qed.

Lemma block_append_ok (pb : SHASM_BLOCK) (c : Z) :
  block_ok pb -> 0 <= c <= 255 -> buf_len pb < SHASM_BLOCK_MAXBUFFER ->
  exists pb',
    shasm_block_addByte pb c = Done (1, pb') /\ block_ok pb' /\
    buf_len pb' = buf_len pb + 1 /\ line pb' = line pb /\
    take (Z.to_nat (buf_len pb + 1)) (pBuf pb') =
      take (Z.to_nat (buf_len pb)) (pBuf pb) ++ [c].
Proof.
  intros (Hcode & Hlen & Hcap & Hn) Hc Hroom. unfold shasm_block_addByte.
  rewrite Hcode. block_consts. block_cases.
  all: eexists; split; [reflexivity|]; cbn [code line buf_cap buf_len null_present pBuf].
  all: unfold block_ok; cbn [code line buf_cap buf_len null_present pBuf].
  all: unfold store; rewrite ?length_insert.
  all: rewrite ?length_memset0 by (rewrite ?length_realloc; lia).
  all: rewrite ?length_realloc.
  all: (split; [split; [first [assumption|reflexivity]|]; block_consts; lia|]).
  all: (split; [reflexivity|]); (split; [reflexivity|]).
  all: fold (store (pBuf pb) (buf_len pb) c);
       try fold (store (memset0 (realloc (pBuf pb) 32767) (buf_len pb) (32767 - buf_len pb)) (buf_len pb) c);
       try fold (store (memset0 (realloc (pBuf pb) (buf_cap pb * 2)) (buf_len pb) (buf_cap pb * 2 - buf_len pb)) (buf_len pb) c).
  all: rewrite ShastinaFacts.take_store
         by (rewrite ?length_memset0 by (rewrite ?length_realloc; lia);
             rewrite ?length_realloc; lia).
  all: rewrite ?take_memset0 by (rewrite ?length_realloc; lia).
  all: rewrite ?take_realloc by lia.
  all: reflexivity.
Qed.

Lemma block_append_full (pb : SHASM_BLOCK) (c : Z) :
  block_ok pb -> 0 <= c <= 255 -> SHASM_BLOCK_MAXBUFFER <= buf_len pb ->
  shasm_block_addByte pb c = Done (0, pb).
Proof.
  intros (Hcode & Hlen & Hcap & Hn) Hc Hfull. unfold shasm_block_addByte.
  rewrite Hcode. block_consts. block_cases; reflexivity.
Qed.

Lemma block_append_cases (pb : SHASM_BLOCK) (c ok : Z) (pb' : SHASM_BLOCK) :
  block_ok pb -> shasm_block_addByte pb c = Done (ok, pb') ->
  (ok = 0 /\ pb' = pb) \/
  (ok = 1 /\ block_ok pb' /\ buf_len pb' = buf_len pb + 1 /\ line pb' = line pb /\
   take (Z.to_nat (buf_len pb + 1)) (pBuf pb') =
     take (Z.to_nat (buf_len pb)) (pBuf pb) ++ [c]).
Proof.
  intros Hok Happ.
  assert (0 <= c <= 255) as Hc.
  { unfold shasm_block_addByte in Happ.
    destruct (Z.ltb_spec c 0); [discriminate|]. rewrite Z.gtb_ltb in Happ.
    destruct (Z.ltb_spec 255 c); [discriminate|]. lia. }
  destruct (Z.lt_ge_cases (buf_len pb) SHASM_BLOCK_MAXBUFFER) as [Hroom|Hfull].
  - destruct (block_append_ok pb c Hok Hc Hroom) as (pb1 & Happ1 & Hrest).
    rewrite Happ1 in Happ. injection Happ as <- <-. right. tauto.
  - rewrite (block_append_full pb c Hok Hc Hfull) in Happ.
    injection Happ as <- <-. left. auto.
Qed.

Lemma block_holds_append (data : list Z) (pb : SHASM_BLOCK) (c ok : Z) (pb' : SHASM_BLOCK) :
  block_holds data pb -> shasm_block_addByte pb c = Done (ok, pb') -> ok <> 0 ->
  block_holds (data ++ [c]) pb' /\ line pb' = line pb.
Proof.
  intros [Hok Hd] Happ Hnz.
  destruct (block_append_cases pb c ok pb' Hok Happ) as [[? _]|(_ & Hok' & Hl & Hline & Ht)];
    [contradiction|].
  split; [|assumption]. split; [assumption|]. rewrite Hl, Ht, Hd. reflexivity.
Qed.

Lemma block_holds_data (data : list Z) (pb : SHASM_BLOCK) :
  block_holds data pb ->
  shasm_block_data pb = data /\ shasm_block_count pb = Z.of_nat (length data).
Proof.
  intros [(Hcode & Hlen & Hcap & Hn) Hd].
  unfold shasm_block_data, shasm_block_count. rewrite Hcode. cbn [is_okay].
  split; [assumption|]. rewrite <- Hd, length_take. lia.
Qed.

Lemma block_holds_load (data : list Z) (pb : SHASM_BLOCK) (i : nat) :
  block_holds data pb -> (i < length data)%nat ->
  load (pBuf pb) (Z.of_nat i) = nth i data 0.
Proof.
  intros [_ Hd] Hi. unfold load. rewrite Nat2Z.id. subst data.
  rewrite length_take in Hi.
  rewrite <- (take_drop (Z.to_nat (buf_len pb)) (pBuf pb)) at 1.
  rewrite app_nth1 by (rewrite length_take; lia). reflexivity.
Qed.

Lemma block_append_many (l : list Z) (data : list Z) (pb : SHASM_BLOCK) :
  block_holds data pb -> Forall (fun c => 0 <= c <= 255) l ->
  buf_len pb + Z.of_nat (length l) <= SHASM_BLOCK_MAXBUFFER ->
  exists pb',
    shasm_block_addBytes pb l = Done (1, pb') /\ block_holds (data ++ l) pb' /\
    buf_len pb' = buf_len pb + Z.of_nat (length l).
Proof.
  revert data pb. induction l as [|c l IH]; intros data pb Hh Hall Hroom.
  - exists pb. cbn. rewrite app_nil_r. split; [reflexivity|]. split; [assumption|lia].
  - inversion Hall as [|? ? Hc Hall']; subst. cbn [length] in Hroom.
    destruct Hh as [Hok Hd].
    destruct (block_append_ok pb c Hok Hc ltac:(lia)) as (pb1 & Happ & Hok1 & Hl1 & _ & Ht1).
    destruct (IH (data ++ [c]) pb1) as (pb2 & Hrun & Hh2 & Hl2);
      [split; [assumption|]; rewrite Hl1, Ht1, Hd; reflexivity | assumption | lia |].
    exists pb2. cbn [shasm_block_addBytes]. rewrite Happ.
    cbn [mbind outcome_mbind outcome_bind Z.eqb]. rewrite Hrun.
    rewrite <- app_assoc in Hh2. cbn [app] in Hh2.
    split; [reflexivity|]. split; [assumption|]. cbn [length]. lia.
Qed.

Lemma shasm_block_alloc_holds : block_holds [] shasm_block_alloc.
Proof.
  unfold block_holds, block_ok, shasm_block_alloc. cbn. block_consts. cbn.
  repeat split; lia.
Qed.

(** Thirty-two thousand seven hundred and sixty-seven bytes appended to a
    fresh block reader are all accepted. The block is then one byte longer
    than [SHASM_BLOCK_MAXBUFFER - 1], it fills the whole buffer and leaves
    no terminating null; only the next append fails. *)
Lemma block_fills_to_ceiling :
  exists pb,
    shasm_block_addBytes shasm_block_alloc (replicate (Z.to_nat 32767) 0x61) = Done (1, pb) /\
    shasm_block_count pb = 32767 /\ buf_cap pb = 32767 /\
    shasm_block_data pb = replicate (Z.to_nat 32767) 0x61 /\
    shasm_block_addByte pb 0x61 = Done (0, pb).
Proof.
  destruct (block_append_many (replicate (Z.to_nat 32767) 0x61) [] shasm_block_alloc)
    as (pb & Hrun & Hh & Hl).
  - exact shasm_block_alloc_holds.
  - apply Forall_replicate. lia.
  - rewrite length_replicate. cbn [shasm_block_alloc buf_len]. block_consts. lia.
  - rewrite length_replicate in Hl. cbn [shasm_block_alloc buf_len] in Hl.
    exists pb. split; [exact Hrun|].
    destruct (block_holds_data _ _ Hh) as [Hd Hc]. cbn [app] in Hd, Hc.
    rewrite length_replicate in Hc.
    destruct Hh as [Hok _]. pose proof Hok as (_ & _ & Hcap & Hn). block_consts.
    split; [lia|]. split; [lia|]. split; [exact Hd|].
    apply block_append_full; [assumption | lia | block_consts; lia].
Qed.

(** ** The views of a block reader in error state *)

Lemma c_string_store_0 (p : list Z) : c_string (store p 0 0) = [].
Proof. destruct p; reflexivity. Qed.

(** C9: in an error state, whatever led to it, [shasm_block_count] gives
    0, [shasm_block_line] gives [LONG_MAX], and [shasm_block_ptr] gives a
    pointer to an empty string. *)
Theorem shasm_block_error_views (pb : SHASM_BLOCK) (null_term : Z) :
  code pb <> SHASM_OKAY ->
  shasm_block_count pb = 0 /\
  shasm_block_line pb = LONG_MAX /\
  exists p pb',
    shasm_block_ptr pb null_term = (Some p, pb') /\ c_string p = [] /\
    code pb' = code pb.
Proof.
  intros Herr.
  assert (is_okay (code pb) = false) as Hno
    by (destruct (code pb); [contradiction|reflexivity..]).
  unfold shasm_block_count, shasm_block_line, shasm_block_ptr. rewrite Hno.
  split; [reflexivity|]. split; [reflexivity|].
  eexists _, _. split; [reflexivity|]. split; [apply c_string_store_0 | reflexivity].
Qed.

(** An error state as a failed read leaves it: end of input where a token
    was expected. *)
Lemma shasm_block_token_eof :
  shasm_block_token 4 shasm_block_alloc (filtered_start []) =
    Done (0, mkBLOCK SHASM_ERR_EOF 1 32 0 0 (zeros 32), mkFiltered [] (-1) false 1).
Proof. vm_compute. reflexivity. Qed.

Lemma shasm_block_error_views_witness :
  let pb := mkBLOCK SHASM_ERR_EOF 1 32 0 0 (zeros 32) in
  code pb <> SHASM_OKAY /\
  shasm_block_count pb = 0 /\ shasm_block_line pb = LONG_MAX /\
  exists p pb',
    shasm_block_ptr pb 1 = (Some p, pb') /\ c_string p = [] /\ code pb' = code pb.
Proof.
  intros pb.
  assert (code pb <> SHASM_OKAY) as Herr by discriminate.
  split; [exact Herr|].
  exact (shasm_block_error_views pb 1 Herr).
Defined.

(** ** Surrogate pairs *)

Lemma pair_bits (offs : Z) :
  0 <= offs <= 0xfffff ->
  Z.land offs 0x3ff = offs mod 1024 /\
  Z.land (Z.shiftr offs 10) 0x3ff = offs / 1024 /\
  Z.shiftr offs 10 = offs / 1024.
Proof.
  intros Ho.
  change 0x3ff with (Z.ones 10). rewrite !Z.land_ones by lia.
  rewrite Z.shiftr_div_pow2 by lia. change (2 ^ 10) with 1024.
  repeat split. apply Z.mod_small.
  split; [apply Z.div_pos; lia | apply Z.div_lt_upper_bound; lia].
Qed.

Lemma shasm_block_pair_spec (e : Z) :
  SHASM_BLOCK_MINSUPPLEMENTAL <= e <= SHASM_BLOCK_MAXCODE ->
  let offs := e - 0x10000 in
  shasm_block_pair e = Done (0xD800 + Z.shiftr offs 10, 0xDC00 + Z.land offs 0x3FF) /\
  0 <= Z.shiftr offs 10 <= 0x3FF /\ 0 <= Z.land offs 0x3FF <= 0x3FF /\
  Z.shiftr offs 10 * 0x400 + Z.land offs 0x3FF + 0x10000 = e.
Proof.
  intros He offs. block_consts.
  destruct (pair_bits offs ltac:(subst offs; lia)) as (Hlo & Hhi & Hsh).
  unfold shasm_block_pair. block_consts. fold offs.
  destruct (Z.ltb_spec e 65536); [lia|]. rewrite Z.gtb_ltb.
  destruct (Z.ltb_spec 1114111 e); [lia|]. cbn [orb].
  rewrite Hhi, Hlo, Hsh.
  pose proof (Z.div_mod offs 1024 ltac:(lia)) as Hdm.
  pose proof (Z.mod_pos_bound offs 1024 ltac:(lia)) as Hm.
  assert (0 <= offs / 1024 <= 1023) as Hq
    by (split; [apply Z.div_pos; subst offs; lia
               | apply Z.lt_succ_r, Z.div_lt_upper_bound; subst offs; lia]).
  split; [f_equal; f_equal; lia|]. subst offs. lia.
Qed.

Lemma block_append_status (pb : SHASM_BLOCK) (c ok : Z) (pb' : SHASM_BLOCK) :
  shasm_block_addByte pb c = Done (ok, pb') ->
  (ok = 0 \/ ok = 1) /\ code pb' = code pb.
Proof.
  unfold shasm_block_addByte. destruct ((c <? 0) || (c >? 255)); [discriminate|].
  destruct (is_okay (code pb)); cbn [Z.eqb negb andb].
  - destruct (buf_len pb >=? buf_cap pb - 1).
    + destruct (buf_len pb >=? SHASM_BLOCK_MAXBUFFER); cbn [Z.eqb negb andb];
        intros [= <- <-]; auto.
    + intros [= <- <-]; auto.
  - intros [= <- <-]; auto.
Qed.

Lemma block_appends_status (l : list Z) (pb : SHASM_BLOCK) (ok : Z) (pb' : SHASM_BLOCK) :
  shasm_block_addBytes pb l = Done (ok, pb') ->
  (ok = 0 \/ ok = 1) /\ code pb' = code pb.
Proof.
  revert pb. induction l as [|c l IH]; intros pb; cbn [shasm_block_addBytes].
  - intros [= <- <-]; auto.
  - destruct (shasm_block_addByte pb c) as [[ok1 pb1]| |] eqn:Happ;
      cbn [mbind outcome_mbind outcome_bind]; try discriminate.
    destruct (block_append_status _ _ _ _ Happ) as [_ Hc1].
    destruct (Z.eqb_spec ok1 0).
    + intros [= <- <-]; auto.
    + intros Hrun. destruct (IH _ Hrun) as [? Hc2]. split; [assumption|congruence].
Qed.

(** Below the supplementary range [shasm_block_utf16] makes no nested
    call: it appends the two bytes of the unit. *)
Lemma shasm_block_utf16_unit (d : nat) (pb : SHASM_BLOCK) (v big : Z) :
  0 <= v < SHASM_BLOCK_MINSUPPLEMENTAL ->
  shasm_block_utf16 (S d) pb v big =
    if is_okay (code pb) then
      shasm_block_addBytes pb
        (if negb (big =? 0)
         then [Z.land (Z.shiftr v 8) 0xff; Z.land v 0xff]
         else [Z.land v 0xff; Z.land (Z.shiftr v 8) 0xff])
    else Done (0, pb).
Proof.
  intros Hv. block_consts. cbn [shasm_block_utf16]. block_consts.
  destruct (Z.ltb_spec v 0); [lia|]. rewrite Z.gtb_ltb.
  destruct (Z.ltb_spec 1114111 v); [lia|]. cbn [orb].
  rewrite Z.geb_leb. destruct (Z.leb_spec 65536 v); [lia|].
  destruct (is_okay (code pb)); cbn [Z.eqb negb andb mbind outcome_mbind outcome_bind];
    [|reflexivity].
  destruct (big =? 0); reflexivity.
Qed.

Lemma shasm_block_utf16_pair (pb : SHASM_BLOCK) (e big : Z) :
  SHASM_BLOCK_MINSUPPLEMENTAL <= e <= SHASM_BLOCK_MAXCODE ->
  let offs := e - 0x10000 in
  shasm_block_utf16 utf_depth pb e big =
    encode_then (shasm_block_utf16 utf_depth pb (0xD800 + Z.shiftr offs 10) big)
      (fun pb' => shasm_block_utf16 utf_depth pb' (0xDC00 + Z.land offs 0x3FF) big).
Proof.
  intros He offs.
  destruct (shasm_block_pair_spec e He) as (Hpair & Hhi & Hlo & _). fold offs in Hpair, Hhi, Hlo.
  unfold utf_depth, encode_then.
  rewrite (shasm_block_utf16_unit 1 pb (0xD800 + Z.shiftr offs 10) big) by (block_consts; lia).
  change (shasm_block_utf16 2 pb e big) with
    (if (e <? 0) || (e >? SHASM_BLOCK_MAXCODE) then Abort
     else
      let status := if is_okay (code pb) then 1 else 0 in
      '(status, pb, entity) ←
        (if negb (status =? 0) && (e >=? SHASM_BLOCK_MINSUPPLEMENTAL) then
           '(s1, s2) ← shasm_block_pair e;
           '(ok, pb) ← shasm_block_utf16 1 pb s1 big;
           Done (if ok =? 0 then 0 else status, pb, s2)
         else Done (status, pb, e));
      if negb (status =? 0) then
        let vb0 := Z.land entity 0xff in
        let vb1 := Z.land (Z.shiftr entity 8) 0xff in
        let '(vb0, vb1) := if negb (big =? 0) then (vb1, vb0) else (vb0, vb1) in
        shasm_block_addBytes pb [vb0; vb1]
      else Done (status, pb)).
  block_consts.
  destruct (Z.ltb_spec e 0); [lia|]. rewrite Z.gtb_ltb.
  destruct (Z.ltb_spec 1114111 e); [lia|]. cbn [orb].
  rewrite Z.geb_leb. destruct (Z.leb_spec 65536 e); [|lia].
  destruct (is_okay (code pb)) eqn:Hcode; cbn [Z.eqb negb andb mbind outcome_mbind outcome_bind];
    [|reflexivity].
  rewrite Hpair. cbn [mbind outcome_mbind outcome_bind].
  rewrite (shasm_block_utf16_unit 0 pb (55296 + Z.shiftr offs 10) big) by (block_consts; lia).
  rewrite Hcode.
  destruct (shasm_block_addBytes pb _) as [[ok pb1]| |] eqn:Happ;
    cbn [mbind outcome_mbind outcome_bind]; try reflexivity.
  destruct (block_appends_status _ _ _ _ Happ) as [Hok Hc1].
  destruct (Z.eqb_spec ok 0) as [->|Hnz]; cbn [Z.eqb negb]; [reflexivity|].
  rewrite (shasm_block_utf16_unit 1 pb1 (56320 + Z.land offs 1023) big) by (block_consts; lia).
  rewrite Hc1, Hcode. destruct (big =? 0); reflexivity.
Qed.

(** Below the supplementary range [shasm_block_utf8] makes no nested call,
    and the CESU-8 flag changes nothing. *)
Lemma shasm_block_utf8_unit (d : nat) (pb : SHASM_BLOCK) (v cesu8 : Z) :
  0 <= v < SHASM_BLOCK_MINSUPPLEMENTAL ->
  shasm_block_utf8 (S d) pb v cesu8 = shasm_block_utf8 1 pb v 0.
Proof.
  intros Hv. block_consts. cbn [shasm_block_utf8]. block_consts.
  destruct (Z.ltb_spec v 0); [lia|]. rewrite Z.gtb_ltb.
  destruct (Z.ltb_spec 1114111 v); [lia|]. cbn [orb].
  rewrite Z.geb_leb. destruct (Z.leb_spec 65536 v); [lia|].
  rewrite !andb_false_r. reflexivity.
Qed.

Lemma shasm_block_utf8_status (d : nat) :
  forall (pb : SHASM_BLOCK) (v cesu8 ok : Z) (pb' : SHASM_BLOCK),
  shasm_block_utf8 d pb v cesu8 = Done (ok, pb') ->
  (ok = 0 \/ ok = 1) /\ code pb' = code pb.
Proof.
  induction d as [|d IH]; intros pb v cesu8 ok pb'; cbn [shasm_block_utf8]; [discriminate|].
  destruct ((v <? 0) || (v >? SHASM_BLOCK_MAXCODE)); [discriminate|].
  destruct (is_okay (code pb)); cbn [Z.eqb negb andb];
    [|cbn [mbind outcome_mbind outcome_bind Z.eqb negb andb]; intros [= <- <-]; auto].
  assert (forall (pb1 : SHASM_BLOCK) (ent i : Z) (n : nat) (contb : list Z),
            code pb1 = code pb ->
            ('(ok1, pb2) ← shasm_block_addByte pb1 i;
             if ok1 =? 0 then Done (0, pb2)
             else shasm_block_addBytes pb2 (take n contb)) = Done (ok, pb') ->
            (ok = 0 \/ ok = 1) /\ code pb' = code pb) as Htail.
  { intros pb1 ent i n contb Hc1.
    destruct (shasm_block_addByte pb1 i) as [[ok1 pb2]| |] eqn:Happ;
      cbn [mbind outcome_mbind outcome_bind]; try discriminate.
    destruct (block_append_status _ _ _ _ Happ) as [_ Hc2].
    destruct (ok1 =? 0).
    - intros [= <- <-]. split; [auto|congruence].
    - intros Hrun. destruct (block_appends_status _ _ _ _ Hrun) as [? Hc3].
      split; [assumption|congruence]. }
  destruct (negb (cesu8 =? 0) && (v >=? SHASM_BLOCK_MINSUPPLEMENTAL)).
  - destruct (shasm_block_pair v) as [[s1 s2]| |];
      cbn [mbind outcome_mbind outcome_bind]; try discriminate.
    destruct (shasm_block_utf8 d pb s1 0) as [[ok1 pb1]| |] eqn:Hfirst;
      cbn [mbind outcome_mbind outcome_bind]; try discriminate.
    destruct (IH _ _ _ _ _ Hfirst) as [_ Hc1].
    destruct (ok1 =? 0); cbn [Z.eqb negb andb].
    + intros [= <- <-]. auto.
    + destruct (utf8_extract _ _ _ _) as [contb ent].
      apply (Htail pb1 ent); exact Hc1.
  - cbn [mbind outcome_mbind outcome_bind Z.eqb negb andb].
    destruct (utf8_extract _ _ _ _) as [contb ent].
    apply (Htail pb ent); reflexivity.
Qed.

Lemma shasm_block_utf8_pair_step (d : nat) (pb : SHASM_BLOCK) (e : Z) :
  SHASM_BLOCK_MINSUPPLEMENTAL <= e <= SHASM_BLOCK_MAXCODE ->
  let offs := e - 0x10000 in
  shasm_block_utf8 (S d) pb e 1 =
    if is_okay (code pb) then
      encode_then (shasm_block_utf8 d pb (0xD800 + Z.shiftr offs 10) 0)
        (fun pb' => shasm_block_utf8 1 pb' (0xDC00 + Z.land offs 0x3FF) 0)
    else Done (0, pb).
Proof.
  intros He offs.
  destruct (shasm_block_pair_spec e He) as (Hpair & Hhi & Hlo & _). fold offs in Hpair, Hhi, Hlo.
  set (k := fun pb' : SHASM_BLOCK => shasm_block_utf8 1 pb' _ 0).
  cbn [shasm_block_utf8]. block_consts.
  destruct (Z.ltb_spec e 0); [lia|]. rewrite Z.gtb_ltb.
  destruct (Z.ltb_spec 1114111 e); [lia|]. cbn [orb].
  rewrite Z.geb_leb. destruct (Z.leb_spec 65536 e); [|lia].
  destruct (is_okay (code pb)) eqn:Hcode; cbn [Z.eqb negb andb mbind outcome_mbind outcome_bind];
    [|reflexivity].
  rewrite Hpair. unfold encode_then. cbn [mbind outcome_mbind outcome_bind].
  destruct (shasm_block_utf8 d pb _ 0) as [[ok pb1]| |] eqn:Hfirst;
    cbn [mbind outcome_mbind outcome_bind]; try reflexivity.
  destruct (shasm_block_utf8_status _ _ _ _ _ _ Hfirst) as [Hok Hc1].
  destruct (Z.eqb_spec ok 0) as [->|Hnz]; cbn [Z.eqb negb andb]; [reflexivity|].
  subst k. cbn [shasm_block_utf8]. block_consts.
  destruct (Z.ltb_spec (56320 + Z.land offs 1023) 0); [lia|]. rewrite Z.gtb_ltb.
  destruct (Z.ltb_spec 1114111 (56320 + Z.land offs 1023)); [lia|]. cbn [orb].
  rewrite Hc1, Hcode. cbn [Z.eqb negb andb mbind outcome_mbind outcome_bind].
  reflexivity.
Qed.

(** A supplementary code in CESU-8: the encoder does what it does on the
    high surrogate, then what it does on the low one. *)
Lemma shasm_block_utf8_pair (pb : SHASM_BLOCK) (e : Z) :
  SHASM_BLOCK_MINSUPPLEMENTAL <= e <= SHASM_BLOCK_MAXCODE ->
  let offs := e - 0x10000 in
  shasm_block_utf8 utf_depth pb e 1 =
    encode_then (shasm_block_utf8 utf_depth pb (0xD800 + Z.shiftr offs 10) 1)
      (fun pb' => shasm_block_utf8 utf_depth pb' (0xDC00 + Z.land offs 0x3FF) 1).
Proof.
  intros He offs.
  destruct (shasm_block_pair_spec e He) as (_ & Hhi & Hlo & _). fold offs in Hhi, Hlo.
  unfold utf_depth.
  rewrite (shasm_block_utf8_pair_step 1 pb e He). fold offs.
  rewrite (shasm_block_utf8_unit 1 pb (0xD800 + Z.shiftr offs 10) 1) by (block_consts; lia).
  unfold encode_then.
  destruct (is_okay (code pb)) eqn:Hcode.
  - destruct (shasm_block_utf8 1 pb _ 0) as [[ok pb1]| |];
      cbn [mbind outcome_mbind outcome_bind]; try reflexivity.
    destruct (ok =? 0); [reflexivity|].
    symmetry. apply shasm_block_utf8_unit. block_consts. lia.
  - assert (shasm_block_utf8 1 pb (0xD800 + Z.shiftr offs 10) 0 = Done (0, pb)) as ->.
    { cbn [shasm_block_utf8]. block_consts.
      destruct (Z.ltb_spec (55296 + Z.shiftr offs 10) 0); [lia|]. rewrite Z.gtb_ltb.
      destruct (Z.ltb_spec 1114111 (55296 + Z.shiftr offs 10)); [lia|]. cbn [orb].
      rewrite Hcode. reflexivity. }
    reflexivity.
Qed.

(** C7: for a supplementary code the split gives the high surrogate
    D800 + (offset >> 10) and the low surrogate DC00 + (offset & 3FF),
    each in its range; recombining them gives the code back; and the
    UTF-16 and CESU-8 encoders write the high surrogate first, then the
    low one. *)
Theorem shasm_block_pair_roundtrip (e : Z) :
  0x10000 <= e <= 0x10FFFF ->
  exists hi lo,
    shasm_block_pair e = Done (hi, lo) /\
    hi = 0xD800 + Z.shiftr (e - 0x10000) 10 /\
    lo = 0xDC00 + Z.land (e - 0x10000) 0x3FF /\
    0xD800 <= hi <= 0xDBFF /\ 0xDC00 <= lo <= 0xDFFF /\
    (hi - 0xD800) * 0x400 + (lo - 0xDC00) + 0x10000 = e /\
    forall pb,
      (forall big,
         shasm_block_utf16 utf_depth pb e big =
           encode_then (shasm_block_utf16 utf_depth pb hi big)
             (fun pb' => shasm_block_utf16 utf_depth pb' lo big)) /\
      shasm_block_utf8 utf_depth pb e 1 =
        encode_then (shasm_block_utf8 utf_depth pb hi 1)
          (fun pb' => shasm_block_utf8 utf_depth pb' lo 1).
Proof.
  intros He.
  destruct (shasm_block_pair_spec e ltac:(block_consts; lia)) as (Hpair & Hhi & Hlo & Hback).
  eexists _, _. split; [exact Hpair|]. split; [reflexivity|]. split; [reflexivity|].
  split; [lia|]. split; [lia|]. split; [lia|].
  intros pb. split.
  - intros big. apply shasm_block_utf16_pair. block_consts. lia.
  - apply shasm_block_utf8_pair. block_consts. lia.
Qed.

Lemma shasm_block_pair_roundtrip_witness :
  0x10000 <= 0x10348 <= 0x10FFFF /\
  shasm_block_pair 0x10348 = Done (0xD800, 0xDF48) /\
  (0xD800 - 0xD800) * 0x400 + (0xDF48 - 0xDC00) + 0x10000 = 0x10348.
Proof.
  assert (0x10000 <= 0x10348 <= 0x10FFFF) as H by lia.
  split; [exact H|].
  destruct (shasm_block_pair_roundtrip 0x10348 H)
    as (hi & lo & Hp & Hhi & Hlo & _ & _ & Hback & _).
  subst hi lo. split; [exact Hp | exact Hback].
Defined.

(** ** The encoder dispatch *)

Lemma shasm_block_ereg_status (pb : SHASM_BLOCK) (e : Z) (penc : SHASM_BLOCK_ENCODER)
    (pt : SHASM_BLOCK_TBUF) (ok : Z) (pb' : SHASM_BLOCK) (pt' : SHASM_BLOCK_TBUF) :
  shasm_block_ereg pb e penc pt = Done (ok, pb', pt') -> ok = 0 \/ ok = 1.
Proof.
  unfold shasm_block_ereg. destruct (e <? 0); [discriminate|].
  destruct (while_loop _ _ _ _) as [[[st lv] pt1]| |] eqn:Hloop;
    cbn [mbind outcome_mbind outcome_bind]; try discriminate.
  apply (while_loop_invariant (fun s => fst (fst s) = 0 \/ fst (fst s) = 1)) in Hloop.
  - destruct Hloop as [Hst _]. cbn [fst] in Hst.
    destruct (Z.eqb_spec st 0) as [->|Hnz]; cbn [negb].
    + intros [= <- _ _]. auto.
    + destruct (shasm_block_addBytes pb _) as [[ok1 pb1]| |] eqn:Happ;
        cbn [mbind outcome_mbind outcome_bind]; try discriminate.
      intros [= <- _ _]. exact (proj1 (block_appends_status _ _ _ _ Happ)).
  - intros [[st0 lv0] pt0] s' Hs _. cbn [fst] in Hs. unfold shasm_block_ereg_body.
    destruct (fpMap penc e _ _) as [lv1 written].
    destruct (_ >=? lv1); [discriminate|].
    destruct (shasm_block_tbuf_widen _ _) as [[ok1 pt2]| |];
      cbn [mbind outcome_mbind outcome_bind]; try discriminate.
    intros [= <-]. cbn [fst]. destruct (ok1 =? 0); auto.
  - intros [[st0 lv0] pt0] s' Hs _. cbn [fst] in Hs. unfold shasm_block_ereg_body.
    destruct (fpMap penc e _ _) as [lv1 written].
    destruct (_ >=? lv1).
    + intros [= <-]. exact Hs.
    + destruct (shasm_block_tbuf_widen _ _) as [[ok1 pt2]| |];
        cbn [mbind outcome_mbind outcome_bind]; discriminate.
  - cbn [fst]. destruct (is_okay (code pb)); auto.
Qed.

Lemma shasm_block_ereg_error (pb : SHASM_BLOCK) (e : Z) (penc : SHASM_BLOCK_ENCODER)
    (pt : SHASM_BLOCK_TBUF) :
  0 <= e -> is_okay (code pb) = false ->
  shasm_block_ereg pb e penc pt = Done (0, pb, pt).
Proof.
  intros He Hno. unfold shasm_block_ereg. rewrite Hno.
  destruct (Z.ltb_spec e 0); [lia|].
  rewrite while_loop_stops by reflexivity. reflexivity.
Qed.

(** ** The encoding table backend returns *)

Lemma tbuf_double_returns (fuel : nat) :
  forall tl tlen, 1 <= tl -> tlen < tl * 2 ^ Z.of_nat fuel ->
  exists r, tbuf_double fuel tl tlen = Done r /\ tlen <= r /\ tl <= r.
Proof.
  induction fuel as [|fuel IH]; intros tl tlen Htl Hlt.
  - cbn [tbuf_double]. change (2 ^ Z.of_nat 0) with 1 in Hlt.
    destruct (Z.ltb_spec tl tlen); [lia|]. exists tl. split; [reflexivity|lia].
  - cbn [tbuf_double]. destruct (Z.ltb_spec tl tlen); [|exists tl; split; [reflexivity|lia]].
    destruct (IH (tl * 2) tlen) as (r & Hr & ? & ?); [lia| |].
    + rewrite Nat2Z.inj_succ, Z.pow_succ_r in Hlt by lia. lia.
    + exists r. split; [exact Hr|lia].
Qed.

Lemma shasm_block_tbuf_widen_spec (pt : SHASM_BLOCK_TBUF) (tlen : Z) :
  0 <= tlen -> 0 <= len pt <= SHASM_BLOCK_MAXBUFFER ->
  exists ok pt',
    shasm_block_tbuf_widen pt tlen = Done (ok, pt') /\
    0 <= len pt' <= SHASM_BLOCK_MAXBUFFER /\
    (ok <> 0 -> tlen <= len pt').
Proof.
  intros Ht Hl. unfold shasm_block_tbuf_widen. block_consts.
  destruct (Z.ltb_spec tlen 0); [lia|]. rewrite !Z.gtb_ltb.
  destruct (Z.ltb_spec 32767 tlen) as [Hbig|Hfit]; cbn [Z.eqb negb andb].
  - cbn [mbind outcome_mbind outcome_bind]. eexists _, _. split; [reflexivity|].
    split; [assumption|]. intros; contradiction.
  - destruct (Z.ltb_spec (len pt) tlen) as [Hgrow|Hok].
    + destruct (tbuf_double_returns 64 (if len pt <? 1 then 8 else len pt) tlen)
        as (r & Hr & Hr1 & Hr2).
      * destruct (Z.ltb_spec (len pt) 1); lia.
      * destruct (Z.ltb_spec (len pt) 1); change (2 ^ Z.of_nat 64) with 18446744073709551616; lia.
      * rewrite Hr. cbn [mbind outcome_mbind outcome_bind len].
        set (tl := if r >? 32767 then 32767 else r).
        assert (tlen <= tl <= 32767) as Htl.
        { subst tl. rewrite Z.gtb_ltb. destruct (Z.ltb_spec 32767 r); lia. }
        clearbody tl.
        destruct (tl >? 0); eexists _, _; (split; [reflexivity|]); cbn [len]; lia.
    + cbn [mbind outcome_mbind outcome_bind].
      destruct (len pt >? 0); eexists _, _; (split; [reflexivity|]);
        cbn [len]; lia.
Qed.

Lemma shasm_block_addBytes_returns (l : list Z) (pb : SHASM_BLOCK) :
  Forall (fun c => 0 <= c <= 255) l -> exists r, shasm_block_addBytes pb l = Done r.
Proof.
  revert pb. induction l as [|c l IH]; intros pb Hall; cbn [shasm_block_addBytes]; [eauto|].
  inversion Hall as [|? ? Hc Hall']; subst.
  assert (exists ok pb1, shasm_block_addByte pb c = Done (ok, pb1)) as (ok & pb1 & ->).
  { unfold shasm_block_addByte.
    destruct (Z.ltb_spec c 0); [lia|]. rewrite Z.gtb_ltb.
    destruct (Z.ltb_spec 255 c); [lia|]. cbn [orb].
    match goal with
    | |- context [let '(_, _) := ?X in _] => destruct X as [st pb2]
    end.
    destruct (negb (st =? 0)); eauto. }
  cbn [mbind outcome_mbind outcome_bind]. destruct (ok =? 0); eauto.
Qed.

(** [shasm_block_ereg] returns, whatever the table answers: its loop ends
    within the bound of the model. *)
Lemma shasm_block_ereg_returns (pb : SHASM_BLOCK) (e : Z) (penc : SHASM_BLOCK_ENCODER)
    (pt : SHASM_BLOCK_TBUF) :
  0 <= e -> 0 <= len pt <= SHASM_BLOCK_MAXBUFFER ->
  exists r, shasm_block_ereg pb e penc pt = Done r.
Proof.
  intros He Hl. unfold shasm_block_ereg. destruct (Z.ltb_spec e 0); [lia|].
  destruct (while_loop_returns
              (fun s : Z * Z * SHASM_BLOCK_TBUF => 0 <= len (snd s) <= SHASM_BLOCK_MAXBUFFER)
              (fun s => Z.to_nat (SHASM_BLOCK_MAXBUFFER - len (snd s)))
              (fun s => negb (fst (fst s) =? 0))
              (shasm_block_ereg_body e penc)) with
    (fuel := ereg_fuel) (s := (if is_okay (code pb) then 1 else 0, 0, pt)) as [[[st lv] pt1] Hloop].
  - intros [[st0 lv0] pt0] Hs _. cbn [snd] in Hs. unfold shasm_block_ereg_body.
    unfold shasm_block_tbuf_ptr, shasm_block_tbuf_len.
    destruct (fpMap penc e (pTBuf pt0) (len pt0)) as [lv1 written]. cbn [len].
    rewrite Z.geb_leb. destruct (Z.leb_spec lv1 (len pt0)) as [Hfit|Hmore]; [left; eauto|].
    right.
    destruct (shasm_block_tbuf_widen_spec
                (mkTBUF (len pt0) (resize (Z.to_nat (len pt0)) x00 written)) lv1)
      as (ok & pt2 & -> & Hl2 & Hwide); [lia | exact Hs |].
    cbn [mbind outcome_mbind outcome_bind]. eexists. split; [reflexivity|].
    cbn [fst snd]. split; [exact Hl2|].
    destruct (Z.eqb_spec ok 0) as [->|Hnz]; cbn [Z.eqb negb]; [discriminate|].
    intros _. specialize (Hwide Hnz). lia.
  - cbn [snd]. exact Hl.
  - cbn [snd]. unfold ereg_fuel. lia.
  - rewrite Hloop. cbn [mbind outcome_mbind outcome_bind].
    destruct (negb (st =? 0)); [|eauto].
    destruct (shasm_block_addBytes_returns
                (map byte_val (take (Z.to_nat lv) (shasm_block_tbuf_ptr pt1))) pb) as [[ok pb1] ->].
    + apply Forall_map, Forall_forall. intros b _. apply ShastinaFacts.byte_val_range.
    + cbn [mbind outcome_mbind outcome_bind]. eauto.
Qed.

(** With the table selected, [shasm_block_encode] is [shasm_block_ereg]. *)
Lemma shasm_block_encode_none (pb : SHASM_BLOCK) (e : Z) (penc : SHASM_BLOCK_ENCODER)
    (o_strict : Z) (pt : SHASM_BLOCK_TBUF) :
  0 <= e ->
  shasm_block_encode pb e penc SHASM_BLOCK_OMODE_NONE o_strict pt =
    shasm_block_ereg pb e penc pt.
Proof.
  intros He. unfold shasm_block_encode.
  destruct (Z.ltb_spec e 0); [lia|].
  destruct (is_okay (code pb)) eqn:Hcode; cbn [Z.eqb negb andb].
  - assert ((if (e >? SHASM_BLOCK_MAXCODE)
             then SHASM_BLOCK_OMODE_NONE else SHASM_BLOCK_OMODE_NONE) = SHASM_BLOCK_OMODE_NONE)
      as -> by (destruct (e >? SHASM_BLOCK_MAXCODE); reflexivity).
    assert ((if negb (o_strict =? 0) && (e >=? SHASM_BLOCK_MINSURROGATE) &&
                (e <=? SHASM_BLOCK_MAXSURROGATE)
             then SHASM_BLOCK_OMODE_NONE else SHASM_BLOCK_OMODE_NONE) = SHASM_BLOCK_OMODE_NONE)
      as -> by (destruct (_ && _); reflexivity).
    cbn [SHASM_BLOCK_OMODE_NONE Z.eqb].
    destruct (shasm_block_ereg pb e penc pt) as [[[ok pb1] pt1]| |] eqn:Hereg;
      cbn [mbind outcome_mbind outcome_bind]; try reflexivity.
    destruct (shasm_block_ereg_status _ _ _ _ _ _ _ Hereg) as [->| ->]; reflexivity.
  - rewrite shasm_block_ereg_error by assumption. reflexivity.
Qed.

(** C6: for an entity above the Unicode range, or a surrogate in strict
    mode, [shasm_block_encode] does what the encoding table backend
    [shasm_block_ereg] does, result and buffers included, whatever the
    override mode; the mode has no effect. With a temporary buffer within
    its bounds the call returns. *)
Theorem shasm_block_encode_forced_none (pb : SHASM_BLOCK) (e : Z)
    (penc : SHASM_BLOCK_ENCODER) (o_over o_strict : Z) (pt : SHASM_BLOCK_TBUF) :
  e > SHASM_BLOCK_MAXCODE \/
  (o_strict <> 0 /\ SHASM_BLOCK_MINSURROGATE <= e <= SHASM_BLOCK_MAXSURROGATE) ->
  shasm_block_encode pb e penc o_over o_strict pt = shasm_block_ereg pb e penc pt /\
  shasm_block_encode pb e penc o_over o_strict pt =
    shasm_block_encode pb e penc SHASM_BLOCK_OMODE_NONE o_strict pt /\
  (0 <= len pt <= SHASM_BLOCK_MAXBUFFER ->
   exists r, shasm_block_encode pb e penc o_over o_strict pt = Done r).
Proof.
  intros Hforced.
  assert (0 <= e) as He by (block_consts; lia).
  assert (shasm_block_encode pb e penc o_over o_strict pt =
          shasm_block_encode pb e penc SHASM_BLOCK_OMODE_NONE o_strict pt) as Hsame.
  { unfold shasm_block_encode.
    destruct (Z.ltb_spec e 0); [lia|].
    destruct (is_okay (code pb)); cbn [Z.eqb negb andb]; [|reflexivity].
    rewrite Z.gtb_ltb, Z.geb_leb. block_consts.
    destruct Hforced as [Hbig|(Hs & Hr)].
    - destruct (Z.ltb_spec 1114111 e); [|lia].
      destruct (_ && _); reflexivity.
    - destruct (Z.ltb_spec 1114111 e); [lia|].
      destruct (Z.eqb_spec o_strict 0); [contradiction|].
      destruct (Z.leb_spec 55296 e); [|lia].
      destruct (Z.leb_spec e 57343); [|lia]. reflexivity. }
  assert (shasm_block_encode pb e penc o_over o_strict pt = shasm_block_ereg pb e penc pt)
    as Hereg by (rewrite Hsame; apply shasm_block_encode_none, He).
  split; [exact Hereg|]. split; [exact Hsame|].
  intros Hlen. rewrite Hereg. apply shasm_block_ereg_returns; assumption.
Qed.

Lemma shasm_block_encode_forced_none_witness :
  let penc := mkENCODER (fun _ buf _ => (0, buf)) in
  0x200005 > SHASM_BLOCK_MAXCODE /\
  shasm_block_encode shasm_block_alloc 0x200005 penc SHASM_BLOCK_OMODE_UTF8 1
     shasm_block_tbuf_init =
    shasm_block_ereg shasm_block_alloc 0x200005 penc shasm_block_tbuf_init.
Proof.
  intros penc.
  assert (0x200005 > SHASM_BLOCK_MAXCODE) as H by reflexivity.
  split; [exact H|].
  exact (proj1 (shasm_block_encode_forced_none shasm_block_alloc 0x200005 penc
                  SHASM_BLOCK_OMODE_UTF8 1 shasm_block_tbuf_init (or_introl H))).
Defined.

(** ** The token scanner of shasm_block.c *)

Section TokenFacts.
Context `{ShasmInput IFL}.

Lemma shasm_block_seterr_returns (pb : SHASM_BLOCK) (ps : IFL) (err : shasm_code) :
  err <> SHASM_OKAY -> exists pb', shasm_block_seterr pb ps err = Done pb'.
Proof.
  intros He. unfold shasm_block_seterr.
  destruct err; [contradiction|..]; cbn [is_okay]; destruct (is_okay (code pb)); eauto.
Qed.

(** A check that leaves the status non-zero has changed nothing. *)
Lemma token_check_input_pass (status c : Z) (pb : SHASM_BLOCK) (ps : IFL)
    (st' : Z) (pb' : SHASM_BLOCK) :
  token_check_input status c pb ps = Done (st', pb') -> st' <> 0 ->
  st' = status /\ pb' = pb.
Proof.
  unfold token_check_input. intros Hrun Hnz.
  destruct (c =? SHASM_INPUT_EOF).
  - destruct (shasm_block_seterr pb ps SHASM_ERR_EOF);
      cbn [mbind outcome_mbind outcome_bind] in Hrun; congruence.
  - destruct (c =? SHASM_INPUT_IOERR).
    + destruct (shasm_block_seterr pb ps SHASM_ERR_IO);
        cbn [mbind outcome_mbind outcome_bind] in Hrun; congruence.
    + injection Hrun as <- <-. auto.
Qed.

Lemma token_check_range_pass (status c : Z) (pb : SHASM_BLOCK) (ps : IFL)
    (st' : Z) (pb' : SHASM_BLOCK) :
  token_check_range status c pb ps = Done (st', pb') -> st' <> 0 ->
  st' = status /\ pb' = pb.
Proof.
  unfold token_check_range. intros Hrun Hnz.
  destruct (_ && _).
  - destruct (shasm_block_seterr pb ps SHASM_ERR_TOKENCHAR);
      cbn [mbind outcome_mbind outcome_bind] in Hrun; congruence.
  - injection Hrun as <- <-. auto.
Qed.

Lemma token_add_pass (data : list Z) (status c : Z) (pb : SHASM_BLOCK) (ps : IFL)
    (st' : Z) (pb' : SHASM_BLOCK) :
  token_add status c pb ps = Done (st', pb') -> st' <> 0 -> block_holds data pb ->
  st' = status /\ block_holds (data ++ [c]) pb'.
Proof.
  unfold token_add. intros Hrun Hnz Hh.
  destruct (shasm_block_addByte pb c) as [[ok pb1]| |] eqn:Happ;
    cbn [mbind outcome_mbind outcome_bind] in Hrun; try discriminate.
  destruct (Z.eqb_spec ok 0) as [->|Hok].
  - destruct (shasm_block_seterr pb1 ps SHASM_ERR_HUGEBLOCK);
      cbn [mbind outcome_mbind outcome_bind] in Hrun; congruence.
  - injection Hrun as <- <-. split; [reflexivity|].
    exact (proj1 (block_holds_append data pb c ok pb1 Hh Happ Hok)).
Qed.

Lemma token_more_body_keeps (data0 : list Z) (t : tokenizer IFL) (ctl : loop_ctl (tokenizer IFL)) :
  token_keeps data0 t -> tokenizer_running t = true ->
  token_more_body t = Done ctl ->
  match ctl with Continue t' | Break t' => token_keeps data0 t' end.
Proof.
  intros Hk Hrun Hb. unfold tokenizer_running in Hrun.
  apply negb_true_iff, Z.eqb_neq in Hrun. destruct (Hk Hrun) as [tl Hh].
  unfold token_more_body in Hb.
  destruct (shasm_input_get (t_ps t)) as [c ps1].
  destruct (token_check_input (t_status t) c (t_pb t) ps1) as [[st1 pb1]| |] eqn:Hci;
    cbn [mbind outcome_mbind outcome_bind] in Hb; try discriminate.
  assert (Hk1 : st1 <> 0 -> block_holds (data0 ++ tl) pb1).
  { intros Hnz. destruct (token_check_input_pass _ _ _ _ _ _ Hci Hnz) as [_ ->]. exact Hh. }
  destruct (negb (st1 =? 0) && is_token_stop c).
  - injection Hb as <-. intros Hnz. cbn in Hnz. exists tl. cbn. auto.
  - destruct (token_check_range st1 c pb1 ps1) as [[st2 pb2]| |] eqn:Hcr;
      cbn [mbind outcome_mbind outcome_bind] in Hb; try discriminate.
    assert (Hk2 : st2 <> 0 -> block_holds (data0 ++ tl) pb2).
    { intros Hnz. destruct (token_check_range_pass _ _ _ _ _ _ Hcr Hnz) as [-> ->]. auto. }
    destruct (Z.eqb_spec st2 0) as [->|Hnz2]; cbn [negb] in Hb.
    + cbn [mbind outcome_mbind outcome_bind] in Hb. injection Hb as <-.
      intros Hnz. cbn in Hnz. contradiction.
    + destruct (token_add st2 c pb2 ps1) as [[st3 pb3]| |] eqn:Hadd;
        cbn [mbind outcome_mbind outcome_bind] in Hb; try discriminate.
      injection Hb as <-. intros Hnz. cbn in Hnz. cbn [t_pb].
      destruct (token_add_pass _ _ _ _ _ _ _ Hadd Hnz (Hk2 Hnz2)) as [_ Hh3].
      exists (tl ++ [c]). rewrite app_assoc. exact Hh3.
Qed.

Lemma shasm_block_clear_holds (pb : SHASM_BLOCK) :
  block_ok pb -> block_holds [] (shasm_block_clear pb).
Proof.
  intros (Hc & Hl & Hcap & Hn). unfold block_holds, block_ok, shasm_block_clear.
  cbn [code line buf_cap buf_len null_present pBuf].
  rewrite length_memset0 by lia. repeat split; try assumption; lia.
Qed.

(** The loop over blanks and comments keeps the block reader sound while
    the status is non-zero. *)
Lemma token_skip_body_ok (fuel : nat) (t : tokenizer IFL) (ctl : loop_ctl (tokenizer IFL)) :
  (t_status t <> 0 -> block_ok (t_pb t)) -> tokenizer_running t = true ->
  token_skip_body fuel t = Done ctl ->
  match ctl with
  | Continue t' | Break t' => t_status t' <> 0 -> block_ok (t_pb t')
  end.
Proof.
  intros Hk Hrun Hb. unfold tokenizer_running in Hrun.
  apply negb_true_iff, Z.eqb_neq in Hrun. specialize (Hk Hrun).
  unfold token_skip_body in Hb.
  destruct (shasm_input_get_while fuel is_token_blank (t_ps t)) as [[c ps1]| |];
    cbn [mbind outcome_mbind outcome_bind] in Hb; try discriminate.
  destruct (token_check_input (t_status t) c (t_pb t) ps1) as [[st1 pb1]| |] eqn:Hci;
    cbn [mbind outcome_mbind outcome_bind] in Hb; try discriminate.
  assert (Hk1 : st1 <> 0 -> block_ok pb1).
  { intros Hnz. destruct (token_check_input_pass _ _ _ _ _ _ Hci Hnz) as [_ ->]. exact Hk. }
  destruct (negb (st1 =? 0) && negb (c =? SHASM_ASCII_AMPERSAND)).
  - injection Hb as <-. cbn [t_status t_pb]. intros Hnz.
    destruct (Hk1 Hnz) as (? & ? & ? & ?). unfold block_ok. cbn. auto.
  - destruct (Z.eqb_spec st1 0) as [->|Hnz1]; cbn [negb] in Hb.
    + injection Hb as <-. cbn. intros; contradiction.
    + destruct (shasm_input_get_while fuel in_token_comment ps1) as [[c2 ps2]| |];
        cbn [mbind outcome_mbind outcome_bind] in Hb; try discriminate.
      destruct (token_check_input st1 c2 pb1 ps2) as [[st2 pb2]| |] eqn:Hci2;
        cbn [mbind outcome_mbind outcome_bind] in Hb; try discriminate.
      injection Hb as <-. cbn [t_status t_pb]. intros Hnz.
      destruct (token_check_input_pass _ _ _ _ _ _ Hci2 Hnz) as [_ ->]. auto.
Qed.

Lemma token_atomic_not_open (c : Z) (pb : SHASM_BLOCK) :
  load (pBuf pb) 0 = c -> token_atomic c = true -> token_is_open pb = false.
Proof.
  intros Hl Ha. unfold token_is_open, token_atomic in *. rewrite Hl.
  repeat match type of Ha with
  | (_ || _) = true => apply orb_true_iff in Ha as [Ha|Ha]
  end; rewrite Ha; cbn [negb andb]; rewrite ?andb_false_r; reflexivity.
Qed.

(** The stages of [shasm_block_token] after the first character, on a
    block that holds it. *)
Lemma shasm_block_token_rest (fuel : nat) (c0 : Z) (tl0 : list Z) (status : Z)
    (pb : SHASM_BLOCK) (ps : IFL)
    (st' : Z) (pb' : SHASM_BLOCK) (ps' : IFL) :
  block_holds (c0 :: tl0) pb -> status <> 0 ->
  (if negb (status =? 0) && token_is_open pb then
     t ← while_loop fuel tokenizer_running token_more_body (mkTokenizer status 0 pb ps);
     let '(status, c, pb, ps) := (t_status t, t_c t, t_pb t, t_ps t) in
     if negb (status =? 0) && is_token_inclusive c then
       '(status, pb) ← token_add status c pb ps;
       Done (status, pb, ps)
     else if negb (status =? 0) then Done (status, pb, shasm_input_back ps)
     else Done (status, pb, ps)
   else Done (status, pb, ps)) = Done (st', pb', ps') ->
  st' <> 0 ->
  (exists tl, block_holds (c0 :: tl) pb') /\
  (token_atomic c0 = true -> pb' = pb /\ ps' = ps).
Proof.
  intros Hh Hst Hrun Hnz.
  assert (Hload : load (pBuf pb) 0 = c0)
    by (apply (block_holds_load (c0 :: tl0) pb 0%nat Hh); cbn; lia).
  destruct (Z.eqb_spec status 0); [contradiction|]. cbn [negb andb] in Hrun.
  destruct (token_is_open pb) eqn:Hopen.
  - split; [|intros Ha; rewrite (token_atomic_not_open c0 pb Hload Ha) in Hopen; discriminate].
    destruct (while_loop _ _ _ _) as [t| |] eqn:Hloop;
      cbn [mbind outcome_mbind outcome_bind] in Hrun; try discriminate.
    apply (while_loop_invariant (token_keeps (c0 :: tl0))) in Hloop.
    + destruct Hloop as [Hk _]. unfold token_keeps in Hk.
      destruct (Z.eqb_spec (t_status t) 0) as [Hz|Hz']; cbn [negb andb] in Hrun.
      * injection Hrun as <- _ _. contradiction.
      * destruct (Hk Hz') as [tl Htl]. cbn [app] in Htl.
        destruct (is_token_inclusive (t_c t)).
        -- destruct (token_add _ _ _ _) as [[st3 pb3]| |] eqn:Hadd;
             cbn [mbind outcome_mbind outcome_bind] in Hrun; try discriminate.
           injection Hrun as <- <- _.
           destruct (token_add_pass _ _ _ _ _ _ _ Hadd Hnz Htl) as [_ Hh3].
           cbn [app] in Hh3. eauto.
        -- injection Hrun as _ <- _. eauto.
    + intros s s' Hs Hc Hb. exact (token_more_body_keeps (c0 :: tl0) s _ Hs Hc Hb).
    + intros s s' Hs Hc Hb. exact (token_more_body_keeps (c0 :: tl0) s _ Hs Hc Hb).
    + intros _. exists []. rewrite app_nil_r. exact Hh.
  - injection Hrun as <- <- <-. split; [exists tl0; exact Hh | auto].
Qed.

(** A successful [shasm_block_token]: the token starts with the first
    character read after the blanks and comments, and when that character
    is one of the ten of [token_atomic] the token is that character and
    nothing more was read. *)
Lemma shasm_block_token_first (fuel : nat) (pb : SHASM_BLOCK) (ps : IFL)
    (st' : Z) (pb' : SHASM_BLOCK) (ps' : IFL) :
  block_ok pb -> shasm_block_token fuel pb ps = Done (st', pb', ps') -> st' <> 0 ->
  exists t c0 ps1,
    while_loop fuel tokenizer_running (token_skip_body fuel) (mkTokenizer 1 0 pb ps) = Done t /\
    shasm_input_get (t_ps t) = (c0, ps1) /\
    (exists tl, block_holds (c0 :: tl) pb') /\
    (token_atomic c0 = true -> block_holds [c0] pb' /\ ps' = ps1).
Proof.
  intros Hok Hrun Hnz. unfold shasm_block_token in Hrun.
  pose proof Hok as (Hcode & _). rewrite Hcode in Hrun. cbn [is_okay] in Hrun.
  destruct (while_loop _ _ _ _) as [t| |] eqn:Hskip;
    cbn [mbind outcome_mbind outcome_bind] in Hrun; try discriminate.
  exists t.
  destruct (Z.eqb_spec (t_status t) 0) as [Hz|Hz].
  { (* the status was lost among the blanks: nothing else happens *)
    cbn [negb andb mbind outcome_mbind outcome_bind] in Hrun.
    destruct (Z.eqb_spec (t_status t) 0); [|contradiction].
    cbn [negb andb mbind outcome_mbind outcome_bind] in Hrun.
    destruct (Z.eqb_spec (t_status t) 0); [|contradiction].
    cbn [negb andb mbind outcome_mbind outcome_bind] in Hrun. congruence. }
  assert (Hokt : block_ok (t_pb t)).
  { apply (while_loop_invariant (fun t => t_status t <> 0 -> block_ok (t_pb t))) in Hskip.
    - apply Hskip, Hz.
    - intros s s' Hs Hc Hb. exact (token_skip_body_ok fuel s _ Hs Hc Hb).
    - intros s s' Hs Hc Hb. exact (token_skip_body_ok fuel s _ Hs Hc Hb).
    - intros _. exact Hok. }
  pose proof (shasm_block_clear_holds _ Hokt) as Hh0.
  cbn [negb] in Hrun.
  destruct (shasm_input_get (t_ps t)) as [c0 ps1]. exists c0, ps1.
  split; [reflexivity|]. split; [reflexivity|].
  (* the first character *)
  match type of Hrun with
  | mbind _ ?m = _ => destruct m as [[[st1 pb1] ps2]| |] eqn:Hfirst
  end; cbn [mbind outcome_mbind outcome_bind] in Hrun; try discriminate.
  destruct (Z.eq_dec st1 0) as [->|Hnz1].
  { cbn [Z.eqb negb andb mbind outcome_mbind outcome_bind] in Hrun. congruence. }
  assert (Hh1 : block_holds [c0] pb1 /\ ps2 = ps1).
  { destruct (token_check_input _ _ _ _) as [[sa pa]| |] eqn:Hci;
      cbn [mbind outcome_mbind outcome_bind] in Hfirst; try discriminate.
    destruct (token_check_range _ _ _ _) as [[sb pbb]| |] eqn:Hcr;
      cbn [mbind outcome_mbind outcome_bind] in Hfirst; try discriminate.
    destruct (Z.eqb_spec sb 0) as [->|Hnzb]; cbn [negb] in Hfirst.
    - cbn [mbind outcome_mbind outcome_bind] in Hfirst. congruence.
    - destruct (token_add _ _ _ _) as [[sc pc]| |] eqn:Hadd;
        cbn [mbind outcome_mbind outcome_bind] in Hfirst; try discriminate.
      injection Hfirst as -> -> ->.
      destruct (token_check_range_pass _ _ _ _ _ _ Hcr Hnzb) as [-> ->].
      destruct (token_check_input_pass _ _ _ _ _ _ Hci Hnzb) as [_ ->].
      split; [|reflexivity].
      exact (proj2 (token_add_pass [] _ _ _ _ _ _ Hadd Hnz1 Hh0)). }
  destruct Hh1 as [Hh1 ->].
  assert (Hload : load (pBuf pb1) 0 = c0)
    by (apply (block_holds_load [c0] pb1 0%nat Hh1); cbn; lia).
  (* the vertical bar *)
  match type of Hrun with
  | mbind _ ?m = _ => destruct m as [[[st2 pb2] ps3]| |] eqn:Hbar
  end; cbn [mbind outcome_mbind outcome_bind] in Hrun; try discriminate.
  destruct (Z.eq_dec st2 0) as [->|Hnz2].
  { cbn [Z.eqb negb andb] in Hrun. congruence. }
  assert (Hh2 : (exists tl0, block_holds (c0 :: tl0) pb2) /\
                (token_atomic c0 = true -> pb2 = pb1 /\ ps3 = ps1)).
  { destruct (Z.eqb_spec st1 0); [contradiction|]. cbn [negb andb] in Hbar.
    rewrite Hload in Hbar.
    destruct (Z.eqb_spec c0 SHASM_ASCII_BAR) as [Hc|Hc].
    - split; [|rewrite Hc; intros Ha; discriminate Ha].
      destruct (shasm_input_get ps1) as [c1 ps4].
      destruct (token_check_input _ _ _ _) as [[sa pa]| |] eqn:Hci;
        cbn [mbind outcome_mbind outcome_bind] in Hbar; try discriminate.
      destruct (negb (sa =? 0) && (c1 =? SHASM_ASCII_SEMICOLON)).
      + destruct (token_add _ _ _ _) as [[sb pbb]| |] eqn:Hadd;
          cbn [mbind outcome_mbind outcome_bind] in Hbar; try discriminate.
        injection Hbar as -> -> _.
        assert (sa <> 0) as Hsa.
        { intros ->. unfold token_add in Hadd.
          destruct (shasm_block_addByte pa c1) as [[ok pq]| |];
            cbn [mbind outcome_mbind outcome_bind] in Hadd; try discriminate.
          destruct (ok =? 0).
          - destruct (shasm_block_seterr pq ps4 SHASM_ERR_HUGEBLOCK);
              cbn [mbind outcome_mbind outcome_bind] in Hadd; congruence.
          - congruence. }
        destruct (token_check_input_pass _ _ _ _ _ _ Hci Hsa) as [_ ->].
        destruct (token_add_pass [c0] _ _ _ _ _ _ Hadd Hnz2 Hh1) as [_ Hh3].
        cbn [app] in Hh3. eauto.
      + injection Hbar as -> -> _.
        destruct (token_check_input_pass _ _ _ _ _ _ Hci Hnz2) as [_ ->]. eauto.
    - injection Hbar as _ <- <-. split; [eauto | auto]. }
  destruct Hh2 as [[tl0 Hh2] Hat2].
  destruct (shasm_block_token_rest fuel c0 tl0 st2 pb2 ps3 st' pb' ps' Hh2 Hnz2 Hrun Hnz)
    as [Hstarts Hat].
  split; [exact Hstarts|]. intros Ha.
  destruct (Hat Ha) as [-> ->]. destruct (Hat2 Ha) as [-> ->]. auto.
Qed.
End TokenFacts.

(** ** A token that fills the buffer *)

(** The loop over the further characters of a token, on [k] letters a
    followed by a space: all of them are appended while the block stays
    within [SHASM_BLOCK_MAXBUFFER] bytes. *)
Lemma token_more_letters (k : nat) :
  forall (fuel : nat) (pb : SHASM_BLOCK) (data rest : list Z) (last line c0 : Z),
  block_holds data pb ->
  buf_len pb + Z.of_nat k <= SHASM_BLOCK_MAXBUFFER -> (k < fuel)%nat ->
  exists pb' line',
    while_loop fuel tokenizer_running token_more_body
      (mkTokenizer 1 c0 pb (mkFiltered (replicate k 0x61 ++ 0x20 :: rest) last false line)) =
      Done (mkTokenizer 1 0x20 pb' (mkFiltered rest 0x20 false line')) /\
    block_holds (data ++ replicate k 0x61) pb'.
Proof.
  induction k as [|k IH]; intros fuel pb data rest last line c0 Hh Hroom Hfuel;
    (destruct fuel as [|fuel]; [lia|]); rewrite while_loop_unfold.
  - cbn. eexists _, _. split; [reflexivity|]. rewrite app_nil_r. exact Hh.
  - destruct Hh as [Hok Hd].
    destruct (block_append_ok pb 0x61 Hok ltac:(lia) ltac:(lia)) as (pb1 & Happ & Hok1 & Hl1 & _ & Ht1).
    destruct (IH fuel pb1 (data ++ [0x61]) rest 0x61
                (if last =? 10 then line + 1 else line) 0x61) as (pb' & line' & Hrun & Hh');
      [split; [assumption|]; rewrite Hl1, Ht1, Hd; reflexivity | lia | lia |].
    exists pb', line'. split.
    + cbn -[while_loop shasm_block_addByte token_add]. unfold token_add. rewrite Happ.
      cbn -[while_loop shasm_block_addByte]. exact Hrun.
    + rewrite <- app_assoc in Hh'. exact Hh'.
Qed.

(** The block reader once the first letter of such a token is in. *)
Lemma token_first_letter_holds :
  block_holds [0x61] (mkBLOCK SHASM_OKAY 1 32 1 0 (0x61 :: zeros 31)).
Proof.
  unfold block_holds, block_ok. cbn. block_consts. repeat split; lia.
Qed.

(** The stages of [shasm_block_token] before the loop over the further
    characters, on a fresh block reader and an input that starts with the
    letter a. *)
Lemma shasm_block_token_letter (fuel : nat) (tl : list Z) :
  shasm_block_token (S fuel) shasm_block_alloc (filtered_start (0x61 :: tl)) =
    (t ← while_loop (S fuel) tokenizer_running token_more_body
           (mkTokenizer 1 0 (mkBLOCK SHASM_OKAY 1 32 1 0 (0x61 :: zeros 31))
              (mkFiltered tl 0x61 false 1));
     if negb (t_status t =? 0) && is_token_inclusive (t_c t) then
       '(status, pb) ← token_add (t_status t) (t_c t) (t_pb t) (t_ps t);
       Done (status, pb, t_ps t)
     else if negb (t_status t =? 0)
          then Done (t_status t, t_pb t, shasm_input_back (t_ps t))
          else Done (t_status t, t_pb t, t_ps t)).
Proof. reflexivity. Qed.

(** A token of 32767 letters a, followed by a space, is read with success
    by [shasm_block_token] from a fresh block reader; the block returned
    has 32767 bytes. *)
Lemma token_fills_to_ceiling :
  exists pb ps,
    shasm_block_token (Z.to_nat 32768) shasm_block_alloc
      (filtered_start (replicate (Z.to_nat 32767) 0x61 ++ [0x20])) = Done (1, pb, ps) /\
    code pb = SHASM_OKAY /\
    shasm_block_count pb = 32767 /\
    shasm_block_data pb = replicate (Z.to_nat 32767) 0x61.
Proof.
  replace (Z.to_nat 32768) with (S (Z.to_nat 32767)) by lia.
  replace (Z.to_nat 32767) with (S (Z.to_nat 32766)) by lia.
  assert (Z.of_nat (Z.to_nat 32766) = 32766) as Hk by lia.
  generalize dependent (Z.to_nat 32766). intros k Hk.
  cbn [replicate app]. rewrite shasm_block_token_letter.
  destruct (token_more_letters k (S (S k)) _ [0x61] [] 0x61 1 0 token_first_letter_holds)
    as (pb' & line' & Hrun & Hh); [cbn [buf_len]; block_consts; lia | lia |].
  rewrite Hrun. cbn [mbind outcome_mbind outcome_bind t_status t_c t_pb t_ps].
  eexists _, _. split; [reflexivity|].
  destruct (block_holds_data _ _ Hh) as [Hd Hc].
  split; [apply Hh|]. cbn [app] in Hd, Hc. split; [|exact Hd].
  rewrite Hc. cbn [length]. rewrite length_replicate. lia.
Qed.

(** C1 on the code: 32767 bytes appended to a fresh block reader are all
    accepted, the stored length reaching [SHASM_BLOCK_MAXBUFFER], and only
    the next append fails; accordingly [shasm_block_token] reads a token
    of 32767 visible bytes with success. *)
Theorem shasm_block_addByte_ceiling :
  (exists pb,
     shasm_block_addBytes shasm_block_alloc (replicate (Z.to_nat 32767) 0x61) = Done (1, pb) /\
     shasm_block_count pb = 32767 /\ buf_cap pb = 32767 /\
     shasm_block_data pb = replicate (Z.to_nat 32767) 0x61 /\
     shasm_block_addByte pb 0x61 = Done (0, pb)) /\
  (exists pb ps,
     shasm_block_token (Z.to_nat 32768) shasm_block_alloc
       (filtered_start (replicate (Z.to_nat 32767) 0x61 ++ [0x20])) = Done (1, pb, ps) /\
     code pb = SHASM_OKAY /\
     shasm_block_count pb = 32767 /\
     shasm_block_data pb = replicate (Z.to_nat 32767) 0x61).
Proof.
  split; [exact block_fills_to_ceiling | exact token_fills_to_ceiling].
Qed.

(** ** The bytes of the Unicode encoders *)

(** Setting bits above a small number adds them. *)
Lemma lor_high_bits (k h x : Z) :
  0 <= k -> 0 <= x < 2 ^ k -> Z.lor x (h * 2 ^ k) = h * 2 ^ k + x.
Proof.
  intros Hk Hx.
  assert (Z.land x (h * 2 ^ k) = 0) as Hdisj.
  { apply Z.bits_inj'. intros n Hn. rewrite Z.land_spec, Z.bits_0.
    destruct (Z.lt_ge_cases n k) as [Hlt|Hge].
    - rewrite Z.mul_pow2_bits_low by lia. apply andb_false_r.
    - destruct (Z.eq_dec x 0) as [->|Hx0]; [rewrite Z.bits_0; reflexivity|].
      rewrite (Z.bits_above_log2 x n); [reflexivity|lia|].
      apply Z.lt_le_trans with k; [|assumption].
      apply Z.log2_lt_pow2; lia. }
  rewrite <- Z.lxor_lor by assumption.
  rewrite <- Z.add_nocarry_lxor by assumption. lia.
Qed.

Lemma land_low_bits (x : Z) : Z.land x 0x3f = x mod 64.
Proof. change 0x3f with (Z.ones 6). rewrite Z.land_ones by lia. reflexivity. Qed.

Lemma utf8_cont_byte (x : Z) : Z.lor (Z.land x 0x3f) 0x80 = 0x80 + x mod 64.
Proof.
  rewrite land_low_bits. change 0x80 with (2 * 2 ^ 6) at 1.
  rewrite lor_high_bits; [reflexivity|lia|]. apply Z.mod_pos_bound. lia.
Qed.

Lemma shiftr_6 (x : Z) : Z.shiftr x 6 = x / 64.
Proof. rewrite Z.shiftr_div_pow2 by lia. reflexivity. Qed.

(** Outside CESU-8 pairs, [shasm_block_utf8] appends the bytes of UTF-8. *)
Lemma shasm_block_utf8_scalar (d : nat) (pb : SHASM_BLOCK) (e cesu8 : Z) :
  code pb = SHASM_OKAY -> 0 <= e <= SHASM_BLOCK_MAXCODE ->
  cesu8 = 0 \/ e < SHASM_BLOCK_MINSUPPLEMENTAL ->
  shasm_block_utf8 (S d) pb e cesu8 = shasm_block_addBytes pb (utf8_bytes e).
Proof.
  intros Hc He Hcesu. block_consts. cbn [shasm_block_utf8]. block_consts.
  rewrite Hc. cbn [is_okay Z.eqb negb andb].
  destruct (Z.ltb_spec e 0); [lia|]. rewrite Z.gtb_ltb.
  destruct (Z.ltb_spec 1114111 e); [lia|]. cbn [orb].
  assert (negb (cesu8 =? 0) && (e >=? 65536) = false) as ->.
  { rewrite Z.geb_leb. destruct Hcesu as [->|Hlow]; [reflexivity|].
    destruct (Z.leb_spec 65536 e); [lia|]. apply andb_false_r. }
  cbn [mbind outcome_mbind outcome_bind]. unfold utf8_bytes.
  destruct (Z.ltb_spec e 128).
  { cbn. change (Z.to_nat (1 - 1)) with 0%nat. reflexivity. }
  destruct (Z.ltb_spec e 2048).
  { cbn -[Z.lor Z.land Z.shiftr Z.div Z.modulo shasm_block_addByte].
    change (Z.to_nat (2 - 1)) with 1%nat.
    cbn -[Z.lor Z.land Z.shiftr Z.div Z.modulo shasm_block_addByte].
    rewrite utf8_cont_byte, shiftr_6.
    change 192 with (6 * 2 ^ 5) at 1. rewrite lor_high_bits; [reflexivity|lia|].
    split; [apply Z.div_pos; lia|]. apply Z.div_lt_upper_bound; lia. }
  destruct (Z.ltb_spec e 65536).
  { cbn -[Z.lor Z.land Z.shiftr Z.div Z.modulo shasm_block_addByte].
    change (Z.to_nat (3 - 1)) with 2%nat.
    cbn -[Z.lor Z.land Z.shiftr Z.div Z.modulo shasm_block_addByte].
    rewrite !utf8_cont_byte, !shiftr_6.
    rewrite Z.div_div by lia. change (64 * 64) with 4096.
    change 224 with (14 * 2 ^ 4) at 1. rewrite lor_high_bits; [reflexivity|lia|].
    split; [apply Z.div_pos; lia|]. apply Z.div_lt_upper_bound; lia. }
  cbn -[Z.lor Z.land Z.shiftr Z.div Z.modulo shasm_block_addByte].
    change (Z.to_nat (4 - 1)) with 3%nat.
  cbn -[Z.lor Z.land Z.shiftr Z.div Z.modulo shasm_block_addByte].
  rewrite !utf8_cont_byte, !shiftr_6.
  rewrite !Z.div_div by lia. change (64 * 64) with 4096. change (4096 * 64) with 262144.
  change 240 with (30 * 2 ^ 3) at 1. rewrite lor_high_bits; [reflexivity|lia|].
  split; [apply Z.div_pos; lia|]. apply Z.div_lt_upper_bound; lia.
Qed.

Lemma utf8_bytes_facts (e : Z) :
  0 <= e <= SHASM_BLOCK_MAXCODE ->
  utf8_value (utf8_bytes e) = e /\
  Forall (fun c => 0 <= c <= 255) (utf8_bytes e) /\
  (1 <= length (utf8_bytes e) <= 4)%nat /\
  (e < 0x10000 -> (length (utf8_bytes e) <= 3)%nat).
Proof.
  block_consts. intros He. unfold utf8_bytes.
  destruct (Z.ltb_spec e 128); [|destruct (Z.ltb_spec e 2048); [|destruct (Z.ltb_spec e 65536)]];
    cbn [utf8_value length]; (split; [Z.div_mod_to_equations; lia|]); (split; [|lia]);
    repeat (constructor; [Z.div_mod_to_equations; lia|]); constructor.
Qed.

(** The two surrogates that stand for a supplementary code in CESU-8. *)
Lemma cesu8_halves (e : Z) :
  SHASM_BLOCK_MINSUPPLEMENTAL <= e <= SHASM_BLOCK_MAXCODE ->
  0xD800 + Z.shiftr (e - 0x10000) 10 = 0xD800 + (e - 0x10000) / 1024 /\
  0xDC00 + Z.land (e - 0x10000) 0x3FF = 0xDC00 + (e - 0x10000) mod 1024 /\
  0xD800 <= 0xD800 + (e - 0x10000) / 1024 <= 0xDBFF /\
  0xDC00 <= 0xDC00 + (e - 0x10000) mod 1024 <= 0xDFFF.
Proof.
  block_consts. intros He.
  rewrite Z.shiftr_div_pow2 by lia. change 0x3FF with (Z.ones 10).
  rewrite Z.land_ones by lia. change (2 ^ 10) with 1024.
  Z.div_mod_to_equations. lia.
Qed.

(** With an output override in force and no strict surrogate, the
    encoder chosen by the override does the work of
    [shasm_block_encode]; the temporary buffer is not touched. *)
Lemma shasm_block_encode_unicode (pb : SHASM_BLOCK) (e : Z) (penc : SHASM_BLOCK_ENCODER)
    (o_over o_strict : Z) (pt : SHASM_BLOCK_TBUF) :
  code pb = SHASM_OKAY -> 0 <= e <= SHASM_BLOCK_MAXCODE ->
  o_strict = 0 \/ e < SHASM_BLOCK_MINSURROGATE \/ SHASM_BLOCK_MAXSURROGATE < e ->
  SHASM_BLOCK_OMODE_UTF8 <= o_over <= SHASM_BLOCK_OMODE_U32BE ->
  shasm_block_encode pb e penc o_over o_strict pt =
    '(ok, pb') ←
      (if o_over =? SHASM_BLOCK_OMODE_UTF8 then shasm_block_utf8 utf_depth pb e 0
       else if o_over =? SHASM_BLOCK_OMODE_CESU8 then shasm_block_utf8 utf_depth pb e 1
       else if o_over =? SHASM_BLOCK_OMODE_U16LE then shasm_block_utf16 utf_depth pb e 0
       else if o_over =? SHASM_BLOCK_OMODE_U16BE then shasm_block_utf16 utf_depth pb e 1
       else if o_over =? SHASM_BLOCK_OMODE_U32LE then shasm_block_utf32 pb e 0
       else shasm_block_utf32 pb e 1);
    Done (if ok =? 0 then 0 else 1, pb', pt).
Proof.
  block_consts. intros Hc He Hs Hm. unfold shasm_block_encode. rewrite Hc. block_consts.
  cbn [is_okay Z.eqb negb andb].
  destruct (Z.ltb_spec e 0); [lia|]. rewrite Z.gtb_ltb.
  destruct (Z.ltb_spec 1114111 e); [lia|].
  assert (negb (o_strict =? 0) && (e >=? 55296) && (e <=? 57343) = false) as ->.
  { rewrite Z.geb_leb.
    destruct (Z.eqb_spec o_strict 0); [reflexivity|].
    destruct (Z.leb_spec 55296 e); destruct (Z.leb_spec e 57343); try reflexivity. lia. }
  cbv iota.
  destruct (Z.eqb_spec o_over 0); [lia|].
  destruct (Z.eqb_spec o_over 1); [reflexivity|].
  destruct (Z.eqb_spec o_over 2); [reflexivity|].
  destruct (Z.eqb_spec o_over 3); [reflexivity|].
  destruct (Z.eqb_spec o_over 4); [reflexivity|].
  destruct (Z.eqb_spec o_over 5); [reflexivity|].
  destruct (Z.eqb_spec o_over 6); [reflexivity|lia].
Qed.

Lemma utf16_units_facts (e : Z) :
  0 <= e <= SHASM_BLOCK_MAXCODE ->
  utf16_value (utf16_units e) = e /\
  Forall (fun u => 0 <= u < 0x10000) (utf16_units e) /\
  (SHASM_BLOCK_MINSUPPLEMENTAL <= e ->
   utf16_units e = [0xD800 + Z.shiftr (e - 0x10000) 10; 0xDC00 + Z.land (e - 0x10000) 0x3FF]) /\
  (e < SHASM_BLOCK_MINSUPPLEMENTAL -> utf16_units e = [e]).
Proof.
  block_consts. intros He. unfold utf16_units.
  destruct (Z.ltb_spec e 65536).
  - cbn [utf16_value]. repeat split; try lia. repeat constructor; lia.
  - destruct (cesu8_halves e) as (Hhi & Hlo & ? & ?); [block_consts; lia|].
    rewrite Hhi, Hlo. cbn [utf16_value].
    split; [Z.div_mod_to_equations; lia|]. split; [|split; [reflexivity|lia]].
    repeat (constructor; [lia|]). constructor.
Qed.

Lemma le_bytes_facts (n : nat) :
  forall v, 0 <= v < 256 ^ Z.of_nat n ->
  le_value (le_bytes n v) = v /\ Forall (fun c => 0 <= c <= 255) (le_bytes n v) /\
  length (le_bytes n v) = n.
Proof.
  induction n as [|n IH]; intros v Hv.
  - change (256 ^ Z.of_nat 0) with 1 in Hv. cbn. split; [lia|]. split; [constructor|reflexivity].
  - rewrite Nat2Z.inj_succ, Z.pow_succ_r in Hv by lia.
    destruct (IH (v / 256)) as (Hval & Hall & Hlen).
    { split; [apply Z.div_pos; lia|]. apply Z.div_lt_upper_bound; lia. }
    cbn [le_bytes le_value length]. rewrite Hval, Hlen.
    split; [Z.div_mod_to_equations; lia|]. split; [|reflexivity].
    constructor; [Z.div_mod_to_equations; lia|assumption].
Qed.

Lemma word_bytes_facts (big : Z) (n : nat) (v : Z) :
  0 <= v < 256 ^ Z.of_nat n ->
  word_value big (word_bytes big n v) = v /\
  Forall (fun c => 0 <= c <= 255) (word_bytes big n v) /\
  length (word_bytes big n v) = n.
Proof.
  intros Hv. destruct (le_bytes_facts n v Hv) as (Hval & Hall & Hlen).
  unfold word_value, word_bytes. destruct (big =? 0).
  - auto.
  - rewrite rev_involutive, length_rev. split; [assumption|]. split; [|assumption].
    apply Forall_rev. assumption.
Qed.

(** The bytes the encoders take from a unit are those of [le_bytes]. *)
Lemma le_bytes_unit (v : Z) :
  0 <= v ->
  [Z.land v 0xff; Z.land (Z.shiftr v 8) 0xff] = le_bytes 2 (v mod 65536) /\
  [Z.land v 0xff; Z.land (Z.shiftr v 8) 0xff; Z.land (Z.shiftr v 16) 0xff;
   Z.land (Z.shiftr v 24) 0xff] = le_bytes 4 (v mod 4294967296).
Proof.
  intros Hv. change 0xff with (Z.ones 8). rewrite !Z.land_ones by lia.
  rewrite !Z.shiftr_div_pow2 by lia. cbn [le_bytes].
  change (2 ^ 8) with 256. change (2 ^ 16) with 65536. change (2 ^ 24) with 16777216.
  split; repeat (apply (f_equal2 (@cons Z)); [Z.div_mod_to_equations; lia|]); reflexivity.
Qed.

(** What the encoders do on a block with room: the bytes are appended. *)
Lemma shasm_block_utf8_unit_bytes (pb : SHASM_BLOCK) (data : list Z) (v cesu8 : Z) :
  block_holds data pb -> 0 <= v < SHASM_BLOCK_MINSUPPLEMENTAL ->
  buf_len pb + 3 <= SHASM_BLOCK_MAXBUFFER ->
  exists pb',
    shasm_block_utf8 utf_depth pb v cesu8 = Done (1, pb') /\
    block_holds (data ++ utf8_bytes v) pb' /\ buf_len pb' <= buf_len pb + 3.
Proof.
  block_consts. intros Hh Hv Hroom.
  destruct (utf8_bytes_facts v) as (_ & Hall & _ & Hlen); [block_consts; lia|].
  specialize (Hlen ltac:(lia)).
  unfold utf_depth.
  rewrite shasm_block_utf8_scalar; [|apply Hh|block_consts; lia|block_consts; lia].
  destruct (block_append_many (utf8_bytes v) data pb Hh Hall) as (pb' & Hrun & Hh' & Hl').
  { block_consts. lia. }
  exists pb'. split; [exact Hrun|]. split; [exact Hh'|lia].
Qed.

Lemma shasm_block_utf16_unit_bytes (pb : SHASM_BLOCK) (data : list Z) (v big : Z) :
  block_holds data pb -> 0 <= v < SHASM_BLOCK_MINSUPPLEMENTAL ->
  buf_len pb + 2 <= SHASM_BLOCK_MAXBUFFER ->
  exists pb',
    shasm_block_utf16 utf_depth pb v big = Done (1, pb') /\
    block_holds (data ++ word_bytes big 2 v) pb' /\ buf_len pb' = buf_len pb + 2.
Proof.
  block_consts. intros Hh Hv Hroom. unfold utf_depth.
  rewrite shasm_block_utf16_unit by (block_consts; lia).
  destruct Hh as [Hok Hd]. pose proof Hok as (Hc & _). rewrite Hc. cbn [is_okay].
  destruct (le_bytes_unit v ltac:(lia)) as [Hle _].
  rewrite Z.mod_small in Hle by lia.
  destruct (word_bytes_facts big 2 v ltac:(change (256 ^ Z.of_nat 2) with 65536; lia))
    as (_ & Hall & Hlen).
  assert ((if negb (big =? 0)
           then [Z.land (Z.shiftr v 8) 255; Z.land v 255]
           else [Z.land v 255; Z.land (Z.shiftr v 8) 255]) = word_bytes big 2 v) as ->.
  { unfold word_bytes. rewrite <- Hle. destruct (big =? 0); reflexivity. }
  destruct (block_append_many (word_bytes big 2 v) data pb (conj Hok Hd) Hall)
    as (pb' & Hrun & Hh' & Hl').
  { block_consts. rewrite Hlen. lia. }
  exists pb'. rewrite Hlen in Hl'. split; [exact Hrun|]. split; [exact Hh'|lia].
Qed.

(** Only whether the flag [big] is zero matters. *)
Lemma shasm_block_utf16_flag (d : nat) :
  forall (pb : SHASM_BLOCK) (e big : Z),
  big <> 0 -> shasm_block_utf16 d pb e big = shasm_block_utf16 d pb e 1.
Proof.
  induction d as [|d IH]; intros pb e big Hb; [reflexivity|].
  cbn [shasm_block_utf16].
  destruct ((e <? 0) || (e >? SHASM_BLOCK_MAXCODE)); [reflexivity|].
  destruct (Z.eqb_spec big 0); [contradiction|].
  destruct (is_okay (code pb)); cbn [Z.eqb negb andb]; [|reflexivity].
  destruct (e >=? SHASM_BLOCK_MINSUPPLEMENTAL); [|reflexivity].
  destruct (shasm_block_pair e) as [[s1 s2]| |];
    cbn [mbind outcome_mbind outcome_bind]; try reflexivity.
  rewrite (IH pb s1 big Hb). reflexivity.
Qed.

Lemma shasm_block_utf32_flag (pb : SHASM_BLOCK) (e big : Z) :
  big <> 0 -> shasm_block_utf32 pb e big = shasm_block_utf32 pb e 1.
Proof.
  intros Hb. unfold shasm_block_utf32.
  destruct (Z.eqb_spec big 0); [contradiction|]. reflexivity.
Qed.

(** X21: on a block reader with room, [shasm_block_utf8] appends to the
    block the bytes of UTF-8 for the code, which decode to the code
    again; with the CESU-8 flag it appends the UTF-8 bytes of each
    UTF-16 unit of the code.  [shasm_block_encode] under these two
    overrides does the same and leaves the temporary buffer alone,
    unless strict mode sends a surrogate to the encoding table. *)
Theorem shasm_block_utf8_bytes (pb : SHASM_BLOCK) (data : list Z) (e o_strict : Z)
    (penc : SHASM_BLOCK_ENCODER) (pt : SHASM_BLOCK_TBUF) :
  block_holds data pb -> 0 <= e <= SHASM_BLOCK_MAXCODE ->
  buf_len pb + 6 <= SHASM_BLOCK_MAXBUFFER ->
  o_strict = 0 \/ e < SHASM_BLOCK_MINSURROGATE \/ SHASM_BLOCK_MAXSURROGATE < e ->
  utf8_value (utf8_bytes e) = e /\
  (exists pb',
     shasm_block_utf8 utf_depth pb e 0 = Done (1, pb') /\
     shasm_block_encode pb e penc SHASM_BLOCK_OMODE_UTF8 o_strict pt = Done (1, pb', pt) /\
     block_holds (data ++ utf8_bytes e) pb') /\
  (exists pb',
     shasm_block_utf8 utf_depth pb e 1 = Done (1, pb') /\
     shasm_block_encode pb e penc SHASM_BLOCK_OMODE_CESU8 o_strict pt = Done (1, pb', pt) /\
     block_holds (data ++ cesu8_bytes e) pb').
Proof.
  intros Hh He Hroom Hs.
  destruct (utf8_bytes_facts e He) as (Hval & Hall & Hlen & _).
  pose proof Hh as ((Hc & _) & _).
  split; [exact Hval|]. split.
  - destruct (block_append_many (utf8_bytes e) data pb Hh Hall) as (pb' & Hrun & Hh' & _).
    { revert Hroom. block_consts. lia. }
    assert (shasm_block_utf8 utf_depth pb e 0 = Done (1, pb')) as Henc.
    { unfold utf_depth. rewrite shasm_block_utf8_scalar by auto. exact Hrun. }
    exists pb'. split; [exact Henc|]. split; [|exact Hh'].
    rewrite shasm_block_encode_unicode by (auto; block_consts; lia).
    change (SHASM_BLOCK_OMODE_UTF8 =? SHASM_BLOCK_OMODE_UTF8) with true. cbv iota.
    rewrite Henc. reflexivity.
  - assert (exists pb', shasm_block_utf8 utf_depth pb e 1 = Done (1, pb') /\
                        block_holds (data ++ cesu8_bytes e) pb') as (pb' & Henc & Hh').
    { destruct (utf16_units_facts e He) as (_ & _ & Hsup & Hbmp).
      unfold cesu8_bytes.
      destruct (Z.lt_ge_cases e SHASM_BLOCK_MINSUPPLEMENTAL) as [Hlow|Hhigh].
      - rewrite (Hbmp Hlow). cbn [map concat]. rewrite app_nil_r.
        destruct (shasm_block_utf8_unit_bytes pb data e 1 Hh) as (pb' & Hrun & Hh' & _);
          [lia|lia|].
        exists pb'. auto.
      - rewrite (Hsup Hhigh). cbn [map concat]. rewrite app_nil_r.
        destruct (cesu8_halves e ltac:(lia)) as (Hhi & Hlo & Hrhi & Hrlo).
        rewrite shasm_block_utf8_pair by lia. cbv zeta. unfold encode_then.
        destruct (shasm_block_utf8_unit_bytes pb data
                    (0xD800 + Z.shiftr (e - 0x10000) 10) 1 Hh)
          as (pb1 & Hrun1 & Hh1 & Hl1); [block_consts; lia|lia|].
        rewrite Hrun1. cbn [mbind outcome_mbind outcome_bind Z.eqb].
        destruct (shasm_block_utf8_unit_bytes pb1 (data ++ utf8_bytes (0xD800 + Z.shiftr (e - 0x10000) 10))
                    (0xDC00 + Z.land (e - 0x10000) 0x3FF) 1 Hh1)
          as (pb2 & Hrun2 & Hh2 & _); [block_consts; lia|lia|].
        exists pb2. split; [exact Hrun2|]. rewrite app_assoc. exact Hh2. }
    exists pb'. split; [exact Henc|]. split; [|exact Hh'].
    rewrite shasm_block_encode_unicode by (auto; block_consts; lia).
    change (SHASM_BLOCK_OMODE_CESU8 =? SHASM_BLOCK_OMODE_UTF8) with false.
    change (SHASM_BLOCK_OMODE_CESU8 =? SHASM_BLOCK_OMODE_CESU8) with true. cbv iota.
    rewrite Henc. reflexivity.
Qed.

Lemma shasm_block_utf8_bytes_witness :
  let pb := shasm_block_alloc in
  let penc := mkENCODER (fun _ buf _ => (0, buf)) in
  utf8_value (utf8_bytes 0x20AC) = 0x20AC /\
  (exists pb',
     shasm_block_utf8 utf_depth pb 0x20AC 0 = Done (1, pb') /\
     shasm_block_encode pb 0x20AC penc SHASM_BLOCK_OMODE_UTF8 0 shasm_block_tbuf_init =
       Done (1, pb', shasm_block_tbuf_init) /\
     block_holds ([] ++ utf8_bytes 0x20AC) pb') /\
  (exists pb',
     shasm_block_utf8 utf_depth pb 0x20AC 1 = Done (1, pb') /\
     shasm_block_encode pb 0x20AC penc SHASM_BLOCK_OMODE_CESU8 0 shasm_block_tbuf_init =
       Done (1, pb', shasm_block_tbuf_init) /\
     block_holds ([] ++ cesu8_bytes 0x20AC) pb').
Proof.
  intros pb penc.
  apply (shasm_block_utf8_bytes pb [] 0x20AC 0 penc shasm_block_tbuf_init).
  - exact shasm_block_alloc_holds.
  - vm_compute. split; discriminate.
  - vm_compute. discriminate.
  - left. reflexivity.
Defined.

(** X22: on a block reader with room, [shasm_block_utf32] appends the
    four bytes of the code and [shasm_block_utf16] the two bytes of each
    UTF-16 unit of the code, least significant byte first or, with the
    flag [big], most significant first; the bytes give the units back
    and the units the code.  [shasm_block_encode] under the four
    overrides does the same and leaves the temporary buffer alone. *)
Theorem shasm_block_utf16_utf32_bytes (pb : SHASM_BLOCK) (data : list Z)
    (e big o_strict : Z) (penc : SHASM_BLOCK_ENCODER) (pt : SHASM_BLOCK_TBUF) :
  block_holds data pb -> 0 <= e <= SHASM_BLOCK_MAXCODE ->
  buf_len pb + 4 <= SHASM_BLOCK_MAXBUFFER ->
  o_strict = 0 \/ e < SHASM_BLOCK_MINSURROGATE \/ SHASM_BLOCK_MAXSURROGATE < e ->
  utf16_value (utf16_units e) = e /\
  Forall (fun u => word_value big (word_bytes big 2 u) = u) (utf16_units e) /\
  word_value big (word_bytes big 4 e) = e /\
  (exists pb',
     shasm_block_utf16 utf_depth pb e big = Done (1, pb') /\
     shasm_block_encode pb e penc
       (if big =? 0 then SHASM_BLOCK_OMODE_U16LE else SHASM_BLOCK_OMODE_U16BE)
       o_strict pt = Done (1, pb', pt) /\
     block_holds (data ++ concat (map (word_bytes big 2) (utf16_units e))) pb') /\
  (exists pb',
     shasm_block_utf32 pb e big = Done (1, pb') /\
     shasm_block_encode pb e penc
       (if big =? 0 then SHASM_BLOCK_OMODE_U32LE else SHASM_BLOCK_OMODE_U32BE)
       o_strict pt = Done (1, pb', pt) /\
     block_holds (data ++ word_bytes big 4 e) pb').
Proof.
  intros Hh He Hroom Hs.
  destruct (utf16_units_facts e He) as (Hval & Hunits & Hsup & Hbmp).
  pose proof Hh as ((Hc & _) & _).
  assert (0 <= e < 256 ^ Z.of_nat 4) as He4.
  { revert He. block_consts. change (256 ^ Z.of_nat 4) with 4294967296. lia. }
  destruct (word_bytes_facts big 4 e He4) as (Hval4 & Hall4 & Hlen4).
  split; [exact Hval|]. split; [|split; [exact Hval4|split]].
  - eapply Forall_impl; [exact Hunits|]. intros u Hu. cbv beta in Hu.
    apply word_bytes_facts. change (256 ^ Z.of_nat 2) with 65536. lia.
  - assert (exists pb', shasm_block_utf16 utf_depth pb e big = Done (1, pb') /\
              block_holds (data ++ concat (map (word_bytes big 2) (utf16_units e))) pb')
      as (pb' & Henc & Hh').
    { destruct (Z.lt_ge_cases e SHASM_BLOCK_MINSUPPLEMENTAL) as [Hlow|Hhigh].
      - rewrite (Hbmp Hlow). cbn [map concat]. rewrite app_nil_r.
        destruct (shasm_block_utf16_unit_bytes pb data e big Hh) as (pb' & Hrun & Hh' & _);
          [lia|lia|].
        exists pb'. auto.
      - rewrite (Hsup Hhigh). cbn [map concat]. rewrite app_nil_r.
        destruct (cesu8_halves e ltac:(lia)) as (Hhi & Hlo & Hrhi & Hrlo).
        rewrite shasm_block_utf16_pair by lia. cbv zeta. unfold encode_then.
        destruct (shasm_block_utf16_unit_bytes pb data
                    (0xD800 + Z.shiftr (e - 0x10000) 10) big Hh)
          as (pb1 & Hrun1 & Hh1 & Hl1); [block_consts; lia|lia|].
        rewrite Hrun1. cbn [mbind outcome_mbind outcome_bind Z.eqb].
        destruct (shasm_block_utf16_unit_bytes pb1
                    (data ++ word_bytes big 2 (0xD800 + Z.shiftr (e - 0x10000) 10))
                    (0xDC00 + Z.land (e - 0x10000) 0x3FF) big Hh1)
          as (pb2 & Hrun2 & Hh2 & _); [block_consts; lia|lia|].
        exists pb2. split; [exact Hrun2|]. rewrite app_assoc. exact Hh2. }
    exists pb'. split; [exact Henc|]. split; [|exact Hh'].
    rewrite shasm_block_encode_unicode by (auto; destruct (big =? 0); block_consts; lia).
    destruct (Z.eqb_spec big 0) as [Hb|Hb].
    + subst big.
      change (SHASM_BLOCK_OMODE_U16LE =? SHASM_BLOCK_OMODE_UTF8) with false.
      change (SHASM_BLOCK_OMODE_U16LE =? SHASM_BLOCK_OMODE_CESU8) with false.
      change (SHASM_BLOCK_OMODE_U16LE =? SHASM_BLOCK_OMODE_U16LE) with true. cbv iota.
      rewrite Henc. reflexivity.
    + change (SHASM_BLOCK_OMODE_U16BE =? SHASM_BLOCK_OMODE_UTF8) with false.
      change (SHASM_BLOCK_OMODE_U16BE =? SHASM_BLOCK_OMODE_CESU8) with false.
      change (SHASM_BLOCK_OMODE_U16BE =? SHASM_BLOCK_OMODE_U16LE) with false.
      change (SHASM_BLOCK_OMODE_U16BE =? SHASM_BLOCK_OMODE_U16BE) with true. cbv iota.
      rewrite <- (shasm_block_utf16_flag utf_depth pb e big Hb), Henc. reflexivity.
  - assert (exists pb', shasm_block_utf32 pb e big = Done (1, pb') /\
              block_holds (data ++ word_bytes big 4 e) pb') as (pb' & Henc & Hh').
    { destruct (block_append_many (word_bytes big 4 e) data pb Hh Hall4)
        as (pb' & Hrun & Hh' & _).
      { rewrite Hlen4. revert Hroom. block_consts. lia. }
      exists pb'. split; [|exact Hh']. rewrite <- Hrun.
      unfold shasm_block_utf32. rewrite Hc. revert He. block_consts. intros He.
      destruct (Z.ltb_spec e 0); [lia|]. rewrite Z.gtb_ltb.
      destruct (Z.ltb_spec 1114111 e); [lia|]. cbn [orb is_okay Z.eqb negb].
      destruct (le_bytes_unit e ltac:(lia)) as [_ Hle].
      rewrite Z.mod_small in Hle by lia.
      unfold word_bytes. rewrite <- Hle. destruct (big =? 0); reflexivity. }
    exists pb'. split; [exact Henc|]. split; [|exact Hh'].
    rewrite shasm_block_encode_unicode by (auto; destruct (big =? 0); block_consts; lia).
    destruct (Z.eqb_spec big 0) as [Hb|Hb].
    + subst big.
      change (SHASM_BLOCK_OMODE_U32LE =? SHASM_BLOCK_OMODE_UTF8) with false.
      change (SHASM_BLOCK_OMODE_U32LE =? SHASM_BLOCK_OMODE_CESU8) with false.
      change (SHASM_BLOCK_OMODE_U32LE =? SHASM_BLOCK_OMODE_U16LE) with false.
      change (SHASM_BLOCK_OMODE_U32LE =? SHASM_BLOCK_OMODE_U16BE) with false.
      change (SHASM_BLOCK_OMODE_U32LE =? SHASM_BLOCK_OMODE_U32LE) with true. cbv iota.
      rewrite Henc. reflexivity.
    + change (SHASM_BLOCK_OMODE_U32BE =? SHASM_BLOCK_OMODE_UTF8) with false.
      change (SHASM_BLOCK_OMODE_U32BE =? SHASM_BLOCK_OMODE_CESU8) with false.
      change (SHASM_BLOCK_OMODE_U32BE =? SHASM_BLOCK_OMODE_U16LE) with false.
      change (SHASM_BLOCK_OMODE_U32BE =? SHASM_BLOCK_OMODE_U16BE) with false.
      change (SHASM_BLOCK_OMODE_U32BE =? SHASM_BLOCK_OMODE_U32LE) with false. cbv iota.
      rewrite <- (shasm_block_utf32_flag pb e big Hb), Henc. reflexivity.
Qed.

Lemma shasm_block_utf16_utf32_bytes_witness :
  let pb := shasm_block_alloc in
  let penc := mkENCODER (fun _ buf _ => (0, buf)) in
  let e := 0x10437 in
  utf16_value (utf16_units e) = e /\
  Forall (fun u => word_value 1 (word_bytes 1 2 u) = u) (utf16_units e) /\
  word_value 1 (word_bytes 1 4 e) = e /\
  (exists pb',
     shasm_block_utf16 utf_depth pb e 1 = Done (1, pb') /\
     shasm_block_encode pb e penc SHASM_BLOCK_OMODE_U16BE 0 shasm_block_tbuf_init =
       Done (1, pb', shasm_block_tbuf_init) /\
     block_holds ([] ++ concat (map (word_bytes 1 2) (utf16_units e))) pb') /\
  (exists pb',
     shasm_block_utf32 pb e 1 = Done (1, pb') /\
     shasm_block_encode pb e penc SHASM_BLOCK_OMODE_U32BE 0 shasm_block_tbuf_init =
       Done (1, pb', shasm_block_tbuf_init) /\
     block_holds ([] ++ word_bytes 1 4 e) pb').
Proof.
  intros pb penc e.
  apply (shasm_block_utf16_utf32_bytes pb [] e 1 0 penc shasm_block_tbuf_init).
  - exact shasm_block_alloc_holds.
  - vm_compute. split; discriminate.
  - vm_compute. discriminate.
  - left. reflexivity.
Defined.

(** ** Running out of room *)

(** [shasm_block_addBytes] appends the bytes that fit under the ceiling
    and fails when some do not. *)
Lemma block_append_upto (l : list Z) :
  forall (data : list Z) (pb : SHASM_BLOCK),
  block_holds data pb -> Forall (fun c => 0 <= c <= 255) l ->
  buf_len pb <= SHASM_BLOCK_MAXBUFFER ->
  exists pb',
    shasm_block_addBytes pb l =
      Done (if buf_len pb + Z.of_nat (length l) <=? SHASM_BLOCK_MAXBUFFER then 1 else 0, pb') /\
    block_holds (data ++ take (Z.to_nat (SHASM_BLOCK_MAXBUFFER - buf_len pb)) l) pb' /\
    line pb' = line pb.
Proof.
  induction l as [|c l IH]; intros data pb Hh Hall Hmax.
  - exists pb. cbn [shasm_block_addBytes length]. rewrite take_nil, app_nil_r.
    destruct (Z.leb_spec (buf_len pb + Z.of_nat 0) SHASM_BLOCK_MAXBUFFER); [auto|lia].
  - inversion Hall as [|? ? Hc Hall']; subst. cbn [shasm_block_addBytes].
    destruct (Z.eq_dec (buf_len pb) SHASM_BLOCK_MAXBUFFER) as [Hfull|Hroom].
    + rewrite block_append_full by (try apply Hh; lia).
      cbn [mbind outcome_mbind outcome_bind Z.eqb]. exists pb.
      rewrite Hfull, Z.sub_diag. cbn [Z.to_nat take]. rewrite app_nil_r.
      destruct (Z.leb_spec (SHASM_BLOCK_MAXBUFFER + Z.of_nat (length (c :: l)))
                  SHASM_BLOCK_MAXBUFFER) as [Hle|_]; [cbn [length] in Hle; lia|auto].
    + destruct (block_append_ok pb c) as (pb1 & Hrun & Hok1 & Hl1 & Hline1 & Ht1);
        [apply Hh|lia|lia|].
      rewrite Hrun. cbn [mbind outcome_mbind outcome_bind Z.eqb].
      assert (block_holds (data ++ [c]) pb1) as Hh1.
      { split; [assumption|]. rewrite Hl1, Ht1. destruct Hh as [_ ->]. reflexivity. }
      destruct (IH (data ++ [c]) pb1 Hh1 Hall') as (pb' & Hrun' & Hh' & Hline'); [lia|].
      exists pb'. rewrite Hrun'. split; [|split; [|congruence]].
      * rewrite Hl1. cbn [length]. rewrite Nat2Z.inj_succ.
        replace (buf_len pb + 1 + Z.of_nat (length l))
          with (buf_len pb + Z.succ (Z.of_nat (length l))) by lia. reflexivity.
      * replace (Z.to_nat (SHASM_BLOCK_MAXBUFFER - buf_len pb))
          with (S (Z.to_nat (SHASM_BLOCK_MAXBUFFER - buf_len pb1))) by lia.
        cbn [take]. rewrite <- app_assoc in Hh'. exact Hh'.
Qed.

(** ** The temporary buffer *)

(** The doubling stops at the first length that is enough. *)
Lemma tbuf_double_minimal (fuel : nat) :
  forall tl tlen r, 1 <= tl -> tbuf_double fuel tl tlen = Done r ->
  tlen <= r /\ tl <= r /\ (r = tl \/ r < 2 * tlen).
Proof.
  induction fuel as [|fuel IH]; intros tl tlen r Htl; cbn [tbuf_double].
  - destruct (Z.ltb_spec tl tlen); [discriminate|]. intros [= <-]. lia.
  - destruct (Z.ltb_spec tl tlen) as [Hlt|Hge]; [|intros [= <-]; lia].
    intros Hrun. destruct (IH (tl * 2) tlen r ltac:(lia) Hrun) as (? & ? & [->|?]); lia.
Qed.

Lemma shasm_block_tbuf_widen_fits (pt : SHASM_BLOCK_TBUF) (tlen : Z) :
  0 <= tlen <= SHASM_BLOCK_MAXBUFFER -> tbuf_ok pt ->
  exists pt',
    shasm_block_tbuf_widen pt tlen = Done (1, pt') /\ tbuf_ok pt' /\
    tlen <= len pt' /\ len pt <= len pt' /\
    (tlen <= len pt -> len pt' = len pt) /\
    (len pt < tlen -> len pt' = SHASM_BLOCK_MINTBUF \/ len pt' < 2 * tlen) /\
    Forall (eq x00) (pTBuf pt').
Proof.
  unfold tbuf_ok. block_consts. intros Ht [Hl Hlen]. unfold shasm_block_tbuf_widen. block_consts.
  destruct (Z.ltb_spec tlen 0); [lia|]. rewrite !Z.gtb_ltb.
  destruct (Z.ltb_spec 32767 tlen); [lia|]. cbn [Z.eqb negb andb].
  destruct (Z.ltb_spec (len pt) tlen) as [Hgrow|Hkeep].
  - set (tl0 := if len pt <? 1 then 8 else len pt).
    assert (1 <= tl0 /\ (tl0 = 8 \/ tl0 = len pt /\ 1 <= len pt)) as [Htl0 Hwhich].
    { subst tl0. destruct (Z.ltb_spec (len pt) 1); lia. }
    destruct (tbuf_double_returns 64 tl0 tlen Htl0) as (r & Hr & _).
    { change (2 ^ Z.of_nat 64) with 18446744073709551616. lia. }
    destruct (tbuf_double_minimal 64 tl0 tlen r Htl0 Hr) as (Hr1 & Hr2 & Hr3).
    rewrite Hr. cbn [mbind outcome_mbind outcome_bind len pTBuf].
    rewrite !Z.gtb_ltb.
    set (tl := if 32767 <? r then 32767 else r).
    assert (tlen <= tl <= 32767 /\ tl0 <= tl \/ False) as [[Htl Htl']|[]].
    { left. subst tl. destruct (Z.ltb_spec 32767 r); lia. }
    assert (tl = 8 \/ tl < 2 * tlen) as Hmin.
    { subst tl. destruct (Z.ltb_spec 32767 r); lia. }
    destruct (Z.ltb_spec 0 tl); [|lia].
    eexists. split; [reflexivity|]. cbn [len pTBuf].
    rewrite length_replicate.
    repeat (split; [lia|]). apply Forall_replicate. reflexivity.
  - cbn [mbind outcome_mbind outcome_bind]. rewrite Z.gtb_ltb.
    destruct (Z.ltb_spec 0 (len pt)).
    + eexists. split; [reflexivity|]. cbn [len pTBuf]. rewrite length_replicate.
      repeat (split; [lia|]). apply Forall_replicate. reflexivity.
    + exists pt. split; [reflexivity|]. repeat (split; [lia|]).
      destruct (pTBuf pt); [constructor|cbn [length] in Hlen; lia].
Qed.

Lemma shasm_block_tbuf_widen_huge (pt : SHASM_BLOCK_TBUF) (tlen : Z) :
  SHASM_BLOCK_MAXBUFFER < tlen -> shasm_block_tbuf_widen pt tlen = Done (0, pt).
Proof.
  block_consts. intros Ht. unfold shasm_block_tbuf_widen. block_consts.
  destruct (Z.ltb_spec tlen 0); [lia|]. rewrite !Z.gtb_ltb.
  destruct (Z.ltb_spec 32767 tlen); [|lia]. reflexivity.
Qed.

(** X23: [shasm_block_tbuf_widen] succeeds exactly when the length asked
    for is at most [SHASM_BLOCK_MAXBUFFER].  On success the buffer is at
    least as long as asked and as before, at most the maximum, all zero
    bytes, of the same length when that was enough, and otherwise less
    than twice what was asked or the minimum of eight bytes; on failure
    it is left as it was. *)
Theorem shasm_block_tbuf_widen_result (pt : SHASM_BLOCK_TBUF) (tlen : Z) :
  0 <= tlen -> tbuf_ok pt ->
  exists ok pt',
    shasm_block_tbuf_widen pt tlen = Done (ok, pt') /\
    (ok = 1 /\ tlen <= SHASM_BLOCK_MAXBUFFER \/
     ok = 0 /\ SHASM_BLOCK_MAXBUFFER < tlen /\ pt' = pt) /\
    tbuf_ok pt' /\ len pt <= len pt' /\
    (ok = 1 ->
     tlen <= len pt' /\ Forall (eq x00) (pTBuf pt') /\
     (tlen <= len pt -> len pt' = len pt) /\
     (len pt < tlen -> len pt' = SHASM_BLOCK_MINTBUF \/ len pt' < 2 * tlen)).
Proof.
  intros Ht Hok.
  destruct (Z.le_gt_cases tlen SHASM_BLOCK_MAXBUFFER) as [Hfit|Hhuge].
  - destruct (shasm_block_tbuf_widen_fits pt tlen (conj Ht Hfit) Hok)
      as (pt' & Hrun & Hok' & Hlen & Hmono & Hsame & Hmin & Hzero).
    exists 1, pt'. split; [exact Hrun|]. split; [left; auto|]. auto 10.
  - exists 0, pt. rewrite shasm_block_tbuf_widen_huge by lia.
    split; [reflexivity|]. split; [right; auto|]. split; [exact Hok|].
    split; [lia|]. discriminate.
Qed.

Lemma shasm_block_tbuf_widen_result_witness :
  exists ok pt',
    shasm_block_tbuf_widen shasm_block_tbuf_init 20 = Done (ok, pt') /\
    (ok = 1 /\ 20 <= SHASM_BLOCK_MAXBUFFER \/
     ok = 0 /\ SHASM_BLOCK_MAXBUFFER < 20 /\ pt' = shasm_block_tbuf_init) /\
    tbuf_ok pt' /\ len shasm_block_tbuf_init <= len pt' /\
    (ok = 1 ->
     20 <= len pt' /\ Forall (eq x00) (pTBuf pt') /\
     (20 <= len shasm_block_tbuf_init -> len pt' = len shasm_block_tbuf_init) /\
     (len shasm_block_tbuf_init < 20 -> len pt' = SHASM_BLOCK_MINTBUF \/ len pt' < 2 * 20)).
Proof.
  apply (shasm_block_tbuf_widen_result shasm_block_tbuf_init 20).
  - lia.
  - unfold tbuf_ok. vm_compute. repeat split; discriminate.
Defined.

(** ** The encoding table backend *)

(** What one call of the table leaves in the temporary buffer. *)
Lemma table_call (penc : SHASM_BLOCK_ENCODER) (e : Z) (bs : list byte)
    (pt : SHASM_BLOCK_TBUF) :
  table_maps penc e bs -> tbuf_ok pt ->
  let pt1 := mkTBUF (len pt)
               (resize (Z.to_nat (len pt)) x00 (snd (fpMap penc e (pTBuf pt) (len pt)))) in
  fpMap penc e (shasm_block_tbuf_ptr pt) (shasm_block_tbuf_len pt) =
    (Z.of_nat (length bs), snd (fpMap penc e (pTBuf pt) (len pt))) /\
  tbuf_ok pt1 /\
  (Z.of_nat (length bs) <= len pt -> take (length bs) (pTBuf pt1) = bs).
Proof.
  intros Hmap [Hl Hlen] pt1. destruct (Hmap (pTBuf pt) (len pt)) as [Hfst Hsnd].
  unfold shasm_block_tbuf_ptr, shasm_block_tbuf_len.
  split; [rewrite <- Hfst; apply surjective_pairing|].
  subst pt1. unfold tbuf_ok. cbn [len pTBuf].
  split; [split; [exact Hl|rewrite length_resize; lia]|].
  intros Hfit. specialize (Hsnd Hfit).
  rewrite take_resize_le by lia. rewrite resize_le; [exact Hsnd|].
  rewrite <- Hsnd at 1. rewrite length_take. lia.
Qed.

(** With a table that maps the entity to [bs], [shasm_block_ereg] makes
    the temporary buffer long enough, in at most one widening, and
    appends [bs] to the block. *)
Lemma shasm_block_ereg_reads (pb : SHASM_BLOCK) (e : Z) (penc : SHASM_BLOCK_ENCODER)
    (pt : SHASM_BLOCK_TBUF) (bs : list byte) :
  code pb = SHASM_OKAY -> 0 <= e -> tbuf_ok pt -> table_maps penc e bs ->
  Z.of_nat (length bs) <= SHASM_BLOCK_MAXBUFFER ->
  exists pt',
    tbuf_ok pt' /\ len pt <= len pt' /\ Z.of_nat (length bs) <= len pt' /\
    shasm_block_ereg pb e penc pt =
      '(status, pb') ← shasm_block_addBytes pb (map byte_val bs); Done (status, pb', pt').
Proof.
  intros Hc He Hok Hmap Hmax. unfold shasm_block_ereg. rewrite Hc. cbn [is_okay].
  destruct (Z.ltb_spec e 0); [lia|].
  set (lv := Z.of_nat (length bs)) in *.
  assert (forall pt0 : SHASM_BLOCK_TBUF, tbuf_ok pt0 -> lv <= len pt0 ->
            exists pt1, tbuf_ok pt1 /\ len pt1 = len pt0 /\
              take (length bs) (pTBuf pt1) = bs /\
              forall lv0, shasm_block_ereg_body e penc (1, lv0, pt0) = Done (Break (1, lv, pt1)))
    as Hlast.
  { intros pt0 Hok0 Hfit. destruct (table_call penc e bs pt0 Hmap Hok0) as (Hcall & Hok1 & Htake).
    eexists. split; [exact Hok1|]. split; [reflexivity|]. split; [exact (Htake Hfit)|].
    intros lv0. unfold shasm_block_ereg_body. rewrite Hcall.
    unfold shasm_block_tbuf_len at 1. cbn [len]. fold lv. rewrite Z.geb_leb.
    destruct (Z.leb_spec lv (len pt0)); [reflexivity|lia]. }
  assert (exists pt', tbuf_ok pt' /\ len pt <= len pt' /\ lv <= len pt' /\
            take (length bs) (pTBuf pt') = bs /\
            while_loop ereg_fuel (fun s => negb (fst (fst s) =? 0))
              (shasm_block_ereg_body e penc) (1, 0, pt) = Done (1, lv, pt'))
    as (pt' & Hok' & Hmono & Hfit' & Htake & ->).
  { assert (1 < ereg_fuel)%nat as Hfuel by (unfold ereg_fuel; block_consts; lia).
    destruct (Z.le_gt_cases lv (len pt)) as [Hfit|Hsmall].
    - destruct (Hlast pt Hok Hfit) as (pt1 & Hok1 & Hlen1 & Htake & Hbody).
      exists pt1. split; [exact Hok1|]. split; [lia|]. split; [lia|]. split; [exact Htake|].
      apply (while_loop_ends _ _ 0 ereg_fuel (1, 0, pt) (1, 0, pt));
        [apply steps_done|lia|reflexivity|left; apply Hbody].
    - destruct (table_call penc e bs pt Hmap Hok) as (Hcall & Hok1 & _).
      set (pt1 := mkTBUF (len pt) _) in Hok1.
      destruct (shasm_block_tbuf_widen_fits pt1 lv ltac:(subst lv; lia) Hok1)
        as (pt2 & Hwiden & Hok2 & Hlen2 & Hmono2 & _).
      destruct (Hlast pt2 Hok2 Hlen2) as (pt3 & Hok3 & Hlen3 & Htake & Hbody).
      exists pt3. split; [exact Hok3|]. cbn [len] in Hmono2.
      split; [lia|]. split; [lia|]. split; [exact Htake|].
      apply (while_loop_ends _ _ 1 ereg_fuel (1, 0, pt) (1, lv, pt2));
        [|lia|reflexivity|left; apply Hbody].
      apply loop_steps_one; [reflexivity|].
      unfold shasm_block_ereg_body. rewrite Hcall.
      unfold shasm_block_tbuf_len at 1. cbn [len]. fold lv. rewrite Z.geb_leb.
      destruct (Z.leb_spec lv (len pt)); [lia|]. fold pt1. rewrite Hwiden. reflexivity. }
  exists pt'. split; [exact Hok'|]. split; [exact Hmono|]. split; [exact Hfit'|].
  cbn [mbind outcome_mbind outcome_bind Z.eqb negb].
  unfold shasm_block_tbuf_ptr. subst lv. rewrite Nat2Z.id, Htake. reflexivity.
Qed.

(** A table that asks for more than the temporary buffer may hold. *)
Lemma shasm_block_ereg_huge (pb : SHASM_BLOCK) (e : Z) (penc : SHASM_BLOCK_ENCODER)
    (pt : SHASM_BLOCK_TBUF) (bs : list byte) :
  code pb = SHASM_OKAY -> 0 <= e -> tbuf_ok pt -> table_maps penc e bs ->
  SHASM_BLOCK_MAXBUFFER < Z.of_nat (length bs) ->
  exists pt',
    tbuf_ok pt' /\ len pt' = len pt /\ shasm_block_ereg pb e penc pt = Done (0, pb, pt').
Proof.
  intros Hc He Hok Hmap Hhuge. unfold shasm_block_ereg. rewrite Hc. cbn [is_okay].
  destruct (Z.ltb_spec e 0); [lia|].
  destruct (table_call penc e bs pt Hmap Hok) as (Hcall & Hok1 & _).
  set (pt1 := mkTBUF (len pt) _) in Hok1. set (lv := Z.of_nat (length bs)) in *.
  assert (1 < ereg_fuel)%nat as Hfuel by (unfold ereg_fuel; block_consts; lia).
  exists pt1. split; [exact Hok1|]. split; [reflexivity|].
  rewrite (while_loop_ends _ _ 0 ereg_fuel (1, 0, pt) (1, 0, pt) (0, lv, pt1));
    [reflexivity|apply steps_done|lia|reflexivity|right].
  split; [|reflexivity].
  unfold shasm_block_ereg_body. rewrite Hcall.
  unfold shasm_block_tbuf_len at 1. cbn [len]. fold lv. rewrite Z.geb_leb.
  destruct Hok as [Hl _].
  destruct (Z.leb_spec lv (len pt)); [lia|]. fold pt1.
  rewrite shasm_block_tbuf_widen_huge by lia. reflexivity.
Qed.

Lemma block_holds_length (data : list Z) (pb : SHASM_BLOCK) :
  block_holds data pb -> buf_len pb = Z.of_nat (length data) /\
  buf_len pb <= SHASM_BLOCK_MAXBUFFER.
Proof.
  intros [(Hcode & Hlen & Hcap & Hn) Hd]. rewrite <- Hd, length_take. lia.
Qed.

(** The bytes that fit are appended; the status tells whether all did. *)
Lemma block_append_room (l data : list Z) (pb : SHASM_BLOCK) :
  block_holds data pb -> Forall (fun c => 0 <= c <= 255) l ->
  exists pb',
    shasm_block_addBytes pb l = Done (if (length l <=? block_room data)%nat then 1 else 0, pb') /\
    block_holds (data ++ take (block_room data) l) pb' /\ line pb' = line pb.
Proof.
  intros Hh Hall. destruct (block_holds_length data pb Hh) as [Hlen Hmax].
  destruct (block_append_upto l data pb Hh Hall Hmax) as (pb' & Hrun & Hh' & Hline).
  exists pb'. unfold block_room. rewrite <- Hlen. split; [|auto].
  rewrite Hrun. f_equal. f_equal.
  destruct (Z.leb_spec (buf_len pb + Z.of_nat (length l)) SHASM_BLOCK_MAXBUFFER);
    destruct (Nat.leb_spec (length l) (Z.to_nat (SHASM_BLOCK_MAXBUFFER - buf_len pb)));
    try reflexivity; lia.
Qed.

(** X24: with an encoding table that maps the entity to the bytes [bs],
    [shasm_block_ereg] (and [shasm_block_encode] without an output
    override) widens the temporary buffer as needed and appends to the
    block the bytes of [bs] that fit under the ceiling; it returns 1
    exactly when all of them fit.  When the table asks for more than
    [SHASM_BLOCK_MAXBUFFER] bytes, nothing is appended and the temporary
    buffer keeps its length.  In no case is an error code set. *)
Theorem shasm_block_ereg_table (pb : SHASM_BLOCK) (data : list Z) (e o_strict : Z)
    (penc : SHASM_BLOCK_ENCODER) (pt : SHASM_BLOCK_TBUF) (bs : list byte) :
  block_holds data pb -> 0 <= e -> tbuf_ok pt -> table_maps penc e bs ->
  exists ok pb' pt',
    shasm_block_ereg pb e penc pt = Done (ok, pb', pt') /\
    shasm_block_encode pb e penc SHASM_BLOCK_OMODE_NONE o_strict pt = Done (ok, pb', pt') /\
    ok = (if (length bs <=? block_room data)%nat then 1 else 0) /\
    tbuf_ok pt' /\ len pt <= len pt' /\ code pb' = SHASM_OKAY /\
    (Z.of_nat (length bs) <= SHASM_BLOCK_MAXBUFFER ->
     Z.of_nat (length bs) <= len pt' /\
     block_holds (data ++ take (block_room data) (map byte_val bs)) pb') /\
    (SHASM_BLOCK_MAXBUFFER < Z.of_nat (length bs) -> pb' = pb /\ len pt' = len pt).
Proof.
  intros Hh He Hok Hmap. pose proof Hh as ((Hc & _) & _).
  rewrite shasm_block_encode_none by assumption.
  destruct (Z.le_gt_cases (Z.of_nat (length bs)) SHASM_BLOCK_MAXBUFFER) as [Hfit|Hhuge].
  - destruct (shasm_block_ereg_reads pb e penc pt bs Hc He Hok Hmap Hfit)
      as (pt' & Hok' & Hmono & Hlen' & ->).
    destruct (block_append_room (map byte_val bs) data pb Hh) as (pb' & Hrun & Hh' & _).
    { apply Forall_map, Forall_forall. intros b _. apply ShastinaFacts.byte_val_range. }
    rewrite Hrun, length_map. cbn [mbind outcome_mbind outcome_bind].
    eexists _, pb', pt'. split; [reflexivity|]. split; [reflexivity|]. split; [reflexivity|].
    split; [exact Hok'|]. split; [exact Hmono|]. split; [apply Hh'|].
    split; [auto|lia].
  - destruct (shasm_block_ereg_huge pb e penc pt bs Hc He Hok Hmap Hhuge)
      as (pt' & Hok' & Hlen' & ->).
    exists 0, pb, pt'. split; [reflexivity|]. split; [reflexivity|].
    split.
    { destruct (Nat.leb_spec (length bs) (block_room data)) as [Hle|_]; [|reflexivity].
      unfold block_room in Hle. revert Hle Hhuge. block_consts. lia. }
    split; [exact Hok'|]. split; [lia|]. split; [exact Hc|]. split; [lia|auto].
Qed.

Lemma shasm_block_ereg_table_witness :
  let penc := mkENCODER (fun _ buf n => (2, if 2 <=? n then x41 :: x42 :: drop 2 buf else buf)) in
  exists ok pb' pt',
    shasm_block_ereg shasm_block_alloc 7 penc shasm_block_tbuf_init = Done (ok, pb', pt') /\
    shasm_block_encode shasm_block_alloc 7 penc SHASM_BLOCK_OMODE_NONE 0
      shasm_block_tbuf_init = Done (ok, pb', pt') /\
    ok = (if (length [x41; x42] <=? block_room [])%nat then 1 else 0) /\
    tbuf_ok pt' /\ len shasm_block_tbuf_init <= len pt' /\ code pb' = SHASM_OKAY /\
    (Z.of_nat (length [x41; x42]) <= SHASM_BLOCK_MAXBUFFER ->
     Z.of_nat (length [x41; x42]) <= len pt' /\
     block_holds ([] ++ take (block_room []) (map byte_val [x41; x42])) pb') /\
    (SHASM_BLOCK_MAXBUFFER < Z.of_nat (length [x41; x42]) ->
     pb' = shasm_block_alloc /\ len pt' = len shasm_block_tbuf_init).
Proof.
  intros penc.
  apply (shasm_block_ereg_table shasm_block_alloc [] 7 0 penc shasm_block_tbuf_init [x41; x42]).
  - exact shasm_block_alloc_holds.
  - lia.
  - unfold tbuf_ok. vm_compute. repeat split; discriminate.
  - intros buf n. cbn [penc fpMap fst snd length]. split; [reflexivity|].
    intros Hn. destruct (Z.leb_spec 2 n); [reflexivity|lia].
Defined.

(** ** The Unicode encoders as appends *)

Lemma shasm_block_addBytes_app (l1 l2 : list Z) :
  forall pb : SHASM_BLOCK,
  encode_then (shasm_block_addBytes pb l1) (fun pb' => shasm_block_addBytes pb' l2) =
    shasm_block_addBytes pb (l1 ++ l2).
Proof.
  unfold encode_then. induction l1 as [|c l1 IH]; intros pb; [reflexivity|].
  cbn [shasm_block_addBytes app].
  destruct (shasm_block_addByte pb c) as [[ok pb1]| |];
    cbn [mbind outcome_mbind outcome_bind]; try reflexivity.
  destruct (ok =? 0); [reflexivity|]. apply IH.
Qed.

Lemma encode_then_ext (pb : SHASM_BLOCK) (l : list Z)
    (k k' : SHASM_BLOCK -> outcome (Z * SHASM_BLOCK)) :
  (forall pb', code pb' = code pb -> k pb' = k' pb') ->
  encode_then (shasm_block_addBytes pb l) k = encode_then (shasm_block_addBytes pb l) k'.
Proof.
  intros Hk. unfold encode_then.
  destruct (shasm_block_addBytes pb l) as [[ok pb']| |] eqn:Hrun;
    cbn [mbind outcome_mbind outcome_bind]; try reflexivity.
  destruct (ok =? 0); [reflexivity|].
  apply Hk. exact (proj2 (block_appends_status _ _ _ _ Hrun)).
Qed.

Lemma shasm_block_utf16_scalar (d : nat) (pb : SHASM_BLOCK) (v big : Z) :
  code pb = SHASM_OKAY -> 0 <= v < SHASM_BLOCK_MINSUPPLEMENTAL ->
  shasm_block_utf16 (S d) pb v big = shasm_block_addBytes pb (word_bytes big 2 v).
Proof.
  intros Hc Hv. rewrite shasm_block_utf16_unit by assumption. rewrite Hc. cbn [is_okay].
  revert Hv. block_consts. intros Hv.
  destruct (le_bytes_unit v ltac:(lia)) as [Hle _].
  rewrite Z.mod_small in Hle by lia.
  unfold word_bytes. rewrite <- Hle. destruct (big =? 0); reflexivity.
Qed.

Lemma shasm_block_utf32_scalar (pb : SHASM_BLOCK) (e big : Z) :
  code pb = SHASM_OKAY -> 0 <= e <= SHASM_BLOCK_MAXCODE ->
  shasm_block_utf32 pb e big = shasm_block_addBytes pb (word_bytes big 4 e).
Proof.
  intros Hc. block_consts. intros He.
  unfold shasm_block_utf32. rewrite Hc. block_consts.
  destruct (Z.ltb_spec e 0); [lia|]. rewrite Z.gtb_ltb.
  destruct (Z.ltb_spec 1114111 e); [lia|]. cbn [orb is_okay Z.eqb negb].
  destruct (le_bytes_unit e ltac:(lia)) as [_ Hle].
  rewrite Z.mod_small in Hle by lia.
  unfold word_bytes. rewrite <- Hle. destruct (big =? 0); reflexivity.
Qed.

Lemma shasm_block_utf16_appends (pb : SHASM_BLOCK) (e big : Z) :
  code pb = SHASM_OKAY -> 0 <= e <= SHASM_BLOCK_MAXCODE ->
  shasm_block_utf16 utf_depth pb e big =
    shasm_block_addBytes pb (concat (map (word_bytes big 2) (utf16_units e))).
Proof.
  intros Hc He. destruct (utf16_units_facts e He) as (_ & _ & Hsup & Hbmp).
  destruct (Z.lt_ge_cases e SHASM_BLOCK_MINSUPPLEMENTAL) as [Hlow|Hhigh].
  - rewrite (Hbmp Hlow). cbn [map concat]. rewrite app_nil_r.
    apply shasm_block_utf16_scalar; [assumption|lia].
  - rewrite (Hsup Hhigh). cbn [map concat]. rewrite app_nil_r.
    destruct (cesu8_halves e ltac:(lia)) as (_ & _ & Hrhi & Hrlo).
    destruct (shasm_block_pair_spec e ltac:(lia)) as (_ & Hhi & Hlo & _).
    rewrite shasm_block_utf16_pair by lia. cbv zeta. unfold utf_depth.
    rewrite shasm_block_utf16_scalar by (try assumption; block_consts; lia).
    rewrite <- shasm_block_addBytes_app. apply encode_then_ext.
    intros pb' Hc'. apply shasm_block_utf16_scalar; [congruence|block_consts; lia].
Qed.

Lemma shasm_block_utf8_appends (pb : SHASM_BLOCK) (e : Z) :
  code pb = SHASM_OKAY -> 0 <= e <= SHASM_BLOCK_MAXCODE ->
  shasm_block_utf8 utf_depth pb e 0 = shasm_block_addBytes pb (utf8_bytes e) /\
  shasm_block_utf8 utf_depth pb e 1 = shasm_block_addBytes pb (cesu8_bytes e).
Proof.
  intros Hc He. split; [apply shasm_block_utf8_scalar; auto|].
  destruct (utf16_units_facts e He) as (_ & _ & Hsup & Hbmp). unfold cesu8_bytes.
  destruct (Z.lt_ge_cases e SHASM_BLOCK_MINSUPPLEMENTAL) as [Hlow|Hhigh].
  - rewrite (Hbmp Hlow). cbn [map concat]. rewrite app_nil_r.
    apply shasm_block_utf8_scalar; auto.
  - rewrite (Hsup Hhigh). cbn [map concat]. rewrite app_nil_r.
    destruct (shasm_block_pair_spec e ltac:(lia)) as (_ & Hhi & Hlo & _).
    rewrite shasm_block_utf8_pair by lia. cbv zeta. unfold utf_depth.
    rewrite shasm_block_utf8_scalar by (try assumption; block_consts; lia).
    rewrite <- shasm_block_addBytes_app. apply encode_then_ext.
    intros pb' Hc'. apply shasm_block_utf8_scalar; [congruence|block_consts; lia..].
Qed.

(** Under a Unicode output override, [shasm_block_encode] appends the
    bytes of the code in that encoding. *)
Lemma shasm_block_encode_appends (pb : SHASM_BLOCK) (e : Z) (penc : SHASM_BLOCK_ENCODER)
    (o_over o_strict : Z) (pt : SHASM_BLOCK_TBUF) :
  code pb = SHASM_OKAY -> 0 <= e <= SHASM_BLOCK_MAXCODE ->
  o_strict = 0 \/ e < SHASM_BLOCK_MINSURROGATE \/ SHASM_BLOCK_MAXSURROGATE < e ->
  SHASM_BLOCK_OMODE_UTF8 <= o_over <= SHASM_BLOCK_OMODE_U32BE ->
  shasm_block_encode pb e penc o_over o_strict pt =
    '(ok, pb') ← shasm_block_addBytes pb (unicode_bytes o_over e); Done (ok, pb', pt).
Proof.
  intros Hc He Hs Hm. rewrite shasm_block_encode_unicode by assumption.
  destruct (shasm_block_utf8_appends pb e Hc He) as [-> ->].
  rewrite !shasm_block_utf16_appends, !shasm_block_utf32_scalar by assumption.
  assert ((if o_over =? SHASM_BLOCK_OMODE_UTF8
           then shasm_block_addBytes pb (utf8_bytes e)
           else if o_over =? SHASM_BLOCK_OMODE_CESU8
           then shasm_block_addBytes pb (cesu8_bytes e)
           else if o_over =? SHASM_BLOCK_OMODE_U16LE
           then shasm_block_addBytes pb (concat (map (word_bytes 0 2) (utf16_units e)))
           else if o_over =? SHASM_BLOCK_OMODE_U16BE
           then shasm_block_addBytes pb (concat (map (word_bytes 1 2) (utf16_units e)))
           else if o_over =? SHASM_BLOCK_OMODE_U32LE
           then shasm_block_addBytes pb (word_bytes 0 4 e)
           else shasm_block_addBytes pb (word_bytes 1 4 e)) =
          shasm_block_addBytes pb (unicode_bytes o_over e)) as ->.
  { unfold unicode_bytes.
    repeat match goal with |- context [if ?b then _ else _] => destruct b; [reflexivity|] end.
    reflexivity. }
  destruct (shasm_block_addBytes pb (unicode_bytes o_over e)) as [[ok pb']| |] eqn:Hrun;
    cbn [mbind outcome_mbind outcome_bind]; try reflexivity.
  destruct (block_appends_status _ _ _ _ Hrun) as [[-> | ->] _]; reflexivity.
Qed.

(** X25: under a Unicode output override, [shasm_block_encode] appends
    to the block the bytes of the code that fit under the ceiling of
    [SHASM_BLOCK_MAXBUFFER] bytes, and returns 1 exactly when all of
    them fit.  A failure therefore leaves part of a character in the
    block; it sets no error code, and the line number and the temporary
    buffer are untouched. *)
Theorem shasm_block_encode_ceiling (pb : SHASM_BLOCK) (data : list Z) (e : Z)
    (penc : SHASM_BLOCK_ENCODER) (o_over o_strict : Z) (pt : SHASM_BLOCK_TBUF) :
  block_holds data pb -> 0 <= e <= SHASM_BLOCK_MAXCODE ->
  o_strict = 0 \/ e < SHASM_BLOCK_MINSURROGATE \/ SHASM_BLOCK_MAXSURROGATE < e ->
  SHASM_BLOCK_OMODE_UTF8 <= o_over <= SHASM_BLOCK_OMODE_U32BE ->
  exists pb',
    shasm_block_encode pb e penc o_over o_strict pt =
      Done (if (length (unicode_bytes o_over e) <=? block_room data)%nat then 1 else 0,
            pb', pt) /\
    block_holds (data ++ take (block_room data) (unicode_bytes o_over e)) pb' /\
    line pb' = line pb /\
    Forall (fun c => 0 <= c <= 255) (unicode_bytes o_over e) /\
    (1 <= length (unicode_bytes o_over e) <= 6)%nat.
Proof.
  intros Hh He Hs Hm. pose proof Hh as ((Hc & _) & _).
  rewrite shasm_block_encode_appends by assumption.
  assert (Forall (fun c => 0 <= c <= 255) (unicode_bytes o_over e) /\
          (1 <= length (unicode_bytes o_over e) <= 6)%nat) as [Hall Hlen].
  { destruct (utf16_units_facts e He) as (_ & Hunits & Hsup & Hbmp).
    assert (0 <= e < 256 ^ Z.of_nat 4) as He4.
    { revert He. block_consts. change (256 ^ Z.of_nat 4) with 4294967296. lia. }
    assert (forall big l, Forall (fun u => 0 <= u < 0x10000) l ->
              Forall (fun c => 0 <= c <= 255) (concat (map (word_bytes big 2) l)) /\
              length (concat (map (word_bytes big 2) l)) = (2 * length l)%nat) as Hwords.
    { intros big l Hl. induction Hl as [|u l Hu _ [IH1 IH2]]; [split; [constructor|reflexivity]|].
      destruct (word_bytes_facts big 2 u) as (_ & Hb & Hn);
        [change (256 ^ Z.of_nat 2) with 65536; lia|].
      cbn [map concat]. rewrite length_app, Hn, IH2. split; [|cbn [length]; lia].
      apply Forall_app. auto. }
    assert (forall l, Forall (fun u => 0 <= u < 0x10000) l ->
              Forall (fun c => 0 <= c <= 255) (concat (map utf8_bytes l)) /\
              (length l <= length (concat (map utf8_bytes l)) <= 3 * length l)%nat) as Hutf8.
    { intros l Hl. induction Hl as [|u l Hu _ [IH1 IH2]]; [split; [constructor|cbn; lia]|].
      destruct (utf8_bytes_facts u) as (_ & Hb & Hn & Hn3); [block_consts; lia|].
      specialize (Hn3 ltac:(lia)).
      cbn [map concat]. rewrite length_app. split; [|cbn [length]; lia].
      apply Forall_app. auto. }
    assert (1 <= length (utf16_units e) <= 2)%nat as Hcount.
    { unfold utf16_units. destruct (e <? 65536); cbn [length]; lia. }
    unfold unicode_bytes, cesu8_bytes.
    destruct (utf8_bytes_facts e He) as (_ & ? & ? & _).
    destruct (Hwords 0 _ Hunits). destruct (Hwords 1 _ Hunits).
    destruct (Hutf8 _ Hunits).
    destruct (word_bytes_facts 0 4 e He4) as (_ & ? & ?).
    destruct (word_bytes_facts 1 4 e He4) as (_ & ? & ?).
    repeat match goal with |- context [if ?b then _ else _] => destruct b end;
      split; auto; lia. }
  destruct (block_append_room (unicode_bytes o_over e) data pb Hh Hall)
    as (pb' & Hrun & Hh' & Hline).
  exists pb'. rewrite Hrun. cbn [mbind outcome_mbind outcome_bind]. auto.
Qed.

Lemma shasm_block_encode_ceiling_witness :
  let penc := mkENCODER (fun _ buf _ => (0, buf)) in
  exists pb',
    shasm_block_encode shasm_block_alloc 0x10348 penc SHASM_BLOCK_OMODE_CESU8 0
      shasm_block_tbuf_init =
      Done (if (length (unicode_bytes SHASM_BLOCK_OMODE_CESU8 0x10348) <=? block_room [])%nat
            then 1 else 0, pb', shasm_block_tbuf_init) /\
    block_holds ([] ++ take (block_room []) (unicode_bytes SHASM_BLOCK_OMODE_CESU8 0x10348)) pb' /\
    line pb' = line shasm_block_alloc /\
    Forall (fun c => 0 <= c <= 255) (unicode_bytes SHASM_BLOCK_OMODE_CESU8 0x10348) /\
    (1 <= length (unicode_bytes SHASM_BLOCK_OMODE_CESU8 0x10348) <= 6)%nat.
Proof.
  intros penc.
  apply (shasm_block_encode_ceiling shasm_block_alloc [] 0x10348 penc
           SHASM_BLOCK_OMODE_CESU8 0 shasm_block_tbuf_init).
  - exact shasm_block_alloc_holds.
  - vm_compute. split; discriminate.
  - left. reflexivity.
  - vm_compute. split; discriminate.
Defined.

(** ** The error state *)

(** X26: once the block reader is in an error state, everything that
    writes to it returns 0 and changes nothing: the byte append, the
    three Unicode encoders, the encoding table backend (the table is not
    consulted and the temporary buffer is untouched), the entity encoder
    and the token reader, which reads no input; a further error does not
    replace the code or the line recorded first. *)
Theorem shasm_block_error_absorbs {IFL : Type} `{ShasmInput IFL}
    (pb : SHASM_BLOCK) (ps : IFL) (fuel : nat) (c e k cesu8 big o_over o_strict : Z)
    (penc : SHASM_BLOCK_ENCODER) (pt : SHASM_BLOCK_TBUF) (err : shasm_code) :
  code pb <> SHASM_OKAY -> err <> SHASM_OKAY ->
  0 <= c <= 255 -> 0 <= e <= SHASM_BLOCK_MAXCODE -> 0 <= k ->
  shasm_block_addByte pb c = Done (0, pb) /\
  shasm_block_utf8 utf_depth pb e cesu8 = Done (0, pb) /\
  shasm_block_utf16 utf_depth pb e big = Done (0, pb) /\
  shasm_block_utf32 pb e big = Done (0, pb) /\
  shasm_block_ereg pb k penc pt = Done (0, pb, pt) /\
  shasm_block_encode pb k penc o_over o_strict pt = Done (0, pb, pt) /\
  shasm_block_token fuel pb ps = Done (0, pb, ps) /\
  shasm_block_seterr pb ps err = Done pb.
Proof.
  intros Hc Herr Hcr. block_consts. intros He Hk.
  assert (is_okay (code pb) = false) as Hno by (destruct (code pb); [contradiction|reflexivity..]).
  assert (is_okay err = false) as Hno' by (destruct err; [contradiction|reflexivity..]).
  repeat split.
  - unfold shasm_block_addByte. rewrite Hno.
    destruct (Z.ltb_spec c 0); [lia|]. rewrite Z.gtb_ltb.
    destruct (Z.ltb_spec 255 c); [lia|]. reflexivity.
  - unfold utf_depth. cbn [shasm_block_utf8]. block_consts. rewrite Hno.
    destruct (Z.ltb_spec e 0); [lia|]. rewrite Z.gtb_ltb.
    destruct (Z.ltb_spec 1114111 e); [lia|]. reflexivity.
  - unfold utf_depth. cbn [shasm_block_utf16]. block_consts. rewrite Hno.
    destruct (Z.ltb_spec e 0); [lia|]. rewrite Z.gtb_ltb.
    destruct (Z.ltb_spec 1114111 e); [lia|]. reflexivity.
  - unfold shasm_block_utf32. block_consts. rewrite Hno.
    destruct (Z.ltb_spec e 0); [lia|]. rewrite Z.gtb_ltb.
    destruct (Z.ltb_spec 1114111 e); [lia|]. reflexivity.
  - apply shasm_block_ereg_error; assumption.
  - unfold shasm_block_encode. rewrite Hno.
    destruct (Z.ltb_spec k 0); [lia|]. reflexivity.
  - unfold shasm_block_token. rewrite Hno.
    rewrite while_loop_stops by reflexivity. reflexivity.
  - unfold shasm_block_seterr. rewrite Hno', Hno. reflexivity.
Qed.

Lemma shasm_block_error_absorbs_witness :
  let pb := mkBLOCK SHASM_ERR_EOF 3 32 0 0 (zeros 32) in
  let penc := mkENCODER (fun _ buf _ => (1, buf)) in
  let ps := filtered_start [0x41] in
  shasm_block_addByte pb 0x41 = Done (0, pb) /\
  shasm_block_utf8 utf_depth pb 0x41 1 = Done (0, pb) /\
  shasm_block_utf16 utf_depth pb 0x41 1 = Done (0, pb) /\
  shasm_block_utf32 pb 0x41 1 = Done (0, pb) /\
  shasm_block_ereg pb 0x41 penc shasm_block_tbuf_init = Done (0, pb, shasm_block_tbuf_init) /\
  shasm_block_encode pb 0x41 penc SHASM_BLOCK_OMODE_NONE 0 shasm_block_tbuf_init =
    Done (0, pb, shasm_block_tbuf_init) /\
  shasm_block_token 8 pb ps = Done (0, pb, ps) /\
  shasm_block_seterr pb ps SHASM_ERR_IO = Done pb.
Proof.
  intros pb penc ps.
  apply (shasm_block_error_absorbs pb ps 8 0x41 0x41 0x41 1 1 SHASM_BLOCK_OMODE_NONE 0 penc
           shasm_block_tbuf_init SHASM_ERR_IO).
  - discriminate.
  - discriminate.
  - lia.
  - vm_compute. split; discriminate.
  - lia.
Defined.

(** ** What the token reader returns *)

Lemma shasm_block_clear_text (pb : SHASM_BLOCK) :
  block_ok pb -> block_text [] (shasm_block_clear pb).
Proof.
  intros Hok. split; [apply shasm_block_clear_holds, Hok|].
  destruct Hok as (Hc & Hl & Hcap & Hn).
  unfold shasm_block_clear. cbn [null_present pBuf buf_cap buf_len app].
  split; [reflexivity|]. split; [|left; lia].
  unfold memset0. cbn [Z.to_nat take app]. rewrite Z.add_0_l, Z.sub_0_r.
  rewrite drop_ge by lia. apply app_nil_r.
Qed.

Lemma block_text_append (data : list Z) (pb : SHASM_BLOCK) (c : Z) :
  block_text data pb -> 1 <= c <= 255 -> buf_len pb < SHASM_BLOCK_MAXBUFFER ->
  exists pb',
    shasm_block_addByte pb c = Done (1, pb') /\ block_text (data ++ [c]) pb' /\
    line pb' = line pb.
Proof.
  intros (Hh & Hnp & Hbuf & Hterm) Hc Hroom.
  destruct (block_holds_length data pb Hh) as [Hlen _].
  pose proof Hh as [Hok _].
  destruct (block_append_ok pb c Hok ltac:(lia) Hroom) as (pb' & Hrun & Hok' & Hl' & Hline & Ht).
  exists pb'. split; [exact Hrun|]. split; [|exact Hline].
  assert (block_holds (data ++ [c]) pb') as Hh'.
  { split; [exact Hok'|]. rewrite Hl', Ht. destruct Hh as [_ ->]. reflexivity. }
  split; [exact Hh'|].
  destruct Hok as (Hcode & Hcaplen & Hcap & Hn).
  destruct Hterm as [Hterm|Hterm]; [|lia].
  revert Hrun. unfold shasm_block_addByte. rewrite Hcode. revert Hroom Hcap. block_consts.
  intros Hroom Hcap.
  destruct (Z.ltb_spec c 0); [lia|]. rewrite Z.gtb_ltb.
  destruct (Z.ltb_spec 255 c); [lia|]. cbn [orb is_okay Z.eqb negb andb].
  destruct (Z.eqb_spec c 0); [lia|]. rewrite !Z.geb_leb.
  destruct (Z.leb_spec (buf_cap pb - 1) (buf_len pb)) as [Hgrow|Hkeep].
  - destruct (Z.leb_spec 32767 (buf_len pb)); [lia|]. cbn [Z.eqb negb].
    rewrite Z.gtb_ltb.
    set (newcap := if 32767 <? buf_cap pb * 2 then 32767 else buf_cap pb * 2).
    assert (buf_len pb < newcap <= 32767 /\ (newcap = 32767 \/ newcap = buf_cap pb * 2))
      as [Hnew Hnew'].
    { subst newcap. destruct (Z.ltb_spec 32767 (buf_cap pb * 2)); lia. }
    cbn [code line buf_cap buf_len null_present pBuf Z.eqb negb].
    intros [= <-]. cbn [null_present pBuf buf_cap buf_len].
    split; [exact Hnp|]. split; [|block_consts; lia].
    unfold store, memset0, realloc. rewrite Hbuf.
    replace (buf_len pb + (newcap - buf_len pb)) with newcap by lia.
    rewrite drop_ge by (rewrite length_resize; lia).
    rewrite app_nil_r, take_resize_le by lia.
    rewrite resize_le by (rewrite length_app; lia).
    rewrite take_app_le, take_ge by lia.
    replace (Z.to_nat (buf_len pb)) with (length data + 0)%nat by lia.
    rewrite insert_app_r. unfold zeros.
    replace (Z.to_nat (newcap - buf_len pb)) with (S (Z.to_nat (newcap - (buf_len pb + 1))))
      by lia.
    cbn [replicate]. rewrite <- app_assoc. reflexivity.
  - cbn [Z.eqb negb]. intros [= <-]. cbn [null_present pBuf buf_cap buf_len].
    split; [exact Hnp|]. split; [|left; lia].
    unfold store. rewrite Hbuf.
    replace (Z.to_nat (buf_len pb)) with (length data + 0)%nat by lia.
    rewrite insert_app_r. unfold zeros.
    replace (Z.to_nat (buf_cap pb - buf_len pb))
      with (S (Z.to_nat (buf_cap pb - (buf_len pb + 1)))) by lia.
    cbn [replicate]. rewrite <- app_assoc. reflexivity.
Qed.

Section TokenResult.
Context `{ShasmInput IFL}.

Lemma shasm_block_seterr_fails (pb : SHASM_BLOCK) (ps : IFL) (err : shasm_code) :
  code pb = SHASM_OKAY -> err <> SHASM_OKAY ->
  exists pb', shasm_block_seterr pb ps err = Done pb' /\ block_failed pb' /\
              code pb' = err /\ line pb' = shasm_input_count ps.
Proof.
  intros Hc Herr. unfold shasm_block_seterr. rewrite Hc.
  destruct err; [contradiction|..]; cbn [is_okay];
    (eexists; split; [reflexivity|]; split; [split; [discriminate|reflexivity]|auto]).
Qed.

Lemma token_check_input_cases (st c : Z) (pb : SHASM_BLOCK) (ps : IFL) :
  code pb = SHASM_OKAY ->
  token_check_input st c pb ps = Done (st, pb) \/
  exists pb', token_check_input st c pb ps = Done (0, pb') /\ block_failed pb'.
Proof.
  intros Hc. unfold token_check_input.
  destruct (c =? SHASM_INPUT_EOF).
  - right. destruct (shasm_block_seterr_fails pb ps SHASM_ERR_EOF Hc) as (pb' & -> & Hf & _);
      [discriminate|]. exists pb'. auto.
  - destruct (c =? SHASM_INPUT_IOERR); [|auto].
    right. destruct (shasm_block_seterr_fails pb ps SHASM_ERR_IO Hc) as (pb' & -> & Hf & _);
      [discriminate|]. exists pb'. auto.
Qed.

Lemma token_check_range_cases (c : Z) (pb : SHASM_BLOCK) (ps : IFL) :
  code pb = SHASM_OKAY ->
  (token_check_range 1 c pb ps = Done (1, pb) /\
   SHASM_ASCII_VISPRINT_MIN <= c <= SHASM_ASCII_VISPRINT_MAX) \/
  exists pb', token_check_range 1 c pb ps = Done (0, pb') /\ block_failed pb'.
Proof.
  intros Hc. unfold token_check_range. cbn [Z.eqb negb andb]. rewrite Z.gtb_ltb.
  destruct (Z.ltb_spec c SHASM_ASCII_VISPRINT_MIN);
    [|destruct (Z.ltb_spec SHASM_ASCII_VISPRINT_MAX c)]; cbn [orb].
  3: left; split; [reflexivity|lia].
  all: right; destruct (shasm_block_seterr_fails pb ps SHASM_ERR_TOKENCHAR Hc)
         as (pb' & -> & Hf & _); [discriminate|]; exists pb'; auto.
Qed.

Lemma token_add_cases (data : list Z) (c : Z) (pb : SHASM_BLOCK) (ps : IFL) :
  block_text data pb -> 1 <= c <= 255 ->
  (exists pb', token_add 1 c pb ps = Done (1, pb') /\ block_text (data ++ [c]) pb') \/
  exists pb', token_add 1 c pb ps = Done (0, pb') /\ block_failed pb'.
Proof.
  intros Ht Hc. pose proof Ht as [Hh _]. unfold token_add.
  destruct (block_holds_length data pb Hh) as [_ Hmax].
  destruct (Z.eq_dec (buf_len pb) SHASM_BLOCK_MAXBUFFER) as [Hfull|Hroom].
  - right. rewrite block_append_full by (try apply Hh; lia).
    cbn [mbind outcome_mbind outcome_bind Z.eqb].
    destruct (shasm_block_seterr_fails pb ps SHASM_ERR_HUGEBLOCK) as (pb' & -> & Hf & _);
      [apply Hh|discriminate|]. exists pb'. auto.
  - left. destruct (block_text_append data pb c Ht Hc) as (pb1 & Hrun & Ht1 & _); [lia|].
    rewrite Hrun. cbn [mbind outcome_mbind outcome_bind Z.eqb]. exists pb1. auto.
Qed.

Lemma shasm_input_get_while_safe (p : Z -> bool) (fuel : nat) :
  forall ps : IFL, shasm_input_get_while fuel p ps <> Abort.
Proof.
  induction fuel as [|fuel IH]; intros ps; cbn [shasm_input_get_while]; [discriminate|].
  destruct (shasm_input_get ps) as [c ps1]. destruct (p c); [apply IH|discriminate].
Qed.

Lemma token_skip_body_safe (fuel : nat) (t : tokenizer IFL) :
  t_status t = 1 -> block_ok (t_pb t) ->
  match token_skip_body fuel t with
  | Done (Continue t') =>
      (t_status t' = 1 /\ block_ok (t_pb t')) \/ (t_status t' = 0 /\ block_failed (t_pb t'))
  | Done (Break t') => t_status t' = 1 /\ block_ok (t_pb t')
  | Abort => False
  | OutOfFuel => True
  end.
Proof.
  destruct t as [st c0 pb ps]. cbn [t_status t_pb]. intros -> Hok.
  pose proof Hok as (Hc & _).
  unfold token_skip_body. cbn [t_status t_pb t_ps].
  pose proof (shasm_input_get_while_safe is_token_blank fuel ps) as Hget.
  destruct (shasm_input_get_while fuel is_token_blank ps) as [[c ps1]| |];
    cbn [mbind outcome_mbind outcome_bind]; [|contradiction|exact I].
  destruct (token_check_input_cases 1 c pb ps1 Hc) as [->|(pb' & -> & Hf)];
    cbn [mbind outcome_mbind outcome_bind Z.eqb negb andb].
  - destruct (c =? SHASM_ASCII_AMPERSAND); cbn [negb].
    + pose proof (shasm_input_get_while_safe in_token_comment fuel ps1) as Hget2.
      destruct (shasm_input_get_while fuel in_token_comment ps1) as [[c2 ps2]| |];
        cbn [mbind outcome_mbind outcome_bind]; [|contradiction|exact I].
      destruct (token_check_input_cases 1 c2 pb ps2 Hc) as [->|(pb' & -> & Hf)];
        cbn [mbind outcome_mbind outcome_bind t_status t_pb]; auto.
    + cbn [t_status t_pb]. split; [reflexivity|].
      destruct Hok as (? & ? & ? & ?). unfold block_ok. cbn. auto.
  - cbn [t_status t_pb]. auto.
Qed.

Lemma token_inclusive_visible (c : Z) :
  is_token_inclusive c = true ->
  SHASM_ASCII_VISPRINT_MIN <= c <= SHASM_ASCII_VISPRINT_MAX.
Proof.
  unfold is_token_inclusive. block_consts. intros Hc.
  repeat match type of Hc with
  | (_ || _) = true => apply orb_true_iff in Hc as [Hc|Hc]
  end; apply Z.eqb_eq in Hc; lia.
Qed.

(** Appending a visible character to the token. *)
Lemma token_add_state (P P' : list Z -> Prop) (c : Z) (pb : SHASM_BLOCK) (ps : IFL) :
  token_state P 1 pb ->
  SHASM_ASCII_VISPRINT_MIN <= c <= SHASM_ASCII_VISPRINT_MAX ->
  (forall tok, P tok -> P' (tok ++ [c])) ->
  exists st pb', token_add 1 c pb ps = Done (st, pb') /\ token_state P' st pb'.
Proof.
  intros [(_ & tok & Hp & Hh & Hv)|[Hst _]] Hc Hstep; [|discriminate].
  destruct (token_add_cases tok c pb ps Hh) as [(pb' & Hrun & Hh')|(pb' & Hrun & Hf)].
  { revert Hc. block_consts. lia. }
  - exists 1, pb'. split; [exact Hrun|]. left. split; [reflexivity|].
    exists (tok ++ [c]). split; [auto|]. split; [assumption|].
    apply Forall_app. split; [assumption|]. constructor; [exact Hc|constructor].
  - exists 0, pb'. split; [exact Hrun|]. right. auto.
Qed.

Lemma token_more_body_safe (t : tokenizer IFL) :
  token_state (fun tok => tok <> []) (t_status t) (t_pb t) -> t_status t = 1 ->
  match token_more_body t with
  | Done (Continue t') | Done (Break t') =>
      token_state (fun tok => tok <> []) (t_status t') (t_pb t')
  | Abort => False
  | OutOfFuel => True
  end.
Proof.
  destruct t as [st c0 pb ps]. cbn [t_status t_pb]. intros Hst ->.
  assert (code pb = SHASM_OKAY) as Hc.
  { destruct Hst as [(_ & tok & _ & Hh & _)|[Hz _]]; [apply Hh|discriminate]. }
  unfold token_more_body. cbn [t_status t_pb t_ps].
  destruct (shasm_input_get ps) as [c ps1].
  destruct (token_check_input_cases 1 c pb ps1 Hc) as [->|(pb' & -> & Hf)];
    cbn [mbind outcome_mbind outcome_bind Z.eqb negb andb].
  - destruct (is_token_stop c); [exact Hst|].
    destruct (token_check_range_cases c pb ps1 Hc) as [[-> Hv]|(pb' & -> & Hf)];
      cbn [mbind outcome_mbind outcome_bind Z.eqb negb andb].
    + destruct (token_add_state _ (fun tok => tok <> []) c pb ps1 Hst Hv)
        as (st' & pb' & -> & Hst').
      { intros tok _. destruct tok; discriminate. }
      exact Hst'.
    + right. auto.
  - right. auto.
Qed.

(** The stages of [shasm_block_token] after the first character. *)
Lemma shasm_block_token_tail (fuel : nat) (st : Z) (pb : SHASM_BLOCK) (ps : IFL) :
  token_state (fun tok => tok <> []) st pb ->
  match
    (if negb (st =? 0) && token_is_open pb then
       t ← while_loop fuel tokenizer_running token_more_body (mkTokenizer st 0 pb ps);
       let '(status, c, pb, ps) := (t_status t, t_c t, t_pb t, t_ps t) in
       if negb (status =? 0) && is_token_inclusive c then
         '(status, pb) ← token_add status c pb ps;
         Done (status, pb, ps)
       else if negb (status =? 0) then Done (status, pb, shasm_input_back ps)
       else Done (status, pb, ps)
     else Done (st, pb, ps))
  with
  | Done (st', pb', _) => token_state (fun tok => tok <> []) st' pb'
  | Abort => False
  | OutOfFuel => True
  end.
Proof.
  intros Hst.
  destruct (negb (st =? 0) && token_is_open pb); [|exact Hst].
  pose proof (while_loop_safe
                (fun t : tokenizer IFL =>
                   token_state (fun tok => tok <> []) (t_status t) (t_pb t))
                (fun t : tokenizer IFL =>
                   token_state (fun tok => tok <> []) (t_status t) (t_pb t))
                tokenizer_running token_more_body) as Hloop.
  specialize (Hloop ltac:(
    intros t Ht Hrun; apply token_more_body_safe; [exact Ht|];
    unfold tokenizer_running in Hrun; apply negb_true_iff, Z.eqb_neq in Hrun;
    destruct Ht as [[? _]|[? _]]; [assumption|contradiction]) fuel
    (mkTokenizer st 0 pb ps) Hst).
  destruct (while_loop fuel tokenizer_running token_more_body (mkTokenizer st 0 pb ps))
    as [[st1 c1 pb1 ps1]| |]; cbn [mbind outcome_mbind outcome_bind]; [|exact Hloop..].
  cbn [t_status t_c t_pb t_ps] in *.
  assert (token_state (fun tok => tok <> []) st1 pb1) as Hst1 by (destruct Hloop as [[? _]|?]; auto).
  destruct Hst1 as [(-> & Htok)|(-> & Hf)]; cbn [Z.eqb negb andb].
  - destruct (is_token_inclusive c1) eqn:Hinc; [|left; auto].
    destruct (token_add_state (fun tok => tok <> []) (fun tok => tok <> []) c1 pb1 ps1)
      as (st' & pb' & -> & Hst'); [left; auto|apply token_inclusive_visible, Hinc| |exact Hst'].
    intros tok _. destruct tok; discriminate.
  - right. auto.
Qed.

Ltac token_failed :=
  unfold token_check_range;
  cbn [Z.eqb negb andb mbind outcome_mbind outcome_bind];
  right; split; [reflexivity|assumption].

(** [shasm_block_token] does not abort, and what it returns is a token
    in the block or a failed block reader. *)
Lemma shasm_block_token_safe (fuel : nat) (pb : SHASM_BLOCK) (ps : IFL) :
  block_ok pb ->
  match shasm_block_token fuel pb ps with
  | Done (st, pb', _) => token_state (fun tok => tok <> []) st pb'
  | Abort => False
  | OutOfFuel => True
  end.
Proof.
  intros Hok. pose proof Hok as (Hc & _).
  unfold shasm_block_token. rewrite Hc. cbn [is_okay].
  pose proof (while_loop_safe
                (fun t : tokenizer IFL =>
                   (t_status t = 1 /\ block_ok (t_pb t)) \/
                   (t_status t = 0 /\ block_failed (t_pb t)))
                (fun t : tokenizer IFL => t_status t = 1 /\ block_ok (t_pb t))
                tokenizer_running (token_skip_body fuel)) as Hloop.
  specialize (Hloop ltac:(
    intros t Ht Hrun; unfold tokenizer_running in Hrun;
    apply negb_true_iff, Z.eqb_neq in Hrun;
    destruct Ht as [[? ?]|[? _]]; [|contradiction];
    apply token_skip_body_safe; assumption) fuel (mkTokenizer 1 0 pb ps)
    ltac:(left; split; [reflexivity|exact Hok])).
  destruct (while_loop fuel tokenizer_running (token_skip_body fuel) (mkTokenizer 1 0 pb ps))
    as [[st0 c0 pb0 ps0]| |]; cbn [mbind outcome_mbind outcome_bind]; [|exact Hloop..].
  cbn [t_status t_c t_pb t_ps] in *.
  assert ((st0 = 1 /\ block_ok pb0) \/ (st0 = 0 /\ block_failed pb0)) as [[-> Hok0]|[-> Hf]]
    by (destruct Hloop as [[? _]|?]; auto).
  2: { cbn [Z.eqb negb andb mbind outcome_mbind outcome_bind]. right. auto. }
  cbn [Z.eqb negb andb].
  pose proof (shasm_block_clear_text pb0 Hok0) as Hh0.
  set (pbc := shasm_block_clear pb0) in *.
  (* the first character *)
  destruct (shasm_input_get ps0) as [c ps1].
  destruct (token_check_input_cases 1 c pbc ps1) as [->|(pb' & -> & Hf)]; [apply Hh0| |];
    cbn [mbind outcome_mbind outcome_bind].
  2: { token_failed. }
  destruct (token_check_range_cases c pbc ps1) as [[-> Hv]|(pb' & -> & Hf)]; [apply Hh0| |];
    cbn [mbind outcome_mbind outcome_bind Z.eqb negb].
  2: { token_failed. }
  destruct (token_add_cases [] c pbc ps1 Hh0) as [(pb1 & -> & Hh1)|(pb' & -> & Hf)];
    cbn [mbind outcome_mbind outcome_bind].
  { revert Hv. block_consts. lia. }
  2: { token_failed. }
  cbn [app] in Hh1.
  assert (token_state (fun tok => tok <> []) 1 pb1) as Hst1.
  { left. split; [reflexivity|]. exists [c]. split; [discriminate|]. split; [exact Hh1|].
    constructor; [exact Hv|constructor]. }
  (* the vertical bar *)
  cbn [Z.eqb negb andb].
  destruct (load (pBuf pb1) 0 =? SHASM_ASCII_BAR);
    [|cbn [mbind outcome_mbind outcome_bind]; apply shasm_block_token_tail; exact Hst1].
  destruct (shasm_input_get ps1) as [c2 ps2].
  destruct (token_check_input_cases 1 c2 pb1 ps2) as [->|(pb' & -> & Hf)]; [apply Hh1| |];
    cbn [mbind outcome_mbind outcome_bind Z.eqb negb andb].
  2: { token_failed. }
  destruct (Z.eqb_spec c2 SHASM_ASCII_SEMICOLON) as [->|_];
    [|cbn [mbind outcome_mbind outcome_bind]; apply shasm_block_token_tail; exact Hst1].
  destruct (token_add_state (fun tok => tok <> []) (fun tok => tok <> [])
              SHASM_ASCII_SEMICOLON pb1 ps2 Hst1) as (st' & pb' & -> & Hst').
  { block_consts. lia. }
  { intros tok _. destruct tok; discriminate. }
  cbn [mbind outcome_mbind outcome_bind]. apply shasm_block_token_tail. exact Hst'.
Qed.
End TokenResult.

(** ** The token reader returns *)

Lemma filtered_get_size (ps : filtered_input) :
  (input_size (snd (filtered_get ps)) <= input_size ps)%nat /\
  (fst (filtered_get ps) <> -1 -> (input_size (snd (filtered_get ps)) < input_size ps)%nat) /\
  (input_size (filtered_back (snd (filtered_get ps))) <= input_size ps)%nat.
Proof.
  destruct ps as [rest last back line]. unfold filtered_get, filtered_back, input_size.
  cbn [fi_rest fi_last fi_back fi_line].
  destruct back; cbn [fst snd fi_rest fi_last fi_back fi_line].
  - destruct (last <? 0); cbn [fi_rest fi_back]; lia.
  - destruct rest as [|c r]; cbn [fst snd fi_rest fi_last fi_back fi_line length].
    + cbn. lia.
    + destruct (c <? 0); cbn [fi_rest fi_back length]; lia.
Qed.

Lemma filtered_get_while_returns (p : Z -> bool) :
  p (-1) = false ->
  forall (fuel : nat) (ps : filtered_input), (input_size ps < fuel)%nat ->
  exists c ps',
    shasm_input_get_while fuel p ps = Done (c, ps') /\
    (input_size ps' <= input_size ps)%nat /\
    (c <> -1 -> (input_size ps' < input_size ps)%nat) /\
    (input_size (filtered_back ps') <= input_size ps)%nat.
Proof.
  intros Hp. induction fuel as [|fuel IH]; intros ps Hm; [lia|].
  cbn [shasm_input_get_while shasm_input_get filtered_ShasmInput].
  destruct (filtered_get_size ps) as (Hle & Hlt & Hback).
  destruct (filtered_get ps) as [c ps1]. cbn [fst snd] in *.
  destruct (p c) eqn:Hpc.
  - assert (c <> -1) as Hc by (intros ->; congruence). specialize (Hlt Hc).
    destruct (IH ps1) as (c' & ps' & Hrun & Hle' & Hlt' & Hback'); [lia|].
    exists c', ps'. split; [exact Hrun|]. lia.
  - exists c, ps1. auto.
Qed.

Section TokenInput.
Context `{ShasmInput IFL}.

Lemma token_check_input_done (st c : Z) (pb : SHASM_BLOCK) (ps : IFL) :
  exists st' pb',
    token_check_input st c pb ps = Done (st', pb') /\
    (st' = 0 \/ (st' = st /\ c <> SHASM_INPUT_EOF)).
Proof.
  unfold token_check_input. destruct (Z.eqb_spec c SHASM_INPUT_EOF).
  - destruct (shasm_block_seterr_returns pb ps SHASM_ERR_EOF) as [pb' ->]; [discriminate|].
    cbn [mbind outcome_mbind outcome_bind]. eauto.
  - destruct (c =? SHASM_INPUT_IOERR); [|eauto 6].
    destruct (shasm_block_seterr_returns pb ps SHASM_ERR_IO) as [pb' ->]; [discriminate|].
    cbn [mbind outcome_mbind outcome_bind]. eauto.
Qed.

Lemma token_check_range_done (st c : Z) (pb : SHASM_BLOCK) (ps : IFL) :
  exists st' pb', token_check_range st c pb ps = Done (st', pb') /\ (st' = 0 \/ st' = st).
Proof.
  unfold token_check_range. destruct (_ && _); [|eauto].
  destruct (shasm_block_seterr_returns pb ps SHASM_ERR_TOKENCHAR) as [pb' ->]; [discriminate|].
  cbn [mbind outcome_mbind outcome_bind]. eauto.
Qed.

Lemma token_add_done (st c : Z) (pb : SHASM_BLOCK) (ps : IFL) :
  token_add st c pb ps = Abort \/
  exists st' pb', token_add st c pb ps = Done (st', pb') /\ (st' = 0 \/ st' = st).
Proof.
  unfold token_add.
  destruct (shasm_block_addByte pb c) as [[ok pb1]| |] eqn:Happ;
    cbn [mbind outcome_mbind outcome_bind]; [|auto|].
  - right. destruct (ok =? 0); [|eauto].
    destruct (shasm_block_seterr_returns pb1 ps SHASM_ERR_HUGEBLOCK) as [pb' ->]; [discriminate|].
    cbn [mbind outcome_mbind outcome_bind]. eauto.
  - exfalso. revert Happ. unfold shasm_block_addByte.
    destruct (_ || _); [discriminate|].
    match goal with |- context [let '(_, _) := ?X in _] => destruct X as [s1 pb2] end.
    destruct (negb (s1 =? 0)); discriminate.
Qed.
End TokenInput.

(** One turn of the loop over blanks and comments, on the filtered
    input: it returns, and what is left of the input does not grow. *)
Lemma token_skip_body_returns (fuel : nat) (t : tokenizer filtered_input) :
  (input_size (t_ps t) < fuel)%nat ->
  exists ctl, token_skip_body fuel t = Done ctl /\
    match ctl with
    | Continue t' =>
        (input_size (t_ps t') <= input_size (t_ps t))%nat /\
        (t_status t' <> 0 -> (input_size (t_ps t') < input_size (t_ps t))%nat)
    | Break t' => (input_size (t_ps t') <= input_size (t_ps t))%nat
    end.
Proof.
  destruct t as [st c0 pb ps]. cbn [t_ps t_status]. intros Hm.
  unfold token_skip_body. cbn [t_status t_pb t_ps].
  destruct (filtered_get_while_returns is_token_blank eq_refl fuel ps Hm)
    as (c & ps1 & -> & Hle & Hlt & Hback).
  cbn [mbind outcome_mbind outcome_bind].
  destruct (token_check_input_done st c pb ps1) as (st1 & pb1 & -> & Hst1).
  cbn [mbind outcome_mbind outcome_bind].
  destruct (Z.eqb_spec st1 0) as [->|Hnz]; cbn [negb andb].
  { eexists. split; [reflexivity|]. cbn [t_ps t_status]. split; [exact Hle|contradiction]. }
  destruct Hst1 as [?|[-> Hc]]; [contradiction|].
  change (@SHASM_INPUT_EOF filtered_input filtered_ShasmInput) with (-1) in Hc.
  specialize (Hlt Hc).
  destruct (c =? SHASM_ASCII_AMPERSAND); cbn [negb].
  - assert (@in_token_comment filtered_input filtered_ShasmInput (-1) = false) as Hcom
      by reflexivity.
    destruct (filtered_get_while_returns in_token_comment Hcom fuel ps1 ltac:(lia))
      as (c2 & ps2 & -> & Hle2 & _).
    cbn [mbind outcome_mbind outcome_bind].
    destruct (token_check_input_done st c2 pb1 ps2) as (st2 & pb2 & -> & _).
    cbn [mbind outcome_mbind outcome_bind].
    eexists. split; [reflexivity|]. cbn [t_ps t_status]. lia.
  - eexists. split; [reflexivity|]. cbn [t_ps shasm_input_back filtered_ShasmInput]. exact Hback.
Qed.

Lemma token_skip_loop_returns (fuel : nat) (t : tokenizer filtered_input) :
  (input_size (t_ps t) < fuel)%nat ->
  exists t', while_loop fuel tokenizer_running (token_skip_body fuel) t = Done t' /\
             (input_size (t_ps t') <= input_size (t_ps t))%nat.
Proof.
  intros Hm.
  assert (while_loop fuel tokenizer_running (token_skip_body fuel) t <> OutOfFuel) as Hfuel.
  { apply (while_loop_bounded
             (fun s : tokenizer filtered_input => (input_size (t_ps s) < fuel)%nat)
             (fun s => input_size (t_ps s))); [|exact Hm..].
    intros s Hs _. destruct (token_skip_body_returns fuel s Hs) as ([s'|s'] & -> & Hx);
      [|exact I].
    destruct Hx as [Hle Hlt]. split; [lia|]. unfold tokenizer_running. intros Hc.
    apply negb_true_iff, Z.eqb_neq in Hc. exact (Hlt Hc). }
  pose proof (while_loop_safe
                (fun s : tokenizer filtered_input =>
                   (input_size (t_ps s) <= input_size (t_ps t))%nat)
                (fun s : tokenizer filtered_input =>
                   (input_size (t_ps s) <= input_size (t_ps t))%nat)
                tokenizer_running (token_skip_body fuel)) as Hsafe.
  assert (match while_loop fuel tokenizer_running (token_skip_body fuel) t with
          | Done s' =>
              ((input_size (t_ps s') <= input_size (t_ps t))%nat /\
               tokenizer_running s' = false) \/
              (input_size (t_ps s') <= input_size (t_ps t))%nat
          | Abort => False
          | OutOfFuel => True
          end) as Hres.
  { apply Hsafe; [|lia]. intros s Hs _.
    destruct (token_skip_body_returns fuel s ltac:(lia)) as ([s'|s'] & -> & Hx);
      [destruct Hx as [Hle _]|]; lia. }
  destruct (while_loop fuel tokenizer_running (token_skip_body fuel) t) as [t'| |];
    [|contradiction..].
  exists t'. split; [reflexivity|]. destruct Hres as [[? _]|?]; assumption.
Qed.

Lemma token_more_body_fuel (t : tokenizer filtered_input) :
  match token_more_body t with
  | Done (Continue t') =>
      (input_size (t_ps t') <= input_size (t_ps t))%nat /\
      (t_status t' <> 0 -> (input_size (t_ps t') < input_size (t_ps t))%nat)
  | Done (Break _) | Abort => True
  | OutOfFuel => False
  end.
Proof.
  destruct t as [st c0 pb ps]. unfold token_more_body. cbn [t_status t_pb t_ps].
  cbn [shasm_input_get filtered_ShasmInput].
  destruct (filtered_get_size ps) as (Hle & Hlt & _).
  destruct (filtered_get ps) as [c ps1]. cbn [fst snd] in *.
  destruct (token_check_input_done st c pb ps1) as (st1 & pb1 & -> & Hst1).
  cbn [mbind outcome_mbind outcome_bind].
  destruct (negb (st1 =? 0) && is_token_stop c); [exact I|].
  destruct (token_check_range_done st1 c pb1 ps1) as (st2 & pb2 & -> & Hst2).
  cbn [mbind outcome_mbind outcome_bind].
  assert (st2 <> 0 -> (input_size ps1 < input_size ps)%nat) as Hdec.
  { intros Hnz. destruct Hst2 as [? | ->]; [contradiction|].
    destruct Hst1 as [?|[_ Hc]]; [contradiction|]. apply Hlt, Hc. }
  destruct (Z.eqb_spec st2 0) as [->|Hnz]; cbn [negb mbind outcome_mbind outcome_bind t_ps t_status].
  - split; [exact Hle|contradiction].
  - destruct (token_add_done st2 c pb2 ps1) as [-> | (st3 & pb3 & -> & Hst3)];
      cbn [mbind outcome_mbind outcome_bind t_ps t_status]; [exact I|].
    split; [exact Hle|]. intros _. exact (Hdec Hnz).
Qed.

(** On the filtered input, fuel beyond what is left of the input is
    enough for [shasm_block_token]. *)
Lemma shasm_block_token_fuel (fuel : nat) (pb : SHASM_BLOCK) (ps : filtered_input) :
  (input_size ps < fuel)%nat -> shasm_block_token fuel pb ps <> OutOfFuel.
Proof.
  intros Hm. unfold shasm_block_token.
  destruct (token_skip_loop_returns fuel
              (mkTokenizer (if is_okay (code pb) then 1 else 0) 0 pb ps) Hm)
    as ([st0 c0 pb0 ps0] & -> & Hle0).
  cbn [mbind outcome_mbind outcome_bind t_status t_c t_pb t_ps] in *.
  set (pbc := if negb (st0 =? 0) then shasm_block_clear pb0 else pb0). clearbody pbc.
  (* the first character *)
  assert (exists r,
            (if negb (st0 =? 0) then
               let '(c, ps) := shasm_input_get ps0 in
               '(status, pb) ← token_check_input st0 c pbc ps;
               '(status, pb) ← token_check_range status c pb ps;
               '(status, pb) ←
                 (if negb (status =? 0) then token_add status c pb ps else Done (status, pb));
               Done (status, pb, ps)
             else Done (st0, pbc, ps0)) = r /\
            match r with
            | Done (_, _, ps1) => (input_size ps1 <= input_size ps0)%nat
            | Abort => True
            | OutOfFuel => False
            end) as (r1 & -> & Hr1).
  { eexists. split; [reflexivity|]. destruct (negb (st0 =? 0)); [|cbn; lia].
    cbn [shasm_input_get filtered_ShasmInput].
    destruct (filtered_get_size ps0) as (Hle & _).
    destruct (filtered_get ps0) as [c ps1]. cbn [fst snd] in *.
    destruct (token_check_input_done st0 c pbc ps1) as (st1 & pb1 & -> & _).
    cbn [mbind outcome_mbind outcome_bind].
    destruct (token_check_range_done st1 c pb1 ps1) as (st2 & pb2 & -> & _).
    cbn [mbind outcome_mbind outcome_bind].
    destruct (negb (st2 =? 0)); cbn [mbind outcome_mbind outcome_bind]; [|exact Hle].
    destruct (token_add_done st2 c pb2 ps1) as [-> | (st3 & pb3 & -> & _)];
      cbn [mbind outcome_mbind outcome_bind]; [exact I|exact Hle]. }
  destruct r1 as [[[st1 pb1] ps1]| |]; cbn [mbind outcome_mbind outcome_bind];
    [|discriminate|contradiction].
  (* the vertical bar *)
  assert (exists r,
            (if negb (st1 =? 0) && (load (pBuf pb1) 0 =? SHASM_ASCII_BAR) then
               let '(c, ps) := shasm_input_get ps1 in
               '(status, pb) ← token_check_input st1 c pb1 ps;
               if negb (status =? 0) && (c =? SHASM_ASCII_SEMICOLON) then
                 '(status, pb) ← token_add status c pb ps;
                 Done (status, pb, ps)
               else Done (status, pb, shasm_input_back ps)
             else Done (st1, pb1, ps1)) = r /\
            match r with
            | Done (_, _, ps2) => (input_size ps2 <= input_size ps1)%nat
            | Abort => True
            | OutOfFuel => False
            end) as (r2 & -> & Hr2).
  { eexists. split; [reflexivity|]. destruct (_ && _); [|cbn; lia].
    cbn [shasm_input_get shasm_input_back filtered_ShasmInput].
    destruct (filtered_get_size ps1) as (Hle & _ & Hback).
    destruct (filtered_get ps1) as [c ps2]. cbn [fst snd] in *.
    destruct (token_check_input_done st1 c pb1 ps2) as (st2 & pb2 & -> & _).
    cbn [mbind outcome_mbind outcome_bind].
    destruct (_ && _); [|exact Hback].
    destruct (token_add_done st2 c pb2 ps2) as [-> | (st3 & pb3 & -> & _)];
      cbn [mbind outcome_mbind outcome_bind]; [exact I|exact Hle]. }
  destruct r2 as [[[st2 pb2] ps2]| |]; cbn [mbind outcome_mbind outcome_bind];
    [|discriminate|contradiction].
  (* the further characters *)
  destruct (_ && _); [|discriminate].
  assert (while_loop fuel tokenizer_running token_more_body (mkTokenizer st2 0 pb2 ps2)
            <> OutOfFuel) as Hb.
  { apply (while_loop_bounded (fun _ : tokenizer filtered_input => True)
             (fun s => input_size (t_ps s))); [|exact I|cbn [t_ps]; lia].
    intros s _ _. pose proof (token_more_body_fuel s) as Hs.
    destruct (token_more_body s) as [[s'|s']| |]; auto.
    destruct Hs as [_ Hlt]. split; [exact I|]. unfold tokenizer_running. intros Hc.
    apply negb_true_iff, Z.eqb_neq in Hc. exact (Hlt Hc). }
  destruct (while_loop fuel tokenizer_running token_more_body (mkTokenizer st2 0 pb2 ps2))
    as [[st3 c3 pb3 ps3]| |]; cbn [mbind outcome_mbind outcome_bind t_status t_c t_pb t_ps];
    [|discriminate|contradiction].
  destruct (_ && _).
  - destruct (token_add_done st3 c3 pb3 ps3) as [-> | (st4 & pb4 & -> & _)];
      cbn [mbind outcome_mbind outcome_bind]; discriminate.
  - destruct (negb (st3 =? 0)); discriminate.
Qed.

(** X27: [shasm_block_token] on a sound block reader never aborts.  When
    it returns 1 the block holds a token that is not empty and consists
    of visible printing characters only; when it returns 0 an error code
    has been recorded and the buffer is empty.  On the filtered input it
    does return, whenever the fuel exceeds what is left of the input. *)
Theorem shasm_block_token_result {IFL : Type} `{ShasmInput IFL}
    (fuel : nat) (pb : SHASM_BLOCK) (ps : IFL) (fps : filtered_input) :
  block_ok pb ->
  shasm_block_token fuel pb ps <> Abort /\
  (forall st pb' ps', shasm_block_token fuel pb ps = Done (st, pb', ps') ->
     (st = 1 /\ code pb' = SHASM_OKAY /\ shasm_block_data pb' <> [] /\
      token_visible (shasm_block_data pb') /\
      0 < shasm_block_count pb' <= SHASM_BLOCK_MAXBUFFER) \/
     (st = 0 /\ code pb' <> SHASM_OKAY /\ buf_len pb' = 0 /\ shasm_block_count pb' = 0)) /\
  ((input_size fps < fuel)%nat -> exists r, shasm_block_token fuel pb fps = Done r).
Proof.
  intros Hok.
  assert (forall (J : Type) (HJ : ShasmInput J) (qs : J) st pb' ps',
            shasm_block_token fuel pb qs = Done (st, pb', ps') ->
            token_state (fun tok => tok <> []) st pb') as Hstate.
  { intros J HJ qs st pb' ps' Hrun.
    pose proof (shasm_block_token_safe fuel pb qs Hok) as Hs. rewrite Hrun in Hs. exact Hs. }
  split; [|split].
  - pose proof (shasm_block_token_safe fuel pb ps Hok) as Hs. intros Hab.
    rewrite Hab in Hs. exact Hs.
  - intros st pb' ps' Hrun.
    destruct (Hstate _ _ _ _ _ _ Hrun) as [(-> & tok & Hne & Hh & Hv)|(-> & Hc & Hl)].
    + left. destruct Hh as [Hh _]. destruct (block_holds_data tok pb' Hh) as [Hd Hn].
      destruct (block_holds_length tok pb' Hh) as [Hlen Hmax].
      rewrite Hd, Hn. split; [reflexivity|]. split; [apply Hh|].
      split; [exact Hne|]. split; [exact Hv|].
      destruct tok; [contradiction|]. cbn [length] in *. lia.
    + right. split; [reflexivity|]. split; [exact Hc|]. split; [exact Hl|].
      unfold shasm_block_count. destruct (code pb'); [contradiction|reflexivity..].
  - intros Hm. pose proof (shasm_block_token_fuel fuel pb fps Hm) as Hfuel.
    pose proof (shasm_block_token_safe fuel pb fps Hok) as Hs.
    destruct (shasm_block_token fuel pb fps) as [r| |]; [eauto|contradiction..].
Qed.

Lemma shasm_block_token_result_witness :
  let pb := shasm_block_alloc in
  let ps := filtered_start [0x61; 0x62; 0x20] in
  shasm_block_token 8 pb ps <> Abort /\
  (forall st pb' ps', shasm_block_token 8 pb ps = Done (st, pb', ps') ->
     (st = 1 /\ code pb' = SHASM_OKAY /\ shasm_block_data pb' <> [] /\
      token_visible (shasm_block_data pb') /\
      0 < shasm_block_count pb' <= SHASM_BLOCK_MAXBUFFER) \/
     (st = 0 /\ code pb' <> SHASM_OKAY /\ buf_len pb' = 0 /\ shasm_block_count pb' = 0)) /\
  ((input_size ps < 8)%nat -> exists r, shasm_block_token 8 pb ps = Done r).
Proof.
  intros pb ps.
  apply (shasm_block_token_result 8 pb ps ps). apply shasm_block_alloc_holds.
Defined.

Lemma c_string_text (s r : list Z) :
  Forall (fun x => x <> 0) s -> c_string (s ++ 0 :: r) = s.
Proof.
  induction 1 as [|x s Hx _ IH]; [reflexivity|].
  cbn [app c_string]. destruct (Z.eqb_spec x 0); [contradiction|]. rewrite IH. reflexivity.
Qed.

(** X28: what the caller reads after a successful [shasm_block_token].
    The token holds no null byte, so [shasm_block_ptr] gives the buffer
    (never NULL) also when a null-terminated string is asked for, and
    leaves the block reader alone; the buffer starts with the token,
    and read as a C string it is the token whenever the token is
    shorter than [SHASM_BLOCK_MAXBUFFER] bytes. *)
Theorem shasm_block_token_ptr {IFL : Type} `{ShasmInput IFL}
    (fuel : nat) (pb : SHASM_BLOCK) (ps : IFL) (st : Z) (pb' : SHASM_BLOCK) (ps' : IFL) :
  block_ok pb -> shasm_block_token fuel pb ps = Done (st, pb', ps') -> st <> 0 ->
  shasm_block_ptr pb' 1 = (Some (pBuf pb'), pb') /\
  shasm_block_ptr pb' 0 = (Some (pBuf pb'), pb') /\
  Forall (fun c => c <> 0) (shasm_block_data pb') /\
  take (Z.to_nat (shasm_block_count pb')) (pBuf pb') = shasm_block_data pb' /\
  (shasm_block_count pb' < SHASM_BLOCK_MAXBUFFER ->
   c_string (pBuf pb') = shasm_block_data pb').
Proof.
  intros Hok Hrun Hnz.
  pose proof (shasm_block_token_safe fuel pb ps Hok) as Hs. rewrite Hrun in Hs.
  destruct Hs as [(_ & tok & _ & Ht & Hv)|[-> _]]; [|contradiction].
  destruct Ht as (Hh & Hnp & Hbuf & Hterm).
  destruct (block_holds_data tok pb' Hh) as [Hd Hn].
  destruct (block_holds_length tok pb' Hh) as [Hlen _].
  pose proof Hh as [(Hc & _) _].
  assert (Forall (fun c => c <> 0) tok) as Hnonzero.
  { eapply Forall_impl; [exact Hv|]. cbv beta. block_consts. lia. }
  unfold shasm_block_ptr. rewrite Hc, Hnp. cbn [is_okay negb Z.eqb].
  split; [reflexivity|]. split; [reflexivity|]. rewrite Hd.
  split; [exact Hnonzero|]. split; [exact Hd|].
  rewrite Hn. intros Hshort. rewrite Hbuf. unfold zeros.
  destruct Hterm as [Hterm|Hterm]; [|lia].
  replace (Z.to_nat (buf_cap pb' - buf_len pb'))
    with (S (Z.to_nat (buf_cap pb' - buf_len pb' - 1))) by lia.
  cbn [replicate]. apply c_string_text, Hnonzero.
Qed.

Lemma shasm_block_token_ptr_witness :
  exists pb' ps',
    shasm_block_token 8 shasm_block_alloc (filtered_start [0x61; 0x62; 0x20]) =
      Done (1, pb', ps') /\
    shasm_block_ptr pb' 1 = (Some (pBuf pb'), pb') /\
    shasm_block_ptr pb' 0 = (Some (pBuf pb'), pb') /\
    Forall (fun c => c <> 0) (shasm_block_data pb') /\
    take (Z.to_nat (shasm_block_count pb')) (pBuf pb') = shasm_block_data pb' /\
    (shasm_block_count pb' < SHASM_BLOCK_MAXBUFFER ->
     c_string (pBuf pb') = shasm_block_data pb').
Proof.
  eexists _, _. split; [vm_compute; reflexivity|].
  eapply (shasm_block_token_ptr 8 shasm_block_alloc (filtered_start [0x61; 0x62; 0x20]) 1).
  - apply shasm_block_alloc_holds.
  - vm_compute. reflexivity.
  - discriminate.
Defined.

(** ** A token that is one atomic character *)

Lemma token_atomic_first (c : Z) :
  token_atomic c = true ->
  SHASM_ASCII_VISPRINT_MIN <= c <= SHASM_ASCII_VISPRINT_MAX /\
  c <> SHASM_ASCII_BAR /\ c <> SHASM_ASCII_AMPERSAND /\ is_token_blank c = false.
Proof.
  unfold token_atomic, is_token_blank. block_consts.
  rewrite !orb_true_iff, !Z.eqb_eq. intros Hc.
  assert (c <> 9 /\ c <> 32 /\ c <> 10) as (H1 & H2 & H3) by lia.
  apply Z.eqb_neq in H1, H2, H3. rewrite H1, H2, H3. cbn [orb]. lia.
Qed.

Section TokenAtomic.
Context `{ShasmInput IFL}.

Lemma token_check_input_char (st c : Z) (pb : SHASM_BLOCK) (ps : IFL) :
  c <> SHASM_INPUT_EOF -> c <> SHASM_INPUT_IOERR ->
  token_check_input st c pb ps = Done (st, pb).
Proof.
  intros H1 H2. unfold token_check_input.
  destruct (Z.eqb_spec c SHASM_INPUT_EOF); [contradiction|].
  destruct (Z.eqb_spec c SHASM_INPUT_IOERR); [contradiction|]. reflexivity.
Qed.

(** An atomic first character ends the token. Once the blanks and
    comments are passed with the status still set and the read that
    follows delivers one of the ten characters of [token_atomic],
    [shasm_block_token] returns 1 with the token that is this character
    and the input as that read left it. What the read delivers is the
    character, not one of the two special values of the input. *)
Lemma shasm_block_token_atomic_done (fuel : nat) (pb : SHASM_BLOCK) (ps : IFL)
    (t : tokenizer IFL) (c : Z) (ps1 : IFL) :
  block_ok pb ->
  while_loop fuel tokenizer_running (token_skip_body fuel) (mkTokenizer 1 0 pb ps) = Done t ->
  t_status t <> 0 -> shasm_input_get (t_ps t) = (c, ps1) ->
  c <> SHASM_INPUT_EOF -> c <> SHASM_INPUT_IOERR -> token_atomic c = true ->
  exists pb',
    shasm_block_token fuel pb ps = Done (1, pb', ps1) /\ shasm_block_data pb' = [c].
Proof.
  intros Hok Hskip Hnz Hget Heof Hio Hat.
  destruct (token_atomic_first c Hat) as (Hv & Hbar & _).
  pose proof Hok as (Hc & _).
  pose proof (while_loop_safe
                (fun t : tokenizer IFL =>
                   (t_status t = 1 /\ block_ok (t_pb t)) \/
                   (t_status t = 0 /\ block_failed (t_pb t)))
                (fun t : tokenizer IFL => t_status t = 1 /\ block_ok (t_pb t))
                tokenizer_running (token_skip_body fuel)) as Hloop.
  specialize (Hloop ltac:(
    intros s Hs Hrun; unfold tokenizer_running in Hrun;
    apply negb_true_iff, Z.eqb_neq in Hrun;
    destruct Hs as [[? ?]|[? _]]; [|contradiction];
    apply token_skip_body_safe; assumption) fuel (mkTokenizer 1 0 pb ps)
    ltac:(left; split; [reflexivity|exact Hok])).
  rewrite Hskip in Hloop.
  assert (t_status t = 1 /\ block_ok (t_pb t)) as [Hst Hokt].
  { destruct Hloop as [[[[? ?]|[? ?]] _]|[? ?]]; auto; contradiction. }
  pose proof (shasm_block_clear_text _ Hokt) as Ht0.
  assert (buf_len (shasm_block_clear (t_pb t)) = 0) as Hlen0 by reflexivity.
  destruct (block_text_append [] (shasm_block_clear (t_pb t)) c Ht0) as (pb1 & Hadd & Ht1 & _).
  { revert Hv. block_consts. lia. }
  { rewrite Hlen0. block_consts. lia. }
  cbn [app] in Ht1. destruct Ht1 as (Hh1 & _).
  exists pb1. split; [|exact (proj1 (block_holds_data _ _ Hh1))].
  assert (Hload : load (pBuf pb1) 0 = c)
    by (apply (block_holds_load [c] pb1 0%nat Hh1); cbn; lia).
  unfold shasm_block_token. rewrite Hc. cbn [is_okay]. rewrite Hskip.
  cbn [mbind outcome_mbind outcome_bind]. rewrite Hst. cbn [Z.eqb negb andb].
  rewrite Hget.
  rewrite token_check_input_char by assumption.
  cbn [mbind outcome_mbind outcome_bind].
  unfold token_check_range. cbn [Z.eqb negb andb]. rewrite Z.gtb_ltb.
  destruct (Z.ltb_spec c SHASM_ASCII_VISPRINT_MIN); [lia|].
  destruct (Z.ltb_spec SHASM_ASCII_VISPRINT_MAX c); [lia|].
  cbn [orb mbind outcome_mbind outcome_bind Z.eqb negb].
  unfold token_add. rewrite Hadd.
  cbn [mbind outcome_mbind outcome_bind Z.eqb negb andb].
  rewrite Hload. destruct (Z.eqb_spec c SHASM_ASCII_BAR); [contradiction|].
  cbn [mbind outcome_mbind outcome_bind].
  rewrite (token_atomic_not_open c pb1 Hload Hat). reflexivity.
Qed.

End TokenAtomic.

(** *** On the filtered input *)

Lemma filtered_get_blanks (bl : list Z) :
  Forall (fun c => is_token_blank c = true) bl ->
  forall (k : nat) (last ln c : Z) (rest : list Z),
  is_token_blank c = false -> (length bl < k)%nat ->
  exists ln',
    shasm_input_get_while k is_token_blank (mkFiltered (bl ++ c :: rest) last false ln) =
      Done (c, mkFiltered rest c false ln').
Proof.
  induction 1 as [|b bl Hb _ IH]; intros k last ln c rest Hc Hk.
  - destruct k as [|k]; [cbn in Hk; lia|].
    cbn [app shasm_input_get_while shasm_input_get filtered_ShasmInput filtered_get
         fi_back fi_rest fi_last fi_line].
    rewrite Hc. eauto.
  - destruct k as [|k]; [cbn in Hk; lia|]. cbn [length] in Hk.
    cbn [app shasm_input_get_while shasm_input_get filtered_ShasmInput filtered_get
         fi_back fi_rest fi_last fi_line].
    rewrite Hb. apply IH; [exact Hc|lia].
Qed.

Lemma filtered_get_comment (u : list Z) :
  Forall (fun c => 0 <= c /\ c <> SHASM_ASCII_LF) u ->
  forall (k : nat) (last ln : Z) (rest : list Z),
  (length u < k)%nat ->
  exists ln',
    shasm_input_get_while k in_token_comment
      (mkFiltered (u ++ SHASM_ASCII_LF :: rest) last false ln) =
      Done (SHASM_ASCII_LF, mkFiltered rest SHASM_ASCII_LF false ln').
Proof.
  induction 1 as [|b u [Hb1 Hb2] _ IH]; intros k last ln rest Hk.
  - destruct k as [|k]; [cbn in Hk; lia|].
    cbn [app shasm_input_get_while shasm_input_get filtered_ShasmInput filtered_get
         fi_back fi_rest fi_last fi_line].
    change (in_token_comment SHASM_ASCII_LF) with false. eauto.
  - destruct k as [|k]; [cbn in Hk; lia|]. cbn [length] in Hk.
    cbn [app shasm_input_get_while shasm_input_get filtered_ShasmInput filtered_get
         fi_back fi_rest fi_last fi_line].
    assert (in_token_comment b = true) as ->.
    { unfold in_token_comment. cbn [SHASM_INPUT_EOF SHASM_INPUT_IOERR filtered_ShasmInput].
      destruct (Z.eqb_spec b SHASM_ASCII_LF); [contradiction|].
      destruct (Z.eqb_spec b (-1)); [lia|]. destruct (Z.eqb_spec b (-2)); [lia|]. reflexivity. }
    apply IH. lia.
Qed.

(** The loop over blanks and comments that a character follows which is
    neither: it ends with that character pushed back. *)
Lemma token_skip_loop_text (ws : list Z) :
  token_skipped ws ->
  forall (n k : nat) (c0 : Z) (pb : SHASM_BLOCK) (last ln c : Z) (rest : list Z),
  is_token_blank c = false -> c <> SHASM_ASCII_AMPERSAND -> 0 <= c ->
  (length ws < n)%nat -> (length ws < k)%nat ->
  exists pb' ln',
    while_loop n tokenizer_running (token_skip_body k)
      (mkTokenizer 1 c0 pb (mkFiltered (ws ++ c :: rest) last false ln)) =
      Done (mkTokenizer 1 c pb' (mkFiltered rest c true ln')).
Proof.
  induction 1 as [bl Hbl|bl u w Hbl Hu Hw IH];
    intros n k c0 pb last ln c rest Hc Hamp Hpos Hn Hk.
  - destruct n as [|n]; [cbn in Hn; lia|]. rewrite while_loop_unfold.
    change (tokenizer_running (mkTokenizer 1 c0 pb
              (mkFiltered (bl ++ c :: rest) last false ln))) with true.
    cbv iota. unfold token_skip_body. cbn [t_ps t_status t_pb].
    destruct (filtered_get_blanks bl Hbl k last ln c rest Hc Hk) as (ln1 & ->).
    cbn [mbind outcome_mbind outcome_bind].
    rewrite token_check_input_char
      by (cbn [SHASM_INPUT_EOF SHASM_INPUT_IOERR filtered_ShasmInput]; lia).
    cbn [mbind outcome_mbind outcome_bind Z.eqb negb andb].
    destruct (Z.eqb_spec c SHASM_ASCII_AMPERSAND); [contradiction|]. cbn [negb].
    cbn [shasm_input_back filtered_ShasmInput]. unfold filtered_back. cbn [fi_last fi_rest fi_line].
    destruct (Z.ltb_spec c 0); [lia|]. eauto.
  - destruct n as [|n]; [cbn in Hn; lia|]. rewrite while_loop_unfold.
    rewrite !length_app in Hn, Hk. cbn [length] in Hn, Hk.
    rewrite length_app in Hn, Hk. cbn [length] in Hn, Hk.
    repeat (rewrite <- app_assoc; cbn [app]).
    change (tokenizer_running (mkTokenizer 1 c0 pb
              (mkFiltered (bl ++ SHASM_ASCII_AMPERSAND :: u ++ SHASM_ASCII_LF :: w ++ c :: rest)
                 last false ln))) with true.
    cbv iota. unfold token_skip_body. cbn [t_ps t_status t_pb].
    destruct (filtered_get_blanks bl Hbl k last ln SHASM_ASCII_AMPERSAND
                (u ++ SHASM_ASCII_LF :: w ++ c :: rest) eq_refl ltac:(lia)) as (ln1 & ->).
    cbn [mbind outcome_mbind outcome_bind].
    rewrite token_check_input_char
      by (cbn [SHASM_INPUT_EOF SHASM_INPUT_IOERR filtered_ShasmInput]; discriminate).
    cbn [mbind outcome_mbind outcome_bind Z.eqb negb andb].
    change (SHASM_ASCII_AMPERSAND =? SHASM_ASCII_AMPERSAND) with true. cbn [negb].
    destruct (filtered_get_comment u Hu k SHASM_ASCII_AMPERSAND ln1 (w ++ c :: rest)
                ltac:(lia)) as (ln2 & ->).
    cbn [mbind outcome_mbind outcome_bind].
    rewrite token_check_input_char
      by (cbn [SHASM_INPUT_EOF SHASM_INPUT_IOERR filtered_ShasmInput]; discriminate).
    cbn [mbind outcome_mbind outcome_bind].
    apply IH; try assumption; lia.
Qed.

(** An atomic character after blanks and comments, and whatever follows:
    [shasm_block_token] returns the token that is this character and
    leaves what follows unread. *)
Lemma shasm_block_token_atomic_text (fuel : nat) (pb : SHASM_BLOCK) (ws tl : list Z) (c : Z) :
  block_ok pb -> token_skipped ws -> (length ws < fuel)%nat -> token_atomic c = true ->
  exists pb' ln,
    shasm_block_token fuel pb (filtered_start (ws ++ c :: tl)) =
      Done (1, pb', mkFiltered tl c false ln) /\
    shasm_block_data pb' = [c].
Proof.
  intros Hok Hws Hfuel Hat.
  destruct (token_atomic_first c Hat) as (Hv & _ & Hamp & Hbl).
  destruct (token_skip_loop_text ws Hws fuel fuel 0 pb 0 1 c tl Hbl Hamp)
    as (pb1 & ln1 & Hskip); [revert Hv; block_consts; lia|exact Hfuel|exact Hfuel|].
  assert (c <> @SHASM_INPUT_EOF filtered_input filtered_ShasmInput) as Heof
    by (cbn [SHASM_INPUT_EOF filtered_ShasmInput]; revert Hv; block_consts; lia).
  assert (c <> @SHASM_INPUT_IOERR filtered_input filtered_ShasmInput) as Hio
    by (cbn [SHASM_INPUT_IOERR filtered_ShasmInput]; revert Hv; block_consts; lia).
  destruct (shasm_block_token_atomic_done fuel pb (filtered_start (ws ++ c :: tl))
              _ c (mkFiltered tl c false ln1) Hok Hskip)
    as (pb' & Hrun & Hd); [discriminate|reflexivity|exact Heof|exact Hio|exact Hat|].
  exists pb', ln1. auto.
Qed.

End ShasmBlockFacts.

(** * The atomic characters of the two scanners *)
Module ScannerFacts.
Import ShasmBlockFacts.

Lemma snchar_isatomic_chars (c : Z) :
  Shastina.snchar_isatomic c <> 0 <->
  In c [0x28; 0x29; 0x5b; 0x5d; 0x2c; 0x25; 0x3b; 0x22; 0x60; 0x7b; 0x7d].
Proof.
  unfold Shastina.snchar_isatomic. ShastinaFacts.consts. cbn [In].
  match goal with |- context [if ?b then _ else _] => destruct b eqn:Hb end.
  - rewrite !orb_true_iff, !Z.eqb_eq in Hb. split; [intros _|discriminate].
    intuition auto.
  - rewrite !orb_false_iff, !Z.eqb_neq in Hb. split; [congruence|].
    intros Hin. exfalso. intuition auto.
Qed.

Lemma token_atomic_chars (c : Z) :
  ShasmBlock.token_atomic c = true <->
  In c [0x28; 0x29; 0x5b; 0x5d; 0x2c; 0x25; 0x3b; 0x22; 0x27; 0x7b].
Proof.
  unfold ShasmBlock.token_atomic. block_consts. cbn [In].
  rewrite !orb_true_iff, !Z.eqb_eq. intuition auto.
Qed.

(** C3, as stated, at concrete inputs. The apostrophe is among the twelve
    characters of the specification, yet [sntk_readToken] reads the token
    'a from the input 'a followed by a space; the closing curly bracket and
    the grave accent are among them too, yet [shasm_block_token] reads the
    tokens }a and `a. *)
Lemma token_atomic_counterexample :
  (spec_atomic 0x27 = true /\
   exists b pIn f,
     Shastina.sntk_readToken 8 (Shastina.mkSNBUFFER [] 0 0 4 1024)
       (Shastina.bytes_file [x27; x61; x20] false) Shastina.snfilter_reset =
       Done (0, b, pIn, f) /\
     Shastina.snbuffer_data b = [0x27; 0x61]) /\
  (spec_atomic 0x7d = true /\
   exists pb ps,
     ShasmBlock.shasm_block_token 8 ShasmBlock.shasm_block_alloc
       (ShasmBlock.filtered_start [0x7d; 0x61; 0x20]) = Done (1, pb, ps) /\
     ShasmBlock.shasm_block_data pb = [0x7d; 0x61]) /\
  (spec_atomic 0x60 = true /\
   exists pb ps,
     ShasmBlock.shasm_block_token 8 ShasmBlock.shasm_block_alloc
       (ShasmBlock.filtered_start [0x60; 0x61; 0x20]) = Done (1, pb, ps) /\
     ShasmBlock.shasm_block_data pb = [0x60; 0x61]).
Proof.
  split; [|split]; (split; [reflexivity|]).
  - eexists _, _, _. split; [vm_compute; reflexivity|]. vm_compute. reflexivity.
  - eexists _, _. split; [vm_compute; reflexivity|]. vm_compute. reflexivity.
  - eexists _, _. split; [vm_compute; reflexivity|]. vm_compute. reflexivity.
Qed.

(** C3, amended: each scanner has its own atomic characters, and a token
    that starts with one of them is that single character. For
    [sntk_readToken] they are the eleven characters ( ) [ ] , % ; double
    quote, grave accent, { and }; for [shasm_block_token] the ten
    characters ( ) [ ] , % ; double quote, apostrophe and {.

    What a returned token is: a token that starts with such a character
    is that character alone, and the scanner has read nothing after it
    (first and second part). That the scanner finishes: once the blanks
    and comments are passed and the next read delivers such a character,
    the scanner returns the token that is this character and leaves the
    input as that read left it, whatever follows (third and fourth part);
    the key buffer has room for one character, the block reader is not in
    its error state, and what its input delivers is the character, not
    one of the two special values of the input.
    From the input: for blanks and comments, such a character and any
    bytes after it, the scanner returns the token with those bytes left
    unread (fifth and sixth part, the latter on the filtered input). *)
Theorem token_atomic_single :
  (forall fuel pBuffer pIn pFilter b' pIn' f' c,
     Shastina.buffer_wf pBuffer ->
     Shastina.sntk_readToken fuel pBuffer pIn pFilter = Done (0, b', pIn', f') ->
     head (Shastina.snbuffer_data b') = Some c ->
     In c [0x28; 0x29; 0x5b; 0x5d; 0x2c; 0x25; 0x3b; 0x22; 0x60; 0x7b; 0x7d] ->
     Shastina.snbuffer_data b' = [c] /\
     exists f1 in1,
       Shastina.sntk_skip fuel pIn pFilter = Done (f1, in1) /\
       Shastina.snfilter_read f1 in1 = (c, f', pIn')) /\
  (forall (IFL : Type) (input : ShasmBlock.ShasmInput IFL) fuel pb ps st' pb' ps' c,
     ShasmBlock.block_ok pb ->
     ShasmBlock.shasm_block_token fuel pb ps = Done (st', pb', ps') -> st' <> 0 ->
     head (ShasmBlock.shasm_block_data pb') = Some c ->
     In c [0x28; 0x29; 0x5b; 0x5d; 0x2c; 0x25; 0x3b; 0x22; 0x27; 0x7b] ->
     ShasmBlock.shasm_block_data pb' = [c] /\
     exists t,
       while_loop fuel ShasmBlock.tokenizer_running (ShasmBlock.token_skip_body fuel)
         (ShasmBlock.mkTokenizer 1 0 pb ps) = Done t /\
       ShasmBlock.shasm_input_get (ShasmBlock.t_ps t) = (c, ps')) /\
  (forall fuel pBuffer pIn pFilter f1 in1 c f' pIn',
     Shastina.buffer_str pBuffer -> 1 < Shastina.maxcap pBuffer ->
     Shastina.sntk_skip fuel pIn pFilter = Done (f1, in1) ->
     Shastina.snfilter_read f1 in1 = (c, f', pIn') ->
     In c [0x28; 0x29; 0x5b; 0x5d; 0x2c; 0x25; 0x3b; 0x22; 0x60; 0x7b; 0x7d] ->
     exists b',
       Shastina.sntk_readToken fuel pBuffer pIn pFilter = Done (0, b', pIn', f') /\
       Shastina.snbuffer_data b' = [c]) /\
  (forall (IFL : Type) (input : ShasmBlock.ShasmInput IFL) fuel pb ps t c ps',
     ShasmBlock.block_ok pb ->
     while_loop fuel ShasmBlock.tokenizer_running (ShasmBlock.token_skip_body fuel)
       (ShasmBlock.mkTokenizer 1 0 pb ps) = Done t ->
     ShasmBlock.t_status t <> 0 ->
     ShasmBlock.shasm_input_get (ShasmBlock.t_ps t) = (c, ps') ->
     c <> ShasmBlock.SHASM_INPUT_EOF -> c <> ShasmBlock.SHASM_INPUT_IOERR ->
     In c [0x28; 0x29; 0x5b; 0x5d; 0x2c; 0x25; 0x3b; 0x22; 0x27; 0x7b] ->
     exists pb',
       ShasmBlock.shasm_block_token fuel pb ps = Done (1, pb', ps') /\
       ShasmBlock.shasm_block_data pb' = [c]) /\
  (forall fuel pBuffer f e ws tl c0,
     Shastina.skipped_text ws -> Shastina.filter_ready f (ws ++ [c0]) ->
     Shastina.buffer_str pBuffer -> 1 < Shastina.maxcap pBuffer ->
     (length ws < fuel)%nat ->
     In (byte_val c0) [0x28; 0x29; 0x5b; 0x5d; 0x2c; 0x25; 0x3b; 0x22; 0x60; 0x7b; 0x7d] ->
     exists b' e' f',
       Shastina.sntk_readToken fuel pBuffer (Shastina.bytes_file (ws ++ c0 :: tl) e) f =
         Done (0, b', Shastina.mkFILE (map Shastina.RawByte tl) e', f') /\
       Shastina.snbuffer_data b' = [byte_val c0]) /\
  (forall fuel pb ws tl c,
     ShasmBlock.block_ok pb -> ShasmBlock.token_skipped ws -> (length ws < fuel)%nat ->
     In c [0x28; 0x29; 0x5b; 0x5d; 0x2c; 0x25; 0x3b; 0x22; 0x27; 0x7b] ->
     exists pb' ln,
       ShasmBlock.shasm_block_token fuel pb (ShasmBlock.filtered_start (ws ++ c :: tl)) =
         Done (1, pb', ShasmBlock.mkFiltered tl c false ln) /\
       ShasmBlock.shasm_block_data pb' = [c]).
Proof.
  split; [|split; [|split; [|split; [|split]]]].
  - intros fuel pBuffer pIn pFilter b' pIn' f' c Hwf Hrun Hhead Hin.
    apply snchar_isatomic_chars in Hin.
    exact (ShastinaFacts.sntk_readToken_atomic fuel pBuffer pIn pFilter b' pIn' f' c
             Hwf Hrun Hhead Hin).
  - intros IFL input fuel pb ps st' pb' ps' c Hok Hrun Hnz Hhead Hin.
    apply token_atomic_chars in Hin.
    destruct (shasm_block_token_first fuel pb ps st' pb' ps' Hok Hrun Hnz)
      as (t & c0 & ps1 & Hskip & Hget & (tl & Hh) & Hat).
    destruct (block_holds_data _ _ Hh) as [Hd _].
    rewrite Hd in Hhead. cbn in Hhead. injection Hhead as ->.
    destruct (Hat Hin) as [Hh1 ->].
    split; [exact (proj1 (block_holds_data _ _ Hh1))|]. eauto.
  - intros fuel pBuffer pIn pFilter f1 in1 c f' pIn' Hstr Hmax Hskip Hread Hin.
    apply snchar_isatomic_chars in Hin.
    exact (ShastinaFacts.sntk_readToken_atomic_done fuel pBuffer pIn pFilter f1 in1 c f' pIn'
             Hstr Hmax Hskip Hread Hin).
  - intros IFL input fuel pb ps t c ps' Hok Hskip Hnz Hget Heof Hio Hin.
    apply token_atomic_chars in Hin.
    exact (shasm_block_token_atomic_done fuel pb ps t c ps' Hok Hskip Hnz Hget Heof Hio Hin).
  - intros fuel pBuffer f e ws tl c0 Hws Hrdy Hstr Hmax Hfuel Hin.
    apply snchar_isatomic_chars in Hin.
    exact (ShastinaFacts.sntk_readToken_atomic_text fuel pBuffer f e ws tl c0
             Hws Hrdy Hstr Hmax Hfuel Hin).
  - intros fuel pb ws tl c Hok Hws Hfuel Hin.
    apply token_atomic_chars in Hin.
    exact (shasm_block_token_atomic_text fuel pb ws tl c Hok Hws Hfuel Hin).
Qed.

Lemma token_atomic_single_witness :
  let buf := Shastina.mkSNBUFFER [] 0 0 4 1024 in
  let pIn := Shastina.bytes_file [x20; x28; x61; x20] false in
  let ps := ShasmBlock.filtered_start [0x20; 0x27; 0x61; 0x20] in
  (exists b e' f',
     Shastina.sntk_readToken 8 buf pIn Shastina.snfilter_reset =
       Done (0, b, Shastina.mkFILE (map Shastina.RawByte [x61; x20]) e', f') /\
     Shastina.snbuffer_data b = [0x28]) /\
  (exists pb' ln,
     ShasmBlock.shasm_block_token 8 ShasmBlock.shasm_block_alloc ps =
       Done (1, pb', ShasmBlock.mkFiltered [0x61; 0x20] 0x27 false ln) /\
     ShasmBlock.shasm_block_data pb' = [0x27]) /\
  (exists b pIn' f',
     Shastina.sntk_readToken 8 buf pIn Shastina.snfilter_reset = Done (0, b, pIn', f') /\
     Shastina.snbuffer_data b = [0x28] /\
     exists f1 in1,
       Shastina.sntk_skip 8 pIn Shastina.snfilter_reset = Done (f1, in1) /\
       Shastina.snfilter_read f1 in1 = (0x28, f', pIn')) /\
  (exists pb' ps',
     ShasmBlock.shasm_block_token 8 ShasmBlock.shasm_block_alloc ps = Done (1, pb', ps') /\
     ShasmBlock.shasm_block_data pb' = [0x27] /\
     exists t,
       while_loop 8 ShasmBlock.tokenizer_running (ShasmBlock.token_skip_body 8)
         (ShasmBlock.mkTokenizer 1 0 ShasmBlock.shasm_block_alloc ps) = Done t /\
       ShasmBlock.shasm_input_get (ShasmBlock.t_ps t) = (0x27, ps')) /\
  (exists f1 in1 f' pIn',
     Shastina.sntk_skip 8 pIn Shastina.snfilter_reset = Done (f1, in1) /\
     Shastina.snfilter_read f1 in1 = (0x28, f', pIn') /\
     exists b',
       Shastina.sntk_readToken 8 buf pIn Shastina.snfilter_reset = Done (0, b', pIn', f') /\
       Shastina.snbuffer_data b' = [0x28]) /\
  (exists t ps',
     while_loop 8 ShasmBlock.tokenizer_running (ShasmBlock.token_skip_body 8)
       (ShasmBlock.mkTokenizer 1 0 ShasmBlock.shasm_block_alloc ps) = Done t /\
     ShasmBlock.shasm_input_get (ShasmBlock.t_ps t) = (0x27, ps') /\
     exists pb',
       ShasmBlock.shasm_block_token 8 ShasmBlock.shasm_block_alloc ps = Done (1, pb', ps') /\
       ShasmBlock.shasm_block_data pb' = [0x27]).
Proof.
  intros buf pIn ps.
  destruct token_atomic_single as (Hread1 & Hread2 & Hdone1 & Hdone2 & Htext1 & Htext2).
  assert (Hstr : Shastina.buffer_str buf)
    by (apply (ShastinaFacts.snbuffer_init_str 4 1024); reflexivity).
  assert (Hok : ShasmBlock.block_ok ShasmBlock.shasm_block_alloc)
    by apply shasm_block_alloc_holds.
  split; [|split; [|split; [|split; [|split]]]].
  - apply (Htext1 8%nat buf Shastina.snfilter_reset false [x20] [x61; x20] x28).
    + apply Shastina.skipped_blanks. repeat constructor.
    + split; [split; [reflexivity|left; reflexivity]|]. split; [cbn; lia|].
      intros _. discriminate.
    + exact Hstr.
    + cbn. lia.
    + cbn. lia.
    + cbn. auto.
  - apply (Htext2 8%nat ShasmBlock.shasm_block_alloc [0x20] [0x61; 0x20] 0x27).
    + exact Hok.
    + apply ShasmBlock.token_skipped_blanks. repeat constructor.
    + cbn. lia.
    + cbn. auto 10.
  - eexists _, _, _. split; [vm_compute; reflexivity|].
    refine (Hread1 8%nat buf pIn Shastina.snfilter_reset _ _ _ 0x28 _ _ _ _).
    + apply Hstr.
    + vm_compute. reflexivity.
    + vm_compute. reflexivity.
    + cbn. auto.
  - eexists _, _. split; [vm_compute; reflexivity|].
    refine (Hread2 _ _ 8%nat ShasmBlock.shasm_block_alloc ps 1 _ _ 0x27 _ _ _ _ _).
    + exact Hok.
    + vm_compute. reflexivity.
    + discriminate.
    + vm_compute. reflexivity.
    + cbn. auto 10.
  - eexists _, _, _, _. split; [vm_compute; reflexivity|].
    split; [vm_compute; reflexivity|].
    eapply (Hdone1 8%nat buf pIn Shastina.snfilter_reset).
    + exact Hstr.
    + cbn. lia.
    + vm_compute. reflexivity.
    + vm_compute. reflexivity.
    + cbn. auto.
  - eexists _, _. split; [vm_compute; reflexivity|].
    split; [vm_compute; reflexivity|].
    eapply (Hdone2 _ _ 8%nat ShasmBlock.shasm_block_alloc ps).
    + exact Hok.
    + vm_compute. reflexivity.
    + discriminate.
    + vm_compute. reflexivity.
    + discriminate.
    + discriminate.
    + cbn. auto 10.
Defined.

End ScannerFacts.

(** * Properties of test_block.c *)
Module TestBlockFacts.
Import TestBlock.

(** The check of [decmap_branch] against [decmap_step], on every node
    and every byte. *)
Lemma decmap_branch_checked :
  forallb (fun k => forallb (decmap_branch_check k) (map Z.of_nat (seq 0 256)))
    decmap_nodes = true.
Proof. vm_compute. reflexivity. Qed.

Lemma decmap_nodes_checked : forallb decmap_node_check decmap_nodes = true.
Proof. vm_compute. reflexivity. Qed.

Lemma decmap_node_listed (k : list Z) : decmap_node k = true -> In k decmap_nodes.
Proof.
  unfold decmap_node. intros Hk. apply existsb_exists in Hk as (full & Hin & Hpre).
  apply bool_decide_eq_true_1 in Hpre. destruct Hpre as [tl ->].
  destruct k as [|c k]; [left; reflexivity|]. right.
  unfold decmap_keys in Hin. apply in_app_iff. apply in_app_iff in Hin as [Hin|Hin].
  - left. unfold decmap_single in *.
    assert (forall x, In x ([10] :: map (fun c : Z => [c]) (map Z.of_nat (seq 32 95))) ->
              exists d, x = [d]) as Hone.
    { intros x [<-|Hx]; [eauto|]. apply in_map_iff in Hx as (d & <- & _). eauto. }
    destruct (Hone _ Hin) as (d & Hd). injection Hd as -> Hk.
    apply app_eq_nil in Hk as [-> ->]. exact Hin.
  - right. apply in_concat. exists (map (fun n => take n ((c :: k) ++ tl))
                                     (seq 1 (length ((c :: k) ++ tl)))).
    split; [apply in_map_iff; eauto|].
    apply in_map_iff. exists (length (c :: k)). split.
    + rewrite take_app_length. reflexivity.
    + apply in_seq. rewrite length_app. cbn [length]. lia.
Qed.

Lemma decmap_node_facts (k : list Z) :
  decmap_node k = true ->
  (length k <= 31)%nat /\ Forall (fun c => 1 <= c <= 255) k /\
  c_string (key (decmap_at k)) = k /\ length (key (decmap_at k)) = 32%nat.
Proof.
  intros Hk. pose proof decmap_nodes_checked as Hall.
  rewrite forallb_forall in Hall. specialize (Hall k (decmap_node_listed k Hk)).
  unfold decmap_node_check in Hall.
  repeat match type of Hall with
  | (_ && _) = true => apply andb_true_iff in Hall as [Hall ?]
  end.
  split; [apply Nat.leb_le; assumption|]. split.
  - apply List.Forall_forall. intros c Hc.
    match goal with
    | Hf : forallb _ k = true |- _ => rewrite forallb_forall in Hf; specialize (Hf c Hc)
    end. lia.
  - split; [eapply bool_decide_eq_true_1; eassumption|apply Nat.eqb_eq; assumption].
Qed.

Lemma decmap_node_prefix (k tl : list Z) : decmap_node (k ++ tl) = true -> decmap_node k = true.
Proof.
  unfold decmap_node. intros Hk. apply existsb_exists in Hk as (full & Hin & Hpre).
  apply bool_decide_eq_true_1 in Hpre. apply existsb_exists. exists full.
  split; [exact Hin|]. apply bool_decide_eq_true_2.
  etransitivity; [|exact Hpre]. apply prefix_app_r. reflexivity.
Qed.

(** [decmap_branch] on a node does what [decmap_step] says. *)
Lemma decmap_branch_step (k : list Z) (c : Z) :
  decmap_node k = true -> 0 <= c <= 255 ->
  decmap_branch (decmap_at k) c = Done (decmap_step k c).
Proof.
  intros Hk Hc. pose proof decmap_branch_checked as Hall.
  rewrite forallb_forall in Hall. specialize (Hall k (decmap_node_listed k Hk)).
  rewrite forallb_forall in Hall. specialize (Hall c).
  assert (In c (map Z.of_nat (seq 0 256))) as Hin.
  { apply in_map_iff. exists (Z.to_nat c). split; [lia|]. apply in_seq. lia. }
  specialize (Hall Hin). unfold decmap_branch_check in Hall.
  destruct (decmap_branch (decmap_at k) c) as [[r pv]| |]; try discriminate.
  apply andb_true_iff in Hall as [Hr Hkey].
  apply Z.eqb_eq in Hr. apply bool_decide_eq_true_1 in Hkey.
  destruct (decmap_step k c) as [r' [key']]. destruct pv as [key0].
  cbn [fst snd key] in *. subst. reflexivity.
Qed.

(** X29: [decmap_branch] walks the keys that the header of test_block.c
    lists.  On the node with key [k] and a byte [c] it follows the
    branch, returning 1 and standing on [k] with [c] appended, exactly
    when that longer key starts one of the listed keys; otherwise it
    returns 0 and stays.  The states reached from [decmap_reset] are the
    nodes: none of them makes [decmap_branch] abort, and the key of each
    fits the array of 32 bytes with its terminating null. *)
Theorem decmap_branch_trie :
  (forall k c, decmap_node k = true -> 0 <= c <= 255 ->
     decmap_branch (decmap_at k) c = Done (decmap_step k c)) /\
  (forall pv, decmap_reachable pv <-> exists k, decmap_node k = true /\ pv = decmap_at k) /\
  (forall k, decmap_node k = true ->
     (length k <= 31)%nat /\ c_string (key (decmap_at k)) = k /\
     length (key (decmap_at k)) = 32%nat).
Proof.
  split; [exact decmap_branch_step|]. split.
  - intros pv. split.
    + induction 1 as [|pv c r pv' _ (k & Hk & ->) Hrun].
      * exists []. split; reflexivity.
      * assert (0 <= c <= 255) as Hc.
        { unfold decmap_branch in Hrun.
          destruct (Z.ltb_spec c 0); [discriminate|]. rewrite Z.gtb_ltb in Hrun.
          destruct (Z.ltb_spec 255 c); [discriminate|]. lia. }
        rewrite (decmap_branch_step k c Hk Hc) in Hrun. unfold decmap_step in Hrun.
        destruct (decmap_node (k ++ [c])) eqn:Hkc; injection Hrun as <- <-; eauto.
    + intros (k & Hk & ->). induction k as [|c k IH] using rev_ind.
      * apply reach_reset.
      * destruct (decmap_node_facts _ Hk) as (_ & Hall & _).
        apply Forall_app in Hall as [_ Hc]. inversion Hc as [|? ? Hc' _]; subst.
        apply (reach_branch (decmap_at k) c 1); [apply IH, (decmap_node_prefix k [c] Hk)|].
        rewrite (decmap_branch_step k c (decmap_node_prefix k [c] Hk)) by lia.
        unfold decmap_step. rewrite Hk. reflexivity.
  - intros k Hk. destruct (decmap_node_facts k Hk) as (? & _ & ? & ?). auto.
Qed.

Lemma strlen_literal (s : list Z) :
  Forall (fun x => x <> 0) s -> c_string (s ++ [0]) = s.
Proof.
  induction 1 as [|x s Hx _ IH]; [reflexivity|].
  cbn [app c_string]. destruct (Z.eqb_spec x 0); [contradiction|]. rewrite IH. reflexivity.
Qed.

(** X30: [longkey_branch] on a key without null characters and a length
    that is that of a prefix [k] of the key: it returns 1 exactly when
    [k] followed by the byte is a prefix of the key too, and 0 otherwise,
    in particular at the end of the key. *)
Theorem longkey_branch_prefix (s k : list Z) (c : Z) :
  Forall (fun x => x <> 0) s -> k `prefix_of` s -> 0 <= c <= 255 ->
  longkey_branch (s ++ [0]) (Z.of_nat (length k)) c =
    Done (if bool_decide ((k ++ [c]) `prefix_of` s) then 1 else 0).
Proof.
  intros Hs [tl ->] Hc. unfold longkey_branch, strlen.
  rewrite (strlen_literal _ Hs), length_app.
  destruct (Z.ltb_spec (Z.of_nat (length k)) 0); [lia|].
  destruct (Z.ltb_spec c 0); [lia|]. rewrite Z.gtb_ltb.
  destruct (Z.ltb_spec 255 c); [lia|]. cbn [orb].
  destruct (Z.ltb_spec (Z.of_nat (length k + length tl)) (Z.of_nat (length k))); [lia|].
  destruct tl as [|d tl].
  - cbn [length]. destruct (Z.ltb_spec (Z.of_nat (length k)) (Z.of_nat (length k + 0))); [lia|].
    rewrite bool_decide_eq_false_2; [reflexivity|].
    intros [tl' Heq]. apply (f_equal length) in Heq.
    rewrite !length_app in Heq. cbn [length] in Heq. lia.
  - cbn [length].
    destruct (Z.ltb_spec (Z.of_nat (length k)) (Z.of_nat (length k + S (length tl)))); [|lia].
    unfold load. rewrite Nat2Z.id, <- !app_assoc, app_nth2, Nat.sub_diag by lia.
    cbn [app nth]. destruct (Z.eqb_spec d c) as [->|Hd].
    + rewrite bool_decide_eq_true_2; [reflexivity|].
      exists tl. rewrite <- app_assoc. reflexivity.
    + rewrite bool_decide_eq_false_2; [reflexivity|].
      intros [tl' Heq]. rewrite <- app_assoc in Heq. apply app_inv_head in Heq.
      cbn [app] in Heq. congruence.
Qed.

Lemma longkey_branch_prefix_witness :
  longkey_branch (c_string m_pCommonKey ++ [0]) (Z.of_nat (length [0x2a; 0x68])) 0x65 =
    Done (if bool_decide (([0x2a; 0x68] ++ [0x65]) `prefix_of` c_string m_pCommonKey)
          then 1 else 0).
Proof.
  apply (longkey_branch_prefix (c_string m_pCommonKey) [0x2a; 0x68] 0x65).
  - vm_compute. repeat constructor; discriminate.
  - exists [0x65; 0x6c; 0x6c; 0x6f]. reflexivity.
  - lia.
Defined.

End TestBlockFacts.
